(** * OpenCL Windows examples: the host programs and kernels, and what they compute

    A shallow embedding of the demonstration programs of the repository
    (examples 000 to 008) and of their OpenCL kernels.

    Conventions.
    - [int] and [cl_int] are 32-bit two's complement integers, [cl_uint] and
      [unsigned int] are 32-bit unsigned integers.  They are carried by [Z];
      every arithmetic operation of the source is followed by the wrap-around
      of its C type ([to_int], [to_uint]).
    - [float] is IEEE-754 binary32, carried by [spec_float] with the
      operations of [SpecFloat] at precision 24 and maximal exponent 128;
      [double] is binary64, compared with [SFltb].
    - A [std::vector], a [malloc]ed array and the contents of a [cl_mem]
      buffer are lists; [load] and [store] index them by a [Z].
    - What the OpenCL runtime answers (statuses, counts, time stamps) is not
      decided by the repository: it is an environment the programs are run
      against. *)

From Stdlib Require Import ZArith Lia Bool String.
From Stdlib Require Import SpecFloat Sorted.
From stdpp Require Import base option list list_numbers numbers functions gmap sorting.

Local Open Scope Z_scope.

(* ===================================================================== *)
(** * Definitions *)
(* ===================================================================== *)

(** ** Machine integers *)

Module CInt.

Definition INT_MAX : Z := 2147483647.
Definition UINT_MAX : Z := 4294967295.

(** Conversion to [unsigned int] / [cl_uint]: reduction modulo 2^32. *)
Definition to_uint (z : Z) : Z := z mod 4294967296.

(** Conversion to [int] / [cl_int]: two's complement wrap-around. *)
Definition to_int (z : Z) : Z := (z + 2147483648) mod 4294967296 - 2147483648.

(** Conversion to [cl_ulong] / 64-bit [size_t]. *)
Definition to_ulong (z : Z) : Z := z mod 18446744073709551616.

Definition is_int (z : Z) : Prop := -2147483648 <= z <= INT_MAX.
Definition is_uint (z : Z) : Prop := 0 <= z <= UINT_MAX.

(** [int] arithmetic. *)
Definition int_add (a b : Z) : Z := to_int (a + b).
Definition int_sub (a b : Z) : Z := to_int (a - b).
Definition int_mul (a b : Z) : Z := to_int (a * b).
(** [a / b] on [int]s truncates towards zero. *)
Definition int_div (a b : Z) : Z := to_int (Z.quot a b).

(** Arithmetic of an [int] with an [unsigned int]: both operands are
    converted to [unsigned int] and the result is unsigned. *)
Definition uint_add (a b : Z) : Z := to_uint (to_uint a + to_uint b).
Definition uint_sub (a b : Z) : Z := to_uint (to_uint a - to_uint b).
Definition uint_mul (a b : Z) : Z := to_uint (to_uint a * to_uint b).

#[global] Arguments to_uint : simpl never.
#[global] Arguments to_int : simpl never.
#[global] Arguments to_ulong : simpl never.
#[global] Arguments int_add : simpl never.
#[global] Arguments int_sub : simpl never.
#[global] Arguments int_mul : simpl never.
#[global] Arguments int_div : simpl never.
#[global] Arguments uint_add : simpl never.
#[global] Arguments uint_sub : simpl never.
#[global] Arguments uint_mul : simpl never.

End CInt.

(** ** Single and double precision numbers *)

Module CFloat.

(** [float]: IEEE-754 binary32. *)
Definition float : Type := spec_float.
Definition prec32 : Z := 24.
Definition emax32 : Z := 128.

(** The literal [0.0f]. *)
Definition zero : float := S754_zero false.
Definition fadd (x y : float) : float := SFadd prec32 emax32 x y.
Definition fmul (x y : float) : float := SFmul prec32 emax32 x y.

(** The literal [-0.0f], and the finite numbers whose exponent is not below
    the one of the subnormal numbers. *)
Definition neg_zero : float := S754_zero true.
Definition above_emin (x : float) : Prop :=
  match x with
  | S754_finite _ _ e => emin prec32 emax32 <= e
  | _ => True
  end.

(** [double]: IEEE-754 binary64; the programs only compare them. *)
Definition double : Type := spec_float.
Definition dlt (x y : double) : bool := SFltb x y.

End CFloat.

(** ** Arrays and buffers *)

Module Mem.

(** [a[i]]: the element at index [i]; reading outside the array is undefined
    in the source and yields [None] here. *)
Definition load {A} (a : list A) (i : Z) : option A :=
  if i <? 0 then None else a !! Z.to_nat i.

(** [a[i] = v]; writing outside the array is undefined in the source and
    yields [None] here. *)
Definition store {A} (a : list A) (i : Z) (v : A) : option (list A) :=
  if (0 <=? i) && (i <? Z.of_nat (length a)) then Some (<[Z.to_nat i := v]> a)
  else None.

(** Copy of [n] elements from [src] at [src_off] into [dst] at [dst_off]
    ([memcpy], and the transfers between host arrays and buffers); [None]
    when a range leaves its array. *)
Definition copy {A} (src : list A) (src_off : Z) (dst : list A) (dst_off n : Z)
  : option (list A) :=
  if (0 <=? n) && (0 <=? src_off) && (src_off + n <=? Z.of_nat (length src))
     && (0 <=? dst_off) && (dst_off + n <=? Z.of_nat (length dst))
  then Some (take (Z.to_nat dst_off) dst
             ++ take (Z.to_nat n) (drop (Z.to_nat src_off) src)
             ++ drop (Z.to_nat (dst_off + n)) dst)
  else None.

(** The work-items [ids] of a launch (for one dimension
    [0 .. global_size - 1]), run one after the other on the memory [m]. *)
Fixpoint for_items {I S} (item : I -> S -> option S) (ids : list I) (m : S)
  : option S :=
  match ids with
  | [] => Some m
  | g :: ids' => match item g m with
                 | Some m' => for_items item ids' m'
                 | None => None
                 end
  end.

End Mem.

(** ** Running a host program: outcome, state and trace *)

Module Run.

Inductive fault := DivisionByZero | OutOfBounds.

(** How a program (or a part of it) ends: it goes on with a value, it calls
    [exit(code)] (or returns [code] from [main]), or its behaviour is
    undefined. *)
Inductive result (A : Type) :=
| Ok (a : A)
| Exit (code : Z)
| Fault (f : fault).
Arguments Ok {A} a.
Arguments Exit {A} code.
Arguments Fault {A} f.

(** A computation over a state [S] that leaves a trace of events [E], oldest
    first. *)
Definition M (E S A : Type) : Type := S -> result A * S * list E.

Definition ret {E S A} (a : A) : M E S A := fun s => (Ok a, s, []).

Definition bind {E S A B} (m : M E S A) (k : A -> M E S B) : M E S B :=
  fun s =>
    match m s with
    | (Ok a, s1, t1) => let '(r, s2, t2) := k a s1 in (r, s2, t1 ++ t2)
    | (Exit c, s1, t1) => (Exit c, s1, t1)
    | (Fault f, s1, t1) => (Fault f, s1, t1)
    end.

#[global] Instance M_ret {E S} : MRet (M E S) := @ret E S.
#[global] Instance M_bind {E S} : MBind (M E S) := fun A B k m => bind m k.

Definition emit {E S} (e : E) : M E S unit := fun s => (Ok tt, s, [e]).
Definition exit {E S A} (code : Z) : M E S A := fun s => (Exit code, s, []).
Definition raise {E S A} (f : fault) : M E S A := fun s => (Fault f, s, []).
Definition get {E S} : M E S S := fun s => (Ok s, s, []).
Definition modify {E S} (f : S -> S) : M E S unit := fun s => (Ok tt, f s, []).

(** A memory access of the source: undefined when out of bounds. *)
Definition defined {E S A} (o : option A) : M E S A :=
  match o with
  | Some a => ret a
  | None => raise OutOfBounds
  end.

(** [for (i = ...; ...; i++) body], the loop variable running over [l] and
    [a] standing for the variables the body updates. *)
Fixpoint for_fold {E S A} (l : list Z) (body : Z -> A -> M E S A) (a : A)
  : M E S A :=
  match l with
  | [] => ret a
  | i :: l' => bind (body i a) (for_fold l' body)
  end.

Definition for_each {E S} (l : list Z) (body : Z -> M E S unit) : M E S unit :=
  for_fold l (fun i _ => body i) tt.

Definition outcome {E S A} (r : result A * S * list E) : result A := r.1.1.
Definition final {E S A} (r : result A * S * list E) : S := r.1.2.
Definition trace {E S A} (r : result A * S * list E) : list E := r.2.

(** *** What is proved about runs *)

Section Judgments.
Context {E St : Type}.

(** From every state that satisfies [P], [m] ends well, in a state and with
    a value that satisfy [Q]. *)
Definition triple {A} (P : St -> Prop) (m : M E St A) (Q : A -> St -> Prop) : Prop :=
  forall s, P s -> exists a s' t, m s = (Ok a, s', t) /\ Q a s'.

(** [m] ends well and leaves the state as it is. *)
Definition silent {A} (m : M E St A) : Prop :=
  forall s, exists a t, m s = (Ok a, s, t).

(** [m] follows the schedule [L] of the events that [see] shows: a run that
    ends well shows exactly the events of [L] (and its value satisfies [Q]);
    a run that stops shows a prefix of [L], followed at most by diagnostic
    events. *)
Definition follows {X} (see : E -> option X) (diag : X -> Prop) {A}
    (m : M E St A) (L : list X) (Q : A -> Prop) : Prop :=
  forall s,
    match m s with
    | (Ok a, _, t) => omap see t = L /\ Q a
    | (_, _, t) =>
        exists p d, omap see t = p ++ d /\ p `prefix_of` L /\ Forall diag d
    end.

End Judgments.

(** The trace ends with a diagnostic. *)
Definition reported {E} (diag : E -> Prop) (t : list E) : Prop :=
  exists t' d, t = t' ++ [d] /\ diag d.

Section Guards.
Context {E St : Type} (bad diag : E -> Prop).

(** [m] is guarded: a run that exits does so with status 1, right after a
    diagnostic; any other run has seen no bad event. *)
Definition guarded {A} (m : M E St A) : Prop :=
  forall s,
    match m s with
    | (Exit c, _, t) => c = 1 /\ reported diag t
    | (_, _, t) => Forall (fun ev => ~ bad ev) t
    end.

(** [m] returns a status that is still to be checked: when the status is
    [CL_SUCCESS], no bad event was seen. *)
Definition pending (m : M E St Z) : Prop :=
  forall s,
    match m s with
    | (Ok err, _, t) => err = 0 -> Forall (fun ev => ~ bad ev) t
    | (Exit c, _, t) => c = 1 /\ reported diag t
    | (Fault _, _, t) => Forall (fun ev => ~ bad ev) t
    end.

End Guards.

(** [m] always exits with status 1, after a diagnostic. *)
Definition exits {E St} (diag : E -> Prop) {A} (m : M E St A) : Prop :=
  forall s, exists s' t, m s = (Exit 1, s', t) /\ reported diag t.

End Run.

(** ** Statuses of the OpenCL runtime *)

Module CL.

Definition cl_int : Type := Z.
Definition CL_SUCCESS : cl_int := 0.
Definition CL_DEVICE_NOT_FOUND : cl_int := -1.
Definition CL_OUT_OF_HOST_MEMORY : cl_int := -6.
Definition CL_BUILD_PROGRAM_FAILURE : cl_int := -11.

End CL.

(** ** Example 004: asynchronous multi-device execution, the work split *)

Module Ex004.
Import CInt.

(** [#define ARRAY_SIZE (1024 * 1024 * 16)] *)
Definition ARRAY_SIZE : Z := 1024 * 1024 * 16.

(** [int chunk_size = ARRAY_SIZE / num_devices;] with [num_devices] a
    [cl_uint]: an unsigned division, undefined for [num_devices = 0]
    ([None]), whose result is converted to [int].  The program text has the
    constant [ARRAY_SIZE]; the definitions take the array size as an argument
    so that they can also be run on small arrays. *)
Definition chunk_size_of (array_size num_devices : Z) : option Z :=
  if num_devices =? 0 then None
  else Some (to_int (to_uint array_size / num_devices)).

(** [int offset = i * chunk_size;] with [i] a [cl_uint]. *)
Definition offset_of (chunk_size i : Z) : Z :=
  to_int (uint_mul i chunk_size).

(** [int size = (i == num_devices - 1) ? (ARRAY_SIZE - offset) : chunk_size;] *)
Definition size_of (array_size num_devices chunk_size i : Z) : Z :=
  if i =? uint_sub num_devices 1
  then int_sub array_size (offset_of chunk_size i)
  else chunk_size.

(** The chunk of device [i]: its offset and its size. *)
Definition chunk (array_size num_devices chunk_size i : Z) : Z * Z :=
  (offset_of chunk_size i, size_of array_size num_devices chunk_size i).

(** The chunks of all the devices, in device order. *)
Definition chunks (array_size num_devices chunk_size : Z) : list (Z * Z) :=
  chunk array_size num_devices chunk_size <$> seqZ 0 num_devices.

(** Index [k] lies in the range of the chunk [(offset, size)]. *)
Definition in_chunk (c : Z * Z) (k : Z) : Prop := c.1 <= k < c.1 + c.2.

Definition sum_list (l : list Z) : Z := foldr Z.add 0 l.

(** *** The kernel ([vector_add.cl] of example 004)

    [[
    __kernel void vector_add(__global const int *A, __global const int *B,
                             __global int *C, const int offset) {
        int i = get_global_id(0);
        C[i] = A[i] + B[i];
    }
    ]]
    One work-item, with global id [global_id], on the buffers [A B C]. *)
Definition vector_add (A B C : list Z) (offset : Z) (global_id : Z)
  : option (list Z) :=
  let i := to_int global_id in
  a ← Mem.load A i;
  b ← Mem.load B i;
  Mem.store C i (int_add a b).

(** *** The OpenCL calls of [main], the text it prints, its environment *)

Inductive buffer := BufA | BufB | BufC.

Inductive profiling_info := CL_PROFILING_COMMAND_START | CL_PROFILING_COMMAND_END.

(** The OpenCL calls [main] makes; [p] is a platform index, [i] the index of
    a device in [devices] / [dev_contexts]. *)
Inductive call :=
| clGetPlatformIDs_count
| clGetPlatformIDs
| clGetDeviceIDs_count (p : Z)
| clGetDeviceIDs (p : Z)
| clGetDeviceInfo (i : Z)
| clCreateContext (i : Z)
| clCreateCommandQueueWithProperties (i : Z)
| clCreateProgramWithSource (i : Z)
| clBuildProgram (i : Z)
| clGetProgramBuildInfo (i : Z)
| clCreateKernel (i : Z)
| clCreateBuffer (i : Z) (b : buffer) (size : Z)
| clEnqueueWriteBuffer (i : Z) (b : buffer) (offset size : Z)
| clSetKernelArg (i : Z) (arg : Z)
| clEnqueueNDRangeKernel (i : Z) (global_size : Z)
| clWaitForEvents (i : Z)
| clGetEventProfilingInfo (i : Z) (param : profiling_info)
| clEnqueueReadBuffer (i : Z) (offset size : Z)
| clReleaseMemObject (i : Z) (b : buffer)
| clReleaseKernel (i : Z)
| clReleaseProgram (i : Z)
| clReleaseCommandQueue (i : Z)
| clReleaseContext (i : Z)
| clReleaseEvent (i : Z).

(** What [main] prints, one constructor per [printf] / [fprintf]; numbers
    are kept as numbers ([duration] and [total] in nanoseconds, before the
    division by [1000000.0]). *)
Inductive message :=
| MsgError (err : Z) (msg : string)
| MsgKernelFile (filename : string)
| MsgBuildError (i : Z) (build_log : string)
| MsgFoundPlatforms (n : Z)
| MsgFoundDevices (n : Z)
| MsgBanner (array_size chunk_size : Z)
| MsgSettingUp (i : Z) (name : string)
| MsgLaunching
| MsgTimeline
| MsgDevice (i : Z) (name : string) (start stop duration : Z)
| MsgTotal (total : Z)
| MsgConcurrency
| MsgOverlap (i j : Z) (overlap : bool)
| MsgVerification
| MsgMismatch (i expected got : Z)
| MsgSum (a b c : Z)
| MsgPassed
| MsgFailed
| MsgPressKey.

Inductive event :=
| Call (c : call)
| Stdout (m : message)
| Stderr (m : message)
| Getchar.

(** What the machine answers: the status of every OpenCL call, the platform
    and device counts, whether [vector_add.cl] can be opened, names, build
    logs, time stamps, and the contents of memory that was not written yet. *)
Record env := {
  status : call -> Z;
  num_platforms : Z;
  num_platform_devices : Z -> Z;
  kernel_file_opens : bool;
  device_name : Z -> string;
  build_log : Z -> string;
  event_time : Z -> profiling_info -> Z;
  uninitialised : Z -> Z
}.

(** [DeviceContext]: of the handles of the source only what the claims are
    about is kept, the contents of the three buffers and the fourth kernel
    argument. *)
Record DeviceContext := {
  a_buf : list Z;
  b_buf : list Z;
  c_buf : list Z;
  arg_offset : Z
}.

(** The state of [main]: [dev_contexts] and the host array [C] (the arrays
    [A] and [B] are not written after their initialisation). *)
Record state := {
  dev_contexts : gmap Z DeviceContext;
  C : list Z
}.

Abbreviation prog := (Run.M event state).

Definition call_cl (e : env) (c : call) : prog Z :=
  Run.emit (Call c);; mret (to_int (status e c)).

Definition printf (m : message) : prog unit := Run.emit (Stdout m).
Definition fprintf_stderr (m : message) : prog unit := Run.emit (Stderr m).

(** [[
    #define CHECK_ERROR(err, msg) \
        if (err != CL_SUCCESS) { \
            fprintf(stderr, "Error %d at %s\n", err, msg); \
            exit(1); \
        }
    ]] *)
Definition CHECK_ERROR (err : Z) (msg : string) : prog unit :=
  if negb (err =? CL.CL_SUCCESS) then
    fprintf_stderr (MsgError err msg);; Run.exit 1
  else mret tt.

(** [read_kernel_source]: [exit(1)] when the file cannot be opened. *)
Definition read_kernel_source (e : env) (filename : string) : prog unit :=
  if negb (kernel_file_opens e) then
    fprintf_stderr (MsgKernelFile filename);; Run.exit 1
  else mret tt.

(** [get_event_time]: the status of [clGetEventProfilingInfo] is not looked at. *)
Definition get_event_time (e : env) (i : Z) (param : profiling_info) : prog Z :=
  call_cl e (clGetEventProfilingInfo i param);;
  mret (to_ulong (event_time e i param)).

Definition no_context : DeviceContext :=
  {| a_buf := []; b_buf := []; c_buf := []; arg_offset := 0 |}.

Definition context_of (s : state) (i : Z) : DeviceContext :=
  default no_context (dev_contexts s !! i).

Definition get_buffer (b : buffer) (d : DeviceContext) : list Z :=
  match b with BufA => a_buf d | BufB => b_buf d | BufC => c_buf d end.

Definition set_buffer (b : buffer) (v : list Z) (d : DeviceContext) : DeviceContext :=
  match b with
  | BufA => {| a_buf := v; b_buf := b_buf d; c_buf := c_buf d; arg_offset := arg_offset d |}
  | BufB => {| a_buf := a_buf d; b_buf := v; c_buf := c_buf d; arg_offset := arg_offset d |}
  | BufC => {| a_buf := a_buf d; b_buf := b_buf d; c_buf := v; arg_offset := arg_offset d |}
  end.

Definition set_arg_offset (v : Z) (d : DeviceContext) : DeviceContext :=
  {| a_buf := a_buf d; b_buf := b_buf d; c_buf := c_buf d; arg_offset := v |}.

Definition update_context (i : Z) (f : DeviceContext -> DeviceContext) (s : state) : state :=
  {| dev_contexts := <[i := f (context_of s i)]> (dev_contexts s); C := C s |}.

Definition set_C (v : list Z) (s : state) : state :=
  {| dev_contexts := dev_contexts s; C := v |}.

(** A buffer of [size] [int]s that was just created: its contents are
    whatever the memory held. *)
Definition fresh (e : env) (size : Z) : list Z := uninitialised e <$> seqZ 0 size.

(** [clCreateBuffer(context, flags, sizeof(int) * size, NULL, &err)] *)
Definition create_buffer (e : env) (i : Z) (b : buffer) (size : Z) : prog Z :=
  err ← call_cl e (clCreateBuffer i b size);
  (if err =? CL.CL_SUCCESS
   then Run.modify (update_context i (set_buffer b (fresh e size)))
   else mret tt);;
  mret err.

(** [clEnqueueWriteBuffer(queue, buf, CL_FALSE, 0, sizeof(int) * size,
    &host[offset], 0, NULL, NULL)]: the queues are in-order, so a command
    takes effect before the commands enqueued after it on the same queue;
    it is run when it is enqueued. *)
Definition enqueue_write (e : env) (i : Z) (b : buffer) (host : list Z)
    (offset size : Z) : prog Z :=
  err ← call_cl e (clEnqueueWriteBuffer i b offset size);
  (if err =? CL.CL_SUCCESS then
     s ← Run.get;
     v ← Run.defined (Mem.copy host offset (get_buffer b (context_of s i)) 0 size);
     Run.modify (update_context i (set_buffer b v))
   else mret tt);;
  mret err.

(** The launch of [vector_add] with [global_size] work-items on the buffers
    of one device. *)
Definition run_kernel (d : DeviceContext) (global_size : Z) : option DeviceContext :=
  c ← Mem.for_items (fun g c => vector_add (a_buf d) (b_buf d) c (arg_offset d) g)
        (seqZ 0 global_size) (c_buf d);
  Some (set_buffer BufC c d).

(** [clEnqueueNDRangeKernel(queue, kernel, 1, NULL, &global_size, NULL, 0,
    NULL, &kernel_event)] *)
Definition enqueue_kernel (e : env) (i : Z) (global_size : Z) : prog Z :=
  err ← call_cl e (clEnqueueNDRangeKernel i global_size);
  (if err =? CL.CL_SUCCESS then
     s ← Run.get;
     d ← Run.defined (run_kernel (context_of s i) global_size);
     Run.modify (update_context i (fun _ => d))
   else mret tt);;
  mret err.

(** [clEnqueueReadBuffer(queue, c_buf, CL_TRUE, 0, sizeof(int) * size,
    &C[offset], 0, NULL, NULL)] *)
Definition enqueue_read (e : env) (i : Z) (offset size : Z) : prog Z :=
  err ← call_cl e (clEnqueueReadBuffer i offset size);
  (if err =? CL.CL_SUCCESS then
     s ← Run.get;
     v ← Run.defined (Mem.copy (c_buf (context_of s i)) 0 (C s) offset size);
     Run.modify (set_C v)
   else mret tt);;
  mret err.

(** *** [main], phase by phase *)

(** Lines 68-78: the devices of all platforms are collected; a platform
    whose device count cannot be read, or is zero, is passed over.  The
    result is [total_devices]. *)
Definition discover_platform (e : env) (p : Z) (total_devices : Z) : prog Z :=
  err ← call_cl e (clGetDeviceIDs_count p);
  let num_platform_devices := to_uint (num_platform_devices e p) in
  if (err =? CL.CL_SUCCESS) && (0 <? num_platform_devices) then
    err ← call_cl e (clGetDeviceIDs p);
    CHECK_ERROR err "clGetDeviceIDs";;
    mret (uint_add total_devices num_platform_devices)
  else mret total_devices.

Definition discover (e : env) (num_platforms : Z) : prog Z :=
  Run.for_fold (seqZ 0 num_platforms) (discover_platform e) 0.

(** Lines 107-173: the set-up of device [i]. *)
Definition setup_device (array_size : Z) (A B : list Z) (e : env)
    (num_devices chunk_size : Z) (i : Z) : prog unit :=
  call_cl e (clGetDeviceInfo i);;
  printf (MsgSettingUp i (device_name e i));;
  err ← call_cl e (clCreateContext i);
  CHECK_ERROR err "clCreateContext";;
  err ← call_cl e (clCreateCommandQueueWithProperties i);
  CHECK_ERROR err "clCreateCommandQueue";;
  err ← call_cl e (clCreateProgramWithSource i);
  CHECK_ERROR err "clCreateProgramWithSource";;
  err ← call_cl e (clBuildProgram i);
  (if negb (err =? CL.CL_SUCCESS) then
     call_cl e (clGetProgramBuildInfo i);;
     fprintf_stderr (MsgBuildError i (build_log e i));;
     Run.exit 1
   else mret tt);;
  err ← call_cl e (clCreateKernel i);
  CHECK_ERROR err "clCreateKernel";;
  let offset := offset_of chunk_size i in
  let size := size_of array_size num_devices chunk_size i in
  err ← create_buffer e i BufA size;
  CHECK_ERROR err "clCreateBuffer A";;
  err ← create_buffer e i BufB size;
  CHECK_ERROR err "clCreateBuffer B";;
  err ← create_buffer e i BufC size;
  CHECK_ERROR err "clCreateBuffer C";;
  err ← enqueue_write e i BufA A offset size;
  CHECK_ERROR err "clEnqueueWriteBuffer A";;
  err ← enqueue_write e i BufB B offset size;
  CHECK_ERROR err "clEnqueueWriteBuffer B";;
  err0 ← call_cl e (clSetKernelArg i 0);
  err1 ← call_cl e (clSetKernelArg i 1);
  err2 ← call_cl e (clSetKernelArg i 2);
  err3 ← call_cl e (clSetKernelArg i 3);
  Run.modify (update_context i (set_arg_offset offset));;
  CHECK_ERROR (Z.lor (Z.lor (Z.lor err0 err1) err2) err3) "clSetKernelArg".

(** Lines 178-186: the launch on device [i]. *)
Definition launch_device (array_size : Z) (e : env) (num_devices chunk_size : Z)
    (i : Z) : prog unit :=
  let size := size_of array_size num_devices chunk_size i in
  let global_size := size in
  err ← enqueue_kernel e i global_size;
  CHECK_ERROR err "clEnqueueNDRangeKernel".

(** Lines 189-191. *)
Definition wait_device (e : env) (i : Z) : prog unit :=
  call_cl e (clWaitForEvents i);; mret tt.

Definition ULLONG_MAX : Z := 18446744073709551615.

(** Lines 198-209: one line of the time line; the pair is
    [(earliest_start, latest_end)]. *)
Definition timeline_device (e : env) (i : Z) (acc : Z * Z) : prog (Z * Z) :=
  start ← get_event_time e i CL_PROFILING_COMMAND_START;
  stop ← get_event_time e i CL_PROFILING_COMMAND_END;
  printf (MsgDevice i (device_name e i) start stop (to_ulong (stop - start)));;
  mret (if start <? acc.1 then start else acc.1,
        if acc.2 <? stop then stop else acc.2).

(** Lines 216-227. *)
Definition overlap_pair (e : env) (i j : Z) : prog unit :=
  start_i ← get_event_time e i CL_PROFILING_COMMAND_START;
  end_i ← get_event_time e i CL_PROFILING_COMMAND_END;
  start_j ← get_event_time e j CL_PROFILING_COMMAND_START;
  end_j ← get_event_time e j CL_PROFILING_COMMAND_END;
  let overlap := negb ((end_i <? start_j) || (end_j <? start_i)) in
  printf (MsgOverlap i j overlap).

Definition concurrency (e : env) (num_devices : Z) : prog unit :=
  Run.for_each (seqZ 0 num_devices) (fun i =>
    Run.for_each (seqZ (uint_add i 1) (num_devices - uint_add i 1))
      (overlap_pair e i)).

(** Lines 230-237: the chunk of device [i] is read back into [C]. *)
Definition read_device (array_size : Z) (e : env) (num_devices chunk_size : Z)
    (i : Z) : prog unit :=
  let offset := offset_of chunk_size i in
  let size := size_of array_size num_devices chunk_size i in
  err ← enqueue_read e i offset size;
  CHECK_ERROR err "clEnqueueReadBuffer".

(** Lines 242-250: one round of the verification loop; [correct] is the
    flag of the source. *)
Definition verify_element (A B : list Z) (i : Z) (correct : bool) : prog bool :=
  s ← Run.get;
  a ← Run.defined (Mem.load A i);
  b ← Run.defined (Mem.load B i);
  c ← Run.defined (Mem.load (C s) i);
  let expected := int_add a b in
  if negb (c =? expected) then
    printf (MsgMismatch i expected c);; mret false
  else
    printf (MsgSum a b c);; mret correct.

(** Lines 240-251. *)
Definition verify (A B : list Z) : prog unit :=
  printf MsgVerification;;
  Run.for_fold (seqZ 0 10) (verify_element A B) true ≫= fun correct : bool =>
  printf (if correct then MsgPassed else MsgFailed).

(** Lines 254-263. *)
Definition release_device (e : env) (i : Z) : prog unit :=
  call_cl e (clReleaseMemObject i BufA);;
  call_cl e (clReleaseMemObject i BufB);;
  call_cl e (clReleaseMemObject i BufC);;
  call_cl e (clReleaseKernel i);;
  call_cl e (clReleaseProgram i);;
  call_cl e (clReleaseCommandQueue i);;
  call_cl e (clReleaseContext i);;
  call_cl e (clReleaseEvent i);;
  mret tt.

(** Lines 97-276: [main] from the work distribution on, for [num_devices]
    devices, the host arrays [A] and [B] being initialised. *)
Definition run_devices (array_size : Z) (A B : list Z) (e : env)
    (num_devices : Z) : prog Z :=
  chunk_size ← match chunk_size_of array_size num_devices with
               | Some c => mret c
               | None => Run.raise Run.DivisionByZero
               end;
  printf (MsgBanner array_size chunk_size);;
  Run.for_each (seqZ 0 num_devices)
    (setup_device array_size A B e num_devices chunk_size);;
  printf MsgLaunching;;
  Run.for_each (seqZ 0 num_devices)
    (launch_device array_size e num_devices chunk_size);;
  Run.for_each (seqZ 0 num_devices) (wait_device e);;
  printf MsgTimeline;;
  times ← Run.for_fold (seqZ 0 num_devices) (timeline_device e) (ULLONG_MAX, 0);
  printf (MsgTotal (to_ulong (times.2 - times.1)));;
  printf MsgConcurrency;;
  concurrency e num_devices;;
  Run.for_each (seqZ 0 num_devices)
    (read_device array_size e num_devices chunk_size);;
  verify A B;;
  Run.for_each (seqZ 0 num_devices) (release_device e);;
  printf MsgPressKey;;
  Run.emit Getchar;;
  mret 0.

(** Lines 50-95: the platforms and devices are enumerated and the kernel
    source is read; then the arrays are set up and the devices are run. *)
Definition main_with (array_size : Z) (A B : list Z) (e : env) : prog Z :=
  err ← call_cl e clGetPlatformIDs_count;
  CHECK_ERROR err "clGetPlatformIDs count";;
  let num_platforms := to_uint (num_platforms e) in
  err ← call_cl e clGetPlatformIDs;
  CHECK_ERROR err "clGetPlatformIDs";;
  printf (MsgFoundPlatforms num_platforms);;
  total_devices ← discover e num_platforms;
  let num_devices := total_devices in
  printf (MsgFoundDevices num_devices);;
  read_kernel_source e "vector_add.cl";;
  run_devices array_size A B e num_devices.

(** Lines 92-95: [A[i] = i; B[i] = ARRAY_SIZE - i;] *)
Definition init_A (array_size : Z) : list Z := seqZ 0 array_size.
Definition init_B (array_size : Z) : list Z :=
  (fun i => int_sub array_size i) <$> seqZ 0 array_size.

(** The state [main] starts in: no device context yet, and the array [C]
    just allocated. *)
Definition initial (array_size : Z) (e : env) : state :=
  {| dev_contexts := ∅; C := fresh e array_size |}.

(** [int main(void)] of example 004. *)
Definition main (e : env) :=
  main_with ARRAY_SIZE (init_A ARRAY_SIZE) (init_B ARRAY_SIZE) e (initial ARRAY_SIZE e).

(** *** Environments to run [main] in *)

(** A machine on which every OpenCL call succeeds, with [np] platforms,
    platform [p] having [nd p] devices. *)
Definition quiet_env (np : Z) (nd : Z -> Z) : env :=
  {| status := fun _ => CL.CL_SUCCESS;
     num_platforms := np;
     num_platform_devices := nd;
     kernel_file_opens := true;
     device_name := fun _ => "device"%string;
     build_log := fun _ => ""%string;
     event_time := fun i param =>
       match param with
       | CL_PROFILING_COMMAND_START => 1000 * i
       | CL_PROFILING_COMMAND_END => 1000 * i + 1500
       end;
     uninitialised := fun _ => 0 |}.

(** Every OpenCL call succeeds. *)
Definition all_succeed (e : env) : Prop :=
  forall c, to_int (status e c) = CL.CL_SUCCESS.

(** The device count that the enumeration arrives at when it is not
    stopped: the counts of the platforms whose count could be read and is
    not zero, added up as [cl_uint]s. *)
Definition devices_found (e : env) : Z :=
  foldl (fun total p =>
           let n := to_uint (num_platform_devices e p) in
           if (to_int (status e (clGetDeviceIDs_count p)) =? CL.CL_SUCCESS) && (0 <? n)
           then uint_add total n else total)
        0 (seqZ 0 (to_uint (num_platforms e))).

(** Element [i] passes the test of the verification loop:
    [C[i] == A[i] + B[i]]. *)
Definition element_ok (A B C : list Z) (i : Z) : Prop :=
  exists a b, Mem.load A i = Some a /\ Mem.load B i = Some b /\
              Mem.load C i = Some (int_add a b).

(** *** The OpenCL calls of a run, in the order of the program text *)

(** The OpenCL calls of a trace. *)
Definition call_of (ev : event) : option call :=
  match ev with Call c => Some c | _ => None end.

Definition calls (t : list event) : list call := omap call_of t.

(** Lines 68-78, for platform [p]. *)
Definition discovery_calls (e : env) (p : Z) : list call :=
  clGetDeviceIDs_count p ::
  (if (to_int (status e (clGetDeviceIDs_count p)) =? CL.CL_SUCCESS)
      && (0 <? to_uint (num_platform_devices e p))
   then [clGetDeviceIDs p] else []).

(** Lines 107-173, for device [i]. *)
Definition setup_calls (array_size num_devices chunk_size i : Z) : list call :=
  let offset := offset_of chunk_size i in
  let size := size_of array_size num_devices chunk_size i in
  [clGetDeviceInfo i; clCreateContext i; clCreateCommandQueueWithProperties i;
   clCreateProgramWithSource i; clBuildProgram i; clCreateKernel i;
   clCreateBuffer i BufA size; clCreateBuffer i BufB size; clCreateBuffer i BufC size;
   clEnqueueWriteBuffer i BufA offset size; clEnqueueWriteBuffer i BufB offset size;
   clSetKernelArg i 0; clSetKernelArg i 1; clSetKernelArg i 2; clSetKernelArg i 3].

Definition launch_calls (array_size num_devices chunk_size i : Z) : list call :=
  [clEnqueueNDRangeKernel i (size_of array_size num_devices chunk_size i)].

Definition wait_calls (i : Z) : list call := [clWaitForEvents i].

Definition time_calls (i : Z) : list call :=
  [clGetEventProfilingInfo i CL_PROFILING_COMMAND_START;
   clGetEventProfilingInfo i CL_PROFILING_COMMAND_END].

Definition overlap_calls (num_devices i : Z) : list call :=
  seqZ (uint_add i 1) (num_devices - uint_add i 1) ≫= fun j =>
    time_calls i ++ time_calls j.

Definition read_calls (array_size num_devices chunk_size i : Z) : list call :=
  [clEnqueueReadBuffer i (offset_of chunk_size i)
     (size_of array_size num_devices chunk_size i)].

Definition release_calls (i : Z) : list call :=
  [clReleaseMemObject i BufA; clReleaseMemObject i BufB; clReleaseMemObject i BufC;
   clReleaseKernel i; clReleaseProgram i; clReleaseCommandQueue i;
   clReleaseContext i; clReleaseEvent i].

(** Lines 97-263, for [num_devices] devices. *)
Definition device_calls (array_size num_devices chunk_size : Z) : list call :=
  (seqZ 0 num_devices ≫= setup_calls array_size num_devices chunk_size) ++
  (seqZ 0 num_devices ≫= launch_calls array_size num_devices chunk_size) ++
  (seqZ 0 num_devices ≫= wait_calls) ++
  (seqZ 0 num_devices ≫= time_calls) ++
  (seqZ 0 num_devices ≫= overlap_calls num_devices) ++
  (seqZ 0 num_devices ≫= read_calls array_size num_devices chunk_size) ++
  (seqZ 0 num_devices ≫= release_calls).

(** All the calls of a run of [main] in which nothing fails. *)
Definition schedule (array_size : Z) (e : env) : list call :=
  [clGetPlatformIDs_count; clGetPlatformIDs] ++
  (seqZ 0 (to_uint (num_platforms e)) ≫= discovery_calls e) ++
  match chunk_size_of array_size (devices_found e) with
  | Some chunk_size => device_calls array_size (devices_found e) chunk_size
  | None => []
  end.

(** The phases of the harness: enumerate the devices (0), build the kernel
    and allocate the buffers (1), launch (2), wait (3), read the times (4),
    read the result back (5), release (6). *)
Definition phase (c : call) : nat :=
  match c with
  | clGetPlatformIDs_count | clGetPlatformIDs
  | clGetDeviceIDs_count _ | clGetDeviceIDs _ => 0
  | clGetDeviceInfo _ | clCreateContext _ | clCreateCommandQueueWithProperties _
  | clCreateProgramWithSource _ | clBuildProgram _ | clGetProgramBuildInfo _
  | clCreateKernel _ | clCreateBuffer _ _ _ | clEnqueueWriteBuffer _ _ _ _
  | clSetKernelArg _ _ => 1
  | clEnqueueNDRangeKernel _ _ => 2
  | clWaitForEvents _ => 3
  | clGetEventProfilingInfo _ _ => 4
  | clEnqueueReadBuffer _ _ _ => 5
  | clReleaseMemObject _ _ | clReleaseKernel _ | clReleaseProgram _
  | clReleaseCommandQueue _ | clReleaseContext _ | clReleaseEvent _ => 6
  end.

(** The query of the build log, made only when a build failed. *)
Definition diagnostic (c : call) : Prop := exists i, c = clGetProgramBuildInfo i.

(** The device whose object a call releases. *)
Definition released_device (c : call) : option Z :=
  match c with
  | clReleaseMemObject i _ | clReleaseKernel i | clReleaseProgram i
  | clReleaseCommandQueue i | clReleaseContext i | clReleaseEvent i => Some i
  | _ => None
  end.

(** *** What the devices hold, phase by phase *)

(** The chunk of device [i] is the range from [bound i] to [bound (i + 1)]. *)
Definition bound (array_size num_devices : Z) (i : Z) : Z :=
  if i <? num_devices then i * (array_size / num_devices) else array_size.

(** The buffers of device [i] after its set-up: the inputs hold the chunk
    of [A] and of [B]. *)
Definition ready (array_size num_devices : Z) (A B : list Z) (i : Z)
    (d : DeviceContext) : Prop :=
  Z.of_nat (length (a_buf d))
    = size_of array_size num_devices (array_size / num_devices) i /\
  Z.of_nat (length (b_buf d))
    = size_of array_size num_devices (array_size / num_devices) i /\
  Z.of_nat (length (c_buf d))
    = size_of array_size num_devices (array_size / num_devices) i /\
  (forall k, 0 <= k < size_of array_size num_devices (array_size / num_devices) i ->
     Mem.load (a_buf d) k
       = Mem.load A (offset_of (array_size / num_devices) i + k)) /\
  (forall k, 0 <= k < size_of array_size num_devices (array_size / num_devices) i ->
     Mem.load (b_buf d) k
       = Mem.load B (offset_of (array_size / num_devices) i + k)).

(** The output buffer of device [i] after its launch: the sums of the
    chunk. *)
Definition computed (array_size num_devices : Z) (A B : list Z) (i : Z)
    (d : DeviceContext) : Prop :=
  Z.of_nat (length (c_buf d))
    = size_of array_size num_devices (array_size / num_devices) i /\
  forall k, 0 <= k < size_of array_size num_devices (array_size / num_devices) i ->
    Mem.load (c_buf d) k
      = Mem.load (zip_with int_add A B) (offset_of (array_size / num_devices) i + k).

(** The order of the phases. *)
Definition by_phase (c1 c2 : call) : Prop := (phase c1 <= phase c2)%nat.

(** *** The calls whose status stops the program *)

(** The calls whose status is handed to [CHECK_ERROR], or is tested by the
    build check of lines 128-135.  The status of the first [clGetDeviceIDs]
    of a platform is tested too (line 71), but not to stop the program. *)
Definition checked (c : call) : bool :=
  match c with
  | clGetPlatformIDs_count | clGetPlatformIDs | clGetDeviceIDs _
  | clCreateContext _ | clCreateCommandQueueWithProperties _
  | clCreateProgramWithSource _ | clBuildProgram _ | clCreateKernel _
  | clCreateBuffer _ _ _ | clEnqueueWriteBuffer _ _ _ _ | clSetKernelArg _ _
  | clEnqueueNDRangeKernel _ _ | clEnqueueReadBuffer _ _ _ => true
  | _ => false
  end.

(** A checked call that did not return [CL_SUCCESS]. *)
Definition failed (e : env) (ev : event) : Prop :=
  exists c, ev = Call c /\ checked c = true /\ to_int (status e c) <> CL.CL_SUCCESS.

(** A line on [stderr]. *)
Definition on_stderr (ev : event) : Prop := exists m, ev = Stderr m.

(** A machine with one platform of two devices, on which no context can be
    created and every other call succeeds. *)
Definition no_context_env : env :=
  {| status := fun c =>
       match c with
       | clCreateContext _ => CL.CL_OUT_OF_HOST_MEMORY
       | _ => CL.CL_SUCCESS
       end;
     num_platforms := 1;
     num_platform_devices := fun _ => 2;
     kernel_file_opens := true;
     device_name := fun _ => "device"%string;
     build_log := fun _ => ""%string;
     event_time := fun _ _ => 0;
     uninitialised := fun _ => 0 |}.

End Ex004.

(** ** Examples 002 and 003: the [vector_add] kernel on [float]s *)

Module Ex002.
Import CInt CFloat.

(** [[
    __kernel void vector_add(__global const float* a, __global const float* b,
                             __global float* result, const unsigned int n)
    {
        int gid = get_global_id(0);
        if (gid < n) {
            result[gid] = a[gid] + b[gid];
        }
    }
    ]]
    One work-item with global id [global_id].  [gid] is an [int] and [n] an
    [unsigned int], so [gid < n] compares [gid] converted to unsigned. *)
Definition vector_add (a b result : list float) (n : Z) (global_id : Z)
  : option (list float) :=
  let gid := to_int global_id in
  if to_uint gid <? n then
    x ← Mem.load a gid;
    y ← Mem.load b gid;
    Mem.store result gid (fadd x y)
  else Some result.

(** A launch with [global_size] work-items
    ([clEnqueueNDRangeKernel(queue, kernel, 1, nullptr, &globalWorkSize, ...)]). *)
Definition launch (a b result : list float) (n : Z) (global_size : Z)
  : option (list float) :=
  Mem.for_items (fun g r => vector_add a b r n g) (seqZ 0 global_size) result.

End Ex002.

(** ** Example 006: matrix multiplication on the host *)

Module Ex006.
Import CInt CFloat.

(** [sum += A[i * N + k] * B[k * K + j];] *)
Definition accumulate (A B : list float) (N K i j : Z) (k : Z) (sum : float)
  : option float :=
  a ← Mem.load A (int_add (int_mul i N) k);
  b ← Mem.load B (int_add (int_mul k K) j);
  Some (fadd sum (fmul a b)).

(** The body of the loop over [j]:
    [[
    float sum = 0.0f;
    for (int k = 0; k < N; k++) { sum += A[i * N + k] * B[k * K + j]; }
    C[i * K + j] = sum;
    ]] *)
Definition cell (A B : list float) (N K i : Z) (j : Z) (C : list float)
  : option (list float) :=
  sum ← Mem.for_items (accumulate A B N K i j) (seqZ 0 N) zero;
  Mem.store C (int_add (int_mul i K) j) sum.

(** The body of the loop over [i]. *)
Definition row (A B : list float) (N K : Z) (i : Z) (C : list float)
  : option (list float) :=
  Mem.for_items (cell A B N K i) (seqZ 0 K) C.

(** [double matmulSerial(A, B, C, M, N, K)]: the new contents of [C] and the
    time that the clock measured, [elapsed], which is returned. *)
Definition matmulSerial (elapsed : double) (A B C : list float) (M N K : Z)
  : option (list float * double) :=
  C' ← Mem.for_items (row A B N K) (seqZ 0 M) C;
  Some (C', elapsed).

(** The reference: the products [A[i*N+k] * B[k*K+j]] for [k = 0 .. N-1],
    added from left to right to [0.0f]. *)
Definition matmul_ref (A B : list float) (N K i j : Z) : option float :=
  foldl (fun acc k =>
           sum ← acc;
           a ← Mem.load A (i * N + k);
           b ← Mem.load B (k * K + j);
           Some (fadd sum (fmul a b)))
        (Some zero) (seqZ 0 N).

End Ex006.

(** ** Example 003: breakeven analysis *)

Module Ex003.
Import CFloat.

(** [std::vector<size_t> sizes]: the vector sizes that are tested. *)
Definition sizes : list Z :=
  [1024; 4096; 16384; 65536; 262144; 1048576; 4194304; 16777216;
   67108864; 134217728].

(** The times that are measured (in milliseconds, as [double]s): by
    [vectorAddCPU] for a vector size, by [vectorAddOpenCL] for a vector size
    and a device. *)
Record timings := {
  cpuTime : Z -> double;
  openclTime : Z -> Z -> double
}.

(** [breakevenPoints] and [foundBreakeven], one entry per device. *)
Record tracking := {
  breakevenPoints : list Z;
  foundBreakeven : list bool
}.

(** [[
    std::vector<size_t> breakevenPoints(devices.size(), 0);
    std::vector<bool> foundBreakeven(devices.size(), false);
    ]] *)
Definition no_breakeven (num_devices : Z) : tracking :=
  {| breakevenPoints := replicate (Z.to_nat num_devices) 0;
     foundBreakeven := replicate (Z.to_nat num_devices) false |}.

(** The check for device [i] at the size [testSize]:
    [[
    if (!foundBreakeven[i] && openclTime < cpuTime) {
        breakevenPoints[i] = testSize;
        foundBreakeven[i] = true;
    }
    ]] *)
Definition check_device (t : timings) (testSize : Z) (i : Z) (tr : tracking)
  : option tracking :=
  found ← Mem.load (foundBreakeven tr) i;
  if negb found && dlt (openclTime t testSize i) (cpuTime t testSize) then
    points ← Mem.store (breakevenPoints tr) i testSize;
    flags ← Mem.store (foundBreakeven tr) i true;
    Some {| breakevenPoints := points; foundBreakeven := flags |}
  else Some tr.

(** The body of [for (size_t testSize : sizes)]: every device is tested. *)
Definition test_size (t : timings) (num_devices : Z) (testSize : Z) (tr : tracking)
  : option tracking :=
  Mem.for_items (check_device t testSize) (seqZ 0 num_devices) tr.

(** The loop over the sizes, from the initial vectors. *)
Definition analyse (t : timings) (num_devices : Z) : option tracking :=
  Mem.for_items (test_size t num_devices) sizes (no_breakeven num_devices).

(** What the summary prints after the name of a device:
    ["<n> elements"] or ["Not reached (OpenCL slower for all tested sizes)"]. *)
Inductive summary_line :=
| Elements (n : Z)
| NotReached.

(** [[
    if (foundBreakeven[i]) { std::cout << breakevenPoints[i] << " elements\n"; }
    else { std::cout << "Not reached (OpenCL slower for all tested sizes)\n"; }
    ]] *)
Definition summary (tr : tracking) (i : Z) : option summary_line :=
  found ← Mem.load (foundBreakeven tr) i;
  if found : bool then
    n ← Mem.load (breakevenPoints tr) i; Some (Elements n)
  else Some NotReached.

(** The summary of a run of the analysis, for all devices. *)
Definition breakeven_summary (t : timings) (num_devices : Z)
  : option (list summary_line) :=
  tr ← analyse t num_devices;
  mapM (summary tr) (seqZ 0 num_devices).

(** Device [i] was measured faster than the serial loop at the size [s]. *)
Definition faster (t : timings) (i : Z) (s : Z) : bool :=
  dlt (openclTime t s i) (cpuTime t s).

(** The flag and the point of device [j]. *)
Definition entry (tr : tracking) (j : Z) : option (bool * Z) :=
  f ← Mem.load (foundBreakeven tr) j; p ← Mem.load (breakevenPoints tr) j; Some (f, p).

(** What the check at the size [s] makes of the entry of device [i]. *)
Definition checked (t : timings) (i s : Z) (e : bool * Z) : bool * Z :=
  if negb e.1 && faster t i s then (true, s) else e.

Definition sized (nd : Z) (tr : tracking) : Prop :=
  Z.of_nat (length (breakevenPoints tr)) = nd /\
  Z.of_nat (length (foundBreakeven tr)) = nd.

End Ex003.

(** ** The error check shared by the examples 001 to 003 and 005 to 008 *)

Module Common.

(** What [checkError] prints on [std::cerr]:
    ["Error during <operation>: <err>"]. *)
Inductive diagnostic := ErrorDuring (operation : string) (err : Z).

(** [[
    void checkError(cl_int err, const char* operation) {
        if (err != CL_SUCCESS) {
            std::cerr << "Error during " << operation << ": " << err << "\n";
            exit(1);
        }
    }
    ]] *)
Definition checkError {S} (err : Z) (operation : string) : Run.M diagnostic S unit :=
  if negb (err =? CL.CL_SUCCESS) then
    Run.emit (ErrorDuring operation err);; Run.exit 1
  else mret tt.

End Common.

(** ** Example 000: device enumeration *)

Module Ex000.
Import CInt.

Inductive platform_info := CL_PLATFORM_NAME | CL_PLATFORM_VENDOR | CL_PLATFORM_VERSION.

Inductive device_info :=
| CL_DEVICE_NAME | CL_DEVICE_TYPE | CL_DEVICE_GLOBAL_MEM_SIZE
| CL_DEVICE_MAX_COMPUTE_UNITS.

(** The OpenCL calls of [main]; [i] is a platform index, [j] a device index
    of that platform. *)
Inductive call :=
| clGetPlatformIDs_count
| clGetPlatformIDs
| clGetPlatformInfo (i : Z) (param : platform_info)
| clGetDeviceIDs_count (i : Z)
| clGetDeviceIDs (i : Z)
| clGetDeviceInfo (i j : Z) (param : device_info).

(** The lines that [main] prints; [None] stands for ["<error>"]. *)
Inductive message :=
| MsgBanner
| MsgErrorPlatformCount (err : Z)
| MsgNoPlatforms
| MsgFoundPlatforms (n : Z)
| MsgErrorPlatforms (err : Z)
| MsgPlatform (i : Z)
| MsgPlatformInfo (param : platform_info) (value : option string)
| MsgAttempting
| MsgDevicesError (err : Z)
| MsgDevices (n : Z)
| MsgBlank
| MsgCannotRetrieve
| MsgDevice (j : Z)
| MsgDeviceName (value : option string)
| MsgType (cpu gpu accelerator : bool)
| MsgGlobalMemory (megabytes : Z)
| MsgComputeUnits (n : Z)
| MsgComplete.

Inductive event :=
| Call (c : call)
| Stdout (m : message)
| Stderr (m : message).

(** What the machine answers. *)
Record env := {
  status : call -> Z;
  numPlatforms : Z;
  numDevices : Z -> Z;
  platform_text : Z -> platform_info -> string;
  device_name : Z -> Z -> string;
  device_type : Z -> Z -> Z;
  globalMem : Z -> Z -> Z;
  computeUnits : Z -> Z -> Z
}.

Abbreviation prog := (Run.M event unit).

Definition call_cl (e : env) (c : call) : prog Z :=
  Run.emit (Call c);; mret (to_int (status e c)).

Definition cout (m : message) : prog unit := Run.emit (Stdout m).
Definition cerr (m : message) : prog unit := Run.emit (Stderr m).

Definition CL_DEVICE_TYPE_CPU : Z := 2.
Definition CL_DEVICE_TYPE_GPU : Z := 4.
Definition CL_DEVICE_TYPE_ACCELERATOR : Z := 8.

(** Lines 38-50: one line of platform information. *)
Definition print_platform_info (e : env) (i : Z) (param : platform_info) : prog unit :=
  err ← call_cl e (clGetPlatformInfo i param);
  cout (MsgPlatformInfo param
          (if err =? CL.CL_SUCCESS then Some (platform_text e i param) else None)).

(** Lines 78-111: the body of the loop over the devices of platform [i]. *)
Definition print_device (e : env) (i j : Z) : prog unit :=
  cout (MsgDevice j);;
  err ← call_cl e (clGetDeviceInfo i j CL_DEVICE_NAME);
  cout (MsgDeviceName (if err =? CL.CL_SUCCESS then Some (device_name e i j) else None));;
  err ← call_cl e (clGetDeviceInfo i j CL_DEVICE_TYPE);
  (if err =? CL.CL_SUCCESS then
     let type := to_ulong (device_type e i j) in
     cout (MsgType (negb (Z.land type CL_DEVICE_TYPE_CPU =? 0))
                   (negb (Z.land type CL_DEVICE_TYPE_GPU =? 0))
                   (negb (Z.land type CL_DEVICE_TYPE_ACCELERATOR =? 0)))
   else mret tt);;
  err ← call_cl e (clGetDeviceInfo i j CL_DEVICE_GLOBAL_MEM_SIZE);
  (if err =? CL.CL_SUCCESS then
     cout (MsgGlobalMemory (to_ulong (globalMem e i j) / (1024 * 1024)))
   else mret tt);;
  err ← call_cl e (clGetDeviceInfo i j CL_DEVICE_MAX_COMPUTE_UNITS);
  (if err =? CL.CL_SUCCESS then
     cout (MsgComputeUnits (to_uint (computeUnits e i j)))
   else mret tt).

(** Lines 31-114: the body of the loop over the platforms; [continue] ends
    the round. *)
Definition print_platform (e : env) (i : Z) : prog unit :=
  cout (MsgPlatform i);;
  print_platform_info e i CL_PLATFORM_NAME;;
  print_platform_info e i CL_PLATFORM_VENDOR;;
  print_platform_info e i CL_PLATFORM_VERSION;;
  cout MsgAttempting;;
  err ← call_cl e (clGetDeviceIDs_count i);
  if negb (err =? CL.CL_SUCCESS) then
    cout (MsgDevicesError err)
  else
    let numDevices := to_uint (numDevices e i) in
    cout (MsgDevices numDevices);;
    if numDevices =? 0 then
      cout MsgBlank
    else
      err ← call_cl e (clGetDeviceIDs i);
      if negb (err =? CL.CL_SUCCESS) then
        cout MsgCannotRetrieve
      else
        Run.for_each (seqZ 0 numDevices) (print_device e i);;
        cout MsgBlank.

(** [int main()] of example 000; [return 1] ends the run with exit status 1. *)
Definition main (e : env) : prog Z :=
  cout MsgBanner;;
  err ← call_cl e clGetPlatformIDs_count;
  (if negb (err =? CL.CL_SUCCESS) then
     cerr (MsgErrorPlatformCount err);; Run.exit 1
   else mret tt);;
  let numPlatforms := to_uint (numPlatforms e) in
  (if numPlatforms =? 0 then
     cerr MsgNoPlatforms;; Run.exit 1
   else mret tt);;
  cout (MsgFoundPlatforms numPlatforms);;
  err ← call_cl e clGetPlatformIDs;
  (if negb (err =? CL.CL_SUCCESS) then
     cerr (MsgErrorPlatforms err);; Run.exit 1
   else mret tt);;
  Run.for_each (seqZ 0 numPlatforms) (print_platform e);;
  cout MsgComplete;;
  mret 0.

(** A machine with two platforms of one device each, on which the device
    query of platform 0 answers [CL_DEVICE_NOT_FOUND] and every other call
    succeeds. *)
Definition first_platform_fails : env :=
  {| status := fun c =>
       match c with
       | clGetDeviceIDs_count 0 => CL.CL_DEVICE_NOT_FOUND
       | _ => CL.CL_SUCCESS
       end;
     numPlatforms := 2;
     numDevices := fun _ => 1;
     platform_text := fun _ _ => "platform"%string;
     device_name := fun _ _ => "device"%string;
     device_type := fun _ _ => CL_DEVICE_TYPE_GPU;
     globalMem := fun _ _ => 4294967296;
     computeUnits := fun _ _ => 8 |}.

End Ex000.

(** ** The matrix multiplication kernels of example 006 *)

Module Ex006Kernel.
Import CInt CFloat.

(** The work-items, or the work-groups, of a two-dimensional range, as
    pairs [(id in dimension 0, id in dimension 1)]. *)
Definition range2 (size0 size1 : Z) : list (Z * Z) :=
  id0 ← seqZ 0 size0; id1 ← seqZ 0 size1; [(id0, id1)].

(** [__kernel void matrix_multiply(A, B, C, M, N, K)], as run by the
    work-item [global_id]:
    [[
    int row = get_global_id(0);
    int col = get_global_id(1);
    if (row < M && col < K) {
        float sum = 0.0f;
        for (int i = 0; i < N; i++) { sum += A[row * N + i] * B[i * K + col]; }
        C[row * K + col] = sum;
    }
    ]] *)
Definition matrix_multiply (A B : list float) (M N K : Z) (global_id : Z * Z)
    (C : list float) : option (list float) :=
  let row := to_int global_id.1 in
  let col := to_int global_id.2 in
  if (row <? M) && (col <? K) then
    sum ← Mem.for_items (fun i sum =>
             a ← Mem.load A (int_add (int_mul row N) i);
             b ← Mem.load B (int_add (int_mul i K) col);
             Some (fadd sum (fmul a b)))
           (seqZ 0 N) zero;
    Mem.store C (int_add (int_mul row K) col) sum
  else Some C.

Definition TILE_SIZE : Z := 16.

(** What the work-items of one work-group of [matrix_multiply_tiled] work
    on: the two [__local] tiles, which they share, and the private variable
    [sum] of each of them, by local id. *)
Record work_group := {
  A_tile : list float;
  B_tile : list float;
  sum : Z * Z -> float
}.

(** [int numTiles = (N + TILE_SIZE - 1) / TILE_SIZE;] *)
Definition numTiles (N : Z) : Z :=
  int_div (int_sub (int_add N TILE_SIZE) 1) TILE_SIZE.

(** Round [t] of the loop, up to the first barrier, for the work-item
    [local_id] of the work-group [group_id]:
    [[
    int tiledRow = TILE_SIZE * t + localCol;
    int tiledCol = TILE_SIZE * t + localRow;
    A_tile[localRow * TILE_SIZE + localCol] =
        (globalRow < M && tiledRow < N) ? A[globalRow * N + tiledRow] : 0.0f;
    B_tile[localRow * TILE_SIZE + localCol] =
        (tiledCol < N && globalCol < K) ? B[tiledCol * K + globalCol] : 0.0f;
    ]] *)
Definition load_tiles (A B : list float) (M N K : Z) (group_id : Z * Z) (t : Z)
    (local_id : Z * Z) (g : work_group) : option work_group :=
  let globalRow := to_int (group_id.1 * TILE_SIZE + local_id.1) in
  let globalCol := to_int (group_id.2 * TILE_SIZE + local_id.2) in
  let localRow := to_int local_id.1 in
  let localCol := to_int local_id.2 in
  let tiledRow := int_add (int_mul TILE_SIZE t) localCol in
  let tiledCol := int_add (int_mul TILE_SIZE t) localRow in
  a ← (if (globalRow <? M) && (tiledRow <? N)
       then Mem.load A (int_add (int_mul globalRow N) tiledRow)
       else Some zero);
  A_tile' ← Mem.store (A_tile g) (int_add (int_mul localRow TILE_SIZE) localCol) a;
  b ← (if (tiledCol <? N) && (globalCol <? K)
       then Mem.load B (int_add (int_mul tiledCol K) globalCol)
       else Some zero);
  B_tile' ← Mem.store (B_tile g) (int_add (int_mul localRow TILE_SIZE) localCol) b;
  Some {| A_tile := A_tile'; B_tile := B_tile'; sum := sum g |}.

(** Between the two barriers:
    [[
    for (int k = 0; k < TILE_SIZE; k++) {
        sum += A_tile[localRow * TILE_SIZE + k] * B_tile[k * TILE_SIZE + localCol];
    }
    ]] *)
Definition partial_sum (local_id : Z * Z) (g : work_group) : option work_group :=
  let localRow := to_int local_id.1 in
  let localCol := to_int local_id.2 in
  s ← Mem.for_items (fun k s =>
         a ← Mem.load (A_tile g) (int_add (int_mul localRow TILE_SIZE) k);
         b ← Mem.load (B_tile g) (int_add (int_mul k TILE_SIZE) localCol);
         Some (fadd s (fmul a b)))
       (seqZ 0 TILE_SIZE) (sum g local_id);
  Some {| A_tile := A_tile g; B_tile := B_tile g; sum := <[local_id := s]> (sum g) |}.

(** After the loop:
    [[
    if (globalRow < M && globalCol < K) { C[globalRow * K + globalCol] = sum; }
    ]] *)
Definition write_sum (M K : Z) (group_id : Z * Z) (g : work_group)
    (local_id : Z * Z) (C : list float) : option (list float) :=
  let globalRow := to_int (group_id.1 * TILE_SIZE + local_id.1) in
  let globalCol := to_int (group_id.2 * TILE_SIZE + local_id.2) in
  if (globalRow <? M) && (globalCol <? K)
  then Mem.store C (int_add (int_mul globalRow K) globalCol) (sum g local_id)
  else Some C.

(** The local ids of a work-group of [TILE_SIZE] by [TILE_SIZE] work-items. *)
Definition local_ids : list (Z * Z) := range2 TILE_SIZE TILE_SIZE.

(** [__kernel void matrix_multiply_tiled(A, B, C, M, N, K, A_tile, B_tile)],
    as run by the work-group [group_id].  A barrier is passed by all the
    work-items of the group together; between two barriers they write
    different locations, and they are run here one after the other.  The
    tiles start with whatever the local memory holds, every [sum] with
    [0.0f]. *)
Definition matrix_multiply_tiled (A B : list float) (M N K : Z)
    (A_tile B_tile : list float) (group_id : Z * Z) (C : list float)
  : option (list float) :=
  g ← Mem.for_items (fun t g =>
         g' ← Mem.for_items (load_tiles A B M N K group_id t) local_ids g;
         Mem.for_items partial_sum local_ids g')
       (seqZ 0 (numTiles N))
       {| A_tile := A_tile; B_tile := B_tile; sum := fun _ => zero |};
  Mem.for_items (write_sum M K group_id g) local_ids C.

(** [matmulOpenCL] of the host, lines 147-155: the sizes of the two
    launches.
    [[
    size_t globalSize[2] = {(size_t)((M + TILE_SIZE - 1) / TILE_SIZE) * TILE_SIZE,
                            (size_t)((K + TILE_SIZE - 1) / TILE_SIZE) * TILE_SIZE};
    size_t localSize[2] = {TILE_SIZE, TILE_SIZE};
    ]]
    and [size_t globalSize[2] = {(size_t)M, (size_t)K};] *)
Definition tiled_global_size (M : Z) : Z :=
  to_ulong (to_ulong (int_div (int_sub (int_add M TILE_SIZE) 1) TILE_SIZE) * TILE_SIZE).

Definition enqueue_matrix_multiply_tiled (A B : list float) (M N K : Z)
    (A_tile B_tile : list float) (C : list float) : option (list float) :=
  Mem.for_items (matrix_multiply_tiled A B M N K A_tile B_tile)
    (range2 (tiled_global_size M / TILE_SIZE) (tiled_global_size K / TILE_SIZE)) C.

Definition enqueue_matrix_multiply (A B : list float) (M N K : Z)
    (C : list float) : option (list float) :=
  Mem.for_items (matrix_multiply A B M N K) (range2 (to_ulong M) (to_ulong K)) C.

(** *** What the two kernels add up *)

(** One more product for the element [(row, col)], or, from [N] on, one
    more [0.0f * 0.0f]. *)
Definition padded_step (A B : list float) (N K row col : Z)
    (acc : option float) (i : Z) : option float :=
  s ← acc;
  if i <? N then
    a ← Mem.load A (row * N + i);
    b ← Mem.load B (i * K + col);
    Some (fadd s (fmul a b))
  else Some (fadd s (fmul zero zero)).

(** The products that [matrix_multiply] adds up for the element
    [(row, col)], with [n - N] products [0.0f * 0.0f] after them: what
    [matrix_multiply_tiled] adds up in [n / TILE_SIZE] rounds. *)
Definition padded_sum (A B : list float) (N K row col n : Z) : option float :=
  foldl (padded_step A B N K row col) (Some zero) (seqZ 0 n).

(** What a sum that started at [0.0f] can be. *)
Definition settled (acc : option float) : Prop :=
  forall s, acc = Some s -> s <> neg_zero /\ above_emin s.

(** What the tiles of the work-group [group_id] hold at
    [local0 * TILE_SIZE + local1] after the first barrier of round [t]. *)
Definition A_tile_at (A : list float) (M N : Z) (group_id : Z * Z) (t local0 local1 : Z)
  : option float :=
  let globalRow := group_id.1 * TILE_SIZE + local0 in
  let tiledRow := TILE_SIZE * t + local1 in
  if (globalRow <? M) && (tiledRow <? N) then Mem.load A (globalRow * N + tiledRow)
  else Some zero.

Definition B_tile_at (B : list float) (N K : Z) (group_id : Z * Z) (t local0 local1 : Z)
  : option float :=
  let globalCol := group_id.2 * TILE_SIZE + local1 in
  let tiledCol := TILE_SIZE * t + local0 in
  if (tiledCol <? N) && (globalCol <? K) then Mem.load B (tiledCol * K + globalCol)
  else Some zero.

(** The tiles of the work-group hold that at the first barrier of round
    [t]. *)
Definition loaded (A B : list float) (M N K : Z) (group_id : Z * Z) (t : Z)
    (g : work_group) : Prop :=
  forall local0 local1, 0 <= local0 < 16 -> 0 <= local1 < 16 ->
    Mem.load (A_tile g) (local0 * 16 + local1)
      = A_tile_at A M N group_id t local0 local1 /\
    Mem.load (B_tile g) (local0 * 16 + local1)
      = B_tile_at B N K group_id t local0 local1.

(** The locations of [C] that the work-group [group_id] is to write, and
    those that hold the matrix. *)
Definition group_cell (M K : Z) (group_id : Z * Z) (j : Z) : Prop :=
  exists local0 local1,
    0 <= local0 < 16 /\ 0 <= local1 < 16 /\
    group_id.1 * 16 + local0 < M /\ group_id.2 * 16 + local1 < K /\
    j = (group_id.1 * 16 + local0) * K + (group_id.2 * 16 + local1).

Definition in_matrix (M K : Z) (j : Z) : Prop :=
  exists row col, 0 <= row < M /\ 0 <= col < K /\ j = row * K + col.

(** The products that the work-item [(local0, local1)] adds up in round
    [t]. *)
Definition tile_step (A B : list float) (M N K : Z) (group_id : Z * Z)
    (t local0 local1 : Z) (acc : option float) (k : Z) : option float :=
  s ← acc;
  a ← A_tile_at A M N group_id t local0 k;
  b ← B_tile_at B N K group_id t k local1;
  Some (fadd s (fmul a b)).

End Ex006Kernel.

(** ** Example 006: the parallel loops of the host *)

Module Ex006Par.
Import CInt CFloat Ex006.

(** [double matmulStdPar(A, B, C, M, N, K)]:
    [[
    std::vector<int> rows(M);
    std::iota(rows.begin(), rows.end(), 0);
    std::for_each(std::execution::par, rows.begin(), rows.end(),
        [&](int i) { for (int j = 0; j < K; j++) { ... C[i * K + j] = sum; } });
    ]]
    The function object is applied once to every element of [rows]; two
    applications write different elements of [C] and only read [A] and [B].
    [order] is the order in which the elements of [rows] are taken. *)
Definition matmulStdPar (order : list Z) (elapsed : double) (A B C : list float)
    (N K : Z) : option (list float * double) :=
  C' ← Mem.for_items (row A B N K) order C;
  Some (C', elapsed).

(** [double matmulOpenMP(A, B, C, M, N, K)]:
    [[
    #pragma omp parallel for collapse(2)
    for (int i = 0; i < M; i++) {
        for (int j = 0; j < K; j++) { ... C[i * K + j] = sum; }
    }
    ]]
    The two loops are one iteration space of pairs [(i, j)], shared among
    the threads; [order] is the order in which the pairs are taken. *)
Definition matmulOpenMP (order : list (Z * Z)) (elapsed : double)
    (A B C : list float) (N K : Z) : option (list float * double) :=
  C' ← Mem.for_items (fun ij C => cell A B N K ij.1 ij.2 C) order C;
  Some (C', elapsed).

(** The iteration space of [matmulOpenMP]. *)
Definition iterations (M K : Z) : list (Z * Z) :=
  i ← seqZ 0 M; j ← seqZ 0 K; [(i, j)].

End Ex006Par.

(** ** Example 005: matrix-vector multiplication *)

Module Ex005.
Import CInt CFloat.

(** The body of the loop over [i], the same in the three host versions:
    [[
    float sum = 0.0f;
    for (int j = 0; j < cols; j++) { sum += matrix[i * cols + j] * vector[j]; }
    result[i] = sum;
    ]] *)
Definition matvec_row (matrix vector : list float) (cols : Z) (i : Z)
    (result : list float) : option (list float) :=
  sum ← Mem.for_items (fun j sum =>
           a ← Mem.load matrix (int_add (int_mul i cols) j);
           b ← Mem.load vector j;
           Some (fadd sum (fmul a b)))
         (seqZ 0 cols) zero;
  Mem.store result i sum.

(** [double matvecSerial(matrix, vector, result, rows, cols)]: the new
    contents of [result] and the time that was measured. *)
Definition matvecSerial (elapsed : double) (matrix vector result : list float)
    (rows cols : Z) : option (list float * double) :=
  result' ← Mem.for_items (matvec_row matrix vector cols) (seqZ 0 rows) result;
  Some (result', elapsed).

(** [double matvecStdPar(...)]: [std::for_each(std::execution::par, ...)]
    over [indices = 0 .. rows-1]; [order] is the order in which the indices
    are taken. *)
Definition matvecStdPar (order : list Z) (elapsed : double)
    (matrix vector result : list float) (cols : Z) : option (list float * double) :=
  result' ← Mem.for_items (matvec_row matrix vector cols) order result;
  Some (result', elapsed).

(** [double matvecOpenMP(...)]: [#pragma omp parallel for] over
    [i = 0 .. rows-1]; [order] is the order in which the iterations are
    taken. *)
Definition matvecOpenMP (order : list Z) (elapsed : double)
    (matrix vector result : list float) (cols : Z) : option (list float * double) :=
  result' ← Mem.for_items (matvec_row matrix vector cols) order result;
  Some (result', elapsed).

(** [[
    __kernel void matvec_multiply(__global const float* matrix,
                                  __global const float* vector,
                                  __global float* result,
                                  const int rows, const int cols)
    {
        int i = get_global_id(0);
        if (i < rows) {
            float sum = 0.0f;
            for (int j = 0; j < cols; j++) { sum += matrix[i * cols + j] * vector[j]; }
            result[i] = sum;
        }
    }
    ]] *)
Definition matvec_multiply (matrix vector : list float) (rows cols : Z)
    (global_id : Z) (result : list float) : option (list float) :=
  let i := to_int global_id in
  if i <? rows then
    sum ← Mem.for_items (fun j sum =>
             a ← Mem.load matrix (int_add (int_mul i cols) j);
             b ← Mem.load vector j;
             Some (fadd sum (fmul a b)))
           (seqZ 0 cols) zero;
    Mem.store result i sum
  else Some result.

(** [matvecOpenCL], lines 130-131: [size_t globalSize = rows;] and the
    launch over [globalSize] work-items. *)
Definition enqueue_matvec_multiply (matrix vector : list float) (rows cols : Z)
    (result : list float) : option (list float) :=
  Mem.for_items (matvec_multiply matrix vector rows cols) (seqZ 0 (to_ulong rows))
    result.

(** The reference: the products [matrix[i*cols+j] * vector[j]] for
    [j = 0 .. cols-1], added from left to right to [0.0f]. *)
Definition matvec_ref (matrix vector : list float) (cols i : Z) : option float :=
  foldl (fun acc j =>
           sum ← acc;
           a ← Mem.load matrix (i * cols + j);
           b ← Mem.load vector j;
           Some (fadd sum (fmul a b)))
        (Some zero) (seqZ 0 cols).

End Ex005.

(** ** Rounds of a loop that write different locations *)

Module Rounds.

(** Every round [id] of [ids], run on an array of [n] elements, writes
    [w j] to its locations [j], those with [cells id j], and leaves the
    others as they are. *)
Definition writes {I T} (step : I -> list T -> option (list T))
    (cells : I -> Z -> Prop) (w : Z -> option T) (ids : list I) (n : nat) : Prop :=
  forall id C, id ∈ ids -> length C = n ->
    exists C', step id C = Some C' /\ length C' = n /\
      (forall j, cells id j -> Mem.load C' j = w j) /\
      (forall j, Mem.load C' j = Mem.load C j \/ cells id j).

End Rounds.

(** ** More of [float]: subtraction, absolute value, comparison *)

Module CFloatCmp.
Import CFloat.

Definition fsub (x y : float) : float := SFsub prec32 emax32 x y.
(** [std::abs(x)] *)
Definition fabs (x : float) : float := SFabs x.
(** [x > y] *)
Definition fgt (x y : float) : bool := SFltb y x.

(** [std::abs(expected - actual) > tolerance] *)
Definition differ (tolerance expected actual : float) : bool :=
  fgt (fabs (fsub expected actual)) tolerance.

End CFloatCmp.

(** ** Example 002: the host functions *)

Module Ex002Host.
Import CInt CFloat CFloatCmp.

(** [[
    void vectorAddCPU(const std::vector<float>& a, const std::vector<float>& b,
                      std::vector<float>& result) {
        for (size_t i = 0; i < a.size(); i++) { result[i] = a[i] + b[i]; }
    }
    ]] *)
Definition vectorAddCPU (a b result : list float) : option (list float) :=
  Mem.for_items (fun i result =>
      x ← Mem.load a i;
      y ← Mem.load b i;
      Mem.store result i (fadd x y))
    (seqZ 0 (Z.of_nat (length a))) result.

(** [vectorAddOpenCL], lines 90-101: the kernel gets [n] as an
    [unsigned int], and is launched over [n] work-items.
    [[
    size_t n = a.size();
    unsigned int nArg = (unsigned int)n;
    size_t globalWorkSize = n;
    ]] *)
Definition enqueue_vector_add (a b result : list float) : option (list float) :=
  let n := Z.of_nat (length a) in
  Ex002.launch a b result (to_uint n) n.

(** The literal [0.001f]. *)
Definition tolerance : float := S754_finite false 8589935 (-33).

(** A line of [verifyResults]: the mismatch on [std::cerr], the
    confirmation on [std::cout]. *)
Inductive line :=
| Mismatch (name : string) (i : Z) (expected actual : float)
| VerifiedCorrect.

(** The loop of [verifyResults] from the indices [ids] on: the line on
    [std::cerr] and the flag [correct]; the loop ends at the first
    mismatch.
    [[
    for (size_t i = 0; i < expected.size(); i++) {
        if (std::abs(expected[i] - actual[i]) > 0.001f) {
            std::cerr << "Mismatch in " << name << " at index " << i << ...;
            correct = false;
            break;
        }
    }
    ]] *)
Fixpoint compare_from (expected actual : list float) (name : string) (ids : list Z)
  : option (list line * bool) :=
  match ids with
  | [] => Some ([], true)
  | i :: ids' =>
      e ← Mem.load expected i;
      a ← Mem.load actual i;
      if differ tolerance e a then Some ([Mismatch name i e a], false)
      else compare_from expected actual name ids'
  end.

(** [void verifyResults(expected, actual, name)]: what is written on
    [std::cerr] and on [std::cout]. *)
Definition verifyResults (expected actual : list float) (name : string)
  : option (list line * list line) :=
  compare_from expected actual name (seqZ 0 (Z.of_nat (length expected)))
    ≫= fun r : list line * bool =>
  Some (r.1, if r.2 then [VerifiedCorrect] else []).

End Ex002Host.

(** ** Example 006: the check of the results *)

Module Ex006Verify.
Import CInt CFloat CFloatCmp.

(** [const float EPSILON = 0.01f;] *)
Definition EPSILON : float := S754_finite false 10737418 (-30).

(** A line of [verifyResults]: a mismatch on [std::cerr], the verdict on
    [std::cout]. *)
Inductive line :=
| Mismatch (name : string) (i : Z) (expected actual : float)
| Verified
| Failed (errors : Z).

(** The variables of [verifyResults], and what it has written on
    [std::cerr]. *)
Record checking := {
  correct : bool;
  errors : Z;
  cerr : list line
}.

(** [[
    if (std::abs(expected[i] - actual[i]) > EPSILON) {
        if (errors < 5) { std::cerr << "Mismatch in " << name << " at " << i << ...; }
        errors++;
        correct = false;
    }
    ]] *)
Definition check_element (expected actual : list float) (name : string) (i : Z)
    (c : checking) : option checking :=
  e ← Mem.load expected i;
  a ← Mem.load actual i;
  if differ EPSILON e a then
    Some {| correct := false;
            errors := int_add (errors c) 1;
            cerr := cerr c ++ (if errors c <? 5 then [Mismatch name i e a] else []) |}
  else Some c.

(** [void verifyResults(expected, actual, name)]: what is written on
    [std::cerr] and on [std::cout]. *)
Definition verifyResults (expected actual : list float) (name : string)
  : option (list line * line) :=
  c ← Mem.for_items (check_element expected actual name)
        (seqZ 0 (Z.of_nat (length expected)))
        {| correct := true; errors := 0; cerr := [] |};
  Some (cerr c, if correct c then Verified else Failed (errors c)).

(** [actual] is off at the index [i]. *)
Definition off (expected actual : list float) (i : Z) : bool :=
  match Mem.load expected i, Mem.load actual i with
  | Some e, Some a => differ EPSILON e a
  | _, _ => false
  end.

(** The indices at which [actual] is off. *)
Definition mismatches (expected actual : list float) : list Z :=
  List.filter (off expected actual) (seqZ 0 (Z.of_nat (length expected))).

(** The line that reports the mismatch at [i]. *)
Definition mismatch_line (expected actual : list float) (name : string) (i : Z) : line :=
  Mismatch name i (default zero (Mem.load expected i)) (default zero (Mem.load actual i)).

End Ex006Verify.

(** ** What a trace shows and what it never shows *)

Module Trace.

Section Traces.
Context {E St : Type} (bad : E -> Prop).

(** No run of [m] shows a bad event. *)
Definition clean {A} (m : Run.M E St A) : Prop :=
  forall s, Forall (fun ev => ~ bad ev) (Run.trace (m s)).

(** A run of [m] that stops, by [exit] or in undefined behaviour, has shown
    no bad event; a run that ends well returns a value that satisfies [Q]. *)
Definition spared {A} (Q : A -> Prop) (m : Run.M E St A) : Prop :=
  forall s,
    match m s with
    | (Run.Ok a, _, _) => Q a
    | (_, _, t) => Forall (fun ev => ~ bad ev) t
    end.

End Traces.

(** A run of [m] that ends well shows none of the events that [see] picks. *)
Definition mute {E St X} (see : E -> option X) {A} (m : Run.M E St A) : Prop :=
  forall s a s' t, m s = (Run.Ok a, s', t) -> omap see t = [].

(** [m] never changes the state. *)
Definition steady {E St A} (m : Run.M E St A) : Prop :=
  forall s, Run.final (m s) = s.

End Trace.

(** ** Example 004: the OpenCL objects of a run *)

Module Ex004Objects.
Import CInt Ex004.

(** The OpenCL objects that [main] holds for device [i], the fields of
    [DeviceContext]: [context], [queue], [program], [kernel], [a_buf],
    [b_buf], [c_buf] and [kernel_event]. *)
Inductive object :=
| Context (i : Z)
| Queue (i : Z)
| Program (i : Z)
| Kernel (i : Z)
| MemObject (i : Z) (b : buffer)
| KernelEvent (i : Z).

(** The object that a call hands to [main], whatever its status. *)
Definition made (c : call) : option object :=
  match c with
  | clCreateContext i => Some (Context i)
  | clCreateCommandQueueWithProperties i => Some (Queue i)
  | clCreateProgramWithSource i => Some (Program i)
  | clCreateKernel i => Some (Kernel i)
  | clCreateBuffer i b _ => Some (MemObject i b)
  | clEnqueueNDRangeKernel i _ => Some (KernelEvent i)
  | _ => None
  end.

(** The object that a call creates: none when the call fails. *)
Definition created (e : env) (c : call) : option object :=
  if to_int (status e c) =? CL.CL_SUCCESS then made c else None.

(** The object that a call releases. *)
Definition released (c : call) : option object :=
  match c with
  | clReleaseMemObject i b => Some (MemObject i b)
  | clReleaseKernel i => Some (Kernel i)
  | clReleaseProgram i => Some (Program i)
  | clReleaseCommandQueue i => Some (Queue i)
  | clReleaseContext i => Some (Context i)
  | clReleaseEvent i => Some (KernelEvent i)
  | _ => None
  end.

(** The objects of device [i] that the set-up creates, in the order of their
    creation, and the objects that are released, in the order of their release
    (the event is created by the launch). *)
Definition objects_made (i : Z) : list object :=
  [Context i; Queue i; Program i; Kernel i;
   MemObject i BufA; MemObject i BufB; MemObject i BufC].

Definition objects_released (i : Z) : list object :=
  [MemObject i BufA; MemObject i BufB; MemObject i BufC;
   Kernel i; Program i; Queue i; Context i; KernelEvent i].

(** An event that releases an object. *)
Definition releases (ev : event) : Prop :=
  exists c o, ev = Call c /\ released c = Some o.

(** Lines 254-276: what is left of [main] after the verification. *)
Definition release_all (e : env) (num_devices : Z) : prog Z :=
  Run.for_each (seqZ 0 num_devices) (release_device e);;
  printf MsgPressKey;;
  Run.emit Getchar;;
  mret 0.

(** A machine with one platform of two devices, on which the context of
    device 1 cannot be created and every other call succeeds. *)
Definition second_context_fails : env :=
  {| status := fun c =>
       match c with
       | clCreateContext 1 => CL.CL_OUT_OF_HOST_MEMORY
       | _ => CL.CL_SUCCESS
       end;
     num_platforms := 1;
     num_platform_devices := fun _ => 2;
     kernel_file_opens := true;
     device_name := fun _ => "device"%string;
     build_log := fun _ => ""%string;
     event_time := fun _ _ => 0;
     uninitialised := fun _ => 0 |}.

End Ex004Objects.

(** ** Example 004: what the report of a run shows *)

Module Ex004Report.
Import CInt Ex004.

(** The lines of a trace on [stdout] and on [stderr]. *)
Definition stdout_of (ev : event) : option message :=
  match ev with Stdout m => Some m | _ => None end.

Definition stderr_of (ev : event) : option message :=
  match ev with Stderr m => Some m | _ => None end.

(** The events that tell how a run went: every line on [stderr], and on
    [stdout] the lines of the verification loop and its verdict. *)
Definition telling (ev : event) : option event :=
  match ev with
  | Stderr _
  | Stdout (MsgMismatch _ _ _) | Stdout (MsgSum _ _ _)
  | Stdout MsgPassed | Stdout MsgFailed => Some ev
  | _ => None
  end.

(** The time stamps that [get_event_time] reads for the kernel of device
    [i]. *)
Definition started (e : env) (i : Z) : Z :=
  to_ulong (event_time e i CL_PROFILING_COMMAND_START).

Definition ended (e : env) (i : Z) : Z :=
  to_ulong (event_time e i CL_PROFILING_COMMAND_END).

(** The kernels of the devices [i] and [j] ran at the same time: the two
    closed intervals from start to end meet. *)
Definition overlapping (e : env) (i j : Z) : Prop :=
  exists time, started e i <= time <= ended e i /\ started e j <= time <= ended e j.

(** The line of the pair [(i, j)], with the test of line 223. *)
Definition pair_line (e : env) (i j : Z) : message :=
  MsgOverlap i j (negb ((ended e i <? started e j) || (ended e j <? started e i))).

(** The line of device [i] in the time line. *)
Definition device_line (e : env) (i : Z) : message :=
  MsgDevice i (device_name e i) (started e i) (ended e i)
    (to_ulong (ended e i - started e i)).

(** Lines 198-209: the loop of the time line, started as in [main]. *)
(** One round of the loop of the time line: the pair after device [i]. *)
Definition widen (e : env) (i : Z) (acc : Z * Z) : Z * Z :=
  (if started e i <? acc.1 then started e i else acc.1,
   if acc.2 <? ended e i then ended e i else acc.2).

Definition timeline (e : env) (num_devices : Z) : prog (Z * Z) :=
  Run.for_fold (seqZ 0 num_devices) (timeline_device e) (ULLONG_MAX, 0).

End Ex004Report.

(** ** Example 000: the handles that are queried, the headers that are printed *)

Module Ex000Report.
Import CInt Ex000.

Definition succeeded (e : env) (c : call) : Prop :=
  to_int (status e c) = CL.CL_SUCCESS.

(** The call uses a handle that [main] holds: an element of [platforms]
    after the list was retrieved, an element of [devices] after the list of
    the platform was retrieved. *)
Definition in_bounds (e : env) (c : call) : Prop :=
  match c with
  | clGetPlatformIDs_count => True
  | clGetPlatformIDs =>
      succeeded e clGetPlatformIDs_count /\ to_uint (numPlatforms e) <> 0
  | clGetPlatformInfo i _ | clGetDeviceIDs_count i =>
      succeeded e clGetPlatformIDs /\ 0 <= i < to_uint (numPlatforms e)
  | clGetDeviceIDs i =>
      succeeded e clGetPlatformIDs /\ 0 <= i < to_uint (numPlatforms e) /\
      succeeded e (clGetDeviceIDs_count i) /\ to_uint (numDevices e i) <> 0
  | clGetDeviceInfo i j _ =>
      succeeded e clGetPlatformIDs /\ 0 <= i < to_uint (numPlatforms e) /\
      succeeded e (clGetDeviceIDs_count i) /\ succeeded e (clGetDeviceIDs i) /\
      0 <= j < to_uint (numDevices e i)
  end.

(** A call with a handle that [main] does not hold. *)
Definition stray (e : env) (ev : event) : Prop :=
  exists c, ev = Call c /\ ~ in_bounds e c.

(** The headers ["Platform i:"] and ["Device j:"] of a trace. *)
Definition header_of (ev : event) : option message :=
  match ev with
  | Stdout (MsgPlatform i) => Some (MsgPlatform i)
  | Stdout (MsgDevice j) => Some (MsgDevice j)
  | _ => None
  end.

(** The devices of platform [i] are listed: both queries succeeded. *)
Definition listed (e : env) (i : Z) : bool :=
  (to_int (status e (clGetDeviceIDs_count i)) =? CL.CL_SUCCESS)
  && (to_int (status e (clGetDeviceIDs i)) =? CL.CL_SUCCESS).

(** The headers of platform [i], and of all the platforms. *)
Definition platform_headers (e : env) (i : Z) : list message :=
  MsgPlatform i ::
  (if listed e i then MsgDevice <$> seqZ 0 (to_uint (numDevices e i)) else []).

Definition headers (e : env) : list message :=
  seqZ 0 (to_uint (numPlatforms e)) ≫= platform_headers e.

(** The platforms can be enumerated: the count is read, it is not zero, and
    the list is retrieved. *)
Definition enumerable (e : env) : Prop :=
  succeeded e clGetPlatformIDs_count /\ to_uint (numPlatforms e) <> 0 /\
  succeeded e clGetPlatformIDs.

End Ex000Report.

(** ** One program after another *)

Module Sim.

(** [m] goes as [m'] goes, as long as it does not exit: a run of [m] that
    ends well or in undefined behaviour is matched by the run of [m'] from
    the same state, with the same result and the same final state. *)
Definition tracks {E St A} (m m' : Run.M E St A) : Prop :=
  forall s,
    match m s with
    | (Run.Exit _, _, _) => True
    | (r, s', _) => Run.outcome (m' s) = r /\ Run.final (m' s) = s'
    end.

(** The same for a part that returns a status which is checked next: the
    runs are matched when the status is [CL_SUCCESS]. *)
Definition tracks_status {E St} (m m' : Run.M E St Z) : Prop :=
  forall s,
    match m s with
    | (Run.Ok err, s', _) =>
        err = CL.CL_SUCCESS ->
        Run.outcome (m' s) = Run.Ok CL.CL_SUCCESS /\ Run.final (m' s) = s'
    | (Run.Exit _, _, _) => True
    | (Run.Fault f, s', _) =>
        Run.outcome (m' s) = Run.Fault f /\ Run.final (m' s) = s'
    end.

End Sim.

(** ** Example 004: the machine on which nothing fails *)

Module Ex004Obliging.
Import CInt Ex004.

(** The machine [e] with every call succeeding and the kernel file in
    place: the platforms whose device count [e] cannot read have no device. *)
Definition obliging (e : env) : env :=
  {| status := fun _ => CL.CL_SUCCESS;
     num_platforms := num_platforms e;
     num_platform_devices := fun p =>
       if to_int (status e (clGetDeviceIDs_count p)) =? CL.CL_SUCCESS
       then num_platform_devices e p else 0;
     kernel_file_opens := true;
     device_name := device_name e;
     build_log := build_log e;
     event_time := event_time e;
     uninitialised := uninitialised e |}.

(** A machine with two platforms: the device count of platform 0 cannot be
    read, platform 1 has two devices; no argument of the kernel of device 1
    can be set. *)
Definition half_working : env :=
  {| status := fun c =>
       match c with
       | clGetDeviceIDs_count 0 => CL.CL_DEVICE_NOT_FOUND
       | clSetKernelArg 1 _ => CL.CL_OUT_OF_HOST_MEMORY
       | _ => CL.CL_SUCCESS
       end;
     num_platforms := 2;
     num_platform_devices := fun _ => 2;
     kernel_file_opens := true;
     device_name := fun _ => "device"%string;
     build_log := fun _ => ""%string;
     event_time := fun _ _ => 0;
     uninitialised := fun _ => 7 |}.

(** The queries whose status [main] does not look at, although it goes on
    to print what they were to write: the device name (lines 30 and 111),
    the build log (lines 131-133) and the time stamps (lines 35-36).  On
    this machine they all succeed, so that what is printed was written
    (the arrays [name] and [build_log] and the variable [time] are not part
    of the memory that is modelled; the runs in which they would be read
    unwritten are left aside by this condition). *)
Definition queries_answered (e : env) : Prop :=
  (forall i, to_int (status e (clGetDeviceInfo i)) = CL.CL_SUCCESS) /\
  (forall i, to_int (status e (clGetProgramBuildInfo i)) = CL.CL_SUCCESS) /\
  (forall i param,
     to_int (status e (clGetEventProfilingInfo i param)) = CL.CL_SUCCESS).

End Ex004Obliging.

(** ** Example 003: the two timed loops *)

Module Ex003Host.
Import CInt CFloat Mem.

(** The literal [1e9], the start value of [minTime]. *)
Definition no_time : double := S754_finite false 8388608000000000 (-23).

(** [std::min(minTime, elapsed)]: [elapsed] when [elapsed < minTime]. *)
Definition min_time (minTime elapsed : double) : double :=
  if dlt elapsed minTime then elapsed else minTime.

(** [[
    double vectorAddCPU(a, b, result, int iterations = 5) {
        double minTime = 1e9;
        for (int iter = 0; iter < iterations; iter++) {
            for (size_t i = 0; i < a.size(); i++) { result[i] = a[i] + b[i]; }
            minTime = std::min(minTime, elapsed);
        }
        return minTime;
    }
    ]]
    [elapsed iter] is the time that the clock measures in round [iter];
    the inner loop is the one of example 002. *)
Definition vectorAddCPU (elapsed : Z -> double) (a b result : list float)
    (iterations : Z) : option (list float * double) :=
  Mem.for_items (fun iter (st : list float * double) =>
      result' ← Ex002Host.vectorAddCPU a b st.1;
      Some (result', min_time st.2 (elapsed iter)))
    (seqZ 0 iterations) (result, no_time).

(** What [vectorAddOpenCL] works on: the buffer [bufferResult] of the
    device, the vector [result] of the host, and [minTime]. *)
Record timed := {
  bufferResult : list float;
  result : list float;
  minTime : double
}.

(** One round of the loop of [vectorAddOpenCL]: the inputs are written to
    the device, the kernel is launched over [n] work-items, and the result
    is read back in the first round only.
    [[
    if (iter == 0) { clEnqueueReadBuffer(queue, bufferResult, CL_TRUE, 0,
                                         n * sizeof(float), result.data(), ...); }
    ]] *)
Definition opencl_round (elapsed : Z -> double) (a b : list float) (iter : Z)
    (st : timed) : option timed :=
  buffer ← Ex002Host.enqueue_vector_add a b (bufferResult st);
  let minTime := min_time (minTime st) (elapsed iter) in
  if iter =? 0 then
    result' ← Mem.copy buffer 0 (result st) 0 (Z.of_nat (length a));
    Some {| bufferResult := buffer; result := result'; minTime := minTime |}
  else
    Some {| bufferResult := buffer; result := result st; minTime := minTime |}.

(** [double vectorAddOpenCL(a, b, result, device, context, program,
    int iterations = 5)], all its OpenCL calls succeeding; [buffer] is what
    the new buffer [bufferResult] holds. *)
Definition vectorAddOpenCL (elapsed : Z -> double) (a b result buffer : list float)
    (iterations : Z) : option (list float * double) :=
  st ← Mem.for_items (opencl_round elapsed a b) (seqZ 0 iterations)
         {| bufferResult := buffer; result := result; minTime := no_time |};
  Some (Ex003Host.result st, Ex003Host.minTime st).

End Ex003Host.

(** ** Example 004: the place of an event in the text of [main] *)

Module Ex004Places.
Import CInt Ex004.

(** A place in the text of [main]: the phase, the round of the loop of
    that phase (the platform or the device it is run for), and the
    statement within the round.  Places are compared in this order. *)
Definition place : Type := Z * Z * Z.

Definition place_le (a b : place) : Prop :=
  a.1.1 < b.1.1 \/
  (a.1.1 = b.1.1 /\ (a.1.2 < b.1.2 \/ (a.1.2 = b.1.2 /\ a.2 <= b.2))).

Definition buffer_index (b : buffer) : Z :=
  match b with BufA => 0 | BufB => 1 | BufC => 2 end.

Definition arg_index (arg : Z) : Z :=
  match arg with 0 => 0 | 1 => 1 | 2 => 2 | _ => 3 end.

(** Where [main] makes a call or prints a line.  The phases:
    - 0, lines 55-62: the platforms are counted and fetched;
    - 1, lines 68-78: the devices of platform [p] are counted and fetched;
    - 2, lines 81-102: the device count and the banner are printed;
    - 3, lines 107-173: device [i] is set up (name, context, queue,
      program, build, kernel, the three buffers, the two writes, the four
      arguments);
    - 4 and 5, lines 175-186: the kernels are launched;
    - 6, lines 189-191: the kernel events are waited for;
    - 7 and 8, lines 193-227: the report, where the time stamps are read
      and the time line and the concurrency analysis are printed;
    - 9, lines 230-237: the chunks are read back;
    - 10 to 12, lines 240-251: the verification is printed;
    - 13, lines 254-263: the objects of device [i] are released;
    - 14, lines 273-274: the prompt;
    - 15: the error exits (lines 10-14, 19-20 and 129-135): the lines on
      [stderr] and the query of the build log. *)
Definition place_of (ev : event) : place :=
  match ev with
  | Call c =>
      match c with
      | clGetPlatformIDs_count => (0, 0, 0)
      | clGetPlatformIDs => (0, 0, 1)
      | clGetDeviceIDs_count p => (1, p, 0)
      | clGetDeviceIDs p => (1, p, 1)
      | clGetDeviceInfo i => (3, i, 0)
      | clCreateContext i => (3, i, 2)
      | clCreateCommandQueueWithProperties i => (3, i, 3)
      | clCreateProgramWithSource i => (3, i, 4)
      | clBuildProgram i => (3, i, 5)
      | clCreateKernel i => (3, i, 6)
      | clCreateBuffer i b _ => (3, i, 7 + buffer_index b)
      | clEnqueueWriteBuffer i b _ _ => (3, i, 10 + buffer_index b)
      | clSetKernelArg i arg => (3, i, 12 + arg_index arg)
      | clEnqueueNDRangeKernel i _ => (5, i, 0)
      | clWaitForEvents i => (6, i, 0)
      | clGetEventProfilingInfo _ _ => (8, 0, 0)
      | clEnqueueReadBuffer i _ _ => (9, i, 0)
      | clReleaseMemObject i b => (13, i, buffer_index b)
      | clReleaseKernel i => (13, i, 3)
      | clReleaseProgram i => (13, i, 4)
      | clReleaseCommandQueue i => (13, i, 5)
      | clReleaseContext i => (13, i, 6)
      | clReleaseEvent i => (13, i, 7)
      | clGetProgramBuildInfo _ => (15, 0, 0)
      end
  | Stdout m =>
      match m with
      | MsgFoundPlatforms _ => (0, 0, 2)
      | MsgFoundDevices _ => (2, 0, 0)
      | MsgBanner _ _ => (2, 0, 1)
      | MsgSettingUp i _ => (3, i, 1)
      | MsgLaunching => (4, 0, 0)
      | MsgTimeline => (7, 0, 0)
      | MsgDevice _ _ _ _ _ | MsgTotal _ | MsgConcurrency | MsgOverlap _ _ _ =>
          (8, 0, 0)
      | MsgVerification => (10, 0, 0)
      | MsgMismatch _ _ _ | MsgSum _ _ _ => (11, 0, 0)
      | MsgPassed | MsgFailed => (12, 0, 0)
      | MsgPressKey => (14, 0, 0)
      | MsgError _ _ | MsgKernelFile _ | MsgBuildError _ _ => (15, 0, 0)
      end
  | Getchar => (14, 0, 1)
  | Stderr _ => (15, 0, 0)
  end.

Definition placed (ev : event) : option place := Some (place_of ev).

(** The place of the error exits. *)
Definition error_exit (k : place) : Prop := k = (15, 0, 0).

(** A list of places is in order, between [lo] and [hi]. *)
Definition within (lo hi : place) (l : list place) : Prop :=
  StronglySorted place_le l /\
  Forall (fun k => place_le lo k /\ place_le k hi) l.

(** The places of a run of [main] in which nothing fails, in the order of
    the program text. *)
Definition discovery_places (e : env) (p : Z) : list place :=
  (1, p, 0) ::
  (if (to_int (status e (clGetDeviceIDs_count p)) =? CL.CL_SUCCESS)
      && (0 <? to_uint (num_platform_devices e p))
   then [(1, p, 1)] else []).

Definition setup_places (i : Z) : list place := (fun k => (3, i, k)) <$> seqZ 0 16.

Definition release_places (i : Z) : list place := (fun k => (13, i, k)) <$> seqZ 0 8.

Definition report_places (num_devices : Z) : list place :=
  (seqZ 0 num_devices ≫= fun _ => [(8, 0, 0); (8, 0, 0); (8, 0, 0)]) ++
  [(8, 0, 0); (8, 0, 0)] ++
  (seqZ 0 num_devices ≫= fun i =>
     seqZ (uint_add i 1) (num_devices - uint_add i 1) ≫= fun _ =>
       [(8, 0, 0); (8, 0, 0); (8, 0, 0); (8, 0, 0); (8, 0, 0)]).

Definition device_places (num_devices : Z) : list place :=
  [(2, 0, 1)] ++
  (seqZ 0 num_devices ≫= setup_places) ++
  [(4, 0, 0)] ++
  (seqZ 0 num_devices ≫= fun i => [(5, i, 0)]) ++
  (seqZ 0 num_devices ≫= fun i => [(6, i, 0)]) ++
  [(7, 0, 0)] ++
  report_places num_devices ++
  (seqZ 0 num_devices ≫= fun i => [(9, i, 0)]) ++
  [(10, 0, 0)] ++
  (seqZ 0 10 ≫= fun _ => [(11, 0, 0)]) ++
  [(12, 0, 0)] ++
  (seqZ 0 num_devices ≫= release_places) ++
  [(14, 0, 0); (14, 0, 1)].

Definition places (array_size : Z) (e : env) : list place :=
  [(0, 0, 0); (0, 0, 1); (0, 0, 2)] ++
  (seqZ 0 (to_uint (num_platforms e)) ≫= discovery_places e) ++
  [(2, 0, 0)] ++
  match chunk_size_of array_size (devices_found e) with
  | Some _ => device_places (devices_found e)
  | None => []
  end.

(** A machine with one platform of two devices on which every call
    succeeds. *)
Definition two_devices : env := quiet_env 1 (fun _ => 2).

End Ex004Places.

(* ===================================================================== *)
(** * Theorems *)
(* ===================================================================== *)

Module CIntFacts.
Import CInt.

Lemma to_int_small z : is_int z -> to_int z = z.
Proof. unfold is_int, INT_MAX, to_int. intros H. rewrite Z.mod_small; lia. Qed.

Lemma to_uint_small z : is_uint z -> to_uint z = z.
Proof. unfold is_uint, UINT_MAX, to_uint. intros H. rewrite Z.mod_small; lia. Qed.

Lemma to_int_range z : is_int (to_int z).
Proof.
  unfold is_int, INT_MAX, to_int.
  pose proof (Z.mod_pos_bound (z + 2147483648) 4294967296). lia.
Qed.

Lemma to_uint_range z : is_uint (to_uint z).
Proof.
  unfold is_uint, UINT_MAX, to_uint.
  pose proof (Z.mod_pos_bound z 4294967296). lia.
Qed.

End CIntFacts.

(** ** Example 004: the chunks partition the array *)

Module Ex004Split.
Import CInt CIntFacts Ex004.

Lemma sum_list_app l1 l2 : sum_list (l1 ++ l2) = sum_list l1 + sum_list l2.
Proof. unfold sum_list. induction l1 as [|x l1 IH]; simpl; lia. Qed.

Lemma sum_list_const (c : Z) (l : list Z) :
  Forall (fun x => x = c) l -> sum_list l = Z.of_nat (length l) * c.
Proof.
  unfold sum_list. induction 1 as [|x l Hx _ IH]; simpl; [lia|].
  rewrite IH, Hx. lia.
Qed.

Section Split.
Variables array_size num_devices : Z.
Hypothesis Hsize : 0 <= array_size <= INT_MAX.
Hypothesis Hdev : 1 <= num_devices <= UINT_MAX.

Let cs := array_size / num_devices.

Lemma cs_bounds : 0 <= cs /\ num_devices * cs <= array_size < num_devices * cs + num_devices.
Proof.
  unfold cs. split; [apply Z.div_pos; lia|].
  pose proof (Z.div_mod array_size num_devices ltac:(lia)).
  pose proof (Z.mod_pos_bound array_size num_devices ltac:(lia)). lia.
Qed.

Lemma chunk_size_of_div : chunk_size_of array_size num_devices = Some cs.
Proof.
  unfold chunk_size_of. destruct (Z.eqb_spec num_devices 0) as [?|_]; [lia|].
  unfold INT_MAX, UINT_MAX in *.
  rewrite to_uint_small by (unfold is_uint, UINT_MAX; lia).
  rewrite to_int_small; [done|].
  pose proof cs_bounds. unfold is_int, INT_MAX. fold cs. nia.
Qed.

Lemma offset_of_mul i : 0 <= i < num_devices -> offset_of cs i = i * cs.
Proof.
  intros Hi. pose proof cs_bounds as [? ?].
  unfold INT_MAX, UINT_MAX in *.
  assert (0 <= i * cs <= array_size) by nia.
  unfold offset_of, uint_mul.
  rewrite (to_uint_small i), (to_uint_small cs) by (unfold is_uint, UINT_MAX; nia).
  rewrite to_uint_small by (unfold is_uint, UINT_MAX; lia).
  apply to_int_small. unfold is_int, INT_MAX. lia.
Qed.

Lemma size_of_cases i :
  0 <= i < num_devices ->
  size_of array_size num_devices cs i =
    if i =? num_devices - 1 then array_size - (num_devices - 1) * cs else cs.
Proof.
  intros Hi. pose proof cs_bounds as [? ?].
  unfold INT_MAX, UINT_MAX in *.
  unfold size_of, uint_sub.
  rewrite (to_uint_small num_devices), (to_uint_small 1)
    by (unfold is_uint, UINT_MAX; lia).
  rewrite to_uint_small by (unfold is_uint, UINT_MAX; lia).
  destruct (Z.eqb_spec i (num_devices - 1)) as [->|_]; [|done].
  rewrite offset_of_mul by lia. unfold int_sub.
  apply to_int_small. unfold is_int, INT_MAX. nia.
Qed.

Lemma size_of_nonneg i :
  0 <= i < num_devices -> 0 <= size_of array_size num_devices cs i.
Proof.
  intros Hi. rewrite size_of_cases by done. pose proof cs_bounds as [? ?].
  destruct (Z.eqb_spec i (num_devices - 1)); nia.
Qed.

Lemma chunk_end i :
  0 <= i < num_devices ->
  offset_of cs i + size_of array_size num_devices cs i =
    if i =? num_devices - 1 then array_size else (i + 1) * cs.
Proof.
  intros Hi. rewrite offset_of_mul, size_of_cases by done.
  destruct (Z.eqb_spec i (num_devices - 1)) as [->|_]; lia.
Qed.

Lemma sizes_sum :
  sum_list ((chunks array_size num_devices cs).*2) = array_size.
Proof.
  unfold chunks. rewrite <- list_fmap_compose.
  replace num_devices with ((num_devices - 1) + 1) at 2 by lia.
  rewrite seqZ_app by lia. rewrite fmap_app, sum_list_app.
  rewrite (sum_list_const cs).
  - rewrite length_fmap, length_seqZ.
    rewrite seqZ_cons, seqZ_nil by lia. simpl.
    rewrite size_of_cases by lia.
    rewrite Z.eqb_refl, Z2Nat.id by lia. unfold sum_list. simpl. lia.
  - apply Forall_fmap, Forall_seqZ. intros i Hi. simpl.
    rewrite size_of_cases by lia.
    destruct (Z.eqb_spec i (num_devices - 1)); [lia|done].
Qed.

Lemma in_chunk_range i k :
  0 <= i < num_devices ->
  in_chunk (chunk array_size num_devices cs i) k -> 0 <= k < array_size.
Proof.
  intros Hi. unfold in_chunk, chunk. simpl.
  rewrite chunk_end by done. rewrite offset_of_mul by done.
  pose proof cs_bounds as [? ?].
  destruct (Z.eqb_spec i (num_devices - 1)); nia.
Qed.

Lemma in_chunk_device i k :
  0 <= i < num_devices ->
  in_chunk (chunk array_size num_devices cs i) k ->
  i = if k <? (num_devices - 1) * cs then k / cs else num_devices - 1.
Proof.
  intros Hi. unfold in_chunk, chunk. simpl.
  rewrite chunk_end by done. rewrite offset_of_mul by done.
  pose proof cs_bounds as [? ?].
  destruct (Z.eqb_spec i (num_devices - 1)) as [->|Hne]; intros Hk.
  - destruct (Z.ltb_spec k ((num_devices - 1) * cs)); lia.
  - destruct (Z.ltb_spec k ((num_devices - 1) * cs)); [|nia].
    assert (0 < cs) by nia.
    apply Z.div_unique with (r := k - i * cs); lia.
Qed.

Lemma chunk_covers k :
  0 <= k < array_size ->
  exists i, 0 <= i < num_devices /\ in_chunk (chunk array_size num_devices cs i) k.
Proof.
  intros Hk. pose proof cs_bounds as [? ?].
  destruct (Z.ltb_spec k ((num_devices - 1) * cs)) as [Hlt|Hge].
  - assert (0 < cs) by nia.
    pose proof (Z.div_mod k cs ltac:(lia)).
    pose proof (Z.mod_pos_bound k cs ltac:(lia)).
    assert (0 <= k / cs < num_devices - 1) by (split; [apply Z.div_pos; lia|nia]).
    exists (k / cs). split; [lia|].
    unfold in_chunk, chunk. simpl. rewrite chunk_end, offset_of_mul by lia.
    destruct (Z.eqb_spec (k / cs) (num_devices - 1)); lia.
  - exists (num_devices - 1). split; [lia|].
    unfold in_chunk, chunk. simpl. rewrite chunk_end, offset_of_mul by lia.
    rewrite Z.eqb_refl. lia.
Qed.

End Split.

(** C1.  For every device count [num_devices >= 1] (a [cl_uint]) the chunk
    size is [ARRAY_SIZE / num_devices]; device [i] gets the offset
    [i * chunk_size] and the size [chunk_size], the last device the size
    [ARRAY_SIZE - (num_devices - 1) * chunk_size]; the sizes are not negative
    and sum to [ARRAY_SIZE = 16777216]; two different devices never share an
    index; and the indices covered by the chunks are exactly
    [0 .. ARRAY_SIZE - 1]. *)
Theorem chunks_partition_array (num_devices : Z) :
  1 <= num_devices <= UINT_MAX ->
  exists chunk_size,
    chunk_size_of ARRAY_SIZE num_devices = Some chunk_size /\
    chunk_size = ARRAY_SIZE / num_devices /\
    ARRAY_SIZE = 16777216 /\
    (forall i, 0 <= i < num_devices ->
       chunk ARRAY_SIZE num_devices chunk_size i =
         (i * chunk_size,
          if i =? num_devices - 1
          then ARRAY_SIZE - (num_devices - 1) * chunk_size else chunk_size) /\
       0 <= (chunk ARRAY_SIZE num_devices chunk_size i).2) /\
    sum_list ((chunks ARRAY_SIZE num_devices chunk_size).*2) = ARRAY_SIZE /\
    (forall i j k, 0 <= i < num_devices -> 0 <= j < num_devices ->
       in_chunk (chunk ARRAY_SIZE num_devices chunk_size i) k ->
       in_chunk (chunk ARRAY_SIZE num_devices chunk_size j) k -> i = j) /\
    (forall k,
       (exists i, 0 <= i < num_devices /\
                  in_chunk (chunk ARRAY_SIZE num_devices chunk_size i) k) <->
       0 <= k < ARRAY_SIZE).
Proof.
  intros Hdev.
  assert (Hsize : 0 <= ARRAY_SIZE <= INT_MAX) by (unfold ARRAY_SIZE, INT_MAX; lia).
  exists (ARRAY_SIZE / num_devices).
  split; [by apply chunk_size_of_div|]. split; [done|]. split; [done|].
  split; [|split; [|split]].
  - intros i Hi. split.
    + unfold chunk. by rewrite offset_of_mul, size_of_cases.
    + by apply size_of_nonneg.
  - by apply sizes_sum.
  - intros i j k Hi Hj Hki Hkj.
    rewrite (in_chunk_device _ _ Hsize Hdev i k Hi Hki).
    by rewrite (in_chunk_device _ _ Hsize Hdev j k Hj Hkj).
  - intros k. split.
    + intros (i & Hi & Hk). by eapply in_chunk_range.
    + by apply chunk_covers.
Qed.

Lemma chunks_partition_array_witness :
  exists chunk_size,
    chunk_size_of ARRAY_SIZE 3 = Some chunk_size /\ chunk_size = 5592405.
Proof.
  destruct (chunks_partition_array 3 ltac:(unfold UINT_MAX; lia))
    as (c & Hc & Hdiv & _).
  exists c. split; [exact Hc|]. rewrite Hdiv. reflexivity.
Defined.

End Ex004Split.

(** ** Arrays: what [load], [store] and [copy] do *)

Module MemFacts.
Import Mem.

Section Facts.
Context {T : Type}.
Implicit Types l src dst : list T.

Lemma load_Some l i x :
  load l i = Some x <-> 0 <= i /\ l !! Z.to_nat i = Some x.
Proof. unfold load. destruct (Z.ltb_spec i 0); naive_solver lia. Qed.

Lemma load_in_range l i : 0 <= i < Z.of_nat (length l) -> is_Some (load l i).
Proof.
  intros Hi. unfold load. destruct (Z.ltb_spec i 0); [lia|].
  apply lookup_lt_is_Some. lia.
Qed.

Lemma load_out_of_range l i :
  i < 0 \/ Z.of_nat (length l) <= i -> load l i = None.
Proof.
  intros Hi. unfold load. destruct (Z.ltb_spec i 0); [done|].
  apply lookup_ge_None. lia.
Qed.

Lemma load_is_Some_range l i : is_Some (load l i) -> 0 <= i < Z.of_nat (length l).
Proof.
  intros [x Hx]. apply load_Some in Hx as [? Hx].
  apply lookup_lt_Some in Hx. lia.
Qed.

(** Two arrays with the same elements are the same array. *)
Lemma load_ext l1 l2 : (forall i, load l1 i = load l2 i) -> l1 = l2.
Proof.
  intros Heq. apply list_eq. intros n. specialize (Heq (Z.of_nat n)).
  unfold load in Heq. destruct (Z.ltb_spec (Z.of_nat n) 0); [lia|].
  by rewrite Nat2Z.id in Heq.
Qed.

Lemma store_in_range l i v :
  0 <= i < Z.of_nat (length l) -> store l i v = Some (<[Z.to_nat i := v]> l).
Proof.
  intros Hi. unfold store.
  destruct (Z.leb_spec 0 i); [|lia].
  destruct (Z.ltb_spec i (Z.of_nat (length l))); [done|lia].
Qed.

Lemma store_Some l i v l' :
  store l i v = Some l' ->
  0 <= i < Z.of_nat (length l) /\ l' = <[Z.to_nat i := v]> l.
Proof.
  unfold store. destruct (Z.leb_spec 0 i); [|done].
  destruct (Z.ltb_spec i (Z.of_nat (length l))); [|done].
  intros [= <-]. split; [lia|done].
Qed.

Lemma load_insert l i j v :
  0 <= i < Z.of_nat (length l) ->
  load (<[Z.to_nat i := v]> l) j = if j =? i then Some v else load l j.
Proof.
  intros Hi. unfold load. destruct (Z.eqb_spec j i) as [->|Hne].
  - destruct (Z.ltb_spec i 0); [lia|]. apply list_lookup_insert_eq. lia.
  - destruct (Z.ltb_spec j 0); [done|]. apply list_lookup_insert_ne. lia.
Qed.

Lemma copy_Some src src_off dst dst_off n :
  0 <= n -> 0 <= src_off -> src_off + n <= Z.of_nat (length src) ->
  0 <= dst_off -> dst_off + n <= Z.of_nat (length dst) ->
  exists r, copy src src_off dst dst_off n = Some r /\
    length r = length dst /\
    forall k, load r k =
      if (dst_off <=? k) && (k <? dst_off + n)
      then load src (src_off + (k - dst_off)) else load dst k.
Proof.
  intros Hn Hso Hsrc Hdo Hdst. unfold copy.
  destruct (Z.leb_spec 0 n); [|lia]. destruct (Z.leb_spec 0 src_off); [|lia].
  destruct (Z.leb_spec (src_off + n) (Z.of_nat (length src))); [|lia].
  destruct (Z.leb_spec 0 dst_off); [|lia].
  destruct (Z.leb_spec (dst_off + n) (Z.of_nat (length dst))); [|lia].
  simpl. eexists. split; [done|].
  assert (Hlen1 : length (take (Z.to_nat dst_off) dst) = Z.to_nat dst_off)
    by (rewrite length_take; lia).
  assert (Hlen2 : length (take (Z.to_nat n) (drop (Z.to_nat src_off) src)) = Z.to_nat n)
    by (rewrite length_take, length_drop; lia).
  split.
  - rewrite !length_app, Hlen1, Hlen2, length_drop. lia.
  - intros k. unfold load. destruct (Z.ltb_spec k 0) as [Hneg|Hpos].
    { destruct (Z.leb_spec dst_off k); [lia|]. simpl. done. }
    destruct (Z.leb_spec dst_off k) as [Hge|Hlt]; simpl.
    + rewrite lookup_app_r by lia. rewrite Hlen1.
      destruct (Z.ltb_spec k (dst_off + n)) as [Hin|Hout].
      * rewrite lookup_app_l by lia. rewrite lookup_take_lt by lia.
        rewrite lookup_drop. destruct (Z.ltb_spec (src_off + (k - dst_off)) 0); [lia|].
        f_equal. lia.
      * rewrite lookup_app_r by lia. rewrite Hlen2, lookup_drop. f_equal. lia.
    + rewrite lookup_app_l by lia. by rewrite lookup_take_lt by lia.
Qed.

End Facts.

Lemma load_fmap {T U} (f : T -> U) (l : list T) i :
  load (f <$> l) i = f <$> load l i.
Proof. unfold load. destruct (i <? 0); [done|]. apply list_lookup_fmap. Qed.

Lemma load_seqZ lo len i :
  load (seqZ lo len) i = if (0 <=? i) && (i <? len) then Some (lo + i) else None.
Proof.
  unfold load. destruct (Z.ltb_spec i 0) as [Hneg|Hpos].
  { destruct (Z.leb_spec 0 i); [lia|done]. }
  destruct (Z.leb_spec 0 i); [|lia]. simpl.
  destruct (Z.ltb_spec i len).
  - rewrite lookup_seqZ_lt by lia. f_equal. lia.
  - apply lookup_seqZ_ge. lia.
Qed.

Lemma load_zip_with {T U V} (f : T -> U -> V) (l1 : list T) (l2 : list U) i :
  load (zip_with f l1 l2) i =
    match load l1 i, load l2 i with
    | Some x, Some y => Some (f x y)
    | _, _ => None
    end.
Proof.
  unfold load. destruct (i <? 0); [done|]. rewrite lookup_zip_with.
  destruct (l1 !! Z.to_nat i); [|done]. simpl. by destruct (l2 !! Z.to_nat i).
Qed.

End MemFacts.

(** ** Running a program: the rules used to follow a run step by step *)

Module RunFacts.
Import Run.

Section Rules.
Context {E St : Type}.
Implicit Types s : St.

Local Abbreviation triple := (@triple E St).
Local Abbreviation silent := (@silent E St).

Lemma bind_ok {A B} (m : M E St A) (k : A -> M E St B) s a s1 t1 r s2 t2 :
  m s = (Ok a, s1, t1) -> k a s1 = (r, s2, t2) ->
  (m ≫= k) s = (r, s2, t1 ++ t2).
Proof.
  intros Hm Hk. unfold mbind, M_bind, bind. by rewrite Hm, Hk.
Qed.

Lemma bind_exit {A B} (m : M E St A) (k : A -> M E St B) s c s1 t1 :
  m s = (Exit c, s1, t1) -> (m ≫= k) s = (Exit c, s1, t1).
Proof. intros Hm. unfold mbind, M_bind, bind. by rewrite Hm. Qed.

Lemma bind_fault {A B} (m : M E St A) (k : A -> M E St B) s f s1 t1 :
  m s = (Fault f, s1, t1) -> (m ≫= k) s = (Fault f, s1, t1).
Proof. intros Hm. unfold mbind, M_bind, bind. by rewrite Hm. Qed.

Lemma ret_run {A} (a : A) s : (mret a : M E St A) s = (Ok a, s, []).
Proof. reflexivity. Qed.

(** What a run of [m ≫= k] that ends well is made of. *)
Lemma bind_ok_inv {A B} (m : M E St A) (k : A -> M E St B) s b s2 t :
  (m ≫= k) s = (Ok b, s2, t) ->
  exists a s1 t1 t2,
    m s = (Ok a, s1, t1) /\ k a s1 = (Ok b, s2, t2) /\ t = t1 ++ t2.
Proof.
  unfold mbind, M_bind, bind.
  destruct (m s) as [[[a|c|f] s1] t1]; [|done..].
  destruct (k a s1) as [[r s2'] t2] eqn:Hk. intros [= -> -> <-].
  by exists a, s1, t1, t2.
Qed.

(** *** Total correctness triples for the runs that end well *)

Lemma triple_ret {A} (a : A) (Q : A -> St -> Prop) :
  triple (Q a) (mret a) Q.
Proof. intros s Hs. by exists a, s, []. Qed.

Lemma triple_bind {A B} (P : St -> Prop) (R : A -> St -> Prop)
    (Q : B -> St -> Prop) (m : M E St A) (k : A -> M E St B) :
  triple P m R -> (forall a, triple (R a) (k a) Q) -> triple P (m ≫= k) Q.
Proof.
  intros Hm Hk s Hs. destruct (Hm s Hs) as (a & s1 & t1 & Hrun & HR).
  destruct (Hk a s1 HR) as (b & s2 & t2 & Hrun2 & HQ).
  exists b, s2, (t1 ++ t2). split; [|done]. by eapply bind_ok.
Qed.

Lemma triple_weaken {A} (P P' : St -> Prop) (Q Q' : A -> St -> Prop) (m : M E St A) :
  triple P' m Q' -> (forall s, P s -> P' s) -> (forall a s, Q' a s -> Q a s) ->
  triple P m Q.
Proof.
  intros Hm HP HQ s Hs. destruct (Hm s (HP s Hs)) as (a & s' & t & Hrun & H).
  exists a, s', t. eauto.
Qed.

Lemma triple_emit (e : E) (P : St -> Prop) :
  triple P (emit e) (fun _ => P).
Proof. intros s Hs. by exists tt, s, [e]. Qed.

Lemma triple_modify (f : St -> St) (Q : St -> Prop) :
  triple (fun s => Q (f s)) (modify f) (fun _ => Q).
Proof. intros s Hs. by exists tt, (f s), []. Qed.

Lemma triple_get (P : St -> Prop) :
  triple P get (fun a s => a = s /\ P s).
Proof. intros s Hs. by exists s, s, []. Qed.

Lemma triple_defined {A} (o : option A) (P : St -> Prop) (a : A) :
  o = Some a -> triple P (defined o) (fun a' s => a' = a /\ P s).
Proof. intros -> s Hs. by exists a, s, []. Qed.

(** The loop rule: [I i] holds before the round of index [i]. *)
Lemma triple_for_fold {A} (I : Z -> A -> St -> Prop) (body : Z -> A -> M E St A)
    (lo len : Z) (a : A) :
  0 <= len ->
  (forall i a, lo <= i < lo + len ->
     triple (I i a) (body i a) (fun a' => I (i + 1) a')) ->
  triple (I lo a) (for_fold (seqZ lo len) body a) (fun a' => I (lo + len) a').
Proof.
  intros Hlen. rewrite <- (Z2Nat.id len) by done.
  generalize (Z.to_nat len) as n. clear Hlen len. intros n. revert lo a.
  induction n as [|n IH]; intros lo a Hbody.
  - change (Z.of_nat 0) with 0. rewrite seqZ_nil, Z.add_0_r by lia.
    apply triple_ret.
  - rewrite seqZ_cons by lia. simpl.
    eapply (triple_bind _ (fun a' => I (lo + 1) a')).
    + apply Hbody. lia.
    + intros a'. replace (Z.pred (Z.of_nat (S n))) with (Z.of_nat n) by lia.
      replace (lo + Z.of_nat (S n)) with (Z.succ lo + Z.of_nat n) by lia.
      replace (lo + 1) with (Z.succ lo) by lia.
      apply IH. intros i a0 Hi. apply Hbody. lia.
Qed.

Lemma triple_for_each (I : Z -> St -> Prop) (body : Z -> M E St unit) (lo len : Z) :
  0 <= len ->
  (forall i, lo <= i < lo + len ->
     triple (I i) (body i) (fun _ => I (i + 1))) ->
  triple (I lo) (for_each (seqZ lo len) body) (fun _ => I (lo + len)).
Proof.
  intros Hlen Hbody. unfold for_each.
  apply (triple_for_fold (fun i _ => I i)); [done|].
  intros i _ Hi. by apply Hbody.
Qed.

(** *** Computations that end well and leave the state as it is *)

Lemma silent_ret {A} (a : A) : silent (mret a).
Proof. intros s. by exists a, []. Qed.

Lemma silent_emit (e : E) : silent (emit e).
Proof. intros s. by exists tt, [e]. Qed.

Lemma silent_bind {A B} (m : M E St A) (k : A -> M E St B) :
  silent m -> (forall a, silent (k a)) -> silent (m ≫= k).
Proof.
  intros Hm Hk s. destruct (Hm s) as (a & t1 & Hrun).
  destruct (Hk a s) as (b & t2 & Hrun2).
  exists b, (t1 ++ t2). by eapply bind_ok.
Qed.

Lemma silent_for_fold {A} (l : list Z) (body : Z -> A -> M E St A) (a : A) :
  (forall i a, silent (body i a)) -> silent (for_fold l body a).
Proof.
  intros Hbody. revert a. induction l as [|i l IH]; intros a.
  - apply silent_ret.
  - cbn [for_fold]. change (bind ?m ?k) with (m ≫= k).
    apply silent_bind; [apply Hbody|apply IH].
Qed.

Lemma silent_for_each (l : list Z) (body : Z -> M E St unit) :
  (forall i, silent (body i)) -> silent (for_each l body).
Proof. intros Hbody. apply silent_for_fold. intros i _. apply Hbody. Qed.

Lemma silent_triple {A} (m : M E St A) (P : St -> Prop) :
  silent m -> triple P m (fun _ => P).
Proof.
  intros Hm s Hs. destruct (Hm s) as (a & t & Hrun). by exists a, s, t.
Qed.

Lemma triple_assume {A} (φ : Prop) (P : St -> Prop) (m : M E St A)
    (Q : A -> St -> Prop) :
  (φ -> triple P m Q) -> triple (fun s => φ /\ P s) m Q.
Proof. intros Hm s [Hφ Hs]. by apply Hm. Qed.

(** A run that is known equation-wise gives a triple. *)
Lemma triple_run {A} (m : M E St A) (P : St -> Prop) (Q : A -> St -> Prop) :
  (forall s, P s -> exists a s' t, m s = (Ok a, s', t) /\ Q a s') -> triple P m Q.
Proof. done. Qed.

End Rules.

(** *** The visible events of a run against a schedule *)

Section Schedule.
Context {E St X : Type} (see : E -> option X) (diag : X -> Prop).

Local Abbreviation follows := (@follows E St X see diag).

Lemma stopped_nil (L : list X) :
  exists p d : list X, [] = p ++ d /\ p `prefix_of` L /\ Forall diag d.
Proof. exists [], []. split; [done|]. split; [apply prefix_nil|done]. Qed.

Lemma follows_ret {A} (a : A) : follows (mret a) [] (fun a' => a' = a).
Proof. intros s. done. Qed.

Lemma follows_emit_seen (e : E) (x : X) :
  see e = Some x -> follows (emit e) [x] (fun _ => True).
Proof. intros He s. simpl. by rewrite He. Qed.

Lemma follows_emit_unseen (e : E) :
  see e = None -> follows (emit e) [] (fun _ => True).
Proof. intros He s. simpl. by rewrite He. Qed.

Lemma follows_exit {A} (c : Z) (L : list X) (Q : A -> Prop) :
  follows (exit c) L Q.
Proof. intros s. apply stopped_nil. Qed.

Lemma follows_raise {A} (f : fault) (L : list X) (Q : A -> Prop) :
  follows (raise f) L Q.
Proof. intros s. apply stopped_nil. Qed.

Lemma follows_get : follows (get : M E St St) [] (fun _ => True).
Proof. intros s. done. Qed.

Lemma follows_modify (f : St -> St) : follows (modify f) [] (fun _ => True).
Proof. intros s. done. Qed.

Lemma follows_defined {A} (o : option A) : follows (defined o) [] (fun _ => True).
Proof. intros s. destruct o; [done|apply stopped_nil]. Qed.

Lemma follows_weaken {A} (m : M E St A) (L : list X) (Q Q' : A -> Prop) :
  follows m L Q -> (forall a, Q a -> Q' a) -> follows m L Q'.
Proof.
  intros Hm HQ s. specialize (Hm s).
  destruct (m s) as [[[a| |] s1] t]; [|done..]. naive_solver.
Qed.

Lemma follows_bind {A B} (m : M E St A) (k : A -> M E St B)
    (L1 L2 : list X) (Q : A -> Prop) (R : B -> Prop) :
  follows m L1 Q -> (forall a, Q a -> follows (k a) L2 R) ->
  follows (m ≫= k) (L1 ++ L2) R.
Proof.
  intros Hm Hk s. specialize (Hm s). unfold mbind, M_bind, bind.
  destruct (m s) as [[[a|c|f] s1] t1].
  - destruct Hm as [Hseen HQ]. specialize (Hk a HQ s1).
    destruct (k a s1) as [[[b|c|f] s2] t2]; rewrite omap_app, Hseen.
    + destruct Hk as [-> HR]. done.
    + destruct Hk as (p & d & -> & Hp & Hd). exists (L1 ++ p), d.
      split; [by rewrite app_assoc|]. split; [by apply prefix_app|done].
    + destruct Hk as (p & d & -> & Hp & Hd). exists (L1 ++ p), d.
      split; [by rewrite app_assoc|]. split; [by apply prefix_app|done].
  - destruct Hm as (p & d & -> & Hp & Hd). exists p, d.
    split; [done|]. split; [by apply prefix_app_r|done].
  - destruct Hm as (p & d & -> & Hp & Hd). exists p, d.
    split; [done|]. split; [by apply prefix_app_r|done].
Qed.

(** The same when nothing of the continuation is visible. *)
Lemma follows_bind_nil_r {A B} (m : M E St A) (k : A -> M E St B)
    (L : list X) (Q : A -> Prop) (R : B -> Prop) :
  follows m L Q -> (forall a, Q a -> follows (k a) [] R) ->
  follows (m ≫= k) L R.
Proof.
  intros Hm Hk. rewrite <- (app_nil_r L). by eapply follows_bind.
Qed.

Lemma follows_for_fold {A} (l : list Z) (body : Z -> A -> M E St A)
    (f : Z -> list X) (a : A) :
  (forall i a, i ∈ l -> follows (body i a) (f i) (fun _ => True)) ->
  follows (for_fold l body a) (l ≫= f) (fun _ => True).
Proof.
  revert a. induction l as [|i l IH]; intros a Hbody.
  - intros s. done.
  - cbn [for_fold]. change (bind ?m ?k) with (m ≫= k).
    change ((i :: l) ≫= f) with (f i ++ (l ≫= f)).
    eapply follows_bind; [apply Hbody; by left|].
    intros a' _. apply IH. intros j a'' Hj. apply Hbody. by right.
Qed.

Lemma follows_for_each (l : list Z) (body : Z -> M E St unit) (f : Z -> list X) :
  (forall i, i ∈ l -> follows (body i) (f i) (fun _ => True)) ->
  follows (for_each l body) (l ≫= f) (fun _ => True).
Proof. intros Hbody. apply follows_for_fold. intros i _. apply Hbody. Qed.

(** A part that never ends well and shows only diagnostic events. *)
Lemma follows_diagnostic {A} (m : M E St A) (L : list X) (Q : A -> Prop) :
  (forall s, match m s with
             | (Ok _, _, _) => False
             | (_, _, t) => Forall diag (omap see t)
             end) ->
  follows m L Q.
Proof.
  intros Hm s. specialize (Hm s).
  destruct (m s) as [[[a|c|f] s1] t]; [done| |];
    (exists [], (omap see t); split; [done|]; split; [apply prefix_nil|done]).
Qed.

End Schedule.

(** *** Runs in which every failure that is checked ends the program *)

Section Guard.
Context {E St : Type} (bad diag : E -> Prop).

Local Abbreviation reported := (@reported E diag).
Local Abbreviation guarded := (@guarded E St bad diag).
Local Abbreviation pending := (@pending E St bad diag).
Local Abbreviation exits := (@exits E St diag).

Lemma reported_app t1 t2 : reported t2 -> reported (t1 ++ t2).
Proof.
  intros (t' & d & -> & Hd). exists (t1 ++ t'), d. by rewrite app_assoc.
Qed.

Lemma guarded_ret {A} (a : A) : guarded (mret a).
Proof. intros s. constructor. Qed.

Lemma guarded_emit (e : E) : ~ bad e -> guarded (emit e).
Proof. intros He s. by constructor. Qed.

Lemma guarded_get : guarded (get : M E St St).
Proof. intros s. constructor. Qed.

Lemma guarded_modify (f : St -> St) : guarded (modify f).
Proof. intros s. constructor. Qed.

Lemma guarded_raise {A} (f : fault) : guarded (raise f : M E St A).
Proof. intros s. constructor. Qed.

Lemma guarded_defined {A} (o : option A) : guarded (defined o).
Proof. intros s. destruct o; constructor. Qed.

Lemma guarded_bind {A B} (m : M E St A) (k : A -> M E St B) :
  guarded m -> (forall a, guarded (k a)) -> guarded (m ≫= k).
Proof.
  intros Hm Hk s. specialize (Hm s). unfold mbind, M_bind, bind.
  destruct (m s) as [[[a|c|f] s1] t1]; [|done..].
  specialize (Hk a s1). destruct (k a s1) as [[[b|c|f] s2] t2].
  - by apply Forall_app.
  - destruct Hk as [-> Hrep]. split; [done|by apply reported_app].
  - by apply Forall_app.
Qed.

Lemma guarded_for_fold {A} (l : list Z) (body : Z -> A -> M E St A) (a : A) :
  (forall i a, guarded (body i a)) -> guarded (for_fold l body a).
Proof.
  intros Hbody. revert a. induction l as [|i l IH]; intros a.
  - apply guarded_ret.
  - cbn [for_fold]. change (bind ?m ?k) with (m ≫= k).
    apply guarded_bind; [apply Hbody|apply IH].
Qed.

Lemma guarded_for_each (l : list Z) (body : Z -> M E St unit) :
  (forall i, guarded (body i)) -> guarded (for_each l body).
Proof. intros Hbody. apply guarded_for_fold. intros i _. apply Hbody. Qed.

Lemma exits_guarded {A} (m : M E St A) : exits m -> guarded m.
Proof. intros Hm s. destruct (Hm s) as (s' & t & -> & Hrep). done. Qed.

(** A diagnostic followed by [exit(1)]. *)
Lemma exits_after_diagnostic {A} (d : E) : diag d -> exits (emit d ;; exit 1 : M E St A).
Proof. intros Hd s. exists s, [d]. split; [done|]. by exists [], d. Qed.

Lemma exits_bind {A B} (m : M E St A) (k : A -> M E St B) :
  exits m -> exits (m ≫= k).
Proof.
  intros Hm s. destruct (Hm s) as (s' & t & Hrun & Hrep).
  exists s', t. split; [by apply bind_exit|done].
Qed.

(** A status that is checked: the continuation exits when it is not
    [CL_SUCCESS], and is guarded when it is. *)
Lemma guarded_pending {B} (m : M E St Z) (k : Z -> M E St B) :
  pending m ->
  (forall err, err <> 0 -> exits (k err)) ->
  (forall err, err = 0 -> guarded (k err)) ->
  guarded (m ≫= k).
Proof.
  intros Hm Hfail Hok s. specialize (Hm s). unfold mbind, M_bind, bind.
  destruct (m s) as [[[err|c|f] s1] t1]; [|done..].
  destruct (decide (err = 0)) as [Herr|Herr].
  - specialize (Hok err Herr s1). specialize (Hm Herr).
    destruct (k err s1) as [[[b|c|f] s2] t2].
    + by apply Forall_app.
    + destruct Hok as [-> Hrep]. split; [done|by apply reported_app].
    + by apply Forall_app.
  - destruct (Hfail err Herr s1) as (s2 & t2 & -> & Hrep).
    split; [done|by apply reported_app].
Qed.

(** What a guarded run says about a bad event of its trace. *)
Lemma guarded_bad {A} (m : M E St A) s ev :
  guarded m -> ev ∈ trace (m s) -> bad ev ->
  outcome (m s) = Exit 1 /\ reported (trace (m s)).
Proof.
  intros Hm Hin Hbad. specialize (Hm s). unfold trace, outcome in *.
  destruct (m s) as [[[a|c|f] s1] t]; simpl in *.
  - rewrite Forall_forall in Hm. by destruct (Hm ev Hin).
  - by destruct Hm as [-> ?].
  - rewrite Forall_forall in Hm. by destruct (Hm ev Hin).
Qed.

End Guard.

End RunFacts.

(** ** Example 004: the steps of [main] *)

Module Ex004Steps.
Import CInt CIntFacts Ex004 Run RunFacts.

Lemma call_cl_run e c s :
  call_cl e c s = (Ok (to_int (status e c)), s, [Call c]).
Proof. reflexivity. Qed.

Lemma printf_run m (s : state) : printf m s = (Ok tt, s, [Stdout m]).
Proof. reflexivity. Qed.

Lemma CHECK_ERROR_success err msg (s : state) :
  err = CL.CL_SUCCESS -> CHECK_ERROR err msg s = (Ok tt, s, []).
Proof. intros ->. reflexivity. Qed.

Lemma CHECK_ERROR_failure err msg (s : state) :
  err <> CL.CL_SUCCESS ->
  CHECK_ERROR err msg s = (Exit 1, s, [Stderr (MsgError err msg)]).
Proof.
  intros Herr. unfold CHECK_ERROR.
  destruct (Z.eqb_spec err CL.CL_SUCCESS) as [?|_]; [done|]. reflexivity.
Qed.

(** A platform without devices, or whose device count cannot be read, adds
    nothing to [total_devices]. *)
Lemma discover_platform_skip e p total s :
  to_int (status e (clGetDeviceIDs_count p)) <> CL.CL_SUCCESS \/
  to_uint (num_platform_devices e p) = 0 ->
  discover_platform e p total s = (Ok total, s, [Call (clGetDeviceIDs_count p)]).
Proof.
  intros Hskip. unfold discover_platform.
  erewrite bind_ok; cycle 1.
  - apply call_cl_run.
  - destruct Hskip as [Hst| ->].
    + apply Z.eqb_neq in Hst. rewrite Hst. reflexivity.
    + rewrite andb_false_r. reflexivity.
  - reflexivity.
Qed.

Lemma discover_none e lo len (s : state) :
  (forall p, lo <= p < lo + len ->
     to_int (status e (clGetDeviceIDs_count p)) <> CL.CL_SUCCESS \/
     to_uint (num_platform_devices e p) = 0) ->
  for_fold (seqZ lo len) (discover_platform e) 0 s =
    (Ok 0, s, (fun p => Call (clGetDeviceIDs_count p)) <$> seqZ lo len).
Proof.
  destruct (Z.le_gt_cases len 0) as [Hle|Hgt].
  { intros _. by rewrite seqZ_nil. }
  rewrite <- (Z2Nat.id len) by lia. generalize (Z.to_nat len) as n.
  clear Hgt. intros n. revert lo.
  induction n as [|n IH]; intros lo Hskip.
  - change (Z.of_nat 0) with 0. by rewrite seqZ_nil.
  - rewrite seqZ_cons by lia. cbn [for_fold fmap list_fmap].
    replace (Z.pred (Z.of_nat (S n))) with (Z.of_nat n) by lia.
    change (bind ?m ?k) with (m ≫= k).
    erewrite bind_ok; cycle 1.
    + apply discover_platform_skip, Hskip. lia.
    + apply IH. intros p Hp. apply Hskip. lia.
    + reflexivity.
Qed.

Lemma chunk_size_of_none array_size num_devices :
  chunk_size_of array_size num_devices = None <-> num_devices = 0.
Proof.
  unfold chunk_size_of. destruct (Z.eqb_spec num_devices 0); naive_solver.
Qed.

(** With no device, [main] divides by zero right after it printed the
    device count. *)
Lemma main_with_no_device array_size A B e (s : state) :
  to_int (status e clGetPlatformIDs_count) = CL.CL_SUCCESS ->
  to_int (status e clGetPlatformIDs) = CL.CL_SUCCESS ->
  (forall p, 0 <= p < to_uint (num_platforms e) ->
     to_int (status e (clGetDeviceIDs_count p)) <> CL.CL_SUCCESS \/
     to_uint (num_platform_devices e p) = 0) ->
  kernel_file_opens e = true ->
  exists t,
    main_with array_size A B e s = (Fault DivisionByZero, s, t) /\
    last t = Some (Stdout (MsgFoundDevices 0)).
Proof.
  intros Hcount Hids Hnone Hfile. unfold main_with.
  eexists. split.
  - eapply bind_ok; [apply call_cl_run|cbv beta].
    eapply bind_ok; [by apply CHECK_ERROR_success|cbv beta].
    eapply bind_ok; [apply call_cl_run|cbv beta].
    eapply bind_ok; [by apply CHECK_ERROR_success|cbv beta].
    eapply bind_ok; [apply printf_run|cbv beta].
    eapply bind_ok; [by apply discover_none|cbv beta].
    eapply bind_ok; [apply printf_run|cbv beta].
    eapply bind_ok;
      [unfold read_kernel_source; rewrite Hfile; reflexivity|cbv beta].
    unfold run_devices. apply bind_fault. reflexivity.
  - rewrite !app_nil_r, !app_assoc. apply last_snoc.
Qed.

End Ex004Steps.

(** ** Example 004: the division by the device count *)

Module Ex004Division.
Import CInt CIntFacts Ex004 Run RunFacts Ex004Steps.

(** C8.  [main] computes [ARRAY_SIZE / num_devices] without testing
    [num_devices]: on a machine where the platform queries succeed, the
    kernel file opens and no platform contributes a device, the run reaches
    the division by zero, right after the device count 0 was printed.  The
    division is undefined exactly for [num_devices = 0]; for every device
    count from 1 on the chunk size is defined. *)
Theorem chunk_size_division_unguarded (e : env) :
  to_int (status e clGetPlatformIDs_count) = CL.CL_SUCCESS ->
  to_int (status e clGetPlatformIDs) = CL.CL_SUCCESS ->
  (forall p, 0 <= p < to_uint (num_platforms e) ->
     to_int (status e (clGetDeviceIDs_count p)) <> CL.CL_SUCCESS \/
     to_uint (num_platform_devices e p) = 0) ->
  kernel_file_opens e = true ->
  (exists t,
     main e = (Fault DivisionByZero, initial ARRAY_SIZE e, t) /\
     last t = Some (Stdout (MsgFoundDevices 0))) /\
  (forall num_devices,
     chunk_size_of ARRAY_SIZE num_devices = None <-> num_devices = 0) /\
  (forall num_devices, 1 <= num_devices <= UINT_MAX ->
     chunk_size_of ARRAY_SIZE num_devices = Some (ARRAY_SIZE / num_devices)).
Proof.
  intros Hcount Hids Hnone Hfile. split; [|split].
  - unfold main. by apply main_with_no_device.
  - apply chunk_size_of_none.
  - intros n Hn. apply Ex004Split.chunk_size_of_div; [|done].
    unfold ARRAY_SIZE, INT_MAX. lia.
Qed.

Lemma chunk_size_division_unguarded_witness :
  exists t,
    main (quiet_env 1 (fun _ => 0)) =
      (Fault DivisionByZero, initial ARRAY_SIZE (quiet_env 1 (fun _ => 0)), t) /\
    last t = Some (Stdout (MsgFoundDevices 0)).
Proof.
  apply (chunk_size_division_unguarded (quiet_env 1 (fun _ => 0))).
  - reflexivity.
  - reflexivity.
  - intros p _. right. reflexivity.
  - reflexivity.
Defined.

End Ex004Division.

(** ** Example 004: the verification of the result *)

Module Ex004Verify.
Import CInt CIntFacts Ex004 Run RunFacts Ex004Steps.

Lemma load_is_Some {T} (l : list T) i :
  0 <= i < Z.of_nat (length l) -> is_Some (Mem.load l i).
Proof.
  intros Hi. unfold Mem.load. destruct (Z.ltb_spec i 0); [lia|].
  apply lookup_lt_is_Some. lia.
Qed.

(** One round: the flag stays as it is when the element is right and drops
    to [false] otherwise; neither verdict is printed; the state is not
    touched. *)
Lemma verify_element_run A B i correct (s : state) :
  is_Some (Mem.load A i) -> is_Some (Mem.load B i) -> is_Some (Mem.load (C s) i) ->
  exists correct' m,
    verify_element A B i correct s = (Ok correct', s, [Stdout m]) /\
    m ≠ MsgPassed /\ m ≠ MsgFailed /\
    (correct' = true <-> correct = true /\ element_ok A B (C s) i).
Proof.
  intros [a Ha] [b Hb] [c Hc]. unfold verify_element, element_ok.
  rewrite Ha, Hb.
  destruct (Z.eqb_spec c (int_add a b)) as [Heq|Hne].
  - exists correct, (MsgSum a b c). split; [|split; [done|split; [done|]]].
    + unfold mbind, M_bind, bind, get, defined. cbn. rewrite Hc. cbn.
      apply Z.eqb_eq in Heq. rewrite Heq. reflexivity.
    + rewrite Hc, Heq. naive_solver.
  - exists false, (MsgMismatch i (int_add a b) c).
    split; [|split; [done|split; [done|]]].
    + unfold mbind, M_bind, bind, get, defined. cbn. rewrite Hc. cbn.
      apply Z.eqb_neq in Hne. rewrite Hne. reflexivity.
    + rewrite Hc. naive_solver.
Qed.

Lemma verify_loop_run A B l correct (s : state) :
  (forall i, i ∈ l ->
     is_Some (Mem.load A i) /\ is_Some (Mem.load B i) /\ is_Some (Mem.load (C s) i)) ->
  exists correct' t,
    for_fold l (verify_element A B) correct s = (Ok correct', s, t) /\
    (Stdout MsgPassed ∉ t) /\ (Stdout MsgFailed ∉ t) /\
    (correct' = true <-> correct = true /\ forall i, i ∈ l -> element_ok A B (C s) i).
Proof.
  revert correct. induction l as [|i l IH]; intros correct Hdef.
  - exists correct, []. split; [done|]. split; [apply not_elem_of_nil|].
    split; [apply not_elem_of_nil|]. split; [|naive_solver].
    intros ->. split; [done|]. intros i Hi. by apply elem_of_nil in Hi.
  - destruct (Hdef i ltac:(left)) as (HA & HB & HC).
    destruct (verify_element_run A B i correct s HA HB HC)
      as (c1 & m & Hrun & Hp & Hf & Hc1).
    destruct (IH c1) as (c2 & t & Hrun2 & Hpt & Hft & Hc2).
    { intros j Hj. apply Hdef. by right. }
    exists c2, ([Stdout m] ++ t). split; [|split; [|split]].
    + cbn [for_fold]. change (bind ?x ?k) with (x ≫= k). by eapply bind_ok.
    + rewrite elem_of_app, list_elem_of_singleton. naive_solver.
    + rewrite elem_of_app, list_elem_of_singleton. naive_solver.
    + rewrite Hc2, Hc1. split.
      * intros [[-> Hi] Hl]. split; [done|]. intros j Hj.
        apply elem_of_cons in Hj as [->|Hj]; auto.
      * intros [-> Hall]. split; [split; [done|]|].
        -- apply Hall. by left.
        -- intros j Hj. apply Hall. by right.
Qed.

Lemma verify_run A B (s : state) :
  (10 <= length A)%nat -> (10 <= length B)%nat -> (10 <= length (C s))%nat ->
  exists t, verify A B s = (Ok tt, s, t).
Proof.
  intros HA HB HC.
  destruct (verify_loop_run A B (seqZ 0 10) true s)
    as (correct & t & Hrun & _).
  { intros i Hi%elem_of_seqZ. split_and!; apply load_is_Some; lia. }
  eexists. unfold verify. eapply bind_ok; [apply printf_run|cbv beta].
  eapply bind_ok; [apply Hrun|cbv beta]. apply printf_run.
Qed.

(** The run of a round only depends on the element of [C] it reads. *)
Lemma verify_element_agree A B i correct (s s' : state) :
  Mem.load (C s') i = Mem.load (C s) i ->
  outcome (verify_element A B i correct s') = outcome (verify_element A B i correct s) /\
  trace (verify_element A B i correct s') = trace (verify_element A B i correct s) /\
  final (verify_element A B i correct s') = s' /\
  final (verify_element A B i correct s) = s.
Proof.
  intros Heq. unfold verify_element, mbind, M_bind, bind, get, defined.
  rewrite Heq. destruct (Mem.load A i) as [a|]; [|done].
  destruct (Mem.load B i) as [b|]; [|done]. cbn.
  destruct (Mem.load (C s) i) as [c|]; [|done]. cbn.
  by destruct (c =? int_add a b).
Qed.

Lemma verify_loop_agree A B l correct (s s' : state) :
  (forall i, i ∈ l -> Mem.load (C s') i = Mem.load (C s) i) ->
  outcome (for_fold l (verify_element A B) correct s') =
    outcome (for_fold l (verify_element A B) correct s) /\
  trace (for_fold l (verify_element A B) correct s') =
    trace (for_fold l (verify_element A B) correct s) /\
  final (for_fold l (verify_element A B) correct s') = s' /\
  final (for_fold l (verify_element A B) correct s) = s.
Proof.
  revert correct. induction l as [|i l IH]; intros correct Hagree; [done|].
  destruct (verify_element_agree A B i correct s s') as (Ho & Ht & Hf' & Hf).
  { apply Hagree. by left. }
  cbn [for_fold]. unfold bind.
  destruct (verify_element A B i correct s') as [[r1' s1'] t1'].
  destruct (verify_element A B i correct s) as [[r1 s1] t1].
  unfold outcome, trace, final in Ho, Ht, Hf', Hf. simpl in Ho, Ht, Hf', Hf.
  subst. destruct r1 as [c1| |]; [|done..].
  destruct (IH c1) as (Ho & Ht & Hf' & Hf).
  { intros j Hj. apply Hagree. by right. }
  destruct (for_fold l (verify_element A B) c1 s') as [[r2' s2'] t2'].
  destruct (for_fold l (verify_element A B) c1 s) as [[r2 s2] t2].
  unfold outcome, trace, final in *. simpl in *. by subst.
Qed.

Lemma verify_agree A B (s s' : state) :
  (forall i, 0 <= i < 10 -> Mem.load (C s') i = Mem.load (C s) i) ->
  outcome (verify A B s') = outcome (verify A B s) /\
  trace (verify A B s') = trace (verify A B s).
Proof.
  intros Hagree.
  destruct (verify_loop_agree A B (seqZ 0 10) true s s') as (Ho & Ht & _ & _).
  { intros i Hi%elem_of_seqZ. apply Hagree. lia. }
  unfold verify, mbind, M_bind, bind. rewrite !printf_run.
  destruct (for_fold (seqZ 0 10) (verify_element A B) true s') as [[r' s1'] t'].
  destruct (for_fold (seqZ 0 10) (verify_element A B) true s) as [[r s1] t1].
  unfold outcome, trace, final in Ho, Ht. simpl in Ho, Ht. subst.
  by destruct r.
Qed.

(** C9.  The verdict of [main] is decided by the first ten elements: the
    verification ends well, prints exactly one verdict, and the verdict is
    "Verification PASSED" if and only if [C[i] = A[i] + B[i]] for every
    [i < 10]; a result array that agrees with [C] on the indices [0 .. 9]
    leads to the same output, whatever it holds from index 10 on. *)
Theorem verdict_from_first_ten (A B : list Z) (s : state) :
  (10 <= length A)%nat -> (10 <= length B)%nat -> (10 <= length (C s))%nat ->
  outcome (verify A B s) = Ok tt /\
  final (verify A B s) = s /\
  (Stdout MsgPassed ∈ trace (verify A B s) <->
     forall i, 0 <= i < 10 -> element_ok A B (C s) i) /\
  (Stdout MsgFailed ∈ trace (verify A B s) <->
     ~ forall i, 0 <= i < 10 -> element_ok A B (C s) i) /\
  (forall s' : state,
     (forall i, 0 <= i < 10 -> Mem.load (C s') i = Mem.load (C s) i) ->
     outcome (verify A B s') = outcome (verify A B s) /\
     trace (verify A B s') = trace (verify A B s)).
Proof.
  intros HA HB HC.
  destruct (verify_loop_run A B (seqZ 0 10) true s)
    as (correct & t & Hrun & Hp & Hf & Hcorrect).
  { intros i Hi%elem_of_seqZ. split_and!; apply load_is_Some; lia. }
  assert (Hv : verify A B s =
    (Ok tt, s, [Stdout MsgVerification] ++ t ++
               [Stdout (if correct then MsgPassed else MsgFailed)])).
  { unfold verify. eapply bind_ok; [apply printf_run|cbv beta].
    eapply bind_ok; [apply Hrun|cbv beta]. apply printf_run. }
  assert (Hall : correct = true <-> forall i, 0 <= i < 10 -> element_ok A B (C s) i).
  { rewrite Hcorrect. setoid_rewrite elem_of_seqZ. naive_solver lia. }
  split_and!; [by rewrite Hv..| | |by apply verify_agree];
    rewrite Hv; unfold trace; simpl.
  - rewrite <- Hall. rewrite elem_of_cons, elem_of_app, list_elem_of_singleton.
    destruct correct; naive_solver.
  - rewrite <- Hall. rewrite elem_of_cons, elem_of_app, list_elem_of_singleton.
    destruct correct; naive_solver.
Qed.

Lemma verdict_from_first_ten_witness :
  let A := seqZ 0 12 in
  let B := (fun i => 12 - i) <$> seqZ 0 12 in
  let s := {| dev_contexts := ∅; C := replicate 12 12 |} in
  Stdout MsgPassed ∈ trace (verify A B s) <->
    forall i, 0 <= i < 10 -> element_ok A B (C s) i.
Proof.
  intros A B s.
  apply (verdict_from_first_ten A B s); vm_compute; lia.
Defined.

End Ex004Verify.

(** ** Example 004: the data flow of a run in which every call succeeds *)

Module Ex004Flow.
Import CInt CIntFacts Mem MemFacts Ex004 Run RunFacts Ex004Steps.

(** *** The kernel *)

Lemma vector_add_item a b c offset g :
  0 <= g <= INT_MAX ->
  g < Z.of_nat (length a) -> g < Z.of_nat (length b) -> g < Z.of_nat (length c) ->
  exists x y, load a g = Some x /\ load b g = Some y /\
    vector_add a b c offset g = Some (<[Z.to_nat g := int_add x y]> c).
Proof.
  intros Hg Ha Hb Hc. unfold vector_add.
  rewrite to_int_small by (unfold is_int; lia).
  destruct (load_in_range a g ltac:(lia)) as [x Hx].
  destruct (load_in_range b g ltac:(lia)) as [y Hy].
  exists x, y. rewrite Hx, Hy. simpl. split; [done|]. split; [done|].
  apply store_in_range. lia.
Qed.

(** The work-items [lo .. lo + len - 1] write the sums of their elements and
    leave the other elements of [c] alone. *)
Lemma vector_add_items a b offset (len : nat) : forall lo c,
  0 <= lo -> lo + Z.of_nat len <= INT_MAX + 1 ->
  lo + Z.of_nat len <= Z.of_nat (length a) ->
  lo + Z.of_nat len <= Z.of_nat (length b) ->
  lo + Z.of_nat len <= Z.of_nat (length c) ->
  exists c',
    for_items (fun g c => vector_add a b c offset g) (seqZ lo (Z.of_nat len)) c = Some c' /\
    length c' = length c /\
    forall k, load c' k =
      if (lo <=? k) && (k <? lo + Z.of_nat len)
      then load (zip_with int_add a b) k else load c k.
Proof.
  induction len as [|len IH]; intros lo c Hlo Hmax Ha Hb Hc.
  - change (Z.of_nat 0) with 0. rewrite seqZ_nil by lia. exists c.
    split; [done|]. split; [done|]. intros k.
    destruct (Z.leb_spec lo k); [|done]. simpl.
    destruct (Z.ltb_spec k (lo + 0)); [lia|done].
  - rewrite seqZ_cons by lia. cbn [for_items].
    destruct (vector_add_item a b c offset lo) as (x & y & Hx & Hy & Hrun); [lia..|].
    rewrite Hrun. replace (Z.pred (Z.of_nat (S len))) with (Z.of_nat len) by lia.
    destruct (IH (Z.succ lo) (<[Z.to_nat lo := int_add x y]> c)) as (c' & Hitems & Hlen & Hload);
      [rewrite ?length_insert; lia..|].
    exists c'. split; [done|]. split; [by rewrite Hlen, length_insert|].
    intros k. rewrite Hload. rewrite load_insert by lia.
    destruct (Z.eqb_spec k lo) as [->|Hne].
    + destruct (Z.leb_spec (Z.succ lo) lo); [lia|]. simpl.
      destruct (Z.leb_spec lo lo); [|lia]. simpl.
      destruct (Z.ltb_spec lo (lo + Z.of_nat (S len))); [|lia].
      by rewrite load_zip_with, Hx, Hy.
    + destruct (Z.leb_spec (Z.succ lo) k), (Z.leb_spec lo k); try lia; simpl; [|done].
      destruct (Z.ltb_spec k (Z.succ lo + Z.of_nat len)),
               (Z.ltb_spec k (lo + Z.of_nat (S len))); try lia; done.
Qed.

Lemma run_kernel_sums d global_size :
  0 <= global_size <= INT_MAX ->
  global_size <= Z.of_nat (length (a_buf d)) ->
  global_size <= Z.of_nat (length (b_buf d)) ->
  global_size <= Z.of_nat (length (c_buf d)) ->
  exists c',
    run_kernel d global_size = Some (set_buffer BufC c' d) /\
    length c' = length (c_buf d) /\
    forall k, load c' k =
      if (0 <=? k) && (k <? global_size)
      then load (zip_with int_add (a_buf d) (b_buf d)) k else load (c_buf d) k.
Proof.
  intros Hg Ha Hb Hc. unfold run_kernel.
  destruct (vector_add_items (a_buf d) (b_buf d) (arg_offset d)
              (Z.to_nat global_size) 0 (c_buf d)) as (c' & Hrun & Hlen & Hload);
    [lia..|].
  rewrite Z2Nat.id in Hrun, Hload by lia.
  exists c'. rewrite Hrun. simpl. split; [done|]. split; [done|].
  intros k. rewrite Hload. by rewrite Z.add_0_l.
Qed.

(** *** The state *)

Lemma context_of_update i j f (s : state) :
  context_of (update_context i f s) j =
    if decide (i = j) then f (context_of s i) else context_of s j.
Proof.
  unfold context_of, update_context. simpl.
  destruct (decide (i = j)) as [->|Hne].
  - by rewrite lookup_insert_eq.
  - by rewrite lookup_insert_ne.
Qed.

Lemma C_update i f (s : state) : C (update_context i f s) = C s.
Proof. reflexivity. Qed.

Lemma context_of_set_C v (s : state) j : context_of (set_C v s) j = context_of s j.
Proof. reflexivity. Qed.

(** *** The calls that act on the buffers *)

Lemma create_buffer_run e i b size (s : state) :
  all_succeed e ->
  create_buffer e i b size s =
    (Ok CL.CL_SUCCESS, update_context i (set_buffer b (fresh e size)) s,
     [Call (clCreateBuffer i b size)]).
Proof.
  intros Hok. unfold create_buffer, mbind, M_bind, bind.
  rewrite call_cl_run, Hok. reflexivity.
Qed.

Lemma enqueue_write_run e i b host offset size v (s : state) :
  all_succeed e ->
  copy host offset (get_buffer b (context_of s i)) 0 size = Some v ->
  enqueue_write e i b host offset size s =
    (Ok CL.CL_SUCCESS, update_context i (set_buffer b v) s,
     [Call (clEnqueueWriteBuffer i b offset size)]).
Proof.
  intros Hok Hcopy. unfold enqueue_write, mbind, M_bind, bind.
  rewrite call_cl_run, Hok. cbn. rewrite Hcopy. reflexivity.
Qed.

Lemma enqueue_kernel_run e i global_size d (s : state) :
  all_succeed e ->
  run_kernel (context_of s i) global_size = Some d ->
  enqueue_kernel e i global_size s =
    (Ok CL.CL_SUCCESS, update_context i (fun _ => d) s,
     [Call (clEnqueueNDRangeKernel i global_size)]).
Proof.
  intros Hok Hrun. unfold enqueue_kernel, mbind, M_bind, bind.
  rewrite call_cl_run, Hok. cbn. rewrite Hrun. reflexivity.
Qed.

Lemma enqueue_read_run e i offset size v (s : state) :
  all_succeed e ->
  copy (c_buf (context_of s i)) 0 (C s) offset size = Some v ->
  enqueue_read e i offset size s =
    (Ok CL.CL_SUCCESS, set_C v s, [Call (clEnqueueReadBuffer i offset size)]).
Proof.
  intros Hok Hcopy. unfold enqueue_read, mbind, M_bind, bind.
  rewrite call_cl_run, Hok. cbn. rewrite Hcopy. reflexivity.
Qed.

Lemma call_cl_ok e c (s : state) :
  all_succeed e -> call_cl e c s = (Ok CL.CL_SUCCESS, s, [Call c]).
Proof. intros Hok. by rewrite call_cl_run, Hok. Qed.

Lemma length_fresh e size : Z.of_nat (length (fresh e size)) = Z.max 0 size.
Proof. unfold fresh. rewrite length_fmap, length_seqZ. lia. Qed.

(** *** The phases *)

Section Flow.
Variables (array_size num_devices : Z) (A B : list Z) (e : env).
Hypothesis Hsize : 0 <= array_size <= INT_MAX.
Hypothesis Hdev : 1 <= num_devices <= UINT_MAX.
Hypothesis HA : Z.of_nat (length A) = array_size.
Hypothesis HB : Z.of_nat (length B) = array_size.
Hypothesis Hok : all_succeed e.

Let cs := array_size / num_devices.
Let off (i : Z) := offset_of cs i.
Let sz (i : Z) := size_of array_size num_devices cs i.

Local Abbreviation bound := (bound array_size num_devices).
Local Abbreviation ready := (ready array_size num_devices A B).
Local Abbreviation computed := (computed array_size num_devices A B).

(** Unfolds what is known of device [i], in terms of [cs], [off] and [sz]. *)
Tactic Notation "device" constr(i) :=
  unfold Ex004.ready, Ex004.computed; fold cs; fold (off i); fold (sz i).
Tactic Notation "device" constr(i) "in" hyp(H) :=
  unfold Ex004.ready, Ex004.computed in H; fold cs in H; fold (off i) in H;
  fold (sz i) in H.

Lemma chunk_bounds i :
  0 <= i < num_devices ->
  off i = bound i /\ off i + sz i = bound (i + 1) /\
  0 <= off i /\ 0 <= sz i /\ off i + sz i <= array_size.
Proof.
  intros Hi. unfold off, sz, Ex004.bound, cs.
  pose proof (Ex004Split.cs_bounds _ _ Hsize Hdev) as Hcs.
  pose proof (Ex004Split.size_of_nonneg _ _ Hsize Hdev i Hi) as Hnn.
  pose proof (Ex004Split.chunk_end _ _ Hsize Hdev i Hi) as Hend.
  pose proof (Ex004Split.offset_of_mul _ _ Hsize Hdev i Hi) as Hoff.
  cbv zeta in Hcs, Hnn, Hend, Hoff. destruct Hcs as [? ?].
  rewrite Hend. rewrite Hoff in *.
  destruct (Z.ltb_spec i num_devices); [|lia].
  destruct (Z.eqb_spec i (num_devices - 1)) as [->|Hne].
  - destruct (Z.ltb_spec (num_devices - 1 + 1) num_devices); [lia|]. nia.
  - destruct (Z.ltb_spec (i + 1) num_devices); [|lia]. nia.
Qed.

Lemma setup_device_run i (s : state) :
  0 <= i < num_devices ->
  exists s' t,
    setup_device array_size A B e num_devices cs i s = (Ok tt, s', t) /\
    C s' = C s /\
    (forall j, j <> i -> context_of s' j = context_of s j) /\
    ready i (context_of s' i).
Proof.
  intros Hi. destruct (chunk_bounds i Hi) as (_ & _ & Hoff & Hsz & Hend).
  fold (off i) (sz i).
  set (d0 := context_of s i).
  set (d3 := set_buffer BufC (fresh e (sz i))
               (set_buffer BufB (fresh e (sz i))
                  (set_buffer BufA (fresh e (sz i)) d0))).
  destruct (copy_Some A (off i) (fresh e (sz i)) 0 (sz i)) as (vA & HvA & HlenA & HloadA);
    [rewrite ?length_fresh; lia..|].
  destruct (copy_Some B (off i) (fresh e (sz i)) 0 (sz i)) as (vB & HvB & HlenB & HloadB);
    [rewrite ?length_fresh; lia..|].
  unfold setup_device. fold (off i) (sz i).
  do 2 eexists. split.
  - eapply bind_ok; [by apply call_cl_ok|cbv beta].
    eapply bind_ok; [apply printf_run|cbv beta].
    eapply bind_ok; [by apply call_cl_ok|cbv beta].
    eapply bind_ok; [by apply CHECK_ERROR_success|cbv beta].
    eapply bind_ok; [by apply call_cl_ok|cbv beta].
    eapply bind_ok; [by apply CHECK_ERROR_success|cbv beta].
    eapply bind_ok; [by apply call_cl_ok|cbv beta].
    eapply bind_ok; [by apply CHECK_ERROR_success|cbv beta].
    eapply bind_ok; [by apply call_cl_ok|cbv beta].
    eapply bind_ok; [reflexivity|cbv beta].
    eapply bind_ok; [by apply call_cl_ok|cbv beta].
    eapply bind_ok; [by apply CHECK_ERROR_success|cbv beta].
    eapply bind_ok; [by apply create_buffer_run|cbv beta].
    eapply bind_ok; [by apply CHECK_ERROR_success|cbv beta].
    eapply bind_ok; [by apply create_buffer_run|cbv beta].
    eapply bind_ok; [by apply CHECK_ERROR_success|cbv beta].
    eapply bind_ok; [by apply create_buffer_run|cbv beta].
    eapply bind_ok; [by apply CHECK_ERROR_success|cbv beta].
    eapply bind_ok; [apply enqueue_write_run; [done|]|cbv beta].
    { rewrite !context_of_update, !decide_True by done. exact HvA. }
    eapply bind_ok; [by apply CHECK_ERROR_success|cbv beta].
    eapply bind_ok; [apply enqueue_write_run; [done|]|cbv beta].
    { rewrite !context_of_update, !decide_True by done. exact HvB. }
    eapply bind_ok; [by apply CHECK_ERROR_success|cbv beta].
    eapply bind_ok; [by apply call_cl_ok|cbv beta].
    eapply bind_ok; [by apply call_cl_ok|cbv beta].
    eapply bind_ok; [by apply call_cl_ok|cbv beta].
    eapply bind_ok; [by apply call_cl_ok|cbv beta].
    eapply bind_ok; [reflexivity|cbv beta].
    by apply CHECK_ERROR_success.
  - split; [done|]. split.
    + intros j Hj. rewrite !context_of_update.
      rewrite !decide_False by done. done.
    + rewrite !context_of_update, !decide_True by done.
      device i. simpl. rewrite HlenA, HlenB, !length_fresh.
      split_and!; try lia.
      * intros k Hk. rewrite HloadA.
        destruct (Z.leb_spec 0 k), (Z.ltb_spec k (0 + sz i)); try lia. simpl.
        f_equal. lia.
      * intros k Hk. rewrite HloadB.
        destruct (Z.leb_spec 0 k), (Z.ltb_spec k (0 + sz i)); try lia. simpl.
        f_equal. lia.
Qed.

Lemma launch_device_run i (s : state) :
  0 <= i < num_devices ->
  ready i (context_of s i) ->
  exists s' t,
    launch_device array_size e num_devices cs i s = (Ok tt, s', t) /\
    C s' = C s /\
    (forall j, j <> i -> context_of s' j = context_of s j) /\
    computed i (context_of s' i).
Proof.
  intros Hi Hready. device i in Hready.
  destruct Hready as (Ha & Hb & Hc & HloadA & HloadB).
  destruct (chunk_bounds i Hi) as (_ & _ & Hoff & Hsz & Hend).
  destruct (run_kernel_sums (context_of s i) (sz i)) as (c' & Hrun & Hlen & Hload);
    [lia..|].
  unfold launch_device. fold (sz i). do 2 eexists. split.
  - eapply bind_ok; [by eapply enqueue_kernel_run|cbv beta].
    by apply CHECK_ERROR_success.
  - split; [done|]. split.
    + intros j Hj. by rewrite context_of_update, decide_False.
    + rewrite context_of_update, decide_True by done. device i. simpl.
      split; [lia|]. intros k Hk. rewrite Hload.
      destruct (Z.leb_spec 0 k), (Z.ltb_spec k (sz i)); try lia. simpl.
      rewrite !load_zip_with. by rewrite HloadA, HloadB.
Qed.

Lemma read_device_run i (s : state) :
  0 <= i < num_devices ->
  computed i (context_of s i) ->
  Z.of_nat (length (C s)) = array_size ->
  exists s' t,
    read_device array_size e num_devices cs i s = (Ok tt, s', t) /\
    (forall j, context_of s' j = context_of s j) /\
    Z.of_nat (length (C s')) = array_size /\
    forall k, load (C s') k =
      if (bound i <=? k) && (k <? bound (i + 1))
      then load (zip_with int_add A B) k else load (C s) k.
Proof.
  intros Hi Hcomputed HC. device i in Hcomputed.
  destruct Hcomputed as (Hc & Hload).
  destruct (chunk_bounds i Hi) as (Hb1 & Hb2 & Hoff & Hsz & Hend).
  destruct (copy_Some (c_buf (context_of s i)) 0 (C s) (off i) (sz i))
    as (v & Hv & Hlen & Hloadv); [lia..|].
  unfold read_device. fold (off i) (sz i). do 2 eexists. split.
  - eapply bind_ok; [by eapply enqueue_read_run|cbv beta].
    by apply CHECK_ERROR_success.
  - split; [done|]. simpl. split; [lia|]. intros k. rewrite Hloadv.
    rewrite <- Hb1, <- Hb2.
    destruct (Z.leb_spec (off i) k), (Z.ltb_spec k (off i + sz i)); simpl; try done.
    rewrite Z.add_0_l, Hload by lia. f_equal. lia.
Qed.

(** The loops over the devices. *)

Lemma setup_loop C0 :
  triple (fun s => C s = C0)
    (for_each (seqZ 0 num_devices) (setup_device array_size A B e num_devices cs))
    (fun _ s => C s = C0 /\
                forall j, 0 <= j < num_devices -> ready j (context_of s j)).
Proof.
  eapply triple_weaken.
  - apply (triple_for_each
             (fun i s => C s = C0 /\ forall j, 0 <= j < i -> ready j (context_of s j)));
      [lia|].
    intros i Hi s [HC Hready].
    destruct (setup_device_run i s ltac:(lia)) as (s' & t & Hrun & HC' & Hother & Hi').
    exists tt, s', t. split; [done|]. split; [congruence|].
    intros j Hj. destruct (decide (j = i)) as [->|Hne]; [done|].
    rewrite Hother by done. apply Hready. lia.
  - intros s HC. split; [done|]. intros j Hj. lia.
  - intros _ s [HC Hready]. split; [done|]. intros j Hj. apply Hready. lia.
Qed.

Lemma launch_loop C0 :
  triple (fun s => C s = C0 /\
                   forall j, 0 <= j < num_devices -> ready j (context_of s j))
    (for_each (seqZ 0 num_devices) (launch_device array_size e num_devices cs))
    (fun _ s => C s = C0 /\
                forall j, 0 <= j < num_devices -> computed j (context_of s j)).
Proof.
  eapply triple_weaken.
  - apply (triple_for_each
             (fun i s => C s = C0 /\
                (forall j, 0 <= j < i -> computed j (context_of s j)) /\
                (forall j, i <= j < num_devices -> ready j (context_of s j))));
      [lia|].
    intros i Hi s (HC & Hdone & Hready).
    destruct (launch_device_run i s ltac:(lia)) as (s' & t & Hrun & HC' & Hother & Hi').
    { apply Hready. lia. }
    exists tt, s', t. split; [done|]. split; [congruence|]. split.
    + intros j Hj. destruct (decide (j = i)) as [->|Hne]; [done|].
      rewrite Hother by done. apply Hdone. lia.
    + intros j Hj. rewrite Hother by lia. apply Hready. lia.
  - intros s [HC Hready]. split; [done|]. split; [intros j Hj; lia|].
    intros j Hj. apply Hready. lia.
  - intros _ s (HC & Hdone & _). split; [done|]. intros j Hj. apply Hdone. lia.
Qed.

Lemma read_loop :
  triple (fun s => Z.of_nat (length (C s)) = array_size /\
                   forall j, 0 <= j < num_devices -> computed j (context_of s j))
    (for_each (seqZ 0 num_devices) (read_device array_size e num_devices cs))
    (fun _ s => C s = zip_with int_add A B).
Proof.
  eapply triple_weaken.
  - apply (triple_for_each
             (fun i s => Z.of_nat (length (C s)) = array_size /\
                (forall j, 0 <= j < num_devices -> computed j (context_of s j)) /\
                (forall k, 0 <= k < bound i ->
                   load (C s) k = load (zip_with int_add A B) k)));
      [lia|].
    intros i Hi s (HC & Hdone & Hsums).
    destruct (read_device_run i s ltac:(lia)) as (s' & t & Hrun & Hctx & HC' & Hload);
      [apply Hdone; lia|done|].
    destruct (chunk_bounds i ltac:(lia)) as (Hb1 & Hb2 & Hoff & Hsz & Hend).
    exists tt, s', t. split; [done|]. split; [done|]. split.
    + intros j Hj. rewrite Hctx. by apply Hdone.
    + intros k Hk. rewrite Hload.
      destruct (Z.leb_spec (bound i) k), (Z.ltb_spec k (bound (i + 1)));
        simpl; try done; try lia; apply Hsums; lia.
  - intros s [HC Hdone]. split; [done|]. split; [done|].
    intros k Hk. unfold Ex004.bound in Hk.
    destruct (Z.ltb_spec 0 num_devices); lia.
  - intros _ s (HC & _ & Hsums). simpl in Hsums. apply load_ext. intros k.
    destruct (decide (0 <= k < array_size)) as [Hk|Hk].
    + apply Hsums. unfold Ex004.bound.
      destruct (Z.ltb_spec (0 + num_devices) num_devices); lia.
    + rewrite !load_out_of_range; [done| |lia].
      rewrite length_zip_with. lia.
Qed.

(** The phases that only query, print and release. *)

Ltac solve_silent :=
  repeat first
    [ apply silent_ret | apply silent_emit
    | apply silent_for_each | apply silent_for_fold
    | apply silent_bind | intros ? ].

Lemma wait_device_silent i : silent (wait_device e i).
Proof. unfold wait_device, call_cl. solve_silent. Qed.

Lemma timeline_device_silent i acc : silent (timeline_device e i acc).
Proof. unfold timeline_device, get_event_time, call_cl, printf. solve_silent. Qed.

Lemma concurrency_silent n : silent (concurrency e n).
Proof.
  unfold concurrency, overlap_pair, get_event_time, call_cl, printf. solve_silent.
Qed.

Lemma release_device_silent i : silent (release_device e i).
Proof. unfold release_device, call_cl. solve_silent. Qed.

Hypothesis Hten : 10 <= array_size.

(** From the work distribution on, [main] ends well and leaves the sums in
    [C]. *)
Lemma run_devices_sums :
  triple (fun s => Z.of_nat (length (C s)) = array_size)
    (run_devices array_size A B e num_devices)
    (fun r s => r = 0 /\ C s = zip_with int_add A B).
Proof.
  unfold run_devices.
  rewrite (Ex004Split.chunk_size_of_div _ _ Hsize Hdev). fold cs.
  set (P0 := fun s : state => Z.of_nat (length (C s)) = array_size).
  set (P1 := fun s : state => P0 s /\
               forall j, 0 <= j < num_devices -> ready j (context_of s j)).
  set (P2 := fun s : state => P0 s /\
               forall j, 0 <= j < num_devices -> computed j (context_of s j)).
  set (P3 := fun s : state => C s = zip_with int_add A B).
  apply (triple_bind _ (fun c s => c = cs /\ P0 s)).
  { intros s Hs. by exists cs, s, []. }
  intros c. apply triple_assume. intros ->.
  apply (triple_bind _ (fun _ => P0)); [apply triple_emit|intros _].
  apply (triple_bind _ (fun _ => P1)).
  { intros s Hs. destruct (setup_loop (C s) s eq_refl) as (a & s' & t & Hrun & HC & Hready).
    exists a, s', t. split; [done|]. split; [|done]. unfold P0 in *. congruence. }
  intros _.
  apply (triple_bind _ (fun _ => P1)); [apply triple_emit|intros _].
  apply (triple_bind _ (fun _ => P2)).
  { intros s [Hs Hready].
    destruct (launch_loop (C s) s (conj eq_refl Hready)) as (a & s' & t & Hrun & HC & Hdone).
    exists a, s', t. split; [done|]. split; [|done]. unfold P0 in *. congruence. }
  intros _.
  apply (triple_bind _ (fun _ => P2)).
  { apply silent_triple, silent_for_each, wait_device_silent. }
  intros _.
  apply (triple_bind _ (fun _ => P2)); [apply triple_emit|intros _].
  apply (triple_bind _ (fun _ => P2)).
  { apply silent_triple, silent_for_fold, timeline_device_silent. }
  intros times.
  apply (triple_bind _ (fun _ => P2)); [apply triple_emit|intros _].
  apply (triple_bind _ (fun _ => P2)); [apply triple_emit|intros _].
  apply (triple_bind _ (fun _ => P2)).
  { apply silent_triple, concurrency_silent. }
  intros _.
  apply (triple_bind _ (fun _ => P3)); [apply read_loop|intros _].
  apply (triple_bind _ (fun _ => P3)).
  { intros s Hs. destruct (Ex004Verify.verify_run A B s) as (t & Hrun).
    - lia.
    - lia.
    - rewrite Hs, length_zip_with. lia.
    - by exists tt, s, t. }
  intros _.
  apply (triple_bind _ (fun _ => P3)).
  { apply silent_triple, silent_for_each, release_device_silent. }
  intros _.
  apply (triple_bind _ (fun _ => P3)); [apply triple_emit|intros _].
  apply (triple_bind _ (fun _ => P3)); [apply triple_emit|intros _].
  intros s Hs. by exists 0, s, [].
Qed.

End Flow.

(** *** The enumeration, and [main] as a whole *)

Lemma discover_platform_ok e p total (s : state) :
  all_succeed e ->
  exists t, discover_platform e p total s =
    (Ok (let n := to_uint (num_platform_devices e p) in
         if (to_int (status e (clGetDeviceIDs_count p)) =? CL.CL_SUCCESS) && (0 <? n)
         then uint_add total n else total), s, t).
Proof.
  intros Hok. unfold discover_platform. cbv zeta. rewrite Hok.
  destruct ((CL.CL_SUCCESS =? CL.CL_SUCCESS)
            && (0 <? to_uint (num_platform_devices e p))) eqn:Hn.
  - eexists. eapply bind_ok; [by apply call_cl_ok|cbv beta]. rewrite Hn.
    eapply bind_ok; [by apply call_cl_ok|cbv beta].
    eapply bind_ok; [by apply CHECK_ERROR_success|cbv beta].
    reflexivity.
  - eexists. eapply bind_ok; [by apply call_cl_ok|cbv beta].
    rewrite Hn. reflexivity.
Qed.

Lemma discover_loop_ok e l : forall total (s : state),
  all_succeed e ->
  exists t, for_fold l (discover_platform e) total s =
    (Ok (foldl (fun total p =>
                  let n := to_uint (num_platform_devices e p) in
                  if (to_int (status e (clGetDeviceIDs_count p)) =? CL.CL_SUCCESS)
                     && (0 <? n)
                  then uint_add total n else total) total l), s, t).
Proof.
  induction l as [|p l IH]; intros total s Hok.
  - by exists [].
  - destruct (discover_platform_ok e p total s Hok) as (t1 & Hrun1).
    cbn [for_fold foldl]. change (bind ?m ?k) with (m ≫= k).
    match goal with
    | |- context [foldl ?f ?z l] => destruct (IH z s Hok) as (t2 & Hrun2)
    end.
    exists (t1 ++ t2). eapply bind_ok; [apply Hrun1|apply Hrun2].
Qed.

Lemma discover_ok e (s : state) :
  all_succeed e ->
  exists t, discover e (to_uint (num_platforms e)) s = (Ok (devices_found e), s, t).
Proof. intros Hok. by apply discover_loop_ok. Qed.

Lemma devices_found_range e : is_uint (devices_found e).
Proof.
  unfold devices_found.
  assert (Hgen : forall l total, is_uint total ->
            is_uint (foldl (fun total p =>
              let n := to_uint (num_platform_devices e p) in
              if (to_int (status e (clGetDeviceIDs_count p)) =? CL.CL_SUCCESS)
                 && (0 <? n)
              then uint_add total n else total) total l)).
  { induction l as [|p l IH]; intros total Htotal; [done|]. simpl.
    apply IH. destruct (_ && _); [apply to_uint_range|done]. }
  apply Hgen. unfold is_uint, UINT_MAX. lia.
Qed.

(** On a machine where every call succeeds and at least one device is
    found, [main] returns 0 and [C] holds the element-wise sums. *)
Lemma main_with_sums array_size A B e (s : state) :
  10 <= array_size <= INT_MAX ->
  Z.of_nat (length A) = array_size -> Z.of_nat (length B) = array_size ->
  Z.of_nat (length (C s)) = array_size ->
  all_succeed e -> kernel_file_opens e = true -> 1 <= devices_found e ->
  exists s' t,
    main_with array_size A B e s = (Ok 0, s', t) /\
    C s' = zip_with int_add A B.
Proof.
  intros Hsize HA HB HC Hok Hfile Hfound.
  destruct (discover_ok e s Hok) as (td & Hdiscover).
  pose proof (devices_found_range e) as Hrange.
  destruct (run_devices_sums array_size (devices_found e) A B e) with (s := s)
    as (r & s' & t & Hrun & -> & Hsums);
    [first [done|unfold is_uint in *; lia]..|].
  exists s'. eexists. split; [|done]. unfold main_with.
  eapply bind_ok; [by apply call_cl_ok|cbv beta].
  eapply bind_ok; [by apply CHECK_ERROR_success|cbv beta].
  eapply bind_ok; [by apply call_cl_ok|cbv beta].
  eapply bind_ok; [by apply CHECK_ERROR_success|cbv beta].
  eapply bind_ok; [apply printf_run|cbv beta].
  eapply bind_ok; [apply Hdiscover|cbv beta].
  eapply bind_ok; [apply printf_run|cbv beta].
  eapply bind_ok;
    [unfold read_kernel_source; rewrite Hfile; reflexivity|cbv beta].
  apply Hrun.
Qed.

Lemma initial_length array_size e :
  0 <= array_size -> Z.of_nat (length (C (initial array_size e))) = array_size.
Proof. intros Hsize. simpl. rewrite length_fresh. lia. Qed.

(** The same for the array [C] that [main] allocates, with one machine that
    has several devices and one that has a single device. *)
Lemma main_with_multi_single array_size A B e e1 :
  10 <= array_size <= INT_MAX ->
  Z.of_nat (length A) = array_size -> Z.of_nat (length B) = array_size ->
  all_succeed e -> kernel_file_opens e = true -> 1 <= devices_found e ->
  all_succeed e1 -> kernel_file_opens e1 = true -> devices_found e1 = 1 ->
  let multi := main_with array_size A B e (initial array_size e) in
  let single := main_with array_size A B e1 (initial array_size e1) in
  outcome multi = Ok 0 /\ outcome single = Ok 0 /\
  C (final multi) = C (final single) /\
  C (final multi) = zip_with int_add A B /\
  forall i, 0 <= i < array_size -> element_ok A B (C (final multi)) i.
Proof.
  intros Hsize HA HB Hok Hfile Hfound Hok1 Hfile1 Hfound1 multi single.
  destruct (main_with_sums array_size A B e (initial array_size e)
              Hsize HA HB (initial_length array_size e ltac:(lia)) Hok Hfile Hfound)
    as (s' & t & Hrun & Hsums).
  destruct (main_with_sums array_size A B e1 (initial array_size e1)
              Hsize HA HB (initial_length array_size e1 ltac:(lia)) Hok1 Hfile1
              ltac:(lia))
    as (s1' & t1 & Hrun1 & Hsums1).
  subst multi single. rewrite Hrun, Hrun1. unfold outcome, final.
  cbn [fst snd].
  split; [reflexivity|]. split; [reflexivity|]. split; [congruence|].
  split; [exact Hsums|].
  intros i Hi. unfold element_ok. rewrite Hsums, load_zip_with.
  destruct (load_in_range A i ltac:(lia)) as [a Ha].
  destruct (load_in_range B i ltac:(lia)) as [b Hb].
  exists a, b. rewrite Ha, Hb. auto.
Qed.

(** C2.  On a machine where every OpenCL call succeeds, for every device
    count [num_devices >= 1] and all input arrays [A] and [B] of length
    [ARRAY_SIZE], [main] with the work spread over the devices returns 0 and
    leaves in [C] exactly what it leaves with a single device, whose chunk
    is the whole array: [C[i] = A[i] + B[i]] for every [i < ARRAY_SIZE]. *)
Theorem multi_device_result_is_single_device_result (e e1 : env) (A B : list Z) :
  all_succeed e -> kernel_file_opens e = true -> 1 <= devices_found e ->
  all_succeed e1 -> kernel_file_opens e1 = true -> devices_found e1 = 1 ->
  Z.of_nat (length A) = ARRAY_SIZE -> Z.of_nat (length B) = ARRAY_SIZE ->
  let multi := main_with ARRAY_SIZE A B e (initial ARRAY_SIZE e) in
  let single := main_with ARRAY_SIZE A B e1 (initial ARRAY_SIZE e1) in
  chunks ARRAY_SIZE 1 ARRAY_SIZE = [(0, ARRAY_SIZE)] /\
  outcome multi = Ok 0 /\ outcome single = Ok 0 /\
  C (final multi) = C (final single) /\
  C (final multi) = zip_with int_add A B /\
  forall i, 0 <= i < ARRAY_SIZE -> element_ok A B (C (final multi)) i.
Proof.
  intros Hok Hfile Hfound Hok1 Hfile1 Hfound1 HA HB.
  split; [vm_compute; reflexivity|].
  apply main_with_multi_single; try assumption.
  unfold ARRAY_SIZE, INT_MAX. lia.
Qed.

Lemma multi_device_result_is_single_device_result_witness :
  let e := quiet_env 1 (fun _ => 3) in
  let e1 := quiet_env 1 (fun _ => 1) in
  let A := replicate (Z.to_nat ARRAY_SIZE) 1 in
  let B := replicate (Z.to_nat ARRAY_SIZE) 2 in
  C (final (main_with ARRAY_SIZE A B e (initial ARRAY_SIZE e))) =
  C (final (main_with ARRAY_SIZE A B e1 (initial ARRAY_SIZE e1))).
Proof.
  intros e e1 A B.
  refine (proj1 (proj2 (proj2 (proj2
    (multi_device_result_is_single_device_result e e1 A B _ _ _ _ _ _ _ _))))).
  - intros c. reflexivity.
  - reflexivity.
  - vm_compute. discriminate.
  - intros c. reflexivity.
  - reflexivity.
  - vm_compute. reflexivity.
  - unfold A. rewrite length_replicate. apply Z2Nat.id. unfold ARRAY_SIZE. lia.
  - unfold B. rewrite length_replicate. apply Z2Nat.id. unfold ARRAY_SIZE. lia.
Defined.

End Ex004Flow.

(** ** Examples 002 and 003: the bounds test of [vector_add] *)

Module Ex002Bounds.
Import CInt CIntFacts CFloat Mem MemFacts Ex002.

(** What one work-item does: either it writes the sum at [gid], and then
    [0 <= gid < n], or it leaves [result] as it is. *)
Lemma vector_add_cases a b result n g r :
  vector_add a b result n g = Some r ->
  (0 <= to_int g < n /\ to_int g < Z.of_nat (length result) /\
   exists x y, load a (to_int g) = Some x /\ load b (to_int g) = Some y /\
               r = <[Z.to_nat (to_int g) := fadd x y]> result) \/
  (n <= to_uint (to_int g) /\ r = result).
Proof.
  unfold vector_add. destruct (Z.ltb_spec (to_uint (to_int g)) n) as [Hlt|Hge].
  - destruct (load a (to_int g)) as [x|]; [|done].
    destruct (load b (to_int g)) as [y|]; [|done]. simpl.
    intros [Hrange ->]%store_Some. left.
    rewrite to_uint_small in Hlt.
    + split; [lia|]. split; [lia|]. by exists x, y.
    + pose proof (to_int_range g). unfold is_uint, is_int, INT_MAX, UINT_MAX in *. lia.
  - intros [= <-]. by right.
Qed.

Lemma vector_add_skip a b result n g :
  0 <= n -> n <= to_int g -> vector_add a b result n g = Some result.
Proof.
  intros Hn Hge. unfold vector_add.
  rewrite to_uint_small.
  - by destruct (Z.ltb_spec (to_int g) n); [lia|].
  - pose proof (to_int_range g). unfold is_uint, is_int, INT_MAX, UINT_MAX in *. lia.
Qed.

Lemma launch_keeps_tail a b n ids : forall result r,
  for_items (fun g r => vector_add a b r n g) ids result = Some r ->
  length r = length result /\
  forall k, n <= k -> load r k = load result k.
Proof.
  induction ids as [|g ids IH]; intros result r.
  - by intros [= <-].
  - cbn [for_items].
    destruct (vector_add a b result n g) as [r1|] eqn:Hitem; [|done].
    intros Hrest. destruct (IH _ _ Hrest) as [Hlen Htail].
    apply vector_add_cases in Hitem
      as [(Hgid & Hin & x & y & _ & _ & ->)|[_ ->]]; [|done].
    rewrite length_insert in Hlen. split; [done|].
    intros k Hk. rewrite Htail by done. rewrite load_insert by lia.
    by destruct (Z.eqb_spec k (to_int g)); [lia|].
Qed.

Lemma launch_sums a b n (len : nat) : forall lo result,
  0 <= lo -> lo + Z.of_nat len <= INT_MAX + 1 ->
  n <= Z.of_nat (length a) -> n <= Z.of_nat (length b) ->
  n <= Z.of_nat (length result) ->
  exists r,
    for_items (fun g r => vector_add a b r n g) (seqZ lo (Z.of_nat len)) result = Some r /\
    forall k, load r k =
      if (lo <=? k) && (k <? lo + Z.of_nat len) && (k <? n)
      then load (zip_with fadd a b) k else load result k.
Proof.
  induction len as [|len IH]; intros lo result Hlo Hmax Ha Hb Hr.
  - change (Z.of_nat 0) with 0. rewrite seqZ_nil by lia. exists result.
    split; [done|]. intros k.
    destruct (Z.leb_spec lo k), (Z.ltb_spec k (lo + 0)); simpl; try done; lia.
  - rewrite seqZ_cons by lia. cbn [for_items].
    replace (Z.pred (Z.of_nat (S len))) with (Z.of_nat len) by lia.
    assert (Hgid : to_int lo = lo) by (apply to_int_small; unfold is_int, INT_MAX in *; lia).
    assert (Hu : to_uint lo = lo) by (apply to_uint_small; unfold is_uint, INT_MAX, UINT_MAX in *; lia).
    unfold vector_add at 1. rewrite Hgid, Hu.
    destruct (Z.ltb_spec lo n) as [Hlt|Hge].
    + destruct (load_in_range a lo ltac:(lia)) as [x Hx].
      destruct (load_in_range b lo ltac:(lia)) as [y Hy].
      rewrite Hx, Hy. simpl. rewrite store_in_range by lia.
      destruct (IH (Z.succ lo) (<[Z.to_nat lo := fadd x y]> result)) as (r & Hrun & Hload);
        [rewrite ?length_insert; lia..|].
      exists r. split; [done|]. intros k. rewrite Hload, load_insert by lia.
      destruct (Z.eqb_spec k lo) as [->|Hne].
      * destruct (Z.leb_spec (Z.succ lo) lo); [lia|]. simpl.
        destruct (Z.leb_spec lo lo), (Z.ltb_spec lo (lo + Z.of_nat (S len))),
                 (Z.ltb_spec lo n); try lia. simpl.
        by rewrite load_zip_with, Hx, Hy.
      * destruct (Z.leb_spec (Z.succ lo) k), (Z.leb_spec lo k),
                 (Z.ltb_spec k (Z.succ lo + Z.of_nat len)),
                 (Z.ltb_spec k (lo + Z.of_nat (S len))); try lia; done.
    + destruct (IH (Z.succ lo) result) as (r & Hrun & Hload); [lia..|].
      exists r. split; [done|]. intros k. rewrite Hload.
      destruct (Z.leb_spec (Z.succ lo) k), (Z.leb_spec lo k),
               (Z.ltb_spec k (Z.succ lo + Z.of_nat len)),
               (Z.ltb_spec k (lo + Z.of_nat (S len))), (Z.ltb_spec k n);
        try lia; done.
Qed.

(** C10.  A work-item of [vector_add] writes [result[gid] = a[gid] + b[gid]]
    only when its [gid] satisfies [0 <= gid < n]; with [gid >= n] it does
    nothing at all.  Whatever the global size, a launch leaves the elements
    of [result] at the indices [>= n] as they were.  (When the three
    buffers hold at least [n] elements and the global ids fit an [int], the
    launch is defined and the elements below [n] and below the global size
    are the sums.) *)
Theorem vector_add_writes_below_n (a b result : list float) (n : Z) :
  is_uint n ->
  (forall g r, vector_add a b result n g = Some r ->
     r <> result -> 0 <= to_int g < n) /\
  (forall g, n <= to_int g -> vector_add a b result n g = Some result) /\
  (forall global_size r, launch a b result n global_size = Some r ->
     length r = length result /\ forall k, n <= k -> load r k = load result k) /\
  (forall global_size,
     n <= Z.of_nat (length a) -> n <= Z.of_nat (length b) ->
     n <= Z.of_nat (length result) -> 0 <= global_size <= INT_MAX + 1 ->
     exists r, launch a b result n global_size = Some r /\
       forall k, 0 <= k < n -> k < global_size ->
         load r k = load (zip_with fadd a b) k).
Proof.
  intros Hn. split_and!.
  - intros g r Hrun Hne.
    apply vector_add_cases in Hrun as [(Hgid & _)|[_ ->]]; done.
  - intros g Hg. apply vector_add_skip; [|done]. unfold is_uint in Hn. lia.
  - intros global_size r. apply launch_keeps_tail.
  - intros global_size Ha Hb Hr Hg. unfold launch.
    destruct (launch_sums a b n (Z.to_nat global_size) 0 result) as (r & Hrun & Hload);
      [lia..|].
    rewrite Z2Nat.id in Hrun, Hload by lia.
    exists r. split; [done|]. intros k Hk Hkg. rewrite Hload.
    by destruct (Z.leb_spec 0 k), (Z.ltb_spec k (0 + global_size)),
                (Z.ltb_spec k n); try lia.
Qed.

Lemma vector_add_writes_below_n_witness :
  let a := [S754_finite false 1 0; S754_finite false 1 1; S754_zero false] in
  let result := [S754_zero false; S754_zero false; S754_infinity true] in
  exists r, launch a a result 2 3 = Some r /\
    forall k, 0 <= k < 2 -> k < 3 -> load r k = load (zip_with fadd a a) k.
Proof.
  intros a result.
  refine (proj2 (proj2 (proj2 (vector_add_writes_below_n a a result 2 _))) 3 _ _ _ _);
    unfold is_uint, UINT_MAX, INT_MAX; simpl; lia.
Defined.

End Ex002Bounds.

(** ** Example 006: [matmulSerial] computes the reference product *)

Module Ex006Serial.
Import CInt CIntFacts CFloat Mem MemFacts Ex006.

Section Serial.
Variables (A B : list float) (M N K : Z).
Hypothesis HM : 0 <= M.
Hypothesis HN : 0 <= N.
Hypothesis HK : 0 <= K.
Hypothesis HMN : M * N <= INT_MAX.
Hypothesis HNK : N * K <= INT_MAX.
Hypothesis HMK : M * K <= INT_MAX.

Lemma index_A i k : 0 <= i < M -> 0 <= k < N ->
  int_add (int_mul i N) k = i * N + k /\ 0 <= i * N + k < M * N.
Proof.
  intros Hi Hk. assert (0 <= i * N + k < M * N) by nia.
  unfold int_add, int_mul. unfold INT_MAX in *.
  rewrite (to_int_small (i * N)) by (unfold is_int, INT_MAX; nia).
  rewrite to_int_small by (unfold is_int, INT_MAX; lia). done.
Qed.

Lemma index_B k j : 0 <= k < N -> 0 <= j < K ->
  int_add (int_mul k K) j = k * K + j /\ 0 <= k * K + j < N * K.
Proof.
  intros Hk Hj. assert (0 <= k * K + j < N * K) by nia.
  unfold int_add, int_mul. unfold INT_MAX in *.
  rewrite (to_int_small (k * K)) by (unfold is_int, INT_MAX; nia).
  rewrite to_int_small by (unfold is_int, INT_MAX; lia). done.
Qed.

Lemma index_C i j : 0 <= i < M -> 0 <= j < K ->
  int_add (int_mul i K) j = i * K + j /\ 0 <= i * K + j < M * K.
Proof.
  intros Hi Hj. assert (0 <= i * K + j < M * K) by nia.
  unfold int_add, int_mul. unfold INT_MAX in *.
  rewrite (to_int_small (i * K)) by (unfold is_int, INT_MAX; nia).
  rewrite to_int_small by (unfold is_int, INT_MAX; lia). done.
Qed.

(** The loop over [k] is the reference accumulation. *)
Lemma accumulate_loop i j : 0 <= i < M -> 0 <= j < K ->
  forall l sum, (forall k, k ∈ l -> 0 <= k < N) ->
  for_items (accumulate A B N K i j) l sum =
    foldl (fun acc k =>
             sum ← acc;
             a ← load A (i * N + k);
             b ← load B (k * K + j);
             Some (fadd sum (fmul a b))) (Some sum) l.
Proof.
  intros Hi Hj l. induction l as [|k l IH]; intros sum Hl; [done|].
  cbn [for_items foldl]. unfold accumulate at 1.
  destruct (index_A i k Hi (Hl k ltac:(left))) as [-> _].
  destruct (index_B k j (Hl k ltac:(left)) Hj) as [-> _].
  simpl.
  destruct (load A (i * N + k)) as [a|]; simpl.
  - destruct (load B (k * K + j)) as [b|]; simpl.
    + apply IH. intros k' Hk'. apply Hl. by right.
    + clear. induction l as [|k' l IH]; [done|]. exact IH.
  - clear. induction l as [|k' l IH]; [done|]. exact IH.
Qed.

Lemma sum_is_ref i j : 0 <= i < M -> 0 <= j < K ->
  for_items (accumulate A B N K i j) (seqZ 0 N) zero = matmul_ref A B N K i j.
Proof.
  intros Hi Hj. apply accumulate_loop; [done..|].
  intros k Hk%elem_of_seqZ. lia.
Qed.

Hypothesis HA : M * N <= Z.of_nat (length A).
Hypothesis HB : N * K <= Z.of_nat (length B).

(** With [A] and [B] large enough the reference is defined. *)
Lemma matmul_ref_defined i j : 0 <= i < M -> 0 <= j < K ->
  is_Some (matmul_ref A B N K i j).
Proof.
  intros Hi Hj. unfold matmul_ref.
  assert (Hgen : forall l acc, (forall k, k ∈ l -> 0 <= k < N) ->
            is_Some acc ->
            is_Some (foldl (fun acc k =>
              sum ← acc; a ← load A (i * N + k); b ← load B (k * K + j);
              Some (fadd sum (fmul a b))) acc l)).
  { induction l as [|k l IH]; intros acc Hl Hacc; [done|]. cbn [foldl].
    apply IH; [intros k' Hk'; apply Hl; by right|].
    destruct Hacc as [sum ->]. simpl.
    pose proof (Hl k ltac:(left)) as Hk.
    destruct (load_in_range A (i * N + k)) as [a ->]; [nia|].
    destruct (load_in_range B (k * K + j)) as [b ->]; [nia|]. done. }
  apply Hgen; [|done]. intros k Hk%elem_of_seqZ. lia.
Qed.

(** The loop over [j], from column [lo] on: the cells [i*K + lo ..] of the
    row are written from left to right. *)
Lemma cell_loop i (len : nat) : forall lo C,
  0 <= i < M -> 0 <= lo -> lo + Z.of_nat len <= K ->
  M * K <= Z.of_nat (length C) ->
  exists C',
    for_items (cell A B N K i) (seqZ lo (Z.of_nat len)) C = Some C' /\
    length C' = length C /\
    forall idx, load C' idx =
      if (i * K + lo <=? idx) && (idx <? i * K + lo + Z.of_nat len)
      then matmul_ref A B N K i (idx - i * K) else load C idx.
Proof.
  induction len as [|len IH]; intros lo C Hi Hlo Hhi HC.
  - change (Z.of_nat 0) with 0. rewrite seqZ_nil by lia. exists C.
    split; [done|]. split; [done|]. intros idx.
    destruct (Z.leb_spec (i * K + lo) idx), (Z.ltb_spec idx (i * K + lo + 0));
      simpl; try done; lia.
  - rewrite seqZ_cons by lia. cbn [for_items].
    replace (Z.pred (Z.of_nat (S len))) with (Z.of_nat len) by lia.
    unfold cell at 1. rewrite sum_is_ref by lia.
    destruct (matmul_ref_defined i lo) as [sum Hsum]; [lia..|].
    rewrite Hsum. simpl.
    destruct (index_C i lo) as [-> Hrange]; [lia..|].
    rewrite store_in_range by lia.
    destruct (IH (Z.succ lo) (<[Z.to_nat (i * K + lo) := sum]> C))
      as (C' & Hrun & Hlen & Hload); [rewrite ?length_insert; lia..|].
    exists C'. split; [done|]. split; [by rewrite Hlen, length_insert|].
    intros idx. rewrite Hload, load_insert by lia.
    destruct (Z.eqb_spec idx (i * K + lo)) as [->|Hne].
    + destruct (Z.leb_spec (i * K + Z.succ lo) (i * K + lo)); [lia|]. simpl.
      destruct (Z.leb_spec (i * K + lo) (i * K + lo)),
               (Z.ltb_spec (i * K + lo) (i * K + lo + Z.of_nat (S len))); try lia.
      simpl. rewrite <- Hsum. f_equal. lia.
    + destruct (Z.leb_spec (i * K + Z.succ lo) idx), (Z.leb_spec (i * K + lo) idx),
               (Z.ltb_spec idx (i * K + Z.succ lo + Z.of_nat len)),
               (Z.ltb_spec idx (i * K + lo + Z.of_nat (S len))); try lia; done.
Qed.

(** The loop over [i], from row [lo] on. *)
Lemma row_loop (len : nat) : forall lo C,
  0 <= lo -> lo + Z.of_nat len <= M ->
  M * K <= Z.of_nat (length C) ->
  exists C',
    for_items (row A B N K) (seqZ lo (Z.of_nat len)) C = Some C' /\
    length C' = length C /\
    forall idx, load C' idx =
      if (lo * K <=? idx) && (idx <? (lo + Z.of_nat len) * K)
      then matmul_ref A B N K (idx / K) (idx mod K) else load C idx.
Proof.
  induction len as [|len IH]; intros lo C Hlo Hhi HC.
  - change (Z.of_nat 0) with 0. rewrite seqZ_nil by lia. exists C.
    split; [done|]. split; [done|]. intros idx.
    destruct (Z.leb_spec (lo * K) idx), (Z.ltb_spec idx ((lo + 0) * K));
      simpl; try done; lia.
  - rewrite seqZ_cons by lia. cbn [for_items].
    replace (Z.pred (Z.of_nat (S len))) with (Z.of_nat len) by lia.
    unfold row at 1.
    destruct (cell_loop lo (Z.to_nat K) 0 C) as (C1 & Hrow & Hlen1 & Hload1);
      [lia..|].
    rewrite Z2Nat.id in Hrow, Hload1 by lia. rewrite Hrow.
    destruct (IH (Z.succ lo) C1) as (C' & Hrun & Hlen & Hload); [lia..|].
    exists C'. split; [done|]. split; [congruence|].
    intros idx. rewrite Hload, Hload1.
    destruct (Z.leb_spec (Z.succ lo * K) idx) as [Hge|Hlt]; simpl.
    + destruct (Z.leb_spec (lo * K) idx); [|nia]. simpl.
      destruct (Z.ltb_spec idx ((Z.succ lo + Z.of_nat len) * K)),
               (Z.ltb_spec idx ((lo + Z.of_nat (S len)) * K)); try nia; [done|].
      destruct (Z.leb_spec (lo * K + 0) idx), (Z.ltb_spec idx (lo * K + 0 + K));
        simpl; try done; nia.
    + destruct (Z.leb_spec (lo * K + 0) idx), (Z.leb_spec (lo * K) idx);
        simpl; try lia; [|done].
      destruct (Z.ltb_spec idx (lo * K + 0 + K)); [|nia].
      destruct (Z.ltb_spec idx ((lo + Z.of_nat (S len)) * K)); [|nia].
      assert (0 < K) by nia.
      assert (idx / K = lo) as ->.
      { symmetry. apply Z.div_unique with (r := idx - lo * K); lia. }
      f_equal. apply Z.mod_unique with (q := lo); lia.
Qed.

End Serial.

(** C7.  For [M, N, K >= 0] (with [M*N], [N*K] and [M*K] in the range of
    [int], and vectors that hold the three matrices), [matmulSerial] returns
    the measured time and sets [C[i*K+j]], for every [i < M] and [j < K], to
    the products [A[i*N+k] * B[k*K+j]], [k = 0 .. N-1], added from left to
    right to [0.0f]; the size of [C] and its elements from index [M*K] on
    are left as they were. *)
Theorem matmulSerial_is_reference (elapsed : double) (A B C : list float) (M N K : Z) :
  0 <= M -> 0 <= N -> 0 <= K ->
  M * N <= INT_MAX -> N * K <= INT_MAX -> M * K <= INT_MAX ->
  M * N <= Z.of_nat (length A) -> N * K <= Z.of_nat (length B) ->
  M * K <= Z.of_nat (length C) ->
  exists C',
    matmulSerial elapsed A B C M N K = Some (C', elapsed) /\
    length C' = length C /\
    (forall i j, 0 <= i < M -> 0 <= j < K ->
       is_Some (matmul_ref A B N K i j) /\
       load C' (i * K + j) = matmul_ref A B N K i j) /\
    (forall idx, M * K <= idx -> load C' idx = load C idx).
Proof.
  intros HM HN HK HMN HNK HMK HA HB HC.
  destruct (row_loop A B M N K HM HN HK HMN HNK HMK HA HB (Z.to_nat M) 0 C)
    as (C' & Hrun & Hlen & Hload); [lia..|].
  rewrite Z2Nat.id in Hrun, Hload by lia.
  exists C'. unfold matmulSerial. rewrite Hrun. simpl.
  split; [done|]. split; [done|]. split.
  - intros i j Hi Hj. split; [by apply (matmul_ref_defined A B M)|].
    rewrite Hload.
    destruct (Z.leb_spec (0 * K) (i * K + j)); [|nia].
    destruct (Z.ltb_spec (i * K + j) ((0 + M) * K)); [|nia]. simpl.
    assert ((i * K + j) / K = i) as ->.
    { symmetry. apply Z.div_unique with (r := j); lia. }
    f_equal. symmetry. apply Z.mod_unique with (q := i); lia.
  - intros idx Hidx. rewrite Hload.
    destruct (Z.leb_spec (0 * K) idx), (Z.ltb_spec idx ((0 + M) * K));
      simpl; try done; lia.
Qed.

Lemma matmulSerial_is_reference_witness :
  let one := S754_finite false 8388608 (-23) in
  let two := S754_finite false 8388608 (-22) in
  let A := [one; two; two; one] in
  exists C',
    matmulSerial (S754_zero false) A A [zero; zero; zero; zero; one] 2 2 2 =
      Some (C', S754_zero false) /\
    length C' = 5%nat.
Proof.
  intros one two A.
  destruct (matmulSerial_is_reference (S754_zero false) A A
              [zero; zero; zero; zero; one] 2 2 2)
    as (C' & Hrun & Hlen & _); [unfold INT_MAX; simpl; lia..|].
  exists C'. split; [exact Hrun|exact Hlen].
Defined.

End Ex006Serial.

(** ** Example 003: the breakeven point that is printed *)

Module Ex003Breakeven.
Import CFloat Mem MemFacts Ex003.

Lemma check_device_run t s i nd tr :
  sized nd tr -> 0 <= i < nd ->
  exists tr', check_device t s i tr = Some tr' /\ sized nd tr' /\
    forall j, entry tr' j = if j =? i then checked t i s <$> entry tr j else entry tr j.
Proof.
  intros [Hp Hf] Hi. unfold check_device, entry, checked, faster.
  destruct (load_in_range (foundBreakeven tr) i ltac:(lia)) as [f Hfi].
  destruct (load_in_range (breakevenPoints tr) i ltac:(lia)) as [p Hpi].
  rewrite Hfi. simpl.
  destruct (negb f && dlt (openclTime t s i) (cpuTime t s)) eqn:Hcond.
  - rewrite !store_in_range by lia. simpl. eexists. split; [done|]. split.
    + unfold sized. simpl. by rewrite !length_insert.
    + intros j. simpl. rewrite !load_insert by lia.
      destruct (Z.eqb_spec j i) as [->|Hne]; [|done].
      rewrite Hfi, Hpi. simpl. by rewrite Hcond.
  - exists tr. split; [done|]. split; [done|]. intros j.
    destruct (Z.eqb_spec j i) as [->|Hne]; [|done].
    rewrite Hfi, Hpi. simpl. by rewrite Hcond.
Qed.

Lemma test_size_loop t s nd (len : nat) : forall lo tr,
  sized nd tr -> 0 <= lo -> lo + Z.of_nat len <= nd ->
  exists tr',
    for_items (check_device t s) (seqZ lo (Z.of_nat len)) tr = Some tr' /\
    sized nd tr' /\
    forall j, entry tr' j =
      if (lo <=? j) && (j <? lo + Z.of_nat len)
      then checked t j s <$> entry tr j else entry tr j.
Proof.
  induction len as [|len IH]; intros lo tr Htr Hlo Hhi.
  - change (Z.of_nat 0) with 0. rewrite seqZ_nil by lia. exists tr.
    split; [done|]. split; [done|]. intros j.
    destruct (Z.leb_spec lo j), (Z.ltb_spec j (lo + 0)); simpl; try done; lia.
  - rewrite seqZ_cons by lia. cbn [for_items].
    replace (Z.pred (Z.of_nat (S len))) with (Z.of_nat len) by lia.
    destruct (check_device_run t s lo nd tr Htr) as (tr1 & Hrun1 & Htr1 & Hent1); [lia|].
    rewrite Hrun1.
    destruct (IH (Z.succ lo) tr1 Htr1) as (tr' & Hrun & Htr' & Hent); [lia..|].
    exists tr'. split; [done|]. split; [done|]. intros j. rewrite Hent, Hent1.
    destruct (Z.eqb_spec j lo) as [->|Hne].
    + destruct (Z.leb_spec (Z.succ lo) lo); [lia|]. simpl.
      by destruct (Z.leb_spec lo lo), (Z.ltb_spec lo (lo + Z.of_nat (S len))); try lia.
    + destruct (Z.leb_spec (Z.succ lo) j), (Z.leb_spec lo j),
               (Z.ltb_spec j (Z.succ lo + Z.of_nat len)),
               (Z.ltb_spec j (lo + Z.of_nat (S len))); try lia; done.
Qed.

Lemma test_size_run t s nd tr :
  sized nd tr -> 0 <= nd ->
  exists tr', test_size t nd s tr = Some tr' /\ sized nd tr' /\
    forall j, 0 <= j < nd -> entry tr' j = checked t j s <$> entry tr j.
Proof.
  intros Htr Hnd. unfold test_size.
  destruct (test_size_loop t s nd (Z.to_nat nd) 0 tr Htr) as (tr' & Hrun & Htr' & Hent);
    [lia..|].
  rewrite Z2Nat.id in Hrun, Hent by lia.
  exists tr'. split; [done|]. split; [done|]. intros j Hj. rewrite Hent.
  by destruct (Z.leb_spec 0 j), (Z.ltb_spec j (0 + nd)); try lia.
Qed.

Lemma sizes_loop t nd l : forall tr,
  sized nd tr -> 0 <= nd ->
  exists tr', for_items (test_size t nd) l tr = Some tr' /\ sized nd tr' /\
    forall j, 0 <= j < nd ->
      entry tr' j = (fun e => foldl (fun e s => checked t j s e) e l) <$> entry tr j.
Proof.
  induction l as [|s l IH]; intros tr Htr Hnd.
  - exists tr. split; [done|]. split; [done|]. intros j _.
    by destruct (entry tr j).
  - cbn [for_items foldl].
    destruct (test_size_run t s nd tr Htr Hnd) as (tr1 & Hrun1 & Htr1 & Hent1).
    rewrite Hrun1.
    destruct (IH tr1 Htr1 Hnd) as (tr' & Hrun & Htr' & Hent).
    exists tr'. split; [done|]. split; [done|]. intros j Hj.
    rewrite Hent, Hent1 by done. by destruct (entry tr j).
Qed.

(** Once found, the entry stays; before, it becomes the first size of the
    list at which the device is faster. *)
Lemma checked_fold t j l : forall e,
  foldl (fun e s => checked t j s e) e l =
    if e.1 then e
    else match List.find (faster t j) l with
         | Some s => (true, s)
         | None => e
         end.
Proof.
  induction l as [|s l IH]; intros [f p]; simpl.
  - by destruct f.
  - rewrite IH. unfold checked. simpl. destruct f; simpl; [done|].
    by destruct (faster t j s).
Qed.

(** In an increasing list the first element that satisfies a test is the
    smallest one. *)
Lemma find_smallest (p : Z -> bool) l s :
  StronglySorted Z.lt l ->
  List.find p l = Some s <->
  s ∈ l /\ p s = true /\ forall s', s' ∈ l -> p s' = true -> s <= s'.
Proof.
  induction 1 as [|x l Hsorted IH Hall]; simpl.
  - split; [done|]. intros [Hin _]. by apply elem_of_nil in Hin.
  - rewrite Forall_forall in Hall. destruct (p x) eqn:Hx.
    + split.
      * intros [= <-]. split; [by left|]. split; [done|].
        intros s' [->|Hin]%elem_of_cons _; [lia|].
        apply Hall in Hin. lia.
      * intros ([->|Hin]%elem_of_cons & Hs & Hmin); [done|].
        specialize (Hmin x ltac:(left) Hx).
        apply Hall in Hin. lia.
    + rewrite IH. split.
      * intros (Hin & Hs & Hmin). split; [by right|]. split; [done|].
        intros s' [->|Hin']%elem_of_cons Hs'; [congruence|by apply Hmin].
      * intros ([->|Hin]%elem_of_cons & Hs & Hmin); [congruence|].
        split; [done|]. split; [done|]. intros s' Hin' Hs'. apply Hmin; [by right|done].
Qed.

Lemma find_none (p : Z -> bool) l :
  List.find p l = None <-> forall s, s ∈ l -> p s = false.
Proof.
  induction l as [|x l IH]; simpl.
  - split; [|done]. intros _ s Hin. by apply elem_of_nil in Hin.
  - destruct (p x) eqn:Hx.
    + split; [done|]. intros Hall. specialize (Hall x ltac:(left)). congruence.
    + rewrite IH. split.
      * intros Hall s [->|Hin]%elem_of_cons; auto.
      * intros Hall s Hin. apply Hall. by right.
Qed.

Lemma sizes_increasing : StronglySorted Z.lt sizes.
Proof. unfold sizes. repeat (constructor; [|repeat constructor; lia]). constructor. Qed.

Lemma analyse_entry t nd :
  0 <= nd ->
  exists tr, analyse t nd = Some tr /\ sized nd tr /\
    forall i, 0 <= i < nd ->
      entry tr i = Some match List.find (faster t i) sizes with
                        | Some s => (true, s)
                        | None => (false, 0)
                        end.
Proof.
  intros Hnd. unfold analyse.
  assert (Hinit : sized nd (no_breakeven nd)).
  { unfold sized, no_breakeven. simpl. rewrite !length_replicate. lia. }
  destruct (sizes_loop t nd sizes _ Hinit Hnd) as (tr & Hrun & Htr & Hent).
  exists tr. split; [done|]. split; [done|]. intros i Hi.
  rewrite Hent by done.
  assert (entry (no_breakeven nd) i = Some (false, 0)) as ->.
  { unfold entry, no_breakeven, load. simpl.
    destruct (Z.ltb_spec i 0); [lia|].
    rewrite !lookup_replicate_2 by lia. done. }
  unfold fmap, option_fmap, option_map. by rewrite checked_fold.
Qed.

Lemma summary_of_entry tr i e :
  entry tr i = Some e ->
  summary tr i = Some (if e.1 then Elements e.2 else NotReached).
Proof.
  unfold summary, entry. destruct (load (foundBreakeven tr) i) as [f|]; [|done].
  simpl. destruct (load (breakevenPoints tr) i) as [p|]; [|done]. simpl.
  intros [= <-]. by destruct f.
Qed.

(** C5.  For every device and all measured timings, the summary prints for
    the device the smallest tested size at which its OpenCL time was
    strictly less than the serial CPU time of that size, and it prints
    "Not reached" if and only if there is no such size among the tested
    ones. *)
Theorem breakeven_is_smallest_faster_size (t : timings) (num_devices i : Z) :
  0 <= i < num_devices ->
  exists tr,
    analyse t num_devices = Some tr /\
    (forall s, summary tr i = Some (Elements s) <->
       s ∈ sizes /\ faster t i s = true /\
       forall s', s' ∈ sizes -> faster t i s' = true -> s <= s') /\
    (summary tr i = Some NotReached <->
       forall s, s ∈ sizes -> faster t i s = false).
Proof.
  intros Hi.
  destruct (analyse_entry t num_devices ltac:(lia)) as (tr & Hrun & _ & Hent).
  exists tr. split; [done|].
  specialize (Hent i Hi). apply summary_of_entry in Hent. rewrite Hent. clear Hent.
  pose proof (find_smallest (faster t i) sizes) as Hsmall.
  pose proof (find_none (faster t i) sizes) as Hnone.
  destruct (List.find (faster t i) sizes) as [s0|]; cbn [fst snd].
  - split.
    + intros s. rewrite <- (Hsmall s sizes_increasing). naive_solver.
    + rewrite <- Hnone. naive_solver.
  - split.
    + intros s. rewrite <- (Hsmall s sizes_increasing). naive_solver.
    + rewrite <- Hnone. naive_solver.
Qed.

Lemma breakeven_is_smallest_faster_size_witness :
  let ms (n : positive) := S754_finite false n 0 in
  let t := {| cpuTime := fun s => ms (Z.to_pos (s / 1024));
              openclTime := fun s i => if i =? 0 then ms 100%positive else ms 100000000%positive |} in
  exists tr,
    analyse t 2 = Some tr /\
    summary tr 0 = Some (Elements 262144) /\
    summary tr 1 = Some NotReached.
Proof.
  intros ms t.
  destruct (breakeven_is_smallest_faster_size t 2 0 ltac:(lia)) as (tr & Hrun & _).
  exists tr. split; [exact Hrun|].
  vm_compute in Hrun. injection Hrun as <-. split; reflexivity.
Defined.

End Ex003Breakeven.

(** ** Example 004: the order of the OpenCL calls *)

Module Ex004Order.
Import CInt CIntFacts Ex004 Run RunFacts Ex004Steps.

Abbreviation scheduled := (follows (St := state) call_of diagnostic).

Lemma scheduled_eq {A} (m : prog A) (L L' : list call) (Q : A -> Prop) :
  scheduled m L' Q -> L = L' -> scheduled m L Q.
Proof. by intros Hm ->. Qed.

Lemma call_cl_scheduled e c :
  scheduled (call_cl e c) [c] (fun err => err = to_int (status e c)).
Proof.
  unfold call_cl.
  eapply (follows_bind _ _ _ _ [c] []); [by apply follows_emit_seen|].
  intros _ _. apply follows_ret.
Qed.

Lemma call_cl_scheduled' e c : scheduled (call_cl e c) [c] (fun _ => True).
Proof. eapply follows_weaken; [apply call_cl_scheduled|done]. Qed.

Lemma printf_scheduled m : scheduled (printf m) [] (fun _ => True).
Proof. by apply follows_emit_unseen. Qed.

Lemma fprintf_scheduled m : scheduled (fprintf_stderr m) [] (fun _ => True).
Proof. by apply follows_emit_unseen. Qed.

Lemma ret_scheduled {A} (a : A) : scheduled (mret a) [] (fun _ => True).
Proof. eapply follows_weaken; [apply follows_ret|done]. Qed.

Lemma CHECK_ERROR_scheduled err msg :
  scheduled (CHECK_ERROR err msg) [] (fun _ => True).
Proof.
  unfold CHECK_ERROR. destruct (negb (err =? CL.CL_SUCCESS)).
  - eapply (follows_bind _ _ _ _ [] []); [apply fprintf_scheduled|].
    intros _ _. apply follows_exit.
  - apply ret_scheduled.
Qed.

Lemma read_kernel_source_scheduled e f :
  scheduled (read_kernel_source e f) [] (fun _ => True).
Proof.
  unfold read_kernel_source. destruct (negb (kernel_file_opens e)).
  - eapply (follows_bind _ _ _ _ [] []); [apply fprintf_scheduled|].
    intros _ _. apply follows_exit.
  - apply ret_scheduled.
Qed.

Create HintDb scheduled.
#[local] Hint Resolve call_cl_scheduled' printf_scheduled fprintf_scheduled
  ret_scheduled CHECK_ERROR_scheduled read_kernel_source_scheduled : scheduled.
#[local] Hint Extern 1 (follows _ _ (Run.get) _ _) => apply follows_get : scheduled.
#[local] Hint Extern 1 (follows _ _ (Run.modify _) _ _) => apply follows_modify : scheduled.
#[local] Hint Extern 1 (follows _ _ (Run.defined _) _ _) => apply follows_defined : scheduled.
#[local] Hint Extern 1 (follows _ _ (Run.emit Getchar) _ _) =>
  apply follows_emit_unseen; reflexivity : scheduled.

(** One step along a sequence of binds. *)
Ltac follow_step :=
  eapply follows_bind; [solve [eauto with scheduled]|intros ? _].

Ltac follow := repeat follow_step; try solve [eauto with scheduled].

Lemma build_failed_scheduled e i (L : list call) :
  scheduled (call_cl e (clGetProgramBuildInfo i);;
             fprintf_stderr (MsgBuildError i (build_log e i));;
             Run.exit 1 : prog unit) L (fun _ => True).
Proof.
  apply follows_diagnostic. intros s. cbn.
  constructor; [by exists i|constructor].
Qed.

Lemma create_buffer_scheduled e i b size :
  scheduled (create_buffer e i b size) [clCreateBuffer i b size] (fun _ => True).
Proof.
  unfold create_buffer. eapply scheduled_eq.
  - follow_step. eapply follows_bind; [|intros ? _; eauto with scheduled].
    destruct (_ =? _); eauto with scheduled.
  - reflexivity.
Qed.

Lemma enqueue_write_scheduled e i b host offset size :
  scheduled (enqueue_write e i b host offset size)
    [clEnqueueWriteBuffer i b offset size] (fun _ => True).
Proof.
  unfold enqueue_write. eapply scheduled_eq.
  - follow_step. eapply follows_bind; [|intros ? _; eauto with scheduled].
    destruct (_ =? _); [follow|eauto with scheduled].
  - reflexivity.
Qed.

Lemma enqueue_kernel_scheduled e i global_size :
  scheduled (enqueue_kernel e i global_size)
    [clEnqueueNDRangeKernel i global_size] (fun _ => True).
Proof.
  unfold enqueue_kernel. eapply scheduled_eq.
  - follow_step. eapply follows_bind; [|intros ? _; eauto with scheduled].
    destruct (_ =? _); [follow|eauto with scheduled].
  - reflexivity.
Qed.

Lemma enqueue_read_scheduled e i offset size :
  scheduled (enqueue_read e i offset size)
    [clEnqueueReadBuffer i offset size] (fun _ => True).
Proof.
  unfold enqueue_read. eapply scheduled_eq.
  - follow_step. eapply follows_bind; [|intros ? _; eauto with scheduled].
    destruct (_ =? _); [follow|eauto with scheduled].
  - reflexivity.
Qed.

Lemma get_event_time_scheduled e i param :
  scheduled (get_event_time e i param) [clGetEventProfilingInfo i param]
    (fun _ => True).
Proof.
  unfold get_event_time. eapply scheduled_eq; [follow|reflexivity].
Qed.

#[local] Hint Resolve create_buffer_scheduled enqueue_write_scheduled
  enqueue_kernel_scheduled enqueue_read_scheduled get_event_time_scheduled
  : scheduled.

Lemma setup_device_scheduled array_size A B e n cs i :
  scheduled (setup_device array_size A B e n cs i)
    (setup_calls array_size n cs i) (fun _ => True).
Proof.
  unfold setup_device, setup_calls. eapply scheduled_eq.
  - do 9 follow_step.
    eapply (follows_bind _ _ _ _ []).
    { match goal with |- context [negb ?b] => destruct (negb b) end;
        [apply build_failed_scheduled|eauto with scheduled]. }
    intros ? _. follow.
  - reflexivity.
Qed.

Lemma launch_device_scheduled array_size e n cs i :
  scheduled (launch_device array_size e n cs i)
    (launch_calls array_size n cs i) (fun _ => True).
Proof.
  unfold launch_device, launch_calls. eapply scheduled_eq; [follow|reflexivity].
Qed.

Lemma wait_device_scheduled e i :
  scheduled (wait_device e i) (wait_calls i) (fun _ => True).
Proof.
  unfold wait_device, wait_calls. eapply scheduled_eq; [follow|reflexivity].
Qed.

Lemma timeline_device_scheduled e i acc :
  scheduled (timeline_device e i acc) (time_calls i) (fun _ => True).
Proof.
  unfold timeline_device, time_calls. eapply scheduled_eq; [follow|reflexivity].
Qed.

Lemma overlap_pair_scheduled e i j :
  scheduled (overlap_pair e i j) (time_calls i ++ time_calls j) (fun _ => True).
Proof.
  unfold overlap_pair, time_calls. eapply scheduled_eq; [follow|reflexivity].
Qed.

Lemma concurrency_scheduled e n :
  scheduled (concurrency e n) (seqZ 0 n ≫= overlap_calls n) (fun _ => True).
Proof.
  unfold concurrency. apply follows_for_each. intros i _.
  unfold overlap_calls. apply follows_for_each. intros j _.
  apply overlap_pair_scheduled.
Qed.

Lemma read_device_scheduled array_size e n cs i :
  scheduled (read_device array_size e n cs i)
    (read_calls array_size n cs i) (fun _ => True).
Proof.
  unfold read_device, read_calls. eapply scheduled_eq; [follow|reflexivity].
Qed.

Lemma release_device_scheduled e i :
  scheduled (release_device e i) (release_calls i) (fun _ => True).
Proof.
  unfold release_device, release_calls. eapply scheduled_eq; [follow|reflexivity].
Qed.

Lemma bind_nothing {T U} (l : list T) : l ≫= (fun _ => @nil U) = [].
Proof. induction l as [|x l IH]; [done|]. simpl. exact IH. Qed.

Lemma verify_element_scheduled A B i correct :
  scheduled (verify_element A B i correct) [] (fun _ => True).
Proof.
  unfold verify_element. eapply scheduled_eq.
  - do 4 follow_step.
    match goal with |- context [negb ?b] => destruct (negb b) end; follow.
  - reflexivity.
Qed.

Lemma verify_scheduled A B : scheduled (verify A B) [] (fun _ => True).
Proof.
  unfold verify. eapply scheduled_eq.
  - follow_step. eapply follows_bind.
    + apply follows_for_fold with (f := fun _ => []). intros i c _.
      apply verify_element_scheduled.
    + intros ? _. eauto with scheduled.
  - by rewrite bind_nothing.
Qed.

#[local] Hint Resolve verify_scheduled concurrency_scheduled : scheduled.

Lemma run_devices_scheduled array_size A B e n :
  scheduled (run_devices array_size A B e n)
    (match chunk_size_of array_size n with
     | Some cs => device_calls array_size n cs
     | None => []
     end) (fun _ => True).
Proof.
  unfold run_devices. destruct (chunk_size_of array_size n) as [cs|].
  - unfold device_calls. eapply scheduled_eq.
    + eapply follows_bind; [apply follows_ret|intros ? ->].
      follow_step.
      eapply follows_bind;
        [apply follows_for_each; intros i _; apply setup_device_scheduled|intros ? _].
      follow_step.
      eapply follows_bind;
        [apply follows_for_each; intros i _; apply launch_device_scheduled|intros ? _].
      eapply follows_bind;
        [apply follows_for_each; intros i _; apply wait_device_scheduled|intros ? _].
      follow_step.
      eapply follows_bind;
        [apply follows_for_fold; intros i ? _; apply timeline_device_scheduled|intros ? _].
      do 3 follow_step.
      eapply follows_bind;
        [apply follows_for_each; intros i _; apply read_device_scheduled|intros ? _].
      follow_step.
      eapply follows_bind;
        [apply follows_for_each; intros i _; apply release_device_scheduled|intros ? _].
      follow.
    + cbn [app]. by rewrite !app_nil_r.
  - eapply follows_bind_nil_r with (Q := fun _ => False);
      [apply follows_raise|done].
Qed.

(** The enumeration: its calls, and the device count it ends with. *)
Lemma discover_platform_scheduled e p total :
  scheduled (discover_platform e p total) (discovery_calls e p)
    (fun r => r =
       let n := to_uint (num_platform_devices e p) in
       if (to_int (status e (clGetDeviceIDs_count p)) =? CL.CL_SUCCESS) && (0 <? n)
       then uint_add total n else total).
Proof.
  unfold discover_platform, discovery_calls. cbv zeta.
  eapply (follows_bind _ _ _ _ [clGetDeviceIDs_count p]);
    [apply call_cl_scheduled|intros err ->].
  destruct (_ && _).
  - eapply scheduled_eq.
    + do 2 follow_step. apply follows_ret.
    + reflexivity.
  - apply follows_ret.
Qed.

Lemma discover_loop_scheduled e l : forall total,
  scheduled (for_fold l (discover_platform e) total) (l ≫= discovery_calls e)
    (fun r => r =
       foldl (fun total p =>
                let n := to_uint (num_platform_devices e p) in
                if (to_int (status e (clGetDeviceIDs_count p)) =? CL.CL_SUCCESS)
                   && (0 <? n)
                then uint_add total n else total) total l).
Proof.
  induction l as [|p l IH]; intros total.
  - apply follows_ret.
  - cbn [for_fold foldl]. change (bind ?m ?k) with (m ≫= k).
    change ((p :: l) ≫= discovery_calls e)
      with (discovery_calls e p ++ (l ≫= discovery_calls e)).
    eapply follows_bind; [apply discover_platform_scheduled|].
    intros r ->. apply IH.
Qed.

(** Whatever the machine answers, the OpenCL calls of a run of [main] are
    made in the order of the schedule, up to the point where the run stops. *)
Lemma main_with_scheduled array_size A B e :
  scheduled (main_with array_size A B e) (schedule array_size e) (fun _ => True).
Proof.
  unfold main_with, schedule. eapply scheduled_eq.
  - do 5 follow_step.
    eapply follows_bind; [apply discover_loop_scheduled|intros total ->].
    do 2 follow_step. apply run_devices_scheduled.
  - reflexivity.
Qed.

(** *** Where a call of the schedule can be *)

Lemma sorted_segments (l1 l2 : list call) (k : nat) :
  Forall (fun c => (phase c <= k)%nat) l1 ->
  StronglySorted by_phase l1 ->
  Forall (fun c => (k <= phase c)%nat) l2 ->
  StronglySorted by_phase l2 ->
  StronglySorted by_phase (l1 ++ l2).
Proof.
  intros H1 Hs1 H2 Hs2. apply StronglySorted_app. split; [|done].
  rewrite Forall_forall in H1, H2. intros x1 x2 Hx1 Hx2.
  specialize (H1 x1 Hx1). specialize (H2 x2 Hx2). unfold by_phase. lia.
Qed.

Lemma constant_phase_sorted (l : list call) (k : nat) :
  Forall (fun c => phase c = k) l -> StronglySorted by_phase l.
Proof.
  induction 1 as [|c l Hc Hl IH]; constructor; [done|].
  eapply Forall_impl; [exact Hl|]. intros c' Hc'. unfold by_phase.
  cbv beta in *. lia.
Qed.

Lemma Forall_bind_calls (P : call -> Prop) (f : Z -> list call) (l : list Z) :
  (forall i, i ∈ l -> Forall P (f i)) -> Forall P (l ≫= f).
Proof.
  intros Hf. rewrite Forall_forall. intros c (i & Hc & Hi)%list_elem_of_bind.
  specialize (Hf i Hi). rewrite Forall_forall in Hf. by apply Hf.
Qed.

Ltac each_call := repeat constructor.

Lemma setup_phase array_size n cs :
  Forall (fun c => phase c = 1%nat) (seqZ 0 n ≫= setup_calls array_size n cs).
Proof. apply Forall_bind_calls. intros i _. each_call. Qed.

Lemma launch_phase array_size n cs :
  Forall (fun c => phase c = 2%nat) (seqZ 0 n ≫= launch_calls array_size n cs).
Proof. apply Forall_bind_calls. intros i _. each_call. Qed.

Lemma wait_phase n : Forall (fun c => phase c = 3%nat) (seqZ 0 n ≫= wait_calls).
Proof. apply Forall_bind_calls. intros i _. each_call. Qed.

Lemma time_phase n : Forall (fun c => phase c = 4%nat) (seqZ 0 n ≫= time_calls).
Proof. apply Forall_bind_calls. intros i _. each_call. Qed.

Lemma overlap_phase n :
  Forall (fun c => phase c = 4%nat) (seqZ 0 n ≫= overlap_calls n).
Proof.
  apply Forall_bind_calls. intros i _. apply Forall_bind_calls. intros j _.
  each_call.
Qed.

Lemma read_phase array_size n cs :
  Forall (fun c => phase c = 5%nat) (seqZ 0 n ≫= read_calls array_size n cs).
Proof. apply Forall_bind_calls. intros i _. each_call. Qed.

Lemma release_phase n :
  Forall (fun c => phase c = 6%nat) (seqZ 0 n ≫= release_calls).
Proof. apply Forall_bind_calls. intros i _. each_call. Qed.

Lemma discovery_phase e np :
  Forall (fun c => phase c = 0%nat) (seqZ 0 np ≫= discovery_calls e).
Proof.
  apply Forall_bind_calls. intros p _. unfold discovery_calls.
  destruct (_ && _); each_call.
Qed.

Lemma Forall_phase_le (l : list call) (k k' : nat) :
  (k <= k')%nat -> Forall (fun c => phase c = k) l ->
  Forall (fun c => (phase c <= k')%nat) l.
Proof.
  intros Hk Hl. eapply Forall_impl; [exact Hl|]. intros c Hc. cbv beta in *. lia.
Qed.

Lemma Forall_phase_ge (l : list call) (k k' : nat) :
  (k' <= k)%nat -> Forall (fun c => phase c = k) l ->
  Forall (fun c => (k' <= phase c)%nat) l.
Proof.
  intros Hk Hl. eapply Forall_impl; [exact Hl|]. intros c Hc. cbv beta in *. lia.
Qed.

(** The schedule runs through the phases in order. *)
Lemma device_calls_sorted array_size n cs :
  StronglySorted by_phase (device_calls array_size n cs) /\
  Forall (fun c => (1 <= phase c)%nat) (device_calls array_size n cs).
Proof.
  unfold device_calls.
  pose proof (setup_phase array_size n cs) as H1.
  pose proof (launch_phase array_size n cs) as H2.
  pose proof (wait_phase n) as H3.
  pose proof (time_phase n) as H4.
  pose proof (overlap_phase n) as H4'.
  pose proof (read_phase array_size n cs) as H5.
  pose proof (release_phase n) as H6.
  split.
  - apply (sorted_segments _ _ 1);
      [by eapply Forall_phase_le|by eapply constant_phase_sorted|
       rewrite !Forall_app; split_and!; by eapply Forall_phase_ge; [|eassumption]; lia|].
    apply (sorted_segments _ _ 2);
      [by eapply Forall_phase_le|by eapply constant_phase_sorted|
       rewrite !Forall_app; split_and!; by eapply Forall_phase_ge; [|eassumption]; lia|].
    apply (sorted_segments _ _ 3);
      [by eapply Forall_phase_le|by eapply constant_phase_sorted|
       rewrite !Forall_app; split_and!; by eapply Forall_phase_ge; [|eassumption]; lia|].
    apply (sorted_segments _ _ 4);
      [by eapply Forall_phase_le|by eapply constant_phase_sorted|
       rewrite !Forall_app; split_and!; by eapply Forall_phase_ge; [|eassumption]; lia|].
    apply (sorted_segments _ _ 4);
      [by eapply Forall_phase_le|by eapply constant_phase_sorted|
       rewrite !Forall_app; split_and!; by eapply Forall_phase_ge; [|eassumption]; lia|].
    apply (sorted_segments _ _ 5);
      [by eapply Forall_phase_le|by eapply constant_phase_sorted|
       by eapply Forall_phase_ge; [|eassumption]; lia|].
    by eapply constant_phase_sorted.
  - rewrite !Forall_app. split_and!; by eapply Forall_phase_ge; [|eassumption]; lia.
Qed.

Lemma schedule_sorted array_size e : StronglySorted by_phase (schedule array_size e).
Proof.
  unfold schedule. rewrite app_assoc.
  apply (sorted_segments _ _ 0).
  - rewrite Forall_app. split; [each_call|].
    eapply Forall_phase_le; [|apply discovery_phase]. lia.
  - apply (constant_phase_sorted _ 0). rewrite Forall_app.
    split; [each_call|apply discovery_phase].
  - destruct (chunk_size_of _ _); [|done].
    eapply Forall_impl; [apply device_calls_sorted|]. intros c Hc. simpl in Hc. lia.
  - destruct (chunk_size_of _ _); [|constructor]. apply device_calls_sorted.
Qed.

(** In a list sorted by phase, a call of an earlier phase comes before. *)
Lemma earlier_phase_before (l t1 rest : list call) (x y : call) :
  StronglySorted by_phase l -> l = t1 ++ x :: rest ->
  y ∈ l -> (phase y < phase x)%nat -> y ∈ t1.
Proof.
  intros Hsorted -> Hy Hlt.
  apply StronglySorted_app in Hsorted as (_ & _ & Hs).
  apply StronglySorted_inv in Hs as [_ Hrest]. rewrite Forall_forall in Hrest.
  apply elem_of_app in Hy as [Hy|Hy]; [done|].
  apply elem_of_cons in Hy as [->|Hy]; [lia|].
  specialize (Hrest y Hy). unfold by_phase in Hrest. lia.
Qed.

Lemma later_phase_after (l t1 t2 rest : list call) (x y : call) :
  StronglySorted by_phase l -> l = t1 ++ x :: t2 ++ y :: rest ->
  (phase x <= phase y)%nat.
Proof.
  intros Hsorted ->.
  apply StronglySorted_app in Hsorted as (_ & _ & Hs).
  apply StronglySorted_inv in Hs as [_ Hrest]. rewrite Forall_forall in Hrest.
  apply Hrest. rewrite elem_of_app. right. by left.
Qed.

(** *** Which calls the schedule holds *)

Lemma in_schedule array_size e c :
  c ∈ schedule array_size e -> (1 <= phase c)%nat ->
  exists cs, chunk_size_of array_size (devices_found e) = Some cs /\
             c ∈ device_calls array_size (devices_found e) cs.
Proof.
  unfold schedule. intros Hc Hphase.
  apply elem_of_app in Hc as [Hc|Hc].
  { assert (Forall (fun c => phase c = 0%nat) [clGetPlatformIDs_count; clGetPlatformIDs])
      as Hall by each_call.
    rewrite Forall_forall in Hall. apply Hall in Hc. lia. }
  apply elem_of_app in Hc as [Hc|Hc].
  { pose proof (discovery_phase e (to_uint (num_platforms e))) as Hall.
    rewrite Forall_forall in Hall. apply Hall in Hc. lia. }
  destruct (chunk_size_of _ _) as [cs|]; [by exists cs|].
  by apply elem_of_nil in Hc.
Qed.

Lemma in_device_calls array_size n cs c :
  c ∈ device_calls array_size n cs ->
  (phase c = 1%nat /\ c ∈ seqZ 0 n ≫= setup_calls array_size n cs) \/
  (phase c = 2%nat /\ c ∈ seqZ 0 n ≫= launch_calls array_size n cs) \/
  (phase c = 3%nat /\ c ∈ seqZ 0 n ≫= wait_calls) \/
  (phase c = 4%nat /\ (c ∈ seqZ 0 n ≫= time_calls \/
                       c ∈ seqZ 0 n ≫= overlap_calls n)) \/
  (phase c = 5%nat /\ c ∈ seqZ 0 n ≫= read_calls array_size n cs) \/
  (phase c = 6%nat /\ c ∈ seqZ 0 n ≫= release_calls).
Proof.
  unfold device_calls. rewrite !elem_of_app.
  pose proof (setup_phase array_size n cs) as H1.
  pose proof (launch_phase array_size n cs) as H2.
  pose proof (wait_phase n) as H3.
  pose proof (time_phase n) as H4.
  pose proof (overlap_phase n) as H4'.
  pose proof (read_phase array_size n cs) as H5.
  pose proof (release_phase n) as H6.
  rewrite Forall_forall in H1, H2, H3, H4, H4', H5, H6.
  naive_solver.
Qed.

(** The device of a launch, of a time query and of a release is one of the
    devices that were set up. *)
Lemma launch_in_schedule array_size e i g :
  clEnqueueNDRangeKernel i g ∈ schedule array_size e ->
  exists cs, chunk_size_of array_size (devices_found e) = Some cs /\
             0 <= i < devices_found e.
Proof.
  intros Hc. apply in_schedule in Hc as (cs & Hcs & Hc); [|simpl; lia].
  exists cs. split; [done|].
  apply in_device_calls in Hc
    as [[? _]|[[_ Hc]|[[? _]|[[? _]|[[? _]|[? _]]]]]]; try done.
  apply list_elem_of_bind in Hc as (j & Hc & Hj%elem_of_seqZ).
  apply list_elem_of_singleton in Hc. injection Hc as -> _. lia.
Qed.

Lemma time_in_schedule array_size e i param :
  clGetEventProfilingInfo i param ∈ schedule array_size e ->
  exists cs, chunk_size_of array_size (devices_found e) = Some cs /\
             0 <= i < devices_found e.
Proof.
  intros Hc. apply in_schedule in Hc as (cs & Hcs & Hc); [|simpl; lia].
  exists cs. split; [done|].
  apply in_device_calls in Hc
    as [[? _]|[[? _]|[[? _]|[[_ Hc]|[[? _]|[? _]]]]]]; try done.
  destruct Hc as [Hc|Hc].
  - apply list_elem_of_bind in Hc as (j & Hc & Hj%elem_of_seqZ).
    unfold time_calls in Hc. rewrite !elem_of_cons, elem_of_nil in Hc.
    destruct Hc as [Hc|[Hc|[]]]; injection Hc as -> _; lia.
  - apply list_elem_of_bind in Hc as (j & Hc & Hj%elem_of_seqZ).
    apply list_elem_of_bind in Hc as (j' & Hc & Hj'%elem_of_seqZ).
    assert (0 <= uint_add j 1) by (pose proof (to_uint_range (to_uint j + to_uint 1));
                                    unfold uint_add, is_uint in *; lia).
    unfold time_calls in Hc. simpl in Hc.
    rewrite !elem_of_cons, elem_of_nil in Hc.
    destruct Hc as [Hc|[Hc|[Hc|[Hc|[]]]]]; injection Hc as -> _; lia.
Qed.

Lemma release_in_schedule array_size e c i :
  c ∈ schedule array_size e -> released_device c = Some i ->
  exists cs, chunk_size_of array_size (devices_found e) = Some cs /\
             0 <= i < devices_found e.
Proof.
  intros Hc Hrel.
  assert (phase c = 6%nat) as Hphase by (by destruct c).
  apply in_schedule in Hc as (cs & Hcs & Hc); [|lia].
  exists cs. split; [done|].
  apply in_device_calls in Hc
    as [[? _]|[[? _]|[[? _]|[[? _]|[[? _]|[_ Hc]]]]]]; try lia.
  apply list_elem_of_bind in Hc as (j & Hc & Hj%elem_of_seqZ).
  unfold release_calls in Hc. rewrite !elem_of_cons, elem_of_nil in Hc.
  destruct Hc as [->|[->|[->|[->|[->|[->|[->|[->|[]]]]]]]]];
    simpl in Hrel; injection Hrel as <-; lia.
Qed.

Lemma device_call_in_schedule array_size e cs c :
  chunk_size_of array_size (devices_found e) = Some cs ->
  c ∈ device_calls array_size (devices_found e) cs ->
  c ∈ schedule array_size e.
Proof.
  intros Hcs Hc. unfold schedule. rewrite Hcs, !elem_of_app. by do 2 right.
Qed.

Lemma setup_call_in_schedule array_size e cs i c :
  chunk_size_of array_size (devices_found e) = Some cs ->
  0 <= i < devices_found e ->
  c ∈ setup_calls array_size (devices_found e) cs i ->
  c ∈ schedule array_size e.
Proof.
  intros Hcs Hi Hc. apply (device_call_in_schedule _ _ cs); [done|].
  unfold device_calls. rewrite !elem_of_app. left.
  apply list_elem_of_bind. exists i. split; [done|]. apply elem_of_seqZ. lia.
Qed.

Lemma wait_call_in_schedule array_size e cs i :
  chunk_size_of array_size (devices_found e) = Some cs ->
  0 <= i < devices_found e ->
  clWaitForEvents i ∈ schedule array_size e.
Proof.
  intros Hcs Hi. apply (device_call_in_schedule _ _ cs); [done|].
  unfold device_calls. rewrite !elem_of_app. right. right. left.
  apply list_elem_of_bind. exists i. split; [by left|]. apply elem_of_seqZ. lia.
Qed.

Lemma read_call_in_schedule array_size e cs i :
  chunk_size_of array_size (devices_found e) = Some cs ->
  0 <= i < devices_found e ->
  clEnqueueReadBuffer i (offset_of cs i)
    (size_of array_size (devices_found e) cs i) ∈ schedule array_size e.
Proof.
  intros Hcs Hi. apply (device_call_in_schedule _ _ cs); [done|].
  unfold device_calls. rewrite !elem_of_app. do 5 right. left.
  apply list_elem_of_bind. exists i. split; [by left|]. apply elem_of_seqZ. lia.
Qed.

(** *** From the trace of a run to the schedule *)

Lemma calls_app t1 t2 : calls (t1 ++ t2) = calls t1 ++ calls t2.
Proof. apply omap_app. Qed.

Lemma in_calls c t : c ∈ calls t <-> Call c ∈ t.
Proof.
  unfold calls. rewrite list_elem_of_omap. split.
  - intros (ev & Hev & Hc). destruct ev; try done. by injection Hc as ->.
  - intros Hc. by exists (Call c).
Qed.

(** A call that is not the query of the build log lies in the part of the
    trace that follows the schedule. *)
Lemma scheduled_part (p d t1 t2 : list call) (x : call) :
  p ++ d = t1 ++ x :: t2 -> Forall diagnostic d -> ~ diagnostic x ->
  exists t2', p = t1 ++ x :: t2'.
Proof.
  intros Heq Hd Hx. revert p Heq. induction t1 as [|a t1 IH]; intros p Heq.
  - destruct p as [|y p]; simpl in Heq.
    + subst d. by apply Forall_cons in Hd as [? _].
    + injection Heq as -> _. by exists p.
  - destruct p as [|y p]; simpl in Heq.
    + subst d. apply Forall_cons in Hd as [_ Hd].
      rewrite Forall_app, Forall_cons in Hd. by destruct Hd as (_ & ? & _).
    + injection Heq as -> Heq. destruct (IH p Heq) as (t2' & ->). by exists t2'.
Qed.

(** The trace of any run of [main], cut at a call that is not the query of
    the build log, is the schedule cut at that call. *)
Lemma trace_cut array_size A B e (s : state) t1 x t2 :
  trace (main_with array_size A B e s) = t1 ++ Call x :: t2 ->
  ~ diagnostic x ->
  exists rest, schedule array_size e = calls t1 ++ x :: rest.
Proof.
  intros Htrace Hx.
  pose proof (main_with_scheduled array_size A B e s) as Hrun.
  assert (exists p d, calls (trace (main_with array_size A B e s)) = p ++ d /\
                      p `prefix_of` schedule array_size e /\ Forall diagnostic d)
    as (p & d & Hcalls & [k Hp] & Hd).
  { unfold trace, calls.
    destruct (main_with array_size A B e s) as [[[r| |] s'] t]; simpl; [|done..].
    destruct Hrun as [Hrun _]. exists (schedule array_size e), [].
    rewrite app_nil_r. done. }
  rewrite Htrace, calls_app in Hcalls. simpl in Hcalls.
  symmetry in Hcalls.
  destruct (scheduled_part _ _ _ _ _ Hcalls Hd Hx) as (t2' & ->).
  exists (t2' ++ k). rewrite Hp. by rewrite <- app_assoc.
Qed.

End Ex004Order.

(** ** Example 004: every event of a run at its place *)

Module Ex004Script.
Import CInt CIntFacts Ex004 Run RunFacts Ex004Steps Ex004Places Ex004Order.

Abbreviation on_script := (follows (St := state) placed error_exit).

Lemma on_script_eq {A} (m : prog A) (L L' : list place) (Q : A -> Prop) :
  on_script m L' Q -> L = L' -> on_script m L Q.
Proof. by intros Hm ->. Qed.

Lemma call_cl_on_script e c :
  on_script (call_cl e c) [place_of (Call c)] (fun err => err = to_int (status e c)).
Proof.
  unfold call_cl.
  eapply (follows_bind _ _ _ _ [place_of (Call c)] []); [by apply follows_emit_seen|].
  intros _ _. apply follows_ret.
Qed.

Lemma call_cl_on_script' e c :
  on_script (call_cl e c) [place_of (Call c)] (fun _ => True).
Proof. eapply follows_weaken; [apply call_cl_on_script|done]. Qed.

Lemma printf_on_script m k :
  place_of (Stdout m) = k -> on_script (printf m) [k] (fun _ => True).
Proof. intros <-. by apply follows_emit_seen. Qed.

Lemma ret_on_script {A} (a : A) : on_script (mret a) [] (fun _ => True).
Proof. eapply follows_weaken; [apply follows_ret|done]. Qed.

(** A line on [stderr] and [exit(1)]. *)
Lemma stop_on_script {A} m (L : list place) :
  on_script (fprintf_stderr m;; Run.exit 1 : prog A) L (fun _ => True).
Proof.
  apply follows_diagnostic. intros s. cbn. constructor; [done|constructor].
Qed.

Lemma CHECK_ERROR_on_script err msg :
  on_script (CHECK_ERROR err msg) [] (fun _ => True).
Proof.
  unfold CHECK_ERROR. destruct (negb (err =? CL.CL_SUCCESS)).
  - apply stop_on_script.
  - apply ret_on_script.
Qed.

Lemma read_kernel_source_on_script e f :
  on_script (read_kernel_source e f) [] (fun _ => True).
Proof.
  unfold read_kernel_source. destruct (negb (kernel_file_opens e)).
  - apply stop_on_script.
  - apply ret_on_script.
Qed.

Create HintDb on_script.
#[local] Hint Resolve call_cl_on_script' ret_on_script
  CHECK_ERROR_on_script read_kernel_source_on_script : on_script.
#[local] Hint Extern 1 (follows _ _ (printf _) _ _) =>
  eapply printf_on_script; cbn [place_of]; reflexivity : on_script.
#[local] Hint Extern 1 (follows _ _ (Run.get) _ _) => apply follows_get : on_script.
#[local] Hint Extern 1 (follows _ _ (Run.modify _) _ _) => apply follows_modify : on_script.
#[local] Hint Extern 1 (follows _ _ (Run.defined _) _ _) => apply follows_defined : on_script.
#[local] Hint Extern 1 (follows _ _ (Run.emit Getchar) _ _) =>
  apply follows_emit_seen; reflexivity : on_script.

Ltac script_step :=
  eapply follows_bind; [solve [eauto with on_script]|intros ? _].

Ltac script := repeat script_step; try solve [eauto with on_script].

Lemma build_failed_on_script e i (L : list place) :
  on_script (call_cl e (clGetProgramBuildInfo i);;
             fprintf_stderr (MsgBuildError i (build_log e i));;
             Run.exit 1 : prog unit) L (fun _ => True).
Proof.
  apply follows_diagnostic. intros s. cbn.
  constructor; [done|]. constructor; [done|constructor].
Qed.

Lemma create_buffer_on_script e i b size :
  on_script (create_buffer e i b size) [(3, i, 7 + buffer_index b)] (fun _ => True).
Proof.
  unfold create_buffer. eapply on_script_eq.
  - script_step. eapply follows_bind; [|intros ? _; eauto with on_script].
    destruct (_ =? _); eauto with on_script.
  - reflexivity.
Qed.

Lemma enqueue_write_on_script e i b host offset size :
  on_script (enqueue_write e i b host offset size)
    [(3, i, 10 + buffer_index b)] (fun _ => True).
Proof.
  unfold enqueue_write. eapply on_script_eq.
  - script_step. eapply follows_bind; [|intros ? _; eauto with on_script].
    destruct (_ =? _); [script|eauto with on_script].
  - reflexivity.
Qed.

Lemma enqueue_kernel_on_script e i global_size :
  on_script (enqueue_kernel e i global_size) [(5, i, 0)] (fun _ => True).
Proof.
  unfold enqueue_kernel. eapply on_script_eq.
  - script_step. eapply follows_bind; [|intros ? _; eauto with on_script].
    destruct (_ =? _); [script|eauto with on_script].
  - reflexivity.
Qed.

Lemma enqueue_read_on_script e i offset size :
  on_script (enqueue_read e i offset size) [(9, i, 0)] (fun _ => True).
Proof.
  unfold enqueue_read. eapply on_script_eq.
  - script_step. eapply follows_bind; [|intros ? _; eauto with on_script].
    destruct (_ =? _); [script|eauto with on_script].
  - reflexivity.
Qed.

Lemma get_event_time_on_script e i param :
  on_script (get_event_time e i param) [(8, 0, 0)] (fun _ => True).
Proof.
  unfold get_event_time. eapply on_script_eq; [script|reflexivity].
Qed.

#[local] Hint Resolve create_buffer_on_script enqueue_write_on_script
  enqueue_kernel_on_script enqueue_read_on_script get_event_time_on_script
  : on_script.

Lemma setup_device_on_script array_size A B e n cs i :
  on_script (setup_device array_size A B e n cs i) (setup_places i) (fun _ => True).
Proof.
  unfold setup_device. eapply on_script_eq.
  - do 9 script_step.
    eapply (follows_bind _ _ _ _ []).
    { match goal with |- context [negb ?b] => destruct (negb b) end;
        [apply build_failed_on_script|eauto with on_script]. }
    intros ? _. script.
  - reflexivity.
Qed.

Lemma launch_device_on_script array_size e n cs i :
  on_script (launch_device array_size e n cs i) [(5, i, 0)] (fun _ => True).
Proof. unfold launch_device. eapply on_script_eq; [script|reflexivity]. Qed.

Lemma wait_device_on_script e i :
  on_script (wait_device e i) [(6, i, 0)] (fun _ => True).
Proof. unfold wait_device. eapply on_script_eq; [script|reflexivity]. Qed.

Lemma timeline_device_on_script e i acc :
  on_script (timeline_device e i acc) [(8, 0, 0); (8, 0, 0); (8, 0, 0)]
    (fun _ => True).
Proof. unfold timeline_device. eapply on_script_eq; [script|reflexivity]. Qed.

Lemma overlap_pair_on_script e i j :
  on_script (overlap_pair e i j)
    [(8, 0, 0); (8, 0, 0); (8, 0, 0); (8, 0, 0); (8, 0, 0)] (fun _ => True).
Proof. unfold overlap_pair. eapply on_script_eq; [script|reflexivity]. Qed.

Lemma concurrency_on_script e n :
  on_script (concurrency e n)
    (seqZ 0 n ≫= fun i =>
       seqZ (uint_add i 1) (n - uint_add i 1) ≫= fun _ =>
         [(8, 0, 0); (8, 0, 0); (8, 0, 0); (8, 0, 0); (8, 0, 0)])
    (fun _ => True).
Proof.
  unfold concurrency. apply follows_for_each. intros i _.
  apply follows_for_each. intros j _. apply overlap_pair_on_script.
Qed.

Lemma read_device_on_script array_size e n cs i :
  on_script (read_device array_size e n cs i) [(9, i, 0)] (fun _ => True).
Proof. unfold read_device. eapply on_script_eq; [script|reflexivity]. Qed.

Lemma release_device_on_script e i :
  on_script (release_device e i) (release_places i) (fun _ => True).
Proof. unfold release_device. eapply on_script_eq; [script|reflexivity]. Qed.

Lemma verify_element_on_script A B i correct :
  on_script (verify_element A B i correct) [(11, 0, 0)] (fun _ => True).
Proof.
  unfold verify_element.
  do 4 (eapply (follows_bind _ _ _ _ []); [solve [eauto with on_script]|intros ? _]).
  match goal with |- context [negb ?b] => destruct (negb b) end;
    (eapply on_script_eq; [script|reflexivity]).
Qed.

Lemma verify_on_script A B :
  on_script (verify A B)
    ([(10, 0, 0)] ++ (seqZ 0 10 ≫= fun _ => [(11, 0, 0)]) ++ [(12, 0, 0)])
    (fun _ => True).
Proof.
  unfold verify.
  eapply follows_bind; [by apply printf_on_script|intros ? _].
  eapply follows_bind.
  - apply follows_for_fold. intros i c _. apply verify_element_on_script.
  - intros correct _. destruct correct; by apply printf_on_script.
Qed.

Lemma run_devices_on_script array_size A B e n :
  on_script (run_devices array_size A B e n)
    (match chunk_size_of array_size n with
     | Some _ => device_places n
     | None => []
     end) (fun _ => True).
Proof.
  unfold run_devices. destruct (chunk_size_of array_size n) as [cs|].
  - unfold device_places, report_places. eapply on_script_eq.
    + eapply follows_bind; [apply follows_ret|intros ? ->].
      script_step.
      eapply follows_bind;
        [apply follows_for_each; intros i _; apply setup_device_on_script|intros ? _].
      script_step.
      eapply follows_bind;
        [apply follows_for_each; intros i _; apply launch_device_on_script|intros ? _].
      eapply follows_bind;
        [apply follows_for_each; intros i _; apply wait_device_on_script|intros ? _].
      script_step.
      eapply follows_bind;
        [apply follows_for_fold; intros i ? _; apply timeline_device_on_script|
         intros ? _].
      do 2 script_step.
      eapply follows_bind; [apply concurrency_on_script|intros ? _].
      eapply follows_bind;
        [apply follows_for_each; intros i _; apply read_device_on_script|intros ? _].
      eapply follows_bind; [apply verify_on_script|intros ? _].
      eapply follows_bind;
        [apply follows_for_each; intros i _; apply release_device_on_script|intros ? _].
      script.
    + cbn [app]. rewrite <- !app_assoc. cbn [app]. reflexivity.
  - eapply follows_bind_nil_r with (Q := fun _ => False);
      [apply follows_raise|done].
Qed.

Lemma discover_platform_on_script e p total :
  on_script (discover_platform e p total) (discovery_places e p)
    (fun r => r =
       let n := to_uint (num_platform_devices e p) in
       if (to_int (status e (clGetDeviceIDs_count p)) =? CL.CL_SUCCESS) && (0 <? n)
       then uint_add total n else total).
Proof.
  unfold discover_platform, discovery_places. cbv zeta.
  eapply (follows_bind _ _ _ _ [(1, p, 0)]);
    [apply call_cl_on_script|intros err ->].
  destruct (_ && _).
  - eapply on_script_eq.
    + do 2 script_step. apply follows_ret.
    + reflexivity.
  - apply follows_ret.
Qed.

Lemma discover_loop_on_script e l : forall total,
  on_script (for_fold l (discover_platform e) total) (l ≫= discovery_places e)
    (fun r => r =
       foldl (fun total p =>
                let n := to_uint (num_platform_devices e p) in
                if (to_int (status e (clGetDeviceIDs_count p)) =? CL.CL_SUCCESS)
                   && (0 <? n)
                then uint_add total n else total) total l).
Proof.
  induction l as [|p l IH]; intros total.
  - apply follows_ret.
  - cbn [for_fold foldl]. change (bind ?m ?k) with (m ≫= k).
    change ((p :: l) ≫= discovery_places e)
      with (discovery_places e p ++ (l ≫= discovery_places e)).
    eapply follows_bind; [apply discover_platform_on_script|].
    intros r ->. apply IH.
Qed.

(** Whatever the machine answers, the events of a run of [main] are at the
    places of the script, in its order, up to the point where the run
    stops; what follows is at the error exit. *)
Lemma main_with_on_script array_size A B e :
  on_script (main_with array_size A B e) (places array_size e) (fun _ => True).
Proof.
  unfold main_with, places. eapply on_script_eq.
  - do 5 script_step.
    eapply follows_bind; [apply discover_loop_on_script|intros total ->].
    do 2 script_step. apply run_devices_on_script.
  - reflexivity.
Qed.

(** *** The order of the places *)

Lemma place_le_refl (a : place) : place_le a a.
Proof. unfold place_le. lia. Qed.

Lemma place_le_trans (a b c : place) : place_le a b -> place_le b c -> place_le a c.
Proof. unfold place_le. lia. Qed.

Lemma within_nil lo hi : within lo hi [].
Proof. split; constructor. Qed.

Lemma within_weaken lo hi lo' hi' l :
  within lo hi l -> place_le lo' lo -> place_le hi hi' -> within lo' hi' l.
Proof.
  intros [Hs Hl] Hlo Hhi. split; [done|].
  eapply Forall_impl; [exact Hl|]. intros k [? ?].
  split; eapply place_le_trans; eassumption.
Qed.

Lemma within_app lo mid hi l1 l2 :
  within lo mid l1 -> within mid hi l2 -> place_le lo mid -> place_le mid hi ->
  within lo hi (l1 ++ l2).
Proof.
  intros [Hs1 Hl1] [Hs2 Hl2] Hlo Hhi. split.
  - apply StronglySorted_app. split; [|done].
    rewrite Forall_forall in Hl1, Hl2. intros x1 x2 Hx1 Hx2.
    destruct (Hl1 x1 Hx1) as [_ ?]. destruct (Hl2 x2 Hx2) as [? _].
    by eapply place_le_trans.
  - apply Forall_app. split.
    + eapply Forall_impl; [exact Hl1|]. intros k [? ?].
      split; [done|]. by eapply place_le_trans.
    + eapply Forall_impl; [exact Hl2|]. intros k [? ?].
      split; [|done]. by eapply place_le_trans.
Qed.

(** The rounds of a loop over [m, m+1, ...], each of them in order, and
    every round below the next ones. *)
Lemma within_rounds (f : Z -> list place) (lo hi : Z -> place) (n : nat) :
  forall (m : Z) (LO HI : place),
    (forall i, m <= i < m + Z.of_nat n -> within (lo i) (hi i) (f i)) ->
    (forall i, m <= i < m + Z.of_nat n -> place_le (lo i) (hi i)) ->
    (forall i j, i < j -> place_le (hi i) (lo j)) ->
    (forall i, m <= i < m + Z.of_nat n -> place_le LO (lo i) /\ place_le (hi i) HI) ->
    place_le LO HI ->
    within LO HI (seqZ m (Z.of_nat n) ≫= f).
Proof.
  induction n as [|n IH]; intros m LO HI Hf Hlohi Hnext Hbounds HLOHI.
  { apply within_nil. }
  rewrite seqZ_cons by lia.
  replace (Z.pred (Z.of_nat (S n))) with (Z.of_nat n) by lia.
  change ((m :: seqZ (Z.succ m) (Z.of_nat n)) ≫= f)
    with (f m ++ (seqZ (Z.succ m) (Z.of_nat n) ≫= f)).
  destruct (Hbounds m ltac:(lia)) as [Hlo Hhi].
  apply (within_app LO (hi m) HI).
  - eapply within_weaken; [apply Hf; lia|done|apply place_le_refl].
  - apply IH.
    + intros i Hi. apply Hf. lia.
    + intros i Hi. apply Hlohi. lia.
    + done.
    + intros i Hi. split; [apply Hnext; lia|]. apply Hbounds. lia.
    + done.
  - eapply place_le_trans; [exact Hlo|]. apply Hlohi. lia.
  - done.
Qed.

Lemma within_loop (f : Z -> list place) (lo hi : Z -> place) (n : Z) (LO HI : place) :
  (forall i, 0 <= i < n -> within (lo i) (hi i) (f i)) ->
  (forall i, 0 <= i < n -> place_le (lo i) (hi i)) ->
  (forall i j, i < j -> place_le (hi i) (lo j)) ->
  (forall i, 0 <= i < n -> place_le LO (lo i) /\ place_le (hi i) HI) ->
  place_le LO HI ->
  within LO HI (seqZ 0 n ≫= f).
Proof.
  intros Hf Hlohi Hnext Hbounds HLOHI.
  destruct (Z.le_gt_cases n 0) as [Hn|Hn].
  { rewrite seqZ_nil by lia. apply within_nil. }
  rewrite <- (Z2Nat.id n) by lia.
  apply (within_rounds f lo hi); try done; intros i Hi;
    [apply Hf|apply Hlohi|apply Hbounds]; lia.
Qed.

(** A list that stays at one place. *)
Lemma within_constant (k : place) (l : list place) :
  Forall (fun k' => k' = k) l -> within k k l.
Proof.
  intros Hl. split.
  - induction Hl as [|k' l -> Hl IH]; constructor; [done|].
    eapply Forall_impl; [exact Hl|]. intros k' ->. apply place_le_refl.
  - eapply Forall_impl; [exact Hl|]. intros k' ->. split; apply place_le_refl.
Qed.

Lemma Forall_bind_places (P : place -> Prop) (f : Z -> list place) (l : list Z) :
  (forall i, i ∈ l -> Forall P (f i)) -> Forall P (l ≫= f).
Proof.
  intros Hf. rewrite Forall_forall. intros c (i & Hc & Hi)%list_elem_of_bind.
  specialize (Hf i Hi). rewrite Forall_forall in Hf. by apply Hf.
Qed.

Ltac place_le_solve := unfold place_le; cbn [fst snd]; lia.

(** An explicit list of places. *)
Ltac listed :=
  split;
  [repeat (apply SSorted_cons;
           [|repeat (apply Forall_cons_2; [place_le_solve|]); apply Forall_nil_2]);
   apply SSorted_nil
  |repeat (apply Forall_cons_2; [split; place_le_solve|]); apply Forall_nil_2].

Lemma discovery_within e p : within (1, p, 0) (1, p, 1) (discovery_places e p).
Proof. unfold discovery_places. destruct (_ && _); listed. Qed.

Lemma setup_places_eq i :
  setup_places i =
    [(3, i, 0); (3, i, 1); (3, i, 2); (3, i, 3); (3, i, 4); (3, i, 5); (3, i, 6);
     (3, i, 7); (3, i, 8); (3, i, 9); (3, i, 10); (3, i, 11); (3, i, 12);
     (3, i, 13); (3, i, 14); (3, i, 15)].
Proof. reflexivity. Qed.

Lemma release_places_eq i :
  release_places i =
    [(13, i, 0); (13, i, 1); (13, i, 2); (13, i, 3); (13, i, 4); (13, i, 5);
     (13, i, 6); (13, i, 7)].
Proof. reflexivity. Qed.

Lemma setup_within i : within (3, i, 0) (3, i, 15) (setup_places i).
Proof. rewrite setup_places_eq. listed. Qed.

Lemma release_within i : within (13, i, 0) (13, i, 7) (release_places i).
Proof. rewrite release_places_eq. listed. Qed.

Lemma report_within n : within (8, 0, 0) (8, 0, 0) (report_places n).
Proof.
  apply within_constant. unfold report_places. rewrite !Forall_app. split_and!.
  - apply Forall_bind_places. intros i _. by repeat constructor.
  - by repeat constructor.
  - apply Forall_bind_places. intros i _. apply Forall_bind_places. intros j _.
    by repeat constructor.
Qed.

Ltac one_round ph :=
  apply (within_loop _ (fun i => (ph, i, 0)) (fun i => (ph, i, 0)));
    [intros i Hi; listed|intros; place_le_solve|intros; place_le_solve
    |intros; split; place_le_solve|place_le_solve].

Lemma device_places_within n : within (2, 0, 1) (14, 0, 1) (device_places n).
Proof.
  unfold device_places.
  apply (within_app _ (2, 0, 1)); [listed| |place_le_solve..].
  apply (within_app (2, 0, 1) (4, 0, 0)); [| |place_le_solve..].
  { apply (within_loop _ (fun i => (3, i, 0)) (fun i => (3, i, 15)));
      [intros i Hi; apply setup_within|intros; place_le_solve|intros; place_le_solve
      |intros; split; place_le_solve|place_le_solve]. }
  apply (within_app _ (4, 0, 0)); [listed| |place_le_solve..].
  apply (within_app (4, 0, 0) (6, 0, 0)); [one_round 5| |place_le_solve..].
  apply (within_app (6, 0, 0) (7, 0, 0)); [one_round 6| |place_le_solve..].
  apply (within_app _ (7, 0, 0)); [listed| |place_le_solve..].
  apply (within_app (7, 0, 0) (8, 0, 0)); [| |place_le_solve..].
  { eapply within_weaken; [apply report_within|place_le_solve..]. }
  apply (within_app (8, 0, 0) (10, 0, 0)); [one_round 9| |place_le_solve..].
  apply (within_app _ (10, 0, 0)); [listed| |place_le_solve..].
  apply (within_app (10, 0, 0) (11, 0, 0)); [| |place_le_solve..].
  { eapply within_weaken;
      [apply (within_constant (11, 0, 0)); apply Forall_bind_places; intros i _;
       by repeat constructor|place_le_solve..]. }
  apply (within_app (11, 0, 0) (12, 0, 0)); [listed| |place_le_solve..].
  apply (within_app (12, 0, 0) (14, 0, 0)); [| |place_le_solve..].
  { apply (within_loop _ (fun i => (13, i, 0)) (fun i => (13, i, 7)));
      [intros i Hi; apply release_within|intros; place_le_solve|intros; place_le_solve
      |intros; split; place_le_solve|place_le_solve]. }
  listed.
Qed.

(** The script runs through the places in order, and never comes to the
    error exit. *)
Lemma places_within array_size e : within (0, 0, 0) (14, 0, 1) (places array_size e).
Proof.
  unfold places.
  apply (within_app _ (0, 0, 2)); [listed| |place_le_solve..].
  apply (within_app (0, 0, 2) (2, 0, 0)); [| |place_le_solve..].
  { apply (within_loop _ (fun p => (1, p, 0)) (fun p => (1, p, 1)));
      [intros p Hp; apply discovery_within|intros; place_le_solve|intros; place_le_solve
      |intros; split; place_le_solve|place_le_solve]. }
  apply (within_app _ (2, 0, 0)); [listed| |place_le_solve..].
  destruct (chunk_size_of _ _); [|apply within_nil].
  eapply within_weaken; [apply device_places_within|place_le_solve..].
Qed.

(** *** From the trace of a run to the script *)

Lemma omap_placed (t : list event) : omap placed t = place_of <$> t.
Proof. induction t as [|ev t IH]; [done|]. cbn. by rewrite IH. Qed.

Lemma not_at_exit (l : list place) :
  Forall (fun k => place_le (0, 0, 0) k /\ place_le k (14, 0, 1)) l ->
  Forall (fun k => ~ error_exit k) l.
Proof.
  intros Hl. eapply Forall_impl; [exact Hl|]. intros k [_ Hk] ->.
  revert Hk. place_le_solve.
Qed.

(** The events of any run of [main] are at places in order. *)
Lemma trace_in_order array_size A B e (s : state) :
  StronglySorted place_le (place_of <$> trace (main_with array_size A B e s)).
Proof.
  pose proof (main_with_on_script array_size A B e s) as Hrun.
  destruct (places_within array_size e) as [Hsorted Hbounds].
  assert (exists p d, place_of <$> trace (main_with array_size A B e s) = p ++ d /\
                      p `prefix_of` places array_size e /\ Forall error_exit d)
    as (p & d & -> & [k Hp] & Hd).
  { rewrite <- omap_placed. unfold trace.
    destruct (main_with array_size A B e s) as [[[r| |] s'] t]; simpl; [|done..].
    destruct Hrun as [Hrun _]. exists (places array_size e), [].
    rewrite app_nil_r. done. }
  rewrite Hp in Hsorted, Hbounds.
  apply StronglySorted_app in Hsorted as (Hacross & Hsp & _).
  apply Forall_app in Hbounds as [Hbp _].
  apply StronglySorted_app. split; [|split; [done|]].
  - rewrite Forall_forall in Hbp, Hd. intros x y Hx Hy.
    destruct (Hbp x Hx) as [_ Hle]. rewrite (Hd y Hy).
    eapply place_le_trans; [exact Hle|]. place_le_solve.
  - destruct (within_constant (15, 0, 0) d) as [? _]; [|done].
    eapply Forall_impl; [exact Hd|]. done.
Qed.

(** An event that is not at the error exit lies in the part of the trace
    that follows the script. *)
Lemma script_part (p d l1 l2 : list place) (k : place) :
  p ++ d = l1 ++ k :: l2 -> Forall error_exit d -> ~ error_exit k ->
  exists l2', p = l1 ++ k :: l2'.
Proof.
  intros Heq Hd Hk. revert p Heq. induction l1 as [|a l1 IH]; intros p Heq.
  - destruct p as [|y p]; simpl in Heq.
    + subst d. by apply Forall_cons in Hd as [? _].
    + injection Heq as -> _. by exists p.
  - destruct p as [|y p]; simpl in Heq.
    + subst d. apply Forall_cons in Hd as [_ Hd].
      rewrite Forall_app, Forall_cons in Hd. by destruct Hd as (_ & ? & _).
    + injection Heq as -> Heq. destruct (IH p Heq) as (l2' & ->). by exists l2'.
Qed.

(** The trace of any run of [main], cut at an event that is not at the
    error exit, is the script cut at the place of that event. *)
Lemma script_cut array_size A B e (s : state) t1 x t2 :
  trace (main_with array_size A B e s) = t1 ++ x :: t2 ->
  ~ error_exit (place_of x) ->
  exists rest, places array_size e = (place_of <$> t1) ++ place_of x :: rest.
Proof.
  intros Htrace Hx.
  pose proof (main_with_on_script array_size A B e s) as Hrun.
  assert (exists p d, place_of <$> trace (main_with array_size A B e s) = p ++ d /\
                      p `prefix_of` places array_size e /\ Forall error_exit d)
    as (p & d & Hplaces & [k Hp] & Hd).
  { rewrite <- omap_placed. unfold trace.
    destruct (main_with array_size A B e s) as [[[r| |] s'] t]; simpl; [|done..].
    destruct Hrun as [Hrun _]. exists (places array_size e), [].
    rewrite app_nil_r. done. }
  rewrite Htrace, fmap_app, fmap_cons in Hplaces. symmetry in Hplaces.
  destruct (script_part _ _ _ _ _ Hplaces Hd Hx) as (l2' & ->).
  exists (l2' ++ k). rewrite Hp. by rewrite <- app_assoc.
Qed.

(** What the script holds below the place of an event of the trace has
    been gone through before that event. *)
Lemma earlier_place array_size A B e (s : state) t1 x t2 (k : place) :
  trace (main_with array_size A B e s) = t1 ++ x :: t2 ->
  ~ error_exit (place_of x) ->
  k ∈ places array_size e -> ~ place_le (place_of x) k ->
  exists ev, ev ∈ t1 /\ place_of ev = k.
Proof.
  intros Htrace Hx Hk Hlt.
  destruct (script_cut _ _ _ _ _ _ _ _ Htrace Hx) as (rest & Hcut).
  destruct (places_within array_size e) as [Hsorted _].
  rewrite Hcut in Hsorted, Hk.
  apply StronglySorted_app in Hsorted as (_ & _ & Hs).
  apply StronglySorted_inv in Hs as [_ Hrest]. rewrite Forall_forall in Hrest.
  apply elem_of_app in Hk as [Hk|Hk].
  - apply list_elem_of_fmap in Hk as (ev & -> & Hev). by exists ev.
  - apply elem_of_cons in Hk as [->|Hk].
    + destruct Hlt. apply place_le_refl.
    + destruct Hlt. by apply Hrest.
Qed.

(** *** Which places the script holds *)

Lemma device_place_in_script array_size e cs (k : place) :
  chunk_size_of array_size (devices_found e) = Some cs ->
  k ∈ device_places (devices_found e) -> k ∈ places array_size e.
Proof. intros Hcs Hk. unfold places. rewrite Hcs, !elem_of_app. by do 3 right. Qed.

Lemma setup_place_in_script array_size e cs i step :
  chunk_size_of array_size (devices_found e) = Some cs ->
  0 <= i < devices_found e -> 0 <= step < 16 ->
  (3, i, step) ∈ places array_size e.
Proof.
  intros Hcs Hi Hstep. apply (device_place_in_script _ _ cs); [done|].
  unfold device_places. rewrite !elem_of_app. right. left.
  apply list_elem_of_bind. exists i. split; [|apply elem_of_seqZ; lia].
  unfold setup_places. apply list_elem_of_fmap. exists step.
  split; [done|]. apply elem_of_seqZ. lia.
Qed.

Lemma header_in_script array_size e cs :
  chunk_size_of array_size (devices_found e) = Some cs ->
  (7, 0, 0) ∈ places array_size e.
Proof.
  intros Hcs. apply (device_place_in_script _ _ cs); [done|].
  unfold device_places. rewrite !elem_of_app. do 5 right. left. by left.
Qed.

Lemma verdict_in_script array_size e cs :
  chunk_size_of array_size (devices_found e) = Some cs ->
  (12, 0, 0) ∈ places array_size e.
Proof.
  intros Hcs. apply (device_place_in_script _ _ cs); [done|].
  unfold device_places. rewrite !elem_of_app. do 10 right. left. by left.
Qed.

(** *** Which event is at a place *)

Lemma buffer_index_range b : 0 <= buffer_index b <= 2.
Proof. destruct b; simpl; lia. Qed.

Lemma arg_index_range arg : 0 <= arg_index arg <= 3.
Proof. unfold arg_index. destruct arg as [|[[]|[]|]|]; lia. Qed.

Ltac which_event H :=
  match type of H with
  | place_of ?ev = _ =>
      destruct ev as [[]|[]|?|]; cbn [place_of] in H; simplify_eq; try done;
      try (exfalso;
           first
             [ match goal with
               | H' : context [buffer_index ?b] |- _ =>
                   pose proof (buffer_index_range b); lia
               end
             | match goal with
               | H' : context [arg_index ?a] |- _ =>
                   pose proof (arg_index_range a); lia
               end ])
  end.

Lemma at_build (ev : event) i :
  place_of ev = (3, i, 5) -> ev = Call (clBuildProgram i).
Proof. intros H. by which_event H. Qed.

Lemma at_header (ev : event) :
  place_of ev = (7, 0, 0) -> ev = Stdout MsgTimeline.
Proof. intros H. by which_event H. Qed.

Lemma at_verdict (ev : event) :
  place_of ev = (12, 0, 0) -> ev = Stdout MsgPassed \/ ev = Stdout MsgFailed.
Proof. intros H. which_event H; auto. Qed.


Lemma at_buffer_A (ev : event) i :
  place_of ev = (3, i, 7) -> exists size, ev = Call (clCreateBuffer i BufA size).
Proof.
  intros H. which_event H.
  match goal with b : buffer |- _ => destruct b; try discriminate end.
  by eexists.
Qed.

Lemma at_setting_up (ev : event) i :
  place_of ev = (3, i, 1) -> exists name, ev = Stdout (MsgSettingUp i name).
Proof. intros H. which_event H. by eexists. Qed.

Lemma at_launch (ev : event) i :
  place_of ev = (5, i, 0) ->
  exists global_size, ev = Call (clEnqueueNDRangeKernel i global_size).
Proof. intros H. which_event H. by eexists. Qed.

(** Two places of the script, one after the other, are the places of two
    events of the trace. *)
Lemma two_places (t : list event) (l1 l2 l3 : list place) (k1 k2 : place) :
  place_of <$> t = l1 ++ k1 :: l2 ++ k2 :: l3 ->
  exists t1 x1 t2 x2 t3,
    t = t1 ++ x1 :: t2 ++ x2 :: t3 /\ place_of x1 = k1 /\ place_of x2 = k2.
Proof.
  intros (t1 & ta & _ & Ha & ->)%fmap_app_inv. symmetry in Ha.
  apply fmap_cons_inv in Ha as (x1 & tb & Hx1 & Hb & ->). symmetry in Hb.
  apply fmap_app_inv in Hb as (t2 & tc & _ & Hc & ->). symmetry in Hc.
  apply fmap_cons_inv in Hc as (x2 & t3 & Hx2 & _ & ->).
  exists t1, x1, t2, x2, t3. by rewrite Hx1, Hx2.
Qed.

(** *** The calls of a device in the schedule *)

Lemma buffer_in_schedule array_size e i b size :
  clCreateBuffer i b size ∈ schedule array_size e ->
  exists cs, chunk_size_of array_size (devices_found e) = Some cs /\
             0 <= i < devices_found e.
Proof.
  intros Hc. apply in_schedule in Hc as (cs & Hcs & Hc); [|simpl; lia].
  exists cs. split; [done|].
  apply in_device_calls in Hc
    as [[_ Hc]|[[? _]|[[? _]|[[? _]|[[? _]|[? _]]]]]]; try done.
  apply list_elem_of_bind in Hc as (j & Hc & Hj%elem_of_seqZ).
  unfold setup_calls in Hc. rewrite !elem_of_cons, elem_of_nil in Hc.
  destruct_or!; simplify_eq; lia.
Qed.

Lemma time_call_in_schedule array_size e cs i param :
  chunk_size_of array_size (devices_found e) = Some cs ->
  0 <= i < devices_found e ->
  clGetEventProfilingInfo i param ∈ schedule array_size e.
Proof.
  intros Hcs Hi. apply (device_call_in_schedule _ _ cs); [done|].
  unfold device_calls. rewrite !elem_of_app. do 3 right. left.
  apply list_elem_of_bind. exists i. split; [|apply elem_of_seqZ; lia].
  unfold time_calls. destruct param; [by left|right; by left].
Qed.

(** The calls of every phase for device [i]. *)
Lemma calls_of_device_in_schedule array_size e cs i c :
  chunk_size_of array_size (devices_found e) = Some cs ->
  0 <= i < devices_found e ->
  c ∈ setup_calls array_size (devices_found e) cs i
      ++ launch_calls array_size (devices_found e) cs i
      ++ wait_calls i ++ time_calls i
      ++ read_calls array_size (devices_found e) cs i
      ++ release_calls i ->
  c ∈ schedule array_size e.
Proof.
  intros Hcs Hi Hc. apply (device_call_in_schedule _ _ cs); [done|].
  assert (i ∈ seqZ 0 (devices_found e)) as Hin by (apply elem_of_seqZ; lia).
  unfold device_calls. rewrite !elem_of_app in Hc. rewrite !elem_of_app.
  destruct Hc as [Hc|[Hc|[Hc|[Hc|[Hc|Hc]]]]].
  - left. apply list_elem_of_bind. by exists i.
  - right. left. apply list_elem_of_bind. by exists i.
  - do 2 right. left. apply list_elem_of_bind. by exists i.
  - do 3 right. left. apply list_elem_of_bind. by exists i.
  - do 5 right. left. apply list_elem_of_bind. by exists i.
  - do 6 right. apply list_elem_of_bind. by exists i.
Qed.



End Ex004Script.

(** ** Example 004: the checked calls *)

Module Ex004Errors.
Import CInt Ex004 Run RunFacts Ex004Steps.

(** With respect to the checked calls of example 004 and its lines on
    [stderr]. *)
Abbreviation safe e := (guarded (St := state) (failed e) on_stderr).
Abbreviation awaited e := (pending (St := state) (failed e) on_stderr).
Abbreviation stops := (exits (E := event) (St := state) on_stderr).

Section Errors.
Variable e : env.

Lemma stdout_not_failed m : ~ failed e (Stdout m).
Proof. intros (c & Hc & _). discriminate. Qed.

Lemma stderr_not_failed m : ~ failed e (Stderr m).
Proof. intros (c & Hc & _). discriminate. Qed.

Lemma getchar_not_failed : ~ failed e Getchar.
Proof. intros (c & Hc & _). discriminate. Qed.

Lemma unchecked_not_failed c : checked c = false -> ~ failed e (Call c).
Proof. intros Hc (c' & [= <-] & Hc' & _). congruence. Qed.

Lemma succeeded_not_failed c :
  to_int (status e c) = CL.CL_SUCCESS -> ~ failed e (Call c).
Proof. intros Hc (c' & [= <-] & _ & Hst). done. Qed.

Lemma stderr_reported (t : list event) m : reported on_stderr (t ++ [Stderr m]).
Proof. exists t, (Stderr m). split; [done|by exists m]. Qed.


Lemma printf_guarded m : safe e (printf m).
Proof. apply guarded_emit, stdout_not_failed. Qed.

Lemma call_cl_guarded c : checked c = false -> safe e (call_cl e c).
Proof.
  intros Hc. apply guarded_bind; [|intros; apply guarded_ret].
  by apply guarded_emit, unchecked_not_failed.
Qed.

Lemma call_cl_pending c : awaited e (call_cl e c).
Proof.
  intros s. rewrite call_cl_run. intros Hst.
  constructor; [by apply succeeded_not_failed|constructor].
Qed.

(** [CHECK_ERROR] on a status that is not [CL_SUCCESS]. *)
Lemma CHECK_ERROR_exits {A} err msg (k : unit -> prog A) :
  err <> CL.CL_SUCCESS -> stops (CHECK_ERROR err msg ≫= k).
Proof.
  intros Herr s. exists s, [Stderr (MsgError err msg)]. split.
  - apply bind_exit. by apply CHECK_ERROR_failure.
  - apply (stderr_reported []).
Qed.

Lemma CHECK_ERROR_guarded err msg : err = CL.CL_SUCCESS -> safe e (CHECK_ERROR err msg).
Proof. intros -> s. constructor. Qed.

(** A status followed by its [CHECK_ERROR]. *)
Lemma checked_guarded {A} (m : prog Z) msg (k : unit -> prog A) :
  awaited e m -> (forall u, safe e (k u)) ->
  safe e (m ≫= fun err => CHECK_ERROR err msg ≫= k).
Proof.
  intros Hm Hk. apply guarded_pending; [done|..].
  - intros err Herr. by apply CHECK_ERROR_exits.
  - intros err Herr. apply guarded_bind; [by apply CHECK_ERROR_guarded|done].
Qed.

Lemma checked_last_guarded (m : prog Z) msg :
  awaited e m -> safe e (m ≫= fun err => CHECK_ERROR err msg).
Proof.
  intros Hm. apply guarded_pending; [done|..].
  - intros err Herr s. exists s, [Stderr (MsgError err msg)].
    split; [by apply CHECK_ERROR_failure|apply (stderr_reported [])].
  - intros err Herr. by apply CHECK_ERROR_guarded.
Qed.

Lemma create_buffer_pending i b size : awaited e (create_buffer e i b size).
Proof.
  intros s. unfold create_buffer, mbind, M_bind, bind. rewrite call_cl_run.
  destruct (to_int (status e (clCreateBuffer i b size)) =? CL.CL_SUCCESS) eqn:Hst; cbn.
  - intros _. apply Z.eqb_eq in Hst.
    constructor; [by apply succeeded_not_failed|constructor].
  - intros Herr. apply Z.eqb_neq in Hst. done.
Qed.

Lemma enqueue_write_pending i b host offset size :
  awaited e (enqueue_write e i b host offset size).
Proof.
  intros s. unfold enqueue_write, mbind, M_bind, bind. rewrite call_cl_run.
  destruct (to_int (status e (clEnqueueWriteBuffer i b offset size)) =? CL.CL_SUCCESS)
    eqn:Hst; cbn.
  - apply Z.eqb_eq in Hst.
    destruct (Mem.copy _ _ _ _ _); cbn; intros;
      (constructor; [by apply succeeded_not_failed|constructor]).
  - intros Herr. apply Z.eqb_neq in Hst. done.
Qed.

Lemma enqueue_kernel_pending i global_size : awaited e (enqueue_kernel e i global_size).
Proof.
  intros s. unfold enqueue_kernel, mbind, M_bind, bind. rewrite call_cl_run.
  destruct (to_int (status e (clEnqueueNDRangeKernel i global_size)) =? CL.CL_SUCCESS)
    eqn:Hst; cbn.
  - apply Z.eqb_eq in Hst.
    destruct (run_kernel _ _); cbn; intros;
      (constructor; [by apply succeeded_not_failed|constructor]).
  - intros Herr. apply Z.eqb_neq in Hst. done.
Qed.

Lemma enqueue_read_pending i offset size : awaited e (enqueue_read e i offset size).
Proof.
  intros s. unfold enqueue_read, mbind, M_bind, bind. rewrite call_cl_run.
  destruct (to_int (status e (clEnqueueReadBuffer i offset size)) =? CL.CL_SUCCESS)
    eqn:Hst; cbn.
  - apply Z.eqb_eq in Hst.
    destruct (Mem.copy _ _ _ _ _); cbn; intros;
      (constructor; [by apply succeeded_not_failed|constructor]).
  - intros Herr. apply Z.eqb_neq in Hst. done.
Qed.

(** Lines 128-135: the build and its check. *)
Lemma build_guarded {A} i (k : unit -> prog A) :
  (forall u, safe e (k u)) ->
  safe e (call_cl e (clBuildProgram i) ≫= fun err =>
          (if negb (err =? CL.CL_SUCCESS) then
             call_cl e (clGetProgramBuildInfo i);;
             fprintf_stderr (MsgBuildError i (build_log e i));;
             Run.exit 1
           else mret tt) ≫= k).
Proof.
  intros Hk. apply guarded_pending; [apply call_cl_pending|..].
  - intros err Herr s. destruct (Z.eqb_spec err CL.CL_SUCCESS) as [?|_]; [done|].
    exists s, [Call (clGetProgramBuildInfo i); Stderr (MsgBuildError i (build_log e i))].
    split; [done|]. apply (stderr_reported [_]).
  - intros err -> . apply guarded_bind; [apply guarded_ret|done].
Qed.

(** Lines 168-172: the four statuses are or-ed, and checked once. *)
Lemma set_args_guarded i offset :
  safe e (call_cl e (clSetKernelArg i 0) ≫= fun err0 =>
          call_cl e (clSetKernelArg i 1) ≫= fun err1 =>
          call_cl e (clSetKernelArg i 2) ≫= fun err2 =>
          call_cl e (clSetKernelArg i 3) ≫= fun err3 =>
          Run.modify (update_context i (set_arg_offset offset));;
          CHECK_ERROR (Z.lor (Z.lor (Z.lor err0 err1) err2) err3) "clSetKernelArg").
Proof.
  intros s. unfold mbind, M_bind, bind. rewrite !call_cl_run. cbn.
  unfold CHECK_ERROR.
  destruct (Z.eqb_spec
    (Z.lor (Z.lor (Z.lor (to_int (status e (clSetKernelArg i 0)))
                         (to_int (status e (clSetKernelArg i 1))))
                  (to_int (status e (clSetKernelArg i 2))))
           (to_int (status e (clSetKernelArg i 3)))) CL.CL_SUCCESS) as [Hor|Hor]; cbn.
  - unfold CL.CL_SUCCESS in Hor. rewrite !Z.lor_eq_0_iff in Hor.
    destruct Hor as [[[H0 H1] H2] H3].
    repeat (constructor; [by apply succeeded_not_failed|]). constructor.
  - split; [done|]. apply (stderr_reported [_; _; _; _]).
Qed.

Lemma get_event_time_guarded i param : safe e (get_event_time e i param).
Proof.
  apply guarded_bind; [by apply call_cl_guarded|intros; apply guarded_ret].
Qed.

Lemma read_kernel_source_guarded filename : safe e (read_kernel_source e filename).
Proof.
  unfold read_kernel_source. destruct (negb (kernel_file_opens e)).
  - apply exits_guarded. intros s. exists s, [Stderr (MsgKernelFile filename)].
    split; [done|apply (stderr_reported [])].
  - apply guarded_ret.
Qed.

Lemma discover_platform_guarded p total : safe e (discover_platform e p total).
Proof.
  unfold discover_platform.
  apply guarded_bind; [by apply call_cl_guarded|intros err].
  destruct (_ && _); [|apply guarded_ret].
  apply checked_guarded; [apply call_cl_pending|intros; apply guarded_ret].
Qed.

Lemma discover_guarded num_platforms : safe e (discover e num_platforms).
Proof. apply guarded_for_fold. intros. apply discover_platform_guarded. Qed.

Lemma setup_device_guarded array_size A B num_devices chunk_size i :
  safe e (setup_device array_size A B e num_devices chunk_size i).
Proof.
  unfold setup_device.
  apply guarded_bind; [by apply call_cl_guarded|intros _].
  apply guarded_bind; [apply printf_guarded|intros _].
  do 3 (apply checked_guarded; [apply call_cl_pending|intros _]).
  apply build_guarded; intros _.
  apply checked_guarded; [apply call_cl_pending|intros _].
  do 3 (apply checked_guarded; [apply create_buffer_pending|intros _]).
  do 2 (apply checked_guarded; [apply enqueue_write_pending|intros _]).
  apply set_args_guarded.
Qed.

Lemma launch_device_guarded array_size num_devices chunk_size i :
  safe e (launch_device array_size e num_devices chunk_size i).
Proof. apply checked_last_guarded, enqueue_kernel_pending. Qed.

Lemma wait_device_guarded i : safe e (wait_device e i).
Proof.
  apply guarded_bind; [by apply call_cl_guarded|intros; apply guarded_ret].
Qed.

Lemma timeline_device_guarded i acc : safe e (timeline_device e i acc).
Proof.
  unfold timeline_device.
  do 2 (apply guarded_bind; [apply get_event_time_guarded|intros ?]).
  apply guarded_bind; [apply printf_guarded|intros; apply guarded_ret].
Qed.

Lemma overlap_pair_guarded i j : safe e (overlap_pair e i j).
Proof.
  unfold overlap_pair.
  do 4 (apply guarded_bind; [apply get_event_time_guarded|intros ?]).
  apply printf_guarded.
Qed.

Lemma concurrency_guarded num_devices : safe e (concurrency e num_devices).
Proof.
  apply guarded_for_each. intros i. apply guarded_for_each. intros j.
  apply overlap_pair_guarded.
Qed.

Lemma read_device_guarded array_size num_devices chunk_size i :
  safe e (read_device array_size e num_devices chunk_size i).
Proof. apply checked_last_guarded, enqueue_read_pending. Qed.

Lemma verify_guarded A B : safe e (verify A B).
Proof.
  unfold verify.
  apply guarded_bind; [apply printf_guarded|intros _].
  apply guarded_bind; [|intros; apply printf_guarded].
  apply guarded_for_fold. intros i correct. unfold verify_element.
  apply guarded_bind; [apply guarded_get|intros s].
  do 3 (apply guarded_bind; [apply guarded_defined|intros ?]).
  destruct (negb _);
    (apply guarded_bind; [apply printf_guarded|intros; apply guarded_ret]).
Qed.

Lemma release_device_guarded i : safe e (release_device e i).
Proof.
  unfold release_device.
  do 8 (apply guarded_bind; [by apply call_cl_guarded|intros _]).
  apply guarded_ret.
Qed.

Lemma run_devices_guarded array_size A B num_devices :
  safe e (run_devices array_size A B e num_devices).
Proof.
  unfold run_devices.
  apply guarded_bind;
    [destruct (chunk_size_of _ _); [apply guarded_ret|apply guarded_raise]|
     intros chunk_size].
  apply guarded_bind; [apply printf_guarded|intros _].
  apply guarded_bind;
    [apply guarded_for_each; intros; apply setup_device_guarded|intros _].
  apply guarded_bind; [apply printf_guarded|intros _].
  apply guarded_bind;
    [apply guarded_for_each; intros; apply launch_device_guarded|intros _].
  apply guarded_bind;
    [apply guarded_for_each; intros; apply wait_device_guarded|intros _].
  apply guarded_bind; [apply printf_guarded|intros _].
  apply guarded_bind;
    [apply guarded_for_fold; intros; apply timeline_device_guarded|intros times].
  do 2 (apply guarded_bind; [apply printf_guarded|intros _]).
  apply guarded_bind; [apply concurrency_guarded|intros _].
  apply guarded_bind;
    [apply guarded_for_each; intros; apply read_device_guarded|intros _].
  apply guarded_bind; [apply verify_guarded|intros _].
  apply guarded_bind;
    [apply guarded_for_each; intros; apply release_device_guarded|intros _].
  apply guarded_bind; [apply printf_guarded|intros _].
  apply guarded_bind; [apply guarded_emit, getchar_not_failed|intros _].
  apply guarded_ret.
Qed.

Lemma main_with_guarded array_size A B : safe e (main_with array_size A B e).
Proof.
  unfold main_with.
  do 2 (apply checked_guarded; [apply call_cl_pending|intros _]).
  apply guarded_bind; [apply printf_guarded|intros _].
  apply guarded_bind; [apply discover_guarded|intros total_devices].
  apply guarded_bind; [apply printf_guarded|intros _].
  apply guarded_bind; [apply read_kernel_source_guarded|intros _].
  apply run_devices_guarded.
Qed.

End Errors.

(** A checked call of [main] that fails ends the program. *)
Lemma main_with_failed array_size A B e s ev :
  ev ∈ trace (main_with array_size A B e s) -> failed e ev ->
  outcome (main_with array_size A B e s) = Exit 1 /\
  reported on_stderr (trace (main_with array_size A B e s)).
Proof. apply guarded_bad, main_with_guarded. Qed.

End Ex004Errors.

(** ** Example 000: which statuses end the enumeration *)

Module Ex000Errors.
Import CInt Ex000 Run RunFacts.

Lemma query_run e c (s : unit) :
  call_cl e c s = (Ok (to_int (status e c)), s, [Call c]).
Proof. reflexivity. Qed.

Lemma cout_silent m : silent (cout m).
Proof. apply silent_emit. Qed.

Lemma call_cl_silent e c : silent (call_cl e c).
Proof. apply silent_bind; [apply silent_emit|intros; apply silent_ret]. Qed.

Lemma print_platform_info_silent e i param : silent (print_platform_info e i param).
Proof. apply silent_bind; [apply call_cl_silent|intros; apply cout_silent]. Qed.

Lemma print_device_silent e i j : silent (print_device e i j).
Proof.
  unfold print_device.
  apply silent_bind; [apply cout_silent|intros _].
  apply silent_bind; [apply call_cl_silent|intros err].
  apply silent_bind; [apply cout_silent|intros _].
  do 2 (apply silent_bind; [apply call_cl_silent|intros ?];
        apply silent_bind;
          [destruct (_ =? _); [apply cout_silent|apply silent_ret]|intros _]).
  apply silent_bind; [apply call_cl_silent|intros ?].
  destruct (_ =? _); [apply cout_silent|apply silent_ret].
Qed.

(** No status ends the round of a platform. *)
Lemma print_platform_silent e i : silent (print_platform e i).
Proof.
  unfold print_platform.
  apply silent_bind; [apply cout_silent|intros _].
  do 3 (apply silent_bind; [apply print_platform_info_silent|intros _]).
  apply silent_bind; [apply cout_silent|intros _].
  apply silent_bind; [apply call_cl_silent|intros err].
  destruct (negb _); [apply cout_silent|].
  apply silent_bind; [apply cout_silent|intros _].
  destruct (_ =? 0); [apply cout_silent|].
  apply silent_bind; [apply call_cl_silent|intros err'].
  destruct (negb _); [apply cout_silent|].
  apply silent_bind; [|intros; apply cout_silent].
  apply silent_for_each. intros j. apply print_device_silent.
Qed.

(** Lines 55-61: a platform whose devices cannot be counted is skipped. *)
Lemma print_platform_skip e i :
  to_int (status e (clGetDeviceIDs_count i)) <> CL.CL_SUCCESS ->
  exists t,
    print_platform e i tt =
      (Ok tt, tt,
       t ++ [Call (clGetDeviceIDs_count i);
             Stdout (MsgDevicesError (to_int (status e (clGetDeviceIDs_count i))))]).
Proof.
  intros Hst. unfold print_platform.
  exists ([Stdout (MsgPlatform i)] ++
          trace (print_platform_info e i CL_PLATFORM_NAME tt) ++
          trace (print_platform_info e i CL_PLATFORM_VENDOR tt) ++
          trace (print_platform_info e i CL_PLATFORM_VERSION tt) ++
          [Stdout MsgAttempting]).
  unfold print_platform_info, call_cl, cout, mbind, M_bind, bind, emit, mret, M_ret, ret.
  cbn.
  destruct (Z.eqb_spec (to_int (status e (clGetDeviceIDs_count i))) CL.CL_SUCCESS)
    as [?|_]; [done|].
  reflexivity.
Qed.

(** Lines 11-15. *)
Lemma main_no_platform_count e :
  to_int (status e clGetPlatformIDs_count) <> CL.CL_SUCCESS ->
  main e tt =
    (Exit 1, tt,
     [Stdout MsgBanner; Call clGetPlatformIDs_count;
      Stderr (MsgErrorPlatformCount (to_int (status e clGetPlatformIDs_count)))]).
Proof.
  intros Hst.
  enough (exists t, main e tt = (Exit 1, tt, t) /\
            t = [Stdout MsgBanner; Call clGetPlatformIDs_count;
                 Stderr (MsgErrorPlatformCount (to_int (status e clGetPlatformIDs_count)))])
    as (t & -> & ->); [done|].
  eexists. split; [unfold main|shelve].
  eapply bind_ok; [reflexivity|].
  eapply bind_ok; [apply query_run|]. cbv beta.
  destruct (Z.eqb_spec (to_int (status e clGetPlatformIDs_count)) CL.CL_SUCCESS)
    as [?|_]; [contradiction|].
  apply bind_exit. reflexivity.
  Unshelve. reflexivity.
Qed.

(** Lines 25-29. *)
Lemma main_no_platforms e :
  to_int (status e clGetPlatformIDs_count) = CL.CL_SUCCESS ->
  to_uint (numPlatforms e) <> 0 ->
  to_int (status e clGetPlatformIDs) <> CL.CL_SUCCESS ->
  main e tt =
    (Exit 1, tt,
     [Stdout MsgBanner; Call clGetPlatformIDs_count;
      Stdout (MsgFoundPlatforms (to_uint (numPlatforms e))); Call clGetPlatformIDs;
      Stderr (MsgErrorPlatforms (to_int (status e clGetPlatformIDs)))]).
Proof.
  intros Hcount Hnum Hst.
  enough (exists t, main e tt = (Exit 1, tt, t) /\
            t = [Stdout MsgBanner; Call clGetPlatformIDs_count;
                 Stdout (MsgFoundPlatforms (to_uint (numPlatforms e)));
                 Call clGetPlatformIDs;
                 Stderr (MsgErrorPlatforms (to_int (status e clGetPlatformIDs)))])
    as (t & -> & ->); [done|].
  eexists. split; [unfold main|shelve].
  eapply bind_ok; [reflexivity|].
  eapply bind_ok; [apply query_run|]. cbv beta. rewrite Hcount.
  eapply bind_ok; [reflexivity|].
  destruct (Z.eqb_spec (to_uint (numPlatforms e)) 0) as [?|_]; [contradiction|].
  eapply bind_ok; [reflexivity|].
  eapply bind_ok; [reflexivity|].
  eapply bind_ok; [apply query_run|]. cbv beta.
  destruct (Z.eqb_spec (to_int (status e clGetPlatformIDs)) CL.CL_SUCCESS)
    as [?|_]; [contradiction|].
  apply bind_exit. reflexivity.
  Unshelve. reflexivity.
Qed.

(** Once the platforms are there, no status ends the program. *)
Lemma main_returns e :
  to_int (status e clGetPlatformIDs_count) = CL.CL_SUCCESS ->
  to_uint (numPlatforms e) <> 0 ->
  to_int (status e clGetPlatformIDs) = CL.CL_SUCCESS ->
  exists t, main e tt = (Ok 0, tt, t).
Proof.
  intros Hcount Hnum Hids.
  destruct (silent_for_each (seqZ 0 (to_uint (numPlatforms e))) (print_platform e)
              (print_platform_silent e) tt) as ([] & t & Hloop).
  eexists. unfold main.
  eapply bind_ok; [reflexivity|].
  eapply bind_ok; [apply query_run|]. cbv beta. rewrite Hcount.
  eapply bind_ok; [reflexivity|].
  destruct (Z.eqb_spec (to_uint (numPlatforms e)) 0) as [?|_]; [contradiction|].
  eapply bind_ok; [reflexivity|].
  eapply bind_ok; [reflexivity|].
  eapply bind_ok; [apply query_run|]. cbv beta. rewrite Hids.
  eapply bind_ok; [reflexivity|].
  eapply bind_ok; [apply Hloop|].
  eapply bind_ok; [reflexivity|].
  reflexivity.
Qed.

End Ex000Errors.

(** ** Error handling across the examples *)

Module ErrorHandling.
Import CInt Run RunFacts.

(** Example 000 on a machine whose first platform cannot count its
    devices: the query fails, the platform is skipped with a line on
    [stdout], the second platform is enumerated, and [main] returns 0
    without a line on [stderr]. *)
Lemma failing_platform_is_skipped :
  to_int (Ex000.status Ex000.first_platform_fails (Ex000.clGetDeviceIDs_count 0))
    = CL.CL_DEVICE_NOT_FOUND /\
  outcome (Ex000.main Ex000.first_platform_fails tt) = Ok 0 /\
  (exists t1 t2,
     trace (Ex000.main Ex000.first_platform_fails tt) =
       t1 ++ [Ex000.Call (Ex000.clGetDeviceIDs_count 0);
              Ex000.Stdout (Ex000.MsgDevicesError CL.CL_DEVICE_NOT_FOUND);
              Ex000.Stdout (Ex000.MsgPlatform 1)] ++ t2 /\
     Ex000.Call (Ex000.clGetDeviceIDs 1) ∈ t2 /\
     Ex000.Stdout (Ex000.MsgDeviceName (Some "device"%string)) ∈ t2) /\
  Forall (fun ev => forall m, ev <> Ex000.Stderr m)
    (trace (Ex000.main Ex000.first_platform_fails tt)).
Proof.
  split; [reflexivity|]. split; [reflexivity|]. split.
  - exists (take 12 (trace (Ex000.main Ex000.first_platform_fails tt))),
           (drop 15 (trace (Ex000.main Ex000.first_platform_fails tt))).
    split; [vm_compute; reflexivity|].
    split; apply list_elem_of_In; vm_compute; tauto.
  - vm_compute. repeat constructor; discriminate.
Qed.

(** C3, amended.  A status that is checked ends the program: [checkError]
    of the examples 001 to 003 and 005 to 008 prints its diagnostic and
    exits with status 1 on every status but [CL_SUCCESS], and does nothing
    on [CL_SUCCESS]; in a run of example 004 in which a call checked by
    [CHECK_ERROR] or by the build check fails, the program exits with
    status 1 and the last thing it did was to print on [stderr].  Other
    statuses steer the program without ending it: example 004 passes over
    a platform whose devices cannot be counted; example 000 exits with
    status 1 when [clGetPlatformIDs] fails, and once the platforms are
    there it returns 0 whatever the later calls answer, a platform whose
    devices cannot be counted being reported on [stdout] and skipped. *)
Theorem checked_failures_exit_others_are_skipped :
  (forall (S : Type) (err : Z) (operation : string) (s : S),
     Common.checkError err operation s =
       if err =? CL.CL_SUCCESS then (Ok tt, s, [])
       else (Exit 1, s, [Common.ErrorDuring operation err])) /\
  (forall array_size A B e s ev,
     ev ∈ trace (Ex004.main_with array_size A B e s) ->
     Ex004.failed e ev ->
     outcome (Ex004.main_with array_size A B e s) = Exit 1 /\
     reported Ex004.on_stderr (trace (Ex004.main_with array_size A B e s))) /\
  (forall e p total s,
     to_int (Ex004.status e (Ex004.clGetDeviceIDs_count p)) <> CL.CL_SUCCESS ->
     Ex004.discover_platform e p total s =
       (Ok total, s, [Ex004.Call (Ex004.clGetDeviceIDs_count p)])) /\
  (forall e,
     to_int (Ex000.status e Ex000.clGetPlatformIDs_count) <> CL.CL_SUCCESS ->
     Ex000.main e tt =
       (Exit 1, tt,
        [Ex000.Stdout Ex000.MsgBanner; Ex000.Call Ex000.clGetPlatformIDs_count;
         Ex000.Stderr (Ex000.MsgErrorPlatformCount
                         (to_int (Ex000.status e Ex000.clGetPlatformIDs_count)))])) /\
  (forall e,
     to_int (Ex000.status e Ex000.clGetPlatformIDs_count) = CL.CL_SUCCESS ->
     to_uint (Ex000.numPlatforms e) <> 0 ->
     to_int (Ex000.status e Ex000.clGetPlatformIDs) <> CL.CL_SUCCESS ->
     Ex000.main e tt =
       (Exit 1, tt,
        [Ex000.Stdout Ex000.MsgBanner; Ex000.Call Ex000.clGetPlatformIDs_count;
         Ex000.Stdout (Ex000.MsgFoundPlatforms (to_uint (Ex000.numPlatforms e)));
         Ex000.Call Ex000.clGetPlatformIDs;
         Ex000.Stderr (Ex000.MsgErrorPlatforms
                         (to_int (Ex000.status e Ex000.clGetPlatformIDs)))])) /\
  (forall e,
     to_int (Ex000.status e Ex000.clGetPlatformIDs_count) = CL.CL_SUCCESS ->
     to_uint (Ex000.numPlatforms e) <> 0 ->
     to_int (Ex000.status e Ex000.clGetPlatformIDs) = CL.CL_SUCCESS ->
     outcome (Ex000.main e tt) = Ok 0) /\
  (forall e i,
     to_int (Ex000.status e (Ex000.clGetDeviceIDs_count i)) <> CL.CL_SUCCESS ->
     exists t,
       Ex000.print_platform e i tt =
         (Ok tt, tt,
          t ++ [Ex000.Call (Ex000.clGetDeviceIDs_count i);
                Ex000.Stdout (Ex000.MsgDevicesError
                                (to_int (Ex000.status e (Ex000.clGetDeviceIDs_count i))))])).
Proof.
  split; [|split; [|split; [|split; [|split; [|split]]]]].
  - intros S err operation s. unfold Common.checkError.
    by destruct (err =? CL.CL_SUCCESS).
  - intros array_size A B e s ev. apply Ex004Errors.main_with_failed.
  - intros e p total s Hst. apply Ex004Steps.discover_platform_skip. by left.
  - apply Ex000Errors.main_no_platform_count.
  - apply Ex000Errors.main_no_platforms.
  - intros e Hcount Hnum Hids.
    destruct (Ex000Errors.main_returns e Hcount Hnum Hids) as (t & Hrun).
    unfold outcome. by rewrite Hrun.
  - apply Ex000Errors.print_platform_skip.
Qed.

Lemma checked_failures_exit_others_are_skipped_witness :
  outcome (Ex004.main_with 4 (Ex004.init_A 4) (Ex004.init_B 4) Ex004.no_context_env
             (Ex004.initial 4 Ex004.no_context_env)) = Exit 1 /\
  reported Ex004.on_stderr
    (trace (Ex004.main_with 4 (Ex004.init_A 4) (Ex004.init_B 4) Ex004.no_context_env
              (Ex004.initial 4 Ex004.no_context_env))).
Proof.
  apply (proj1 (proj2 checked_failures_exit_others_are_skipped))
    with (ev := Ex004.Call (Ex004.clCreateContext 0)).
  - apply list_elem_of_In. vm_compute. tauto.
  - exists (Ex004.clCreateContext 0). split; [reflexivity|]. split; [reflexivity|].
    vm_compute. discriminate.
Defined.

End ErrorHandling.

(** ** Binary floating point: what rounding cannot do *)

Module CFloatFacts.
Import CFloat.

Section Rounding.
Variables prec emax : Z.
Hypothesis Hprec : 0 < prec.

Local Abbreviation emin := (SpecFloat.emin prec emax).
Local Abbreviation fexp := (SpecFloat.fexp prec emax).

Lemma emin_le_fexp e : emin <= fexp e.
Proof. unfold SpecFloat.fexp. lia. Qed.

Lemma digits2_pos_size m : digits2_pos m = Pos.size m.
Proof. induction m as [m IH|m IH|]; simpl; by rewrite ?IH. Qed.

(** A number of [d] digits is at least [2^(d-1)]. *)
Lemma digits2_pos_le m : 2 ^ (Z.pos (digits2_pos m) - 1) <= Z.pos m.
Proof.
  rewrite digits2_pos_size. pose proof (Pos.size_le m) as Hle.
  apply Pos2Z.pos_le_pos in Hle. rewrite Pos2Z.inj_pow in Hle.
  replace (Z.pos (Pos.size m)) with (Z.succ (Z.pos (Pos.size m) - 1)) in Hle by lia.
  rewrite Z.pow_succ_r in Hle by lia. lia.
Qed.

Lemma iter_pos_nat {A} (f : A -> A) (n : positive) (x : A) :
  SpecFloat.iter_pos f n x = Nat.iter (Pos.to_nat n) f x.
Proof.
  revert x. induction n as [n IH|n IH|]; intros x; cbn [SpecFloat.iter_pos].
  - rewrite !IH, Pos2Nat.inj_xI, <- Nat.iter_add, <- Nat.iter_succ_r.
    f_equal. lia.
  - rewrite !IH, Pos2Nat.inj_xO, <- Nat.iter_add. f_equal. lia.
  - done.
Qed.

Lemma shr_1_div2 mrs : 0 <= shr_m mrs -> shr_m (shr_1 mrs) = shr_m mrs / 2.
Proof.
  destruct mrs as [m r s]. simpl. intros Hm. rewrite <- Z.div2_div.
  destruct m as [|[p|p|]|p]; done.
Qed.

Lemma shr_iter_div n mrs :
  0 <= shr_m mrs ->
  shr_m (Nat.iter n shr_1 mrs) = shr_m mrs / 2 ^ Z.of_nat n.
Proof.
  intros Hm. induction n as [|n IH].
  - simpl. by rewrite Z.div_1_r.
  - rewrite Nat2Z.inj_succ, Z.pow_succ_r by lia. simpl.
    rewrite shr_1_div2 by (rewrite IH; apply Z.div_pos; lia).
    rewrite IH, Z.div_div by lia. f_equal. lia.
Qed.

(** The exponent that a shift arrives at. *)
Lemma shr_fexp_exponent m e l : emin <= (shr_fexp prec emax m e l).2.
Proof.
  unfold shr_fexp, shr. pose proof (emin_le_fexp (Zdigits2 m + e)).
  destruct (fexp (Zdigits2 m + e) - e) eqn:Hn; simpl; lia.
Qed.

(** Above [emin] a shift leaves a positive mantissa positive. *)
Lemma shr_fexp_positive m e l :
  0 < m -> emin <= e -> 0 < shr_m (shr_fexp prec emax m e l).1.
Proof.
  intros Hm He. unfold shr_fexp, shr.
  assert (shr_m (shr_record_of_loc m l) = m) as Hrec by (by destruct l as [|[]]).
  destruct (fexp (Zdigits2 m + e) - e) as [|q|q] eqn:Hn; simpl; rewrite ?Hrec; try done.
  rewrite iter_pos_nat, shr_iter_div, Hrec, positive_nat_Z by lia.
  destruct m as [|p|p]; try lia. simpl in Hn.
  pose proof (digits2_pos_le p) as Hdigits.
  assert (Z.pos q <= Z.pos (digits2_pos p) - 1) as Hq
    by (unfold SpecFloat.fexp in Hn; lia).
  apply Z.div_str_pos. split; [lia|].
  etrans; [|exact Hdigits]. apply Z.pow_le_mono_r; lia.
Qed.

Lemma round_nearest_even_le m l : m <= round_nearest_even m l.
Proof. destruct l as [|[]]; simpl; try lia. destruct (Z.even m); lia. Qed.

Lemma binary_round_aux_exponent sx mx ex lx s m e :
  binary_round_aux prec emax sx mx ex lx = S754_finite s m e -> emin <= e.
Proof.
  unfold binary_round_aux.
  destruct (shr_fexp prec emax mx ex lx) as [mrs' e'].
  pose proof (shr_fexp_exponent
    (round_nearest_even (shr_m mrs') (loc_of_shr_record mrs')) e' loc_Exact) as He.
  destruct (shr_fexp prec emax _ e' loc_Exact) as [mrs'' e''].
  destruct (shr_m mrs''); try done.
  destruct (e'' <=? emax - prec); [|done]. intros [= _ _ <-]. done.
Qed.

Lemma binary_round_aux_not_zero sx mx ex lx s :
  0 < mx -> emin <= ex -> binary_round_aux prec emax sx mx ex lx <> S754_zero s.
Proof.
  intros Hm He. unfold binary_round_aux.
  pose proof (shr_fexp_positive mx ex lx Hm He) as Hpos.
  pose proof (shr_fexp_exponent mx ex lx) as Hexp.
  destruct (shr_fexp prec emax mx ex lx) as [mrs' e']. simpl in Hpos, Hexp.
  pose proof (round_nearest_even_le (shr_m mrs') (loc_of_shr_record mrs')) as Hle.
  pose proof (shr_fexp_positive
    (round_nearest_even (shr_m mrs') (loc_of_shr_record mrs')) e' loc_Exact) as Hpos'.
  destruct (shr_fexp prec emax _ e' loc_Exact) as [mrs'' e'']. simpl in Hpos'.
  specialize (Hpos' ltac:(lia) ltac:(lia)).
  destruct (shr_m mrs''); try lia.
  by destruct (e'' <=? emax - prec).
Qed.

Lemma shl_align_exponent mx ex :
  emin <= ex -> emin <= (shl_align mx ex (fexp (Z.pos (digits2_pos mx) + ex))).2.
Proof.
  intros He. unfold shl_align.
  pose proof (emin_le_fexp (Z.pos (digits2_pos mx) + ex)).
  by destruct (fexp (Z.pos (digits2_pos mx) + ex) - ex).
Qed.

Lemma binary_round_exponent sx mx ex s m e :
  binary_round prec emax sx mx ex = S754_finite s m e -> emin <= e.
Proof.
  unfold binary_round. destruct (shl_align _ _ _) as [mz ez].
  apply binary_round_aux_exponent.
Qed.

Lemma binary_round_not_zero sx mx ex s :
  emin <= ex -> binary_round prec emax sx mx ex <> S754_zero s.
Proof.
  intros He. unfold binary_round.
  pose proof (shl_align_exponent mx ex He) as Hexp.
  destruct (shl_align _ _ _) as [mz ez]. simpl in Hexp.
  by apply binary_round_aux_not_zero.
Qed.

End Rounding.
(** A product is never below [emin]. *)
Lemma fmul_above_emin x y : above_emin (fmul x y).
Proof.
  destruct x as [sx|sx| |sx mx ex], y as [sy|sy| |sy my ey]; try exact I.
  unfold above_emin, fmul, SFmul.
  destruct (binary_round_aux _ _ _ _ _ _) as [| | |s m e] eqn:Hround; try exact I.
  by apply binary_round_aux_exponent in Hround.
Qed.

(** A sum is [-0.0f] only when both its terms are. *)
Lemma fadd_above_emin x y :
  x <> neg_zero -> above_emin x -> above_emin y ->
  fadd x y <> neg_zero /\ above_emin (fadd x y).
Proof.
  intros Hx Hex Hey.
  destruct x as [[]|[]| |sx mx ex], y as [[]|[]| |sy my ey]; try done.
  unfold fadd, SFadd, binary_normalize. simpl in Hex, Hey.
  set (ez := Z.min ex ey). assert (emin prec32 emax32 <= ez) as Hez by lia.
  destruct (_ + _) as [|m|m]; [done|..].
  - split; [by apply binary_round_not_zero|].
    unfold above_emin.
    destruct (binary_round _ _ _ _ _) as [| | |s m' e] eqn:Hround; try exact I.
    by apply binary_round_exponent in Hround.
  - split; [by apply binary_round_not_zero|].
    unfold above_emin.
    destruct (binary_round _ _ _ _ _) as [| | |s m' e] eqn:Hround; try exact I.
    by apply binary_round_exponent in Hround.
Qed.

Lemma fadd_zero_r x : x <> neg_zero -> fadd x zero = x.
Proof. by destruct x as [[]|[]| |sx mx ex]. Qed.

Lemma fmul_zero_zero : fmul zero zero = zero.
Proof. reflexivity. Qed.

End CFloatFacts.

(** ** Example 006: the tiled kernel computes what the simple kernel does *)

Module Ex006Tiled.
Import CInt CIntFacts CFloat CFloatFacts Mem MemFacts Ex006 Ex006Kernel.

(** *** Loops over work-items *)

(** An invariant of the items run so far. *)
Lemma for_items_invariant {I S} (step : I -> S -> option S)
    (Inv : list I -> S -> Prop) (ids : list I) (s : S) :
  Inv [] s ->
  (forall done id rest s,
     ids = done ++ id :: rest -> Inv done s ->
     exists s', step id s = Some s' /\ Inv (done ++ [id]) s') ->
  exists s', for_items step ids s = Some s' /\ Inv ids s'.
Proof.
  intros Hinit Hstep.
  enough (Hgen : forall rest done s, ids = done ++ rest -> Inv done s ->
            exists s', for_items step rest s = Some s' /\ Inv ids s').
  { by apply (Hgen ids [] s). }
  induction rest as [|id rest IH]; intros done s0 Hids Hinv.
  - exists s0. split; [done|]. by rewrite Hids, app_nil_r.
  - destruct (Hstep done id rest s0 Hids Hinv) as (s1 & Hrun & Hinv1).
    cbn [for_items]. rewrite Hrun. apply (IH (done ++ [id])); [|done].
    by rewrite <- app_assoc.
Qed.

Lemma seqZ_split lo len done id rest :
  seqZ lo len = done ++ id :: rest -> id = lo + Z.of_nat (length done) /\ id < lo + len.
Proof.
  intros Hsplit.
  assert (seqZ lo len !! length done = Some id) as Hlookup
    by (rewrite Hsplit; apply list_lookup_middle; done).
  apply lookup_seqZ in Hlookup. lia.
Qed.

Lemma elem_of_range2 size0 size1 id0 id1 :
  (id0, id1) ∈ range2 size0 size1 <-> 0 <= id0 < size0 /\ 0 <= id1 < size1.
Proof.
  unfold range2. rewrite list_elem_of_bind. split.
  - intros (i & Hin & Hi%elem_of_seqZ). apply list_elem_of_bind in Hin.
    destruct Hin as (j & Hin & Hj%elem_of_seqZ).
    apply list_elem_of_singleton in Hin. injection Hin as -> ->. lia.
  - intros [H0 H1]. exists id0. split; [|apply elem_of_seqZ; lia].
    apply list_elem_of_bind. exists id1. split; [|apply elem_of_seqZ; lia].
    by apply list_elem_of_singleton.
Qed.

Lemma NoDup_range2 size0 size1 : NoDup (range2 size0 size1).
Proof.
  unfold range2. apply NoDup_bind; [| |apply NoDup_seqZ].
  - intros i i' [j j'] _ _ Hin Hin'.
    apply list_elem_of_bind in Hin as (? & Hin%list_elem_of_singleton & _).
    apply list_elem_of_bind in Hin' as (? & Hin'%list_elem_of_singleton & _).
    congruence.
  - intros i _. apply NoDup_bind; [| |apply NoDup_seqZ].
    + intros j j' [? ?] _ _ Hin%list_elem_of_singleton Hin'%list_elem_of_singleton.
      congruence.
    + intros j _. apply NoDup_singleton.
Qed.

(** In a list without duplicates an item is not among those before it. *)
Lemma not_done {I} (ids done rest : list I) id :
  NoDup ids -> ids = done ++ id :: rest -> id ∉ done.
Proof.
  intros Hnodup ->. apply NoDup_app in Hnodup as (_ & Hdisj & _).
  intros Hin. apply (Hdisj id Hin). by left.
Qed.

(** A loop whose body is a step of a fold. *)
Lemma for_items_foldl {I S} (body : I -> S -> option S)
    (f : option S -> I -> option S) (l : list I) (s0 : S) :
  (forall k, f None k = None) ->
  (forall k s, k ∈ l -> body k s = f (Some s) k) ->
  for_items body l s0 = foldl f (Some s0) l.
Proof.
  intros Hnone Hbody. revert s0. induction l as [|k l IH]; intros s0; [done|].
  cbn [for_items foldl]. rewrite Hbody by left.
  destruct (f (Some s0) k) as [s1|].
  - apply IH. intros k' s Hk'. apply Hbody. by right.
  - clear -Hnone. induction l as [|k' l IH]; [done|]. cbn [foldl]. by rewrite Hnone.
Qed.

(** *** The sums *)

Section Sums.
Variables (A B : list float) (N K i j : Z).

Local Abbreviation padded_step := (padded_step A B N K i j).

Lemma padded_sum_fold n : padded_sum A B N K i j n = foldl padded_step (Some zero) (seqZ 0 n).
Proof. reflexivity. Qed.

Lemma padded_sum_add n m :
  0 <= n -> 0 <= m ->
  padded_sum A B N K i j (n + m) = foldl padded_step (padded_sum A B N K i j n) (seqZ n m).
Proof.
  intros Hn Hm. rewrite !padded_sum_fold, seqZ_app, foldl_app by lia.
  by rewrite Z.add_0_l.
Qed.

Lemma padded_sum_ref : 0 <= N -> padded_sum A B N K i j N = matmul_ref A B N K i j.
Proof.
  intros HN. rewrite padded_sum_fold. unfold matmul_ref.
  assert (forall k, k ∈ seqZ 0 N -> k < N) as Hl
    by (intros k Hk%elem_of_seqZ; lia).
  revert Hl. generalize (Some zero). generalize (seqZ 0 N).
  induction l as [|k l IH]; intros acc Hl; [done|]. cbn [foldl].
  rewrite <- IH by (intros k' Hk'; apply Hl; by right).
  f_equal. unfold padded_step.
  destruct (Z.ltb_spec k N) as [_|Hge]; [done|].
  specialize (Hl k ltac:(left)). lia.
Qed.

Lemma settled_zero : settled (Some zero).
Proof. intros s [= <-]. done. Qed.

Lemma padded_step_settled acc k : settled acc -> settled (padded_step acc k).
Proof.
  intros Hacc s. unfold padded_step.
  destruct acc as [s0|]; [|done]. destruct (Hacc s0 eq_refl) as [Hs0 He0]. simpl.
  destruct (k <? N).
  - destruct (load A _) as [a|]; [|done]. destruct (load B _) as [b|]; [|done].
    simpl. intros [= <-]. apply fadd_above_emin; [done..|apply fmul_above_emin].
  - intros [= <-]. apply fadd_above_emin; [done..|exact (fmul_above_emin zero zero)].
Qed.

Lemma padded_fold_settled l acc : settled acc -> settled (foldl padded_step acc l).
Proof.
  revert acc. induction l as [|k l IH]; intros acc Hacc; [done|].
  cbn [foldl]. by apply IH, padded_step_settled.
Qed.

(** The products [0.0f * 0.0f] at the end leave the sum as it is. *)
Lemma padding_fold l acc :
  settled acc -> (forall k, k ∈ l -> N <= k) -> foldl padded_step acc l = acc.
Proof.
  revert acc. induction l as [|k l IH]; intros acc Hacc Hl; [done|].
  cbn [foldl].
  assert (padded_step acc k = acc) as ->.
  { unfold padded_step. destruct acc as [s|]; [|done]. simpl.
    destruct (Z.ltb_spec k N) as [Hlt|_]; [specialize (Hl k ltac:(left)); lia|].
    change (fmul zero zero) with zero.
    rewrite fadd_zero_r; [done|]. by apply (Hacc s). }
  apply IH; [done|]. intros k' Hk'. apply Hl. by right.
Qed.

Lemma padded_sum_padding n :
  0 <= N <= n -> padded_sum A B N K i j n = matmul_ref A B N K i j.
Proof.
  intros Hn. replace n with (N + (n - N)) by lia.
  rewrite padded_sum_add by lia. rewrite padding_fold.
  - apply padded_sum_ref. lia.
  - rewrite padded_sum_fold. apply padded_fold_settled, settled_zero.
  - intros k Hk%elem_of_seqZ. lia.
Qed.

End Sums.
(** *** Indices *)

Lemma int_small z : 0 <= z <= INT_MAX -> to_int z = z.
Proof. intros Hz. apply to_int_small. unfold is_int. lia. Qed.

(** Two different elements of the matrix are two different locations. *)
Lemma cell_inj (K r c r' c' : Z) :
  0 <= c < K -> 0 <= c' < K -> r * K + c = r' * K + c' -> r = r' /\ c = c'.
Proof.
  intros Hc Hc' Heq.
  assert (r = r') as ->; [|lia].
  destruct (Z.lt_trichotomy r r') as [Hlt|[Heq'|Hgt]]; [nia|done|nia].
Qed.

(** *** One work-group of the tiled kernel *)

Section Group.
Variables (A B : list float) (M N K : Z).
Hypothesis HM : 0 <= M.
Hypothesis HN : 0 <= N.
Hypothesis HK : 0 <= K.
Hypothesis HMN : M * N <= INT_MAX.
Hypothesis HNK : N * K <= INT_MAX.
Hypothesis HMK : M * K <= INT_MAX.
Hypothesis HM16 : M + TILE_SIZE <= INT_MAX.
Hypothesis HN16 : N + TILE_SIZE <= INT_MAX.
Hypothesis HK16 : K + TILE_SIZE <= INT_MAX.
Hypothesis HA : M * N <= Z.of_nat (length A).
Hypothesis HB : N * K <= Z.of_nat (length B).

(** The work-group, which has a row and a column inside the matrix. *)
Variables group0 group1 : Z.
Hypothesis Hgroup0 : 0 <= group0 /\ TILE_SIZE * group0 < M.
Hypothesis Hgroup1 : 0 <= group1 /\ TILE_SIZE * group1 < K.

Local Abbreviation group_id := (group0, group1).

Lemma numTiles_div : numTiles N = (N + 15) / 16.
Proof.
  unfold numTiles, int_div, int_sub, int_add. unfold TILE_SIZE in *.
  rewrite (int_small (N + 16)) by lia.
  rewrite (int_small (N + 16 - 1)) by lia.
  rewrite Z.quot_div_nonneg by lia.
  replace (N + 16 - 1) with (N + 15) by lia.
  apply int_small. split; [apply Z.div_pos; lia|].
  etrans; [apply Z.div_le_upper_bound with (q := N + 15); lia|lia].
Qed.

Lemma round_bound t : 0 <= t < numTiles N -> 0 <= 16 * t /\ 16 * t < N.
Proof.
  rewrite numTiles_div. intros [Ht0 Ht].
  pose proof (Z.mul_div_le (N + 15) 16 ltac:(lia)). lia.
Qed.

Section Round.
Variable t : Z.
Hypothesis Ht : 0 <= t < numTiles N.

Lemma load_tiles_step local0 local1 g :
  0 <= local0 < 16 -> 0 <= local1 < 16 ->
  length (A_tile g) = 256%nat -> length (B_tile g) = 256%nat ->
  exists a b,
    A_tile_at A M N group_id t local0 local1 = Some a /\
    B_tile_at B N K group_id t local0 local1 = Some b /\
    load_tiles A B M N K group_id t (local0, local1) g =
      Some {| A_tile := <[Z.to_nat (local0 * 16 + local1) := a]> (A_tile g);
              B_tile := <[Z.to_nat (local0 * 16 + local1) := b]> (B_tile g);
              sum := sum g |}.
Proof.
  intros H0 H1 HlenA HlenB. pose proof (round_bound t Ht) as Hround.
  unfold TILE_SIZE in *. unfold load_tiles, A_tile_at, B_tile_at, TILE_SIZE.
  cbn [fst snd]. unfold int_add, int_mul.
  rewrite (int_small (group0 * 16 + local0)) by lia.
  rewrite (int_small (group1 * 16 + local1)) by lia.
  rewrite (int_small local0), (int_small local1) by (unfold INT_MAX; lia).
  rewrite (int_small (16 * t)) by lia.
  rewrite (int_small (16 * t + local0)), (int_small (16 * t + local1)) by lia.
  rewrite (int_small (local0 * 16)) by (unfold INT_MAX; lia).
  rewrite (int_small (local0 * 16 + local1)) by (unfold INT_MAX; lia).
  assert (exists a,
    (if (group0 * 16 + local0 <? M) && (16 * t + local1 <? N)
     then load A (to_int (to_int ((group0 * 16 + local0) * N) + (16 * t + local1)))
     else Some zero) = Some a /\
    (if (group0 * 16 + local0 <? M) && (16 * t + local1 <? N)
     then load A ((group0 * 16 + local0) * N + (16 * t + local1))
     else Some zero) = Some a) as (a & -> & ->).
  { destruct (Z.ltb_spec (group0 * 16 + local0) M), (Z.ltb_spec (16 * t + local1) N);
      simpl; try by exists zero.
    rewrite (int_small ((group0 * 16 + local0) * N)) by nia.
    rewrite int_small by nia.
    destruct (load_in_range A ((group0 * 16 + local0) * N + (16 * t + local1)))
      as [a Ha]; [nia|]. by exists a. }
  assert (exists b,
    (if (16 * t + local0 <? N) && (group1 * 16 + local1 <? K)
     then load B (to_int (to_int ((16 * t + local0) * K) + (group1 * 16 + local1)))
     else Some zero) = Some b /\
    (if (16 * t + local0 <? N) && (group1 * 16 + local1 <? K)
     then load B ((16 * t + local0) * K + (group1 * 16 + local1))
     else Some zero) = Some b) as (b & -> & ->).
  { destruct (Z.ltb_spec (16 * t + local0) N), (Z.ltb_spec (group1 * 16 + local1) K);
      simpl; try by exists zero.
    rewrite (int_small ((16 * t + local0) * K)) by nia.
    rewrite int_small by nia.
    destruct (load_in_range B ((16 * t + local0) * K + (group1 * 16 + local1)))
      as [b Hb]; [nia|]. by exists b. }
  exists a, b. split; [done|]. split; [done|]. simpl.
  rewrite !store_in_range by lia. done.
Qed.

Lemma local_id_range local0 local1 :
  (local0, local1) ∈ local_ids <-> 0 <= local0 < 16 /\ 0 <= local1 < 16.
Proof. apply elem_of_range2. Qed.

Local Abbreviation loaded := (loaded A B M N K group_id t).

Lemma load_phase g :
  length (A_tile g) = 256%nat -> length (B_tile g) = 256%nat ->
  exists g',
    for_items (load_tiles A B M N K group_id t) local_ids g = Some g' /\
    length (A_tile g') = 256%nat /\ length (B_tile g') = 256%nat /\
    sum g' = sum g /\ loaded g'.
Proof.
  intros HlenA HlenB.
  destruct (for_items_invariant (load_tiles A B M N K group_id t)
    (fun done g' =>
       length (A_tile g') = 256%nat /\ length (B_tile g') = 256%nat /\
       sum g' = sum g /\
       forall local0 local1, (local0, local1) ∈ done ->
         load (A_tile g') (local0 * 16 + local1)
           = A_tile_at A M N group_id t local0 local1 /\
         load (B_tile g') (local0 * 16 + local1)
           = B_tile_at B N K group_id t local0 local1)
    local_ids g) as (g' & Hrun & HA' & HB' & Hsum & Htiles).
  - repeat split; try done; by apply elem_of_nil in H.
  - intros done [local0 local1] rest g1 Hids (HA1 & HB1 & Hsum1 & Htiles1).
    assert (forall id, id ∈ done ++ [(local0, local1)] -> id ∈ local_ids) as Hin.
    { intros id Hid. rewrite Hids, (assoc_L _ done [_] rest : done ++ (local0, local1) :: rest = (done ++ [(local0, local1)]) ++ rest).
      apply elem_of_app. by left. }
    pose proof (Hin (local0, local1) ltac:(apply elem_of_app; right; by left))
      as [H0 H1]%local_id_range.
    destruct (load_tiles_step local0 local1 g1 H0 H1 HA1 HB1)
      as (a & b & Ha & Hb & ->).
    eexists. split; [done|]. cbn [A_tile B_tile sum].
    rewrite !length_insert. do 3 (split; [done|]).
    intros local0' local1' Hid.
    pose proof (Hin _ Hid) as [H0' H1']%local_id_range.
    rewrite !load_insert by lia.
    destruct (Z.eqb_spec (local0' * 16 + local1') (local0 * 16 + local1)) as [Heq|Hne].
    + assert (local0' = local0) as -> by lia. assert (local1' = local1) as -> by lia.
      done.
    + apply elem_of_app in Hid as [Hid|Hid%list_elem_of_singleton].
      * by apply Htiles1.
      * injection Hid as -> ->. done.
  - exists g'. do 4 (split; [done|]). intros local0 local1 H0 H1.
    apply Htiles. by apply local_id_range.
Qed.

(** The loop between the barriers, for one work-item. *)
Lemma tile_body g local0 local1 k s :
  0 <= local0 < 16 -> 0 <= local1 < 16 -> 0 <= k < 16 -> loaded g ->
  (a ← load (A_tile g) (int_add (int_mul (to_int local0) TILE_SIZE) k);
   b ← load (B_tile g) (int_add (int_mul k TILE_SIZE) (to_int local1));
   Some (fadd s (fmul a b))) =
  tile_step A B M N K group_id t local0 local1 (Some s) k.
Proof.
  intros H0 H1 Hk Hloaded. unfold tile_step, int_add, int_mul, TILE_SIZE.
  rewrite (int_small local0), (int_small local1) by (unfold INT_MAX; lia).
  rewrite (int_small (local0 * 16)), (int_small (k * 16)) by (unfold INT_MAX; lia).
  rewrite !int_small by (unfold INT_MAX; lia).
  destruct (Hloaded local0 k H0 Hk) as [-> _].
  destruct (Hloaded k local1 Hk H1) as [_ ->]. done.
Qed.

Lemma tile_fold_defined g local0 local1 l acc :
  0 <= local0 < 16 -> 0 <= local1 < 16 ->
  length (A_tile g) = 256%nat -> length (B_tile g) = 256%nat -> loaded g ->
  (forall k, k ∈ l -> 0 <= k < 16) -> is_Some acc ->
  is_Some (foldl (tile_step A B M N K group_id t local0 local1) acc l).
Proof.
  intros H0 H1 HlenA HlenB Hloaded. revert acc.
  induction l as [|k l IH]; intros acc Hl Hacc; [done|]. cbn [foldl].
  apply IH; [intros k' Hk'; apply Hl; by right|].
  pose proof (Hl k ltac:(left)) as Hk. destruct Hacc as [s ->].
  unfold tile_step.
  destruct (Hloaded local0 k H0 Hk) as [<- _].
  destruct (Hloaded k local1 Hk H1) as [_ <-].
  destruct (load_in_range (A_tile g) (local0 * 16 + k)) as [a ->]; [lia|].
  destruct (load_in_range (B_tile g) (k * 16 + local1)) as [b ->]; [lia|]. done.
Qed.

Lemma partial_sum_step g local0 local1 :
  0 <= local0 < 16 -> 0 <= local1 < 16 ->
  length (A_tile g) = 256%nat -> length (B_tile g) = 256%nat -> loaded g ->
  exists s,
    partial_sum (local0, local1) g =
      Some {| A_tile := A_tile g; B_tile := B_tile g;
              sum := <[(local0, local1) := s]> (sum g) |} /\
    foldl (tile_step A B M N K group_id t local0 local1)
      (Some (sum g (local0, local1))) (seqZ 0 16) = Some s.
Proof.
  intros H0 H1 HlenA HlenB Hloaded.
  destruct (tile_fold_defined g local0 local1 (seqZ 0 16)
              (Some (sum g (local0, local1))) H0 H1 HlenA HlenB Hloaded)
    as [s Hfold]; [intros k Hk%elem_of_seqZ; lia|done|].
  exists s. split; [|done]. unfold partial_sum. cbn [fst snd].
  change (seqZ 0 TILE_SIZE) with (seqZ 0 16).
  rewrite (for_items_foldl _ (tile_step A B M N K group_id t local0 local1)).
  - by rewrite Hfold.
  - done.
  - intros k s' Hk%elem_of_seqZ. apply tile_body; [done..|lia|done].
Qed.

(** From the first barrier to the second. *)
Lemma compute_phase g :
  length (A_tile g) = 256%nat -> length (B_tile g) = 256%nat -> loaded g ->
  exists g',
    for_items partial_sum local_ids g = Some g' /\
    A_tile g' = A_tile g /\ B_tile g' = B_tile g /\
    forall local0 local1, 0 <= local0 < 16 -> 0 <= local1 < 16 ->
      foldl (tile_step A B M N K group_id t local0 local1)
        (Some (sum g (local0, local1))) (seqZ 0 16) = Some (sum g' (local0, local1)).
Proof.
  intros HlenA HlenB Hloaded.
  destruct (for_items_invariant partial_sum
    (fun done g' =>
       A_tile g' = A_tile g /\ B_tile g' = B_tile g /\
       (forall local0 local1, (local0, local1) ∈ done ->
          foldl (tile_step A B M N K group_id t local0 local1)
            (Some (sum g (local0, local1))) (seqZ 0 16)
            = Some (sum g' (local0, local1))) /\
       (forall id, id ∉ done -> sum g' id = sum g id))
    local_ids g) as (g' & Hrun & HA' & HB' & Hsums & _).
  - repeat split; try done. intros ? ? Hin. by apply elem_of_nil in Hin.
  - intros done [local0 local1] rest g1 Hids (HA1 & HB1 & Hdone & Hrest).
    assert ((local0, local1) ∈ local_ids) as [H0 H1]%local_id_range.
    { rewrite Hids. apply elem_of_app. right. by left. }
    pose proof (not_done _ _ _ _ (NoDup_range2 _ _) Hids) as Hfresh.
    destruct (partial_sum_step g1 local0 local1) as (s & -> & Hs);
      [done|done|congruence|congruence| |].
    { intros l0 l1 Hl0 Hl1. rewrite HA1, HB1. by apply Hloaded. }
    rewrite (Hrest _ Hfresh) in Hs.
    eexists. split; [done|]. cbn [A_tile B_tile sum].
    do 2 (split; [done|]). split.
    + intros local0' local1' Hin.
      destruct (decide ((local0', local1') = (local0, local1))) as [[= -> ->]|Hne].
      * by rewrite fn_lookup_insert.
      * rewrite fn_lookup_insert_ne by done.
        apply elem_of_app in Hin as [Hin|Hin%list_elem_of_singleton]; [|done].
        by apply Hdone.
    + intros id Hid. rewrite fn_lookup_insert_ne.
      * apply Hrest. intros Hin. apply Hid, elem_of_app. by left.
      * intros <-. apply Hid, elem_of_app. right. by left.
  - exists g'. do 3 (split; [done|]). intros local0 local1 H0 H1.
    apply Hsums. by apply local_id_range.
Qed.

(** Round [t] of the loop. *)
Lemma round_run g :
  length (A_tile g) = 256%nat -> length (B_tile g) = 256%nat ->
  exists g',
    (g1 ← for_items (load_tiles A B M N K group_id t) local_ids g;
     for_items partial_sum local_ids g1) = Some g' /\
    length (A_tile g') = 256%nat /\ length (B_tile g') = 256%nat /\
    forall local0 local1, 0 <= local0 < 16 -> 0 <= local1 < 16 ->
      foldl (tile_step A B M N K group_id t local0 local1)
        (Some (sum g (local0, local1))) (seqZ 0 16) = Some (sum g' (local0, local1)).
Proof.
  intros HlenA HlenB.
  destruct (load_phase g HlenA HlenB) as (g1 & -> & HA1 & HB1 & Hsum1 & Hloaded).
  destruct (compute_phase g1 HA1 HB1 Hloaded) as (g' & Hrun & HA' & HB' & Hsums).
  exists g'. split; [done|]. split; [congruence|]. split; [congruence|].
  intros local0 local1 H0 H1. rewrite <- Hsum1. by apply Hsums.
Qed.

(** Inside the matrix the products of round [t] are those with the indices
    [16 t .. 16 t + 15]. *)
Lemma tile_fold_padded local0 local1 acc :
  0 <= local0 < 16 -> 0 <= local1 < 16 ->
  group0 * 16 + local0 < M -> group1 * 16 + local1 < K ->
  foldl (tile_step A B M N K group_id t local0 local1) acc (seqZ 0 16) =
  foldl (padded_step A B N K (group0 * 16 + local0) (group1 * 16 + local1)) acc
    (seqZ (16 * t) 16).
Proof.
  intros H0 H1 Hrow Hcol.
  replace (16 * t) with (16 * t + 0) by lia.
  rewrite <- (fmap_add_seqZ (16 * t) 0 16), foldl_fmap.
  generalize (seqZ 0 16). intros l. revert acc.
  induction l as [|k l IH]; intros acc; [done|]. cbn [foldl]. rewrite IH. f_equal.
  unfold tile_step, padded_step, A_tile_at, B_tile_at, TILE_SIZE. cbn [fst snd].
  destruct acc as [s|]; [|done]. simpl.
  destruct (Z.ltb_spec (group0 * 16 + local0) M); [|lia].
  destruct (Z.ltb_spec (group1 * 16 + local1) K); [|lia].
  rewrite andb_true_r. simpl.
  destruct (16 * t + k <? N); [done|]. done.
Qed.

End Round.
(** All the rounds: inside the matrix, [sum] ends as the sum of the simple
    kernel. *)
Lemma rounds_run g :
  length (A_tile g) = 256%nat -> length (B_tile g) = 256%nat ->
  (forall id, sum g id = zero) ->
  exists g',
    for_items (fun t g =>
        g1 ← for_items (load_tiles A B M N K group_id t) local_ids g;
        for_items partial_sum local_ids g1) (seqZ 0 (numTiles N)) g = Some g' /\
    forall local0 local1, 0 <= local0 < 16 -> 0 <= local1 < 16 ->
      group0 * 16 + local0 < M -> group1 * 16 + local1 < K ->
      matmul_ref A B N K (group0 * 16 + local0) (group1 * 16 + local1)
        = Some (sum g' (local0, local1)).
Proof.
  intros HlenA HlenB Hzero.
  destruct (for_items_invariant
    (fun t g =>
       g1 ← for_items (load_tiles A B M N K group_id t) local_ids g;
       for_items partial_sum local_ids g1)
    (fun done g' =>
       length (A_tile g') = 256%nat /\ length (B_tile g') = 256%nat /\
       forall local0 local1, 0 <= local0 < 16 -> 0 <= local1 < 16 ->
         group0 * 16 + local0 < M -> group1 * 16 + local1 < K ->
         padded_sum A B N K (group0 * 16 + local0) (group1 * 16 + local1)
           (16 * Z.of_nat (length done)) = Some (sum g' (local0, local1)))
    (seqZ 0 (numTiles N)) g) as (g' & Hrun & _ & _ & Hsums).
  - do 2 (split; [done|]). intros local0 local1 _ _ _ _. by rewrite Hzero.
  - intros done t rest g1 Hids (HA1 & HB1 & Hsums1).
    apply seqZ_split in Hids as [Ht Hlt].
    assert (0 <= t < numTiles N) as Hround by lia.
    destruct (round_run t Hround g1 HA1 HB1) as (g2 & -> & HA2 & HB2 & Hsums2).
    exists g2. split; [done|]. do 2 (split; [done|]).
    intros local0 local1 H0 H1 Hrow Hcol.
    rewrite length_app. cbn [length].
    replace (16 * Z.of_nat (length done + 1)) with (16 * t + 16) by lia.
    rewrite padded_sum_add by lia.
    replace (16 * t) with (16 * Z.of_nat (length done)) at 1 by lia.
    rewrite (Hsums1 local0 local1) by done.
    rewrite <- (tile_fold_padded t) by done. by apply Hsums2.
  - exists g'. split; [done|]. intros local0 local1 H0 H1 Hrow Hcol.
    rewrite <- (Hsums local0 local1) by done. symmetry.
    apply padded_sum_padding. rewrite length_seqZ, numTiles_div.
    pose proof (Z.mod_pos_bound (N + 15) 16 ltac:(lia)).
    pose proof (Z.div_mod (N + 15) 16 ltac:(lia)).
    assert (0 <= (N + 15) / 16) by (apply Z.div_pos; lia). lia.
Qed.

Local Abbreviation group_cell := (group_cell M K group_id).

(** After the last barrier. *)
Lemma write_phase g (C : list float) :
  M * K <= Z.of_nat (length C) ->
  exists C',
    for_items (write_sum M K group_id g) local_ids C = Some C' /\
    length C' = length C /\
    (forall local0 local1, 0 <= local0 < 16 -> 0 <= local1 < 16 ->
       group0 * 16 + local0 < M -> group1 * 16 + local1 < K ->
       load C' ((group0 * 16 + local0) * K + (group1 * 16 + local1))
         = Some (sum g (local0, local1))) /\
    (forall j, load C' j = load C j \/ group_cell j).
Proof.
  intros HC.
  destruct (for_items_invariant (write_sum M K group_id g)
    (fun done C' =>
       length C' = length C /\
       (forall local0 local1, (local0, local1) ∈ done ->
          group0 * 16 + local0 < M -> group1 * 16 + local1 < K ->
          load C' ((group0 * 16 + local0) * K + (group1 * 16 + local1))
            = Some (sum g (local0, local1))) /\
       (forall j, load C' j = load C j \/ group_cell j))
    local_ids C) as (C' & Hrun & Hlen & Hcells & Hothers).
  - split; [done|]. split; [|by left]. intros ? ? Hin. by apply elem_of_nil in Hin.
  - intros done [local0 local1] rest C1 Hids (Hlen1 & Hcells1 & Hothers1).
    assert (forall id, id ∈ done ++ [(local0, local1)] -> id ∈ local_ids) as Hin.
    { intros id Hid. rewrite Hids, (assoc_L _ done [_] rest : done ++ (local0, local1) :: rest = (done ++ [(local0, local1)]) ++ rest).
      apply elem_of_app. by left. }
    pose proof (Hin (local0, local1) ltac:(apply elem_of_app; right; by left))
      as [H0 H1]%local_id_range.
    unfold write_sum, TILE_SIZE in *. cbn [fst snd].
    rewrite (int_small (group0 * 16 + local0)), (int_small (group1 * 16 + local1))
      by lia.
    destruct (Z.ltb_spec (group0 * 16 + local0) M) as [Hrow|Hrow]; cycle 1.
    { exists C1. split; [done|]. split; [done|]. split; [|done].
      intros local0' local1' [Hid|Hid%list_elem_of_singleton]%elem_of_app Hrow' Hcol'.
      - by apply Hcells1.
      - injection Hid as -> ->. lia. }
    destruct (Z.ltb_spec (group1 * 16 + local1) K) as [Hcol|Hcol]; cycle 1.
    { exists C1. split; [done|]. split; [done|]. split; [|done].
      intros local0' local1' [Hid|Hid%list_elem_of_singleton]%elem_of_app Hrow' Hcol'.
      - by apply Hcells1.
      - injection Hid as -> ->. lia. }
    cbn [andb]. unfold int_add, int_mul.
    rewrite (int_small ((group0 * 16 + local0) * K)) by nia.
    rewrite int_small by nia.
    rewrite store_in_range by nia.
    eexists. split; [done|]. rewrite length_insert. split; [done|]. split.
    + intros local0' local1' Hid Hrow' Hcol'.
      pose proof (Hin _ Hid) as [H0' H1']%local_id_range.
      rewrite load_insert by nia.
      destruct (Z.eqb_spec ((group0 * 16 + local0') * K + (group1 * 16 + local1'))
                  ((group0 * 16 + local0) * K + (group1 * 16 + local1))) as [Heq|Hne].
      * apply cell_inj in Heq; [|lia..].
        assert (local0' = local0) as -> by lia.
        assert (local1' = local1) as -> by lia. done.
      * apply elem_of_app in Hid as [Hid|Hid%list_elem_of_singleton].
        -- by apply Hcells1.
        -- injection Hid as -> ->. done.
    + intros j. rewrite load_insert by nia.
      destruct (Z.eqb_spec j ((group0 * 16 + local0) * K + (group1 * 16 + local1)))
        as [->|Hne]; [|apply Hothers1].
      right. by exists local0, local1.
  - exists C'. do 2 (split; [done|]). split; [|done].
    intros local0 local1 H0 H1. apply Hcells. by apply local_id_range.
Qed.

(** The work-group as a whole. *)
Lemma group_run (tileA tileB C : list float) :
  length tileA = 256%nat -> length tileB = 256%nat ->
  M * K <= Z.of_nat (length C) ->
  exists C',
    matrix_multiply_tiled A B M N K tileA tileB group_id C = Some C' /\
    length C' = length C /\
    (forall local0 local1, 0 <= local0 < 16 -> 0 <= local1 < 16 ->
       group0 * 16 + local0 < M -> group1 * 16 + local1 < K ->
       load C' ((group0 * 16 + local0) * K + (group1 * 16 + local1))
         = matmul_ref A B N K (group0 * 16 + local0) (group1 * 16 + local1)) /\
    (forall j, load C' j = load C j \/ group_cell j).
Proof.
  intros HlenA HlenB HC. unfold matrix_multiply_tiled.
  destruct (rounds_run {| A_tile := tileA; B_tile := tileB; sum := fun _ => zero |})
    as (g & -> & Hsums); [done..|].
  destruct (write_phase g C HC) as (C' & Hrun & Hlen & Hcells & Hothers).
  exists C'. split; [done|]. split; [done|]. split; [|done].
  intros local0 local1 H0 H1 Hrow Hcol.
  rewrite Hcells, Hsums by done. done.
Qed.

End Group.
(** *** The two launches *)

(** Instantiates the hypotheses of [H] that are at hand. *)
Ltac with_hypotheses H :=
  repeat match type of H with
         | ?P -> _ => match type of P with Prop => idtac end;
                      specialize (H ltac:(assumption))
         end.

Section Launch.
Variables (A B : list float) (M N K : Z).
Hypothesis HM : 0 <= M.
Hypothesis HN : 0 <= N.
Hypothesis HK : 0 <= K.
Hypothesis HMN : M * N <= INT_MAX.
Hypothesis HNK : N * K <= INT_MAX.
Hypothesis HMK : M * K <= INT_MAX.
Hypothesis HM16 : M + TILE_SIZE <= INT_MAX.
Hypothesis HN16 : N + TILE_SIZE <= INT_MAX.
Hypothesis HK16 : K + TILE_SIZE <= INT_MAX.
Hypothesis HA : M * N <= Z.of_nat (length A).
Hypothesis HB : N * K <= Z.of_nat (length B).

Lemma ref_defined row col :
  0 <= row < M -> 0 <= col < K -> is_Some (matmul_ref A B N K row col).
Proof. by apply (Ex006Serial.matmul_ref_defined A B M). Qed.

(** The number of work-groups in a dimension. *)
Lemma tiled_groups n :
  0 <= n -> n + TILE_SIZE <= INT_MAX ->
  tiled_global_size n / TILE_SIZE = (n + 15) / 16.
Proof.
  intros Hn Hmax. unfold tiled_global_size. fold (numTiles n).
  rewrite numTiles_div by done.
  assert (0 <= (n + 15) / 16 <= n + 15) as Hdiv.
  { split; [apply Z.div_pos; lia|].
    apply Z.div_le_upper_bound; lia. }
  unfold to_ulong, TILE_SIZE in *. unfold INT_MAX in *.
  rewrite (Z.mod_small ((n + 15) / 16)) by lia.
  rewrite Z.mod_small by lia.
  apply Z.div_mul. lia.
Qed.

Lemma group_inside n w :
  0 <= n -> 0 <= w < (n + 15) / 16 -> 0 <= w /\ TILE_SIZE * w < n.
Proof.
  intros Hn Hw. pose proof (Z.mul_div_le (n + 15) 16 ltac:(lia)).
  unfold TILE_SIZE. lia.
Qed.

Lemma enqueue_tiled_run (tileA tileB C : list float) :
  length tileA = 256%nat -> length tileB = 256%nat ->
  M * K <= Z.of_nat (length C) ->
  exists C',
    enqueue_matrix_multiply_tiled A B M N K tileA tileB C = Some C' /\
    length C' = length C /\
    (forall row col, 0 <= row < M -> 0 <= col < K ->
       load C' (row * K + col) = matmul_ref A B N K row col) /\
    (forall j, load C' j = load C j \/ in_matrix M K j).
Proof.
  intros HlenA HlenB HC. unfold enqueue_matrix_multiply_tiled.
  rewrite !tiled_groups by done.
  destruct (for_items_invariant (matrix_multiply_tiled A B M N K tileA tileB)
    (fun done C' =>
       length C' = length C /\
       (forall row col, 0 <= row < M -> 0 <= col < K ->
          (row / 16, col / 16) ∈ done ->
          load C' (row * K + col) = matmul_ref A B N K row col) /\
       (forall j, load C' j = load C j \/ in_matrix M K j))
    (range2 ((M + 15) / 16) ((K + 15) / 16)) C)
    as (C' & Hrun & Hlen & Hcells & Hothers).
  - split; [done|]. split; [|by left]. intros ? ? _ _ Hin. by apply elem_of_nil in Hin.
  - intros done [group0 group1] rest C1 Hids (Hlen1 & Hcells1 & Hothers1).
    assert ((group0, group1) ∈ range2 ((M + 15) / 16) ((K + 15) / 16))
      as [Hg0 Hg1]%elem_of_range2
      by (rewrite Hids; apply elem_of_app; right; by left).
    apply group_inside in Hg0, Hg1; [|done..].
    destruct (group_run A B M N K HM HN HK HMN HNK HMK HM16 HN16 HK16 HA HB
                group0 group1 Hg0 Hg1 tileA tileB C1)
      as (C2 & -> & Hlen2 & Hcells2 & Hothers2); [done|done|lia|].
    exists C2. split; [done|]. split; [congruence|]. split.
    + intros row col Hrow Hcol Hin.
      destruct (Hothers2 (row * K + col))
        as [Hsame|(l0 & l1 & H0 & H1 & Hrow' & Hcol' & Heq)].
      * apply elem_of_app in Hin as [Hin|Hin%list_elem_of_singleton].
        -- rewrite Hsame. by apply Hcells1.
        -- injection Hin as <- <-.
           pose proof (Z.div_mod row 16 ltac:(lia)).
           pose proof (Z.mod_pos_bound row 16 ltac:(lia)).
           pose proof (Z.div_mod col 16 ltac:(lia)).
           pose proof (Z.mod_pos_bound col 16 ltac:(lia)).
           pose proof (Hcells2 (row mod 16) (col mod 16)) as Hcell.
           replace (row / 16 * 16 + row mod 16) with row in Hcell by lia.
           replace (col / 16 * 16 + col mod 16) with col in Hcell by lia.
           apply Hcell; lia.
      * cbn [fst snd] in *. unfold TILE_SIZE in *.
        apply cell_inj in Heq as [-> ->]; [|lia..].
        by apply Hcells2.
    + intros j. destruct (Hothers2 j)
        as [->|(l0 & l1 & H0 & H1 & Hrow' & Hcol' & Heq)]; [apply Hothers1|].
      right. cbn [fst snd] in *. unfold TILE_SIZE in *.
      exists (group0 * 16 + l0), (group1 * 16 + l1). lia.
  - exists C'. do 2 (split; [done|]). split; [|done].
    intros row col Hrow Hcol. apply Hcells; [done..|].
    apply elem_of_range2.
    assert (forall n x, 0 <= x < n -> 0 <= x / 16 < (n + 15) / 16) as Hgroup.
    { intros n x Hx. split; [apply Z.div_pos; lia|].
      apply Z.div_lt_upper_bound; [lia|].
      pose proof (Z.div_mod (n + 15) 16 ltac:(lia)).
      pose proof (Z.mod_pos_bound (n + 15) 16 ltac:(lia)). lia. }
    split; by apply Hgroup.
Qed.

(** One work-item of the simple kernel. *)
Lemma matrix_multiply_run row col (C : list float) :
  0 <= row < M -> 0 <= col < K -> M * K <= Z.of_nat (length C) ->
  exists s,
    matmul_ref A B N K row col = Some s /\
    matrix_multiply A B M N K (row, col) C = Some (<[Z.to_nat (row * K + col) := s]> C).
Proof.
  intros Hrow Hcol HC. destruct (ref_defined row col Hrow Hcol) as [s Hs].
  unfold TILE_SIZE in *.
  exists s. split; [done|]. unfold matrix_multiply. cbn [fst snd].
  rewrite (int_small row), (int_small col) by lia.
  destruct (Z.ltb_spec row M); [|lia]. destruct (Z.ltb_spec col K); [|lia]. cbn [andb].
  rewrite (for_items_foldl _ (fun acc k =>
             sum ← acc; a ← load A (row * N + k); b ← load B (k * K + col);
             Some (fadd sum (fmul a b)))).
  - fold (matmul_ref A B N K row col). rewrite Hs. simpl.
    unfold int_add, int_mul. rewrite (int_small (row * K)) by nia.
    rewrite int_small by nia. apply store_in_range. nia.
  - done.
  - intros k s' Hk%elem_of_seqZ. unfold int_add, int_mul.
    rewrite (int_small (row * N)), (int_small (k * K)) by nia.
    rewrite !int_small by nia. done.
Qed.

Lemma enqueue_run (C : list float) :
  M * K <= Z.of_nat (length C) ->
  exists C',
    enqueue_matrix_multiply A B M N K C = Some C' /\
    length C' = length C /\
    (forall row col, 0 <= row < M -> 0 <= col < K ->
       load C' (row * K + col) = matmul_ref A B N K row col) /\
    (forall j, load C' j = load C j \/ in_matrix M K j).
Proof.
  intros HC. unfold enqueue_matrix_multiply.
  assert (to_ulong M = M) as ->
    by (unfold to_ulong, TILE_SIZE, INT_MAX in *; apply Z.mod_small; lia).
  assert (to_ulong K = K) as ->
    by (unfold to_ulong, TILE_SIZE, INT_MAX in *; apply Z.mod_small; lia).
  destruct (for_items_invariant (matrix_multiply A B M N K)
    (fun done C' =>
       length C' = length C /\
       (forall row col, (row, col) ∈ done ->
          load C' (row * K + col) = matmul_ref A B N K row col) /\
       (forall j, load C' j = load C j \/ in_matrix M K j))
    (range2 M K) C) as (C' & Hrun & Hlen & Hcells & Hothers).
  - split; [done|]. split; [|by left]. intros ? ? Hin. by apply elem_of_nil in Hin.
  - intros done [row col] rest C1 Hids (Hlen1 & Hcells1 & Hothers1).
    assert (forall id, id ∈ done ++ [(row, col)] -> id ∈ range2 M K) as Hin.
    { intros id Hid. rewrite Hids, (assoc_L _ done [_] rest : done ++ (row, col) :: rest = (done ++ [(row, col)]) ++ rest).
      apply elem_of_app. by left. }
    pose proof (Hin (row, col) ltac:(apply elem_of_app; right; by left))
      as [Hrow Hcol]%elem_of_range2.
    destruct (matrix_multiply_run row col C1) as (s & Hs & ->); [done|done|lia|].
    eexists. split; [done|]. rewrite length_insert. split; [done|]. split.
    + intros row' col' Hid.
      pose proof (Hin _ Hid) as [Hrow' Hcol']%elem_of_range2.
      rewrite load_insert by nia.
      destruct (Z.eqb_spec (row' * K + col') (row * K + col)) as [Heq|Hne].
      * apply cell_inj in Heq as [-> ->]; [|lia..]. done.
      * apply elem_of_app in Hid as [Hid|Hid%list_elem_of_singleton].
        -- by apply Hcells1.
        -- injection Hid as -> ->. done.
    + intros j. rewrite load_insert by nia.
      destruct (Z.eqb_spec j (row * K + col)) as [->|Hne]; [|apply Hothers1].
      right. by exists row, col.
  - exists C'. do 2 (split; [done|]). split; [|done].
    intros row col Hrow Hcol. apply Hcells. by apply elem_of_range2.
Qed.

End Launch.


End Ex006Tiled.

(** ** Loops whose rounds write different locations *)

Module RoundsFacts.
Import Mem MemFacts.

Section Cells.
Context {I T : Type}.
Variables (step : I -> list T -> option (list T)) (cells : I -> Z -> Prop)
  (w : Z -> option T).

Local Abbreviation writes := (Rounds.writes step cells w).

Lemma for_items_cells (ids : list I) (C : list T) :
  writes ids (length C) ->
  exists C',
    for_items step ids C = Some C' /\ length C' = length C /\
    (forall id j, id ∈ ids -> cells id j -> load C' j = w j) /\
    (forall j, load C' j = load C j \/ exists id, id ∈ ids /\ cells id j).
Proof.
  intros Hstep.
  apply (Ex006Tiled.for_items_invariant step
    (fun done C' =>
       length C' = length C /\
       (forall id j, id ∈ done -> cells id j -> load C' j = w j) /\
       (forall j, load C' j = load C j \/ exists id, id ∈ done /\ cells id j))).
  - split; [done|]. split; [|by left]. intros ? ? Hin. by apply elem_of_nil in Hin.
  - intros done id rest C1 Hids (Hlen1 & Hcells1 & Hothers1).
    destruct (Hstep id C1) as (C2 & Hrun & Hlen2 & Hcells2 & Hothers2); [|done|].
    { rewrite Hids. apply elem_of_app. right. by left. }
    exists C2. split; [done|]. split; [done|]. split.
    + intros id' j Hin Hcell.
      apply elem_of_app in Hin as [Hin|Hin%list_elem_of_singleton];
        [|subst; by apply Hcells2].
      destruct (Hothers2 j) as [->|Hj]; [by apply (Hcells1 id')|by apply Hcells2].
    + intros j. destruct (Hothers2 j) as [->|Hj].
      * destruct (Hothers1 j) as [?|(id' & Hin & Hcell)]; [by left|].
        right. exists id'. split; [|done]. apply elem_of_app. by left.
      * right. exists id. split; [|done]. apply elem_of_app. right. by left.
Qed.

(** The order of the rounds, and how often a round is run, do not matter. *)
Lemma for_items_any_order (ids ids' : list I) (C : list T) :
  (forall id, id ∈ ids <-> id ∈ ids') ->
  writes ids (length C) ->
  exists C', for_items step ids C = Some C' /\ for_items step ids' C = Some C'.
Proof.
  intros Hsame Hstep.
  destruct (for_items_cells ids C Hstep) as (C1 & Hrun1 & _ & Hcells1 & Hothers1).
  destruct (for_items_cells ids' C) as (C2 & Hrun2 & _ & Hcells2 & Hothers2).
  { intros id C0 Hin. apply Hstep. by apply Hsame. }
  exists C1. split; [done|]. rewrite Hrun2. f_equal. apply load_ext. intros j.
  symmetry.
  destruct (Hothers1 j) as [H1|(id & Hin & Hcell)].
  - destruct (Hothers2 j) as [H2|(id & Hin & Hcell)]; [congruence|].
    rewrite (Hcells2 id j Hin Hcell). apply (Hcells1 id); [by apply Hsame|done].
  - rewrite (Hcells1 id j Hin Hcell). symmetry.
    apply (Hcells2 id); [by apply Hsame|done].
Qed.

End Cells.

Lemma for_items_app {I S} (step : I -> S -> option S) (l1 l2 : list I) (s : S) :
  for_items step (l1 ++ l2) s = for_items step l1 s ≫= for_items step l2.
Proof.
  revert s. induction l1 as [|id l1 IH]; intros s; [done|]. cbn [app for_items].
  destruct (step id s) as [s'|]; [apply IH|done].
Qed.

(** A loop nest is one loop over the pairs. *)
Lemma for_items_nest {I J S} (step : I -> J -> S -> option S) (l1 : list I)
    (l2 : list J) (s : S) :
  for_items (fun i => for_items (step i) l2) l1 s =
  for_items (fun ij => step ij.1 ij.2) (i ← l1; j ← l2; [(i, j)]) s.
Proof.
  revert s. induction l1 as [|i l1 IH]; intros s; [done|].
  cbn [for_items]. change ((i :: l1) ≫= ?f) with (f i ++ (l1 ≫= f)).
  rewrite for_items_app.
  assert (forall s0, for_items (step i) l2 s0 =
            for_items (fun ij => step ij.1 ij.2) (j ← l2; [(i, j)]) s0) as Hrow.
  { clear. induction l2 as [|j l2 IH]; intros s0; [done|]. cbn [for_items].
    change ((j :: l2) ≫= ?f) with (f j ++ (l2 ≫= f)). cbn [app for_items fst snd].
    destruct (step i j s0); [apply IH|done]. }
  rewrite <- Hrow. destruct (for_items (step i) l2 s) as [s'|]; [apply IH|done].
Qed.

End RoundsFacts.

(** ** Example 006: the parallel loops compute what the serial loop does *)

Module Ex006ParFacts.
Import CInt CIntFacts CFloat Mem MemFacts Ex006 Ex006Par RoundsFacts.

Section Par.
Variables (A B : list float) (M N K : Z).
Hypothesis HM : 0 <= M.
Hypothesis HN : 0 <= N.
Hypothesis HK : 0 <= K.
Hypothesis HMN : M * N <= INT_MAX.
Hypothesis HNK : N * K <= INT_MAX.
Hypothesis HMK : M * K <= INT_MAX.
Hypothesis HA : M * N <= Z.of_nat (length A).
Hypothesis HB : N * K <= Z.of_nat (length B).

(** What belongs at the location [idx] of [C]. *)
Local Abbreviation at_cell :=
  (fun idx => matmul_ref A B N K (idx / K) (idx mod K)).

(** One iteration of the collapsed loops writes one element. *)
Lemma cell_writes order n :
  (forall ij, ij ∈ order -> 0 <= ij.1 < M /\ 0 <= ij.2 < K) ->
  M * K <= Z.of_nat n ->
  Rounds.writes (fun ij => cell A B N K ij.1 ij.2)
    (fun ij idx => idx = ij.1 * K + ij.2) at_cell order n.
Proof.
  intros Horder Hn [i j] C Hin Hlen. destruct (Horder _ Hin) as [Hi Hj].
  cbn [fst snd] in *.
  pose proof (Ex006Serial.sum_is_ref A B M N K) as Hsum.
  pose proof (Ex006Serial.matmul_ref_defined A B M N K) as Hdef.
  pose proof (Ex006Serial.index_C M K) as Hidx.
  Ex006Tiled.with_hypotheses Hsum. Ex006Tiled.with_hypotheses Hdef.
  Ex006Tiled.with_hypotheses Hidx.
  unfold cell. rewrite Hsum by done.
  destruct (Hdef i j Hi Hj) as [s Hs]. rewrite Hs. simpl.
  destruct (Hidx i j Hi Hj) as [-> Hrange].
  rewrite store_in_range by lia.
  eexists. split; [done|]. rewrite length_insert. split; [done|].
  assert ((i * K + j) / K = i) as Hdiv
    by (symmetry; apply Z.div_unique with (r := j); lia).
  assert ((i * K + j) mod K = j) as Hmod
    by (symmetry; apply Z.mod_unique with (q := i); lia).
  split.
  - intros idx ->. rewrite load_insert by lia. rewrite Z.eqb_refl.
    by rewrite Hdiv, Hmod.
  - intros idx. rewrite load_insert by lia.
    destruct (Z.eqb_spec idx (i * K + j)); [by right|by left].
Qed.

(** One row writes its [K] elements. *)
Lemma row_writes order n :
  (forall i, i ∈ order -> 0 <= i < M) ->
  M * K <= Z.of_nat n ->
  Rounds.writes (row A B N K) (fun i idx => i * K <= idx < i * K + K) at_cell order n.
Proof.
  intros Horder Hn i C Hin Hlen. pose proof (Horder _ Hin) as Hi.
  pose proof (Ex006Serial.cell_loop A B M N K) as Hloop.
  Ex006Tiled.with_hypotheses Hloop.
  destruct (Hloop i (Z.to_nat K) 0 C) as (C' & Hrun & Hlen' & Hload); [lia..|].
  rewrite Z2Nat.id in Hrun, Hload by lia.
  exists C'. split; [done|]. split; [congruence|]. split.
  - intros idx Hidx. rewrite Hload.
    destruct (Z.leb_spec (i * K + 0) idx), (Z.ltb_spec idx (i * K + 0 + K)); try lia.
    simpl.
    assert (idx / K = i) as -> by (symmetry; apply Z.div_unique with (r := idx - i * K); lia).
    f_equal. apply Z.mod_unique with (q := i); lia.
  - intros idx. rewrite Hload.
    destruct (Z.leb_spec (i * K + 0) idx), (Z.ltb_spec idx (i * K + 0 + K));
      simpl; try (by left). right. lia.
Qed.

End Par.

(** The rows in any order. *)
Lemma rows_any_order (order : list Z) (A B C : list float) (M N K : Z) :
  0 <= M -> 0 <= N -> 0 <= K ->
  M * N <= INT_MAX -> N * K <= INT_MAX -> M * K <= INT_MAX ->
  M * N <= Z.of_nat (length A) -> N * K <= Z.of_nat (length B) ->
  M * K <= Z.of_nat (length C) ->
  order ≡ₚ seqZ 0 M ->
  exists C',
    for_items (row A B N K) (seqZ 0 M) C = Some C' /\
    for_items (row A B N K) order C = Some C'.
Proof.
  intros HM HN HK HMN HNK HMK HA HB HC Hperm.
  pose proof (row_writes A B M N K) as Hrows. Ex006Tiled.with_hypotheses Hrows.
  assert (forall i, i ∈ seqZ 0 M <-> i ∈ order) as Hsame
    by (intros i; by rewrite Hperm).
  specialize (Hrows (seqZ 0 M) (length C)
                ltac:(intros i Hi%elem_of_seqZ; lia) HC).
  exact (for_items_any_order _ _ _ _ _ _ Hsame Hrows).
Qed.

(** [matmulStdPar]: in whatever order the rows are taken, [C] ends as
    [matmulSerial] leaves it. *)
Theorem matmulStdPar_is_matmulSerial (order : list Z) (elapsed elapsed' : double)
    (A B C : list float) (M N K : Z) :
  0 <= M -> 0 <= N -> 0 <= K ->
  M * N <= INT_MAX -> N * K <= INT_MAX -> M * K <= INT_MAX ->
  M * N <= Z.of_nat (length A) -> N * K <= Z.of_nat (length B) ->
  M * K <= Z.of_nat (length C) ->
  order ≡ₚ seqZ 0 M ->
  exists C',
    matmulSerial elapsed A B C M N K = Some (C', elapsed) /\
    matmulStdPar order elapsed' A B C N K = Some (C', elapsed').
Proof.
  intros HM HN HK HMN HNK HMK HA HB HC Hperm.
  destruct (rows_any_order order A B C M N K) as (C' & Hserial & Hpar); try done.
  exists C'. unfold matmulSerial, matmulStdPar. by rewrite Hserial, Hpar.
Qed.

Lemma matmulStdPar_is_matmulSerial_witness :
  let one := S754_finite false 8388608 (-23) in
  let two := S754_finite false 8388608 (-22) in
  let A := [one; two; two; one] in
  exists C',
    matmulSerial zero A A [zero; zero; zero; zero] 2 2 2 = Some (C', zero) /\
    matmulStdPar [1; 0] one A A [zero; zero; zero; zero] 2 2 = Some (C', one).
Proof.
  intros one two A.
  apply (matmulStdPar_is_matmulSerial [1; 0] zero one A A [zero; zero; zero; zero] 2 2 2);
    try (unfold INT_MAX; simpl; lia).
  apply Permutation_swap.
Defined.

(** The pairs in any order. *)
Lemma pairs_any_order (order : list (Z * Z)) (A B C : list float) (M N K : Z) :
  0 <= M -> 0 <= N -> 0 <= K ->
  M * N <= INT_MAX -> N * K <= INT_MAX -> M * K <= INT_MAX ->
  M * N <= Z.of_nat (length A) -> N * K <= Z.of_nat (length B) ->
  M * K <= Z.of_nat (length C) ->
  order ≡ₚ iterations M K ->
  exists C',
    for_items (row A B N K) (seqZ 0 M) C = Some C' /\
    for_items (fun ij C0 => cell A B N K ij.1 ij.2 C0) order C = Some C'.
Proof.
  intros HM HN HK HMN HNK HMK HA HB HC Hperm.
  pose proof (cell_writes A B M N K) as Hcells. Ex006Tiled.with_hypotheses Hcells.
  assert (forall ij, ij ∈ iterations M K <-> ij ∈ order) as Hsame
    by (intros ij; by rewrite Hperm).
  specialize (Hcells (iterations M K) (length C)
                ltac:(by intros [i j] Hin%Ex006Tiled.elem_of_range2) HC).
  destruct (for_items_any_order _ _ _ _ _ _ Hsame Hcells) as (C' & Hserial & Hpar).
  exists C'. split; [|exact Hpar].
  unfold row. rewrite (for_items_nest (cell A B N K)). fold (iterations M K).
  exact Hserial.
Qed.

(** [matmulOpenMP]: in whatever order the iterations of the collapsed
    loops are taken, [C] ends as [matmulSerial] leaves it. *)
Theorem matmulOpenMP_is_matmulSerial (order : list (Z * Z))
    (elapsed elapsed' : double) (A B C : list float) (M N K : Z) :
  0 <= M -> 0 <= N -> 0 <= K ->
  M * N <= INT_MAX -> N * K <= INT_MAX -> M * K <= INT_MAX ->
  M * N <= Z.of_nat (length A) -> N * K <= Z.of_nat (length B) ->
  M * K <= Z.of_nat (length C) ->
  order ≡ₚ iterations M K ->
  exists C',
    matmulSerial elapsed A B C M N K = Some (C', elapsed) /\
    matmulOpenMP order elapsed' A B C N K = Some (C', elapsed').
Proof.
  intros HM HN HK HMN HNK HMK HA HB HC Hperm.
  destruct (pairs_any_order order A B C M N K) as (C' & Hserial & Hpar); try done.
  exists C'. unfold matmulSerial, matmulOpenMP. rewrite Hserial. split; [done|].
  assert (for_items (fun ij C0 => cell A B N K ij.1 ij.2 C0) order C = Some C')
    as -> by exact Hpar.
  done.
Qed.

Lemma matmulOpenMP_is_matmulSerial_witness :
  let one := S754_finite false 8388608 (-23) in
  let two := S754_finite false 8388608 (-22) in
  let A := [one; two; two; one] in
  exists C',
    matmulSerial zero A A [zero; zero; zero; zero] 2 2 2 = Some (C', zero) /\
    matmulOpenMP [(1, 1); (0, 0); (1, 0); (0, 1)] one A A [zero; zero; zero; zero] 2 2
      = Some (C', one).
Proof.
  intros one two A.
  apply (matmulOpenMP_is_matmulSerial [(1, 1); (0, 0); (1, 0); (0, 1)] zero one A A
           [zero; zero; zero; zero] 2 2 2);
    try (unfold INT_MAX; simpl; lia).
  apply (Permutation_trans (l' := [(0, 0); (1, 1); (1, 0); (0, 1)]));
    [apply Permutation_swap|].
  constructor.
  apply (Permutation_trans (l' := [(1, 0); (1, 1); (0, 1)])); [apply Permutation_swap|].
  apply (Permutation_trans (l' := [(1, 0); (0, 1); (1, 1)]));
    [constructor; apply Permutation_swap|].
  apply (Permutation_trans (l' := [(0, 1); (1, 0); (1, 1)])); [apply Permutation_swap|].
  reflexivity.
Defined.

End Ex006ParFacts.

(** ** Example 005: the host versions of the matrix-vector product *)

Module Ex005Facts.
Import CInt CIntFacts CFloat Mem MemFacts Ex005 RoundsFacts.

Section Matvec.
Variables (matrix vector : list float) (rows cols : Z).
Hypothesis Hrows : 0 <= rows <= INT_MAX.
Hypothesis Hcols : 0 <= cols.
Hypothesis Hsize : rows * cols <= INT_MAX.
Hypothesis Hmatrix : rows * cols <= Z.of_nat (length matrix).
Hypothesis Hvector : cols <= Z.of_nat (length vector).

(** The loop over [j] adds up the reference sum. *)
Lemma row_sum i :
  0 <= i < rows ->
  for_items (fun j sum =>
       a ← load matrix (int_add (int_mul i cols) j);
       b ← load vector j;
       Some (fadd sum (fmul a b))) (seqZ 0 cols) zero
  = matvec_ref matrix vector cols i.
Proof.
  intros Hi. unfold matvec_ref.
  apply (Ex006Tiled.for_items_foldl _
    (fun acc j => sum ← acc; a ← load matrix (i * cols + j); b ← load vector j;
                  Some (fadd sum (fmul a b)))); [done|].
  intros j s Hj%elem_of_seqZ. unfold int_add, int_mul.
  rewrite (Ex006Tiled.int_small (i * cols)) by nia.
  rewrite Ex006Tiled.int_small by nia. done.
Qed.

Lemma matvec_ref_defined i : 0 <= i < rows -> is_Some (matvec_ref matrix vector cols i).
Proof.
  intros Hi. unfold matvec_ref.
  assert (forall j, j ∈ seqZ 0 cols -> 0 <= j < cols) as Hl
    by (intros j Hj%elem_of_seqZ; lia).
  revert Hl. generalize (seqZ 0 cols). intros l.
  assert (is_Some (Some zero)) as Hacc by done. revert Hacc.
  generalize (Some zero). induction l as [|j l IH]; intros acc Hacc Hl; [done|].
  cbn [foldl]. apply IH; [|intros j' Hj'; apply Hl; by right].
  destruct Hacc as [s ->]. pose proof (Hl j ltac:(left)) as Hj. simpl.
  destruct (load_in_range matrix (i * cols + j)) as [a ->]; [nia|].
  destruct (load_in_range vector j) as [b ->]; [lia|]. done.
Qed.

(** One round of the loop over [i] writes [result[i]]. *)
Lemma matvec_row_writes order n :
  (forall i, i ∈ order -> 0 <= i < rows) ->
  rows <= Z.of_nat n ->
  Rounds.writes (matvec_row matrix vector cols) (fun i idx => idx = i)
    (matvec_ref matrix vector cols) order n.
Proof.
  intros Horder Hn i result Hin Hlen. pose proof (Horder _ Hin) as Hi.
  unfold matvec_row. rewrite row_sum by done.
  destruct (matvec_ref_defined i Hi) as [s Hs]. rewrite Hs. simpl.
  rewrite store_in_range by lia.
  eexists. split; [done|]. rewrite length_insert. split; [done|]. split.
  - intros idx ->. rewrite load_insert by lia. by rewrite Z.eqb_refl.
  - intros idx. rewrite load_insert by lia.
    destruct (Z.eqb_spec idx i); [by right|by left].
Qed.

End Matvec.

(** [matvecSerial] sets [result[i]], for every [i < rows], to the products
    [matrix[i*cols+j] * vector[j]], [j = 0 .. cols-1], added from left to
    right to [0.0f]; the rest of [result] is left as it was. *)
Theorem matvecSerial_is_reference (elapsed : double)
    (matrix vector result : list float) (rows cols : Z) :
  0 <= rows <= INT_MAX -> 0 <= cols -> rows * cols <= INT_MAX ->
  rows * cols <= Z.of_nat (length matrix) -> cols <= Z.of_nat (length vector) ->
  rows <= Z.of_nat (length result) ->
  exists result',
    matvecSerial elapsed matrix vector result rows cols = Some (result', elapsed) /\
    length result' = length result /\
    (forall i, 0 <= i < rows ->
       is_Some (matvec_ref matrix vector cols i) /\
       load result' i = matvec_ref matrix vector cols i) /\
    (forall i, rows <= i -> load result' i = load result i).
Proof.
  intros Hrows Hcols Hsize Hmatrix Hvector Hresult.
  pose proof (matvec_row_writes matrix vector rows cols) as Hwrites.
  pose proof (matvec_ref_defined matrix vector rows cols) as Hdefined.
  Ex006Tiled.with_hypotheses Hwrites. Ex006Tiled.with_hypotheses Hdefined.
  specialize (Hwrites (seqZ 0 rows) (length result)
                ltac:(intros i Hi%elem_of_seqZ; lia) Hresult).
  destruct (for_items_cells _ _ _ _ _ Hwrites) as (r & Hrun & Hlen & Hcells & Hothers).
  exists r. unfold matvecSerial. rewrite Hrun. split; [done|]. split; [done|]. split.
  - intros i Hi. split; [by apply Hdefined|].
    apply (Hcells i); [apply elem_of_seqZ; lia|done].
  - intros i Hi. destruct (Hothers i) as [?|(i' & Hin%elem_of_seqZ & ->)]; [done|lia].
Qed.

Lemma matvecSerial_is_reference_witness :
  let one := S754_finite false 8388608 (-23) in
  let two := S754_finite false 8388608 (-22) in
  exists result',
    matvecSerial zero [one; two; two; one] [one; two] [zero; zero; one] 2 2
      = Some (result', zero) /\
    length result' = 3%nat.
Proof.
  intros one two.
  destruct (matvecSerial_is_reference zero [one; two; two; one] [one; two]
              [zero; zero; one] 2 2)
    as (r & Hrun & Hlen & _); [unfold INT_MAX; simpl; lia..|].
  exists r. split; [exact Hrun|exact Hlen].
Defined.

(** The three host versions agree: [matvecStdPar] and [matvecOpenMP], in
    whatever order they take the rows, leave in [result] what
    [matvecSerial] leaves there, bit for bit (the three loop bodies are the
    same statements, and no row reads what another row writes). *)
Theorem matvec_host_versions_agree (order order' : list Z) (elapsed : double)
    (matrix vector result : list float) (rows cols : Z) :
  0 <= rows <= INT_MAX -> 0 <= cols -> rows * cols <= INT_MAX ->
  rows * cols <= Z.of_nat (length matrix) -> cols <= Z.of_nat (length vector) ->
  rows <= Z.of_nat (length result) ->
  order ≡ₚ seqZ 0 rows -> order' ≡ₚ seqZ 0 rows ->
  exists result',
    matvecSerial elapsed matrix vector result rows cols = Some (result', elapsed) /\
    matvecStdPar order elapsed matrix vector result cols = Some (result', elapsed) /\
    matvecOpenMP order' elapsed matrix vector result cols = Some (result', elapsed).
Proof.
  intros Hrows Hcols Hsize Hmatrix Hvector Hresult Hperm Hperm'.
  pose proof (matvec_row_writes matrix vector rows cols) as Hwrites.
  Ex006Tiled.with_hypotheses Hwrites.
  specialize (Hwrites (seqZ 0 rows) (length result)
                ltac:(intros i Hi%elem_of_seqZ; lia) Hresult).
  assert (forall i, i ∈ seqZ 0 rows <-> i ∈ order) as Hsame
    by (intros i; by rewrite Hperm).
  assert (forall i, i ∈ seqZ 0 rows <-> i ∈ order') as Hsame'
    by (intros i; by rewrite Hperm').
  destruct (for_items_any_order _ _ _ _ _ _ Hsame Hwrites) as (r & Hserial & Hpar).
  destruct (for_items_any_order _ _ _ _ _ _ Hsame' Hwrites) as (r' & Hserial' & Hpar').
  assert (r' = r) as -> by congruence.
  exists r. unfold matvecSerial, matvecStdPar, matvecOpenMP.
  by rewrite Hserial, Hpar, Hpar'.
Qed.

Lemma matvec_host_versions_agree_witness :
  let one := S754_finite false 8388608 (-23) in
  let two := S754_finite false 8388608 (-22) in
  exists result',
    matvecSerial zero [one; two; two; one] [one; two] [zero; zero] 2 2
      = Some (result', zero) /\
    matvecStdPar [1; 0] zero [one; two; two; one] [one; two] [zero; zero] 2
      = Some (result', zero) /\
    matvecOpenMP [0; 1] zero [one; two; two; one] [one; two] [zero; zero] 2
      = Some (result', zero).
Proof.
  intros one two.
  apply (matvec_host_versions_agree [1; 0] [0; 1] zero [one; two; two; one]
           [one; two] [zero; zero] 2 2); try (unfold INT_MAX; simpl; lia).
  - apply Permutation_swap.
  - reflexivity.
Defined.

End Ex005Facts.

(** ** What the tolerance test lets through *)

Module CFloatCmpFacts.
Import CFloat CFloatCmp.

Lemma fsub_self_abs x :
  fabs (fsub x x) = S754_zero false \/ fabs (fsub x x) = S754_nan.
Proof.
  destruct x as [[]|[]| |s m e]; try (by left); try (by right).
  left. unfold fsub, SFsub, binary_normalize. by rewrite Z.sub_diag.
Qed.

(** A number does not differ from itself, whatever it is. *)
Lemma differ_self tol x : SFltb tol (S754_zero false) = false -> differ tol x x = false.
Proof.
  intros Htol. unfold differ, fgt.
  destruct (fsub_self_abs x) as [->| ->]; [done|]. by destruct tol.
Qed.

(** Not-a-number differs from nothing, and nothing from it. *)
Lemma differ_nan_r tol x : differ tol x S754_nan = false.
Proof. unfold differ, fgt. destruct x as [[]|[]| |s m e], tol; done. Qed.

Lemma differ_nan_l tol x : differ tol S754_nan x = false.
Proof. unfold differ, fgt. destruct x as [[]|[]| |s m e], tol; done. Qed.

End CFloatCmpFacts.

(** ** Example 006: what [verifyResults] reports *)

Module Ex006VerifyFacts.
Import CInt CIntFacts CFloat CFloatCmp CFloatCmpFacts Mem MemFacts Ex006Verify.

Lemma filter_snoc {A} (f : A -> bool) (l : list A) (x : A) :
  List.filter f (l ++ [x]) = List.filter f l ++ (if f x then [x] else []).
Proof. by rewrite List.filter_app. Qed.

Lemma take_snoc {A} (n : nat) (l : list A) (x : A) :
  take n (l ++ [x]) = take n l ++ (if (length l <? n)%nat then [x] else []).
Proof.
  destruct (Nat.ltb_spec (length l) n) as [Hlt|Hge].
  - rewrite !take_ge by (rewrite ?length_app; simpl; lia). done.
  - rewrite take_app_le by lia. by rewrite app_nil_r.
Qed.

Lemma length_filter_le {A} (f : A -> bool) (l : list A) :
  (length (List.filter f l) <= length l)%nat.
Proof. induction l as [|x l IH]; simpl; [done|]. destruct (f x); simpl; lia. Qed.

(** The variables of [verifyResults] after the indices [done]. *)
Lemma check_loop (expected actual : list float) (name : string) :
  Z.of_nat (length expected) <= Z.of_nat (length actual) ->
  Z.of_nat (length expected) <= INT_MAX ->
  exists c,
    for_items (check_element expected actual name)
      (seqZ 0 (Z.of_nat (length expected)))
      {| correct := true; errors := 0; cerr := [] |} = Some c /\
    correct c = (if mismatches expected actual is [] then true else false) /\
    errors c = Z.of_nat (length (mismatches expected actual)) /\
    cerr c = mismatch_line expected actual name <$> take 5 (mismatches expected actual).
Proof.
  intros Hactual Hmax. unfold mismatches.
  apply (Ex006Tiled.for_items_invariant (check_element expected actual name)
    (fun done c =>
       correct c = (if List.filter (off expected actual) done is [] then true else false) /\
       errors c = Z.of_nat (length (List.filter (off expected actual) done)) /\
       cerr c = mismatch_line expected actual name
                  <$> take 5 (List.filter (off expected actual) done))).
  - done.
  - intros done i rest c Hids (Hcorrect & Herrors & Hcerr).
    pose proof (Ex006Tiled.seqZ_split _ _ _ _ _ Hids) as [Hi Hlt].
    assert (Z.of_nat (length done) < Z.of_nat (length expected)) as Hdone by lia.
    pose proof (length_filter_le (off expected actual) done) as Hfilter.
    unfold check_element.
    destruct (load_in_range expected i) as [e He]; [lia|].
    destruct (load_in_range actual i) as [a Ha]; [lia|].
    rewrite He, Ha. simpl. rewrite filter_snoc.
    assert (off expected actual i = differ EPSILON e a) as ->
      by (unfold off; by rewrite He, Ha).
    destruct (differ EPSILON e a).
    + eexists. split; [done|]. cbn [correct errors cerr].
      split; [|split].
      * by destruct (List.filter _ done).
      * rewrite Herrors, length_app. cbn [length]. unfold int_add.
        rewrite to_int_small by (unfold is_int, INT_MAX in *; lia). lia.
      * rewrite Hcerr, take_snoc, fmap_app. f_equal. rewrite Herrors.
        destruct (Z.ltb_spec (Z.of_nat (length (List.filter (off expected actual) done))) 5),
                 (Nat.ltb_spec (length (List.filter (off expected actual) done)) 5);
          try lia; [|done].
        cbn [fmap list_fmap]. unfold mismatch_line. by rewrite He, Ha.
    + exists c. split; [done|]. by rewrite app_nil_r.
Qed.

(** [verifyResults] prints the verdict "Verified" exactly when no element
    of [actual] is off by more than [EPSILON]; otherwise it prints the
    number of these elements, and it reports the first five of them on
    [std::cerr], in the order of their indices. *)
Theorem verifyResults_counts (expected actual : list float) (name : string) :
  Z.of_nat (length expected) <= Z.of_nat (length actual) ->
  Z.of_nat (length expected) <= INT_MAX ->
  verifyResults expected actual name =
    Some (mismatch_line expected actual name <$> take 5 (mismatches expected actual),
          if mismatches expected actual is [] then Verified
          else Failed (Z.of_nat (length (mismatches expected actual)))).
Proof.
  intros Hactual Hmax.
  destruct (check_loop expected actual name Hactual Hmax)
    as (c & Hrun & Hcorrect & Herrors & Hcerr).
  unfold verifyResults. rewrite Hrun. simpl. rewrite Hcorrect, Herrors, Hcerr.
  by destruct (mismatches expected actual).
Qed.

Lemma verifyResults_counts_witness :
  let one := S754_finite false 8388608 (-23) in
  let two := S754_finite false 8388608 (-22) in
  verifyResults [one; two; one] [one; one; two] "OpenMP" =
    Some ([Mismatch "OpenMP" 1 two one; Mismatch "OpenMP" 2 one two], Failed 2).
Proof.
  intros one two.
  rewrite (verifyResults_counts [one; two; one] [one; one; two] "OpenMP");
    [reflexivity|simpl; lia|unfold INT_MAX; simpl; lia].
Defined.

(** No element is off when every element is not a number or is the
    expected one. *)
Lemma no_mismatch (expected actual : list float) :
  (forall i a, load actual i = Some a -> a = S754_nan \/ load expected i = Some a) ->
  mismatches expected actual = [].
Proof.
  intros Helems.
  unfold mismatches. generalize (seqZ 0 (Z.of_nat (length expected))). intros l.
  induction l as [|i l IH]; [done|]. cbn [List.filter]. rewrite IH.
  unfold off. destruct (load expected i) as [e|] eqn:He; [|done].
  destruct (load actual i) as [a|] eqn:Ha; [|done].
  destruct (Helems i a Ha) as [->|Heq].
  - by rewrite differ_nan_r.
  - assert (e = a) as -> by congruence. by rewrite differ_self.
Qed.

(** The verdict without an element that is off. *)
Lemma verifyResults_verified (expected actual : list float) (name : string) :
  Z.of_nat (length expected) <= Z.of_nat (length actual) ->
  Z.of_nat (length expected) <= INT_MAX ->
  mismatches expected actual = [] ->
  verifyResults expected actual name = Some ([], Verified).
Proof.
  intros Hactual Hmax Hnone.
  destruct (check_loop expected actual name Hactual Hmax)
    as (c & Hrun & Hcorrect & Herrors & Hcerr).
  unfold verifyResults. rewrite Hrun. simpl. rewrite Hcorrect, Hcerr, Hnone. done.
Qed.

(** An element of [actual] that is not a number is never counted as an
    error, nor is one that equals the expected element, be it infinite: a
    result of such elements only is "Verified". *)
Theorem verifyResults_passes_nan (expected actual : list float) (name : string) :
  length actual = length expected ->
  Z.of_nat (length expected) <= INT_MAX ->
  (forall i a, load actual i = Some a -> a = S754_nan \/ load expected i = Some a) ->
  verifyResults expected actual name = Some ([], Verified).
Proof.
  intros Hlen Hmax Helems.
  apply verifyResults_verified; [rewrite Hlen; lia|done|].
  by apply no_mismatch.
Qed.

Lemma verifyResults_passes_nan_witness :
  verifyResults [S754_finite false 8388608 (-23); S754_infinity false]
    [S754_nan; S754_infinity false] "tiled" = Some ([], Verified).
Proof.
  apply verifyResults_passes_nan; [reflexivity|unfold INT_MAX; simpl; lia|].
  intros i a Ha. apply load_Some in Ha as [Hi Ha].
  destruct (Z.to_nat i) as [|[|n]] eqn:Hn; simpl in Ha.
  - injection Ha as <-. by left.
  - injection Ha as <-. right. apply load_Some. split; [done|]. by rewrite Hn.
  - done.
Defined.

End Ex006VerifyFacts.

(** ** Example 002: the serial loop, the launch and the check *)

Module Ex002HostFacts.
Import CInt CIntFacts CFloat CFloatCmp CFloatCmpFacts Mem MemFacts Ex002 Ex002Host.

(** The loop of [vectorAddCPU] from the index [lo] on. *)
Lemma vectorAddCPU_loop (a b : list float) (len : nat) : forall lo result,
  0 <= lo -> lo + Z.of_nat len <= Z.of_nat (length a) ->
  Z.of_nat (length a) <= Z.of_nat (length b) ->
  Z.of_nat (length a) <= Z.of_nat (length result) ->
  exists r,
    for_items (fun i result =>
        x ← load a i; y ← load b i; store result i (fadd x y))
      (seqZ lo (Z.of_nat len)) result = Some r /\
    length r = length result /\
    forall k, load r k =
      if (lo <=? k) && (k <? lo + Z.of_nat len)
      then load (zip_with fadd a b) k else load result k.
Proof.
  induction len as [|len IH]; intros lo result Hlo Hhi Hb Hresult.
  - change (Z.of_nat 0) with 0. rewrite seqZ_nil by lia. exists result.
    split; [done|]. split; [done|]. intros k.
    destruct (Z.leb_spec lo k), (Z.ltb_spec k (lo + 0)); simpl; try done; lia.
  - rewrite seqZ_cons by lia. cbn [for_items].
    replace (Z.pred (Z.of_nat (S len))) with (Z.of_nat len) by lia.
    destruct (load_in_range a lo ltac:(lia)) as [x Hx].
    destruct (load_in_range b lo ltac:(lia)) as [y Hy].
    rewrite Hx, Hy. simpl. rewrite store_in_range by lia.
    destruct (IH (Z.succ lo) (<[Z.to_nat lo := fadd x y]> result))
      as (r & Hrun & Hlen & Hload); [rewrite ?length_insert; lia..|].
    exists r. split; [done|]. split; [by rewrite Hlen, length_insert|].
    intros k. rewrite Hload, load_insert by lia.
    destruct (Z.eqb_spec k lo) as [->|Hne].
    + destruct (Z.leb_spec (Z.succ lo) lo); [lia|]. simpl.
      destruct (Z.leb_spec lo lo), (Z.ltb_spec lo (lo + Z.of_nat (S len))); try lia.
      simpl. by rewrite load_zip_with, Hx, Hy.
    + destruct (Z.leb_spec (Z.succ lo) k), (Z.leb_spec lo k),
               (Z.ltb_spec k (Z.succ lo + Z.of_nat len)),
               (Z.ltb_spec k (lo + Z.of_nat (S len))); try lia; done.
Qed.

(** What the serial loop leaves. *)
Lemma vectorAddCPU_run (a b result : list float) :
  Z.of_nat (length a) <= Z.of_nat (length b) ->
  Z.of_nat (length a) <= Z.of_nat (length result) ->
  exists r,
    vectorAddCPU a b result = Some r /\
    length r = length result /\
    forall k, load r k =
      if k <? Z.of_nat (length a) then load (zip_with fadd a b) k else load result k.
Proof.
  intros Hb Hresult.
  destruct (vectorAddCPU_loop a b (length a) 0 result) as (r & Hrun & Hlen & Hload);
    [lia..|].
  exists r. split; [done|]. split; [done|].
  intros k. rewrite Hload.
  destruct (Z.leb_spec 0 k), (Z.ltb_spec k (0 + Z.of_nat (length a))),
           (Z.ltb_spec k (Z.of_nat (length a))); simpl; try lia; try done.
  by rewrite (load_out_of_range (zip_with fadd a b)), (load_out_of_range result)
    by lia.
Qed.

(** What the launch of [vectorAddOpenCL] leaves. *)
Lemma enqueue_vector_add_run (a b result : list float) :
  Z.of_nat (length a) <= INT_MAX ->
  Z.of_nat (length a) <= Z.of_nat (length b) ->
  Z.of_nat (length a) <= Z.of_nat (length result) ->
  exists r,
    enqueue_vector_add a b result = Some r /\
    forall k, load r k =
      if k <? Z.of_nat (length a) then load (zip_with fadd a b) k else load result k.
Proof.
  intros Hmax Hb Hresult. unfold enqueue_vector_add, launch.
  rewrite to_uint_small by (unfold is_uint, UINT_MAX, INT_MAX in *; lia).
  destruct (Ex002Bounds.launch_sums a b (Z.of_nat (length a)) (length a) 0 result)
    as (r & -> & Hload); [lia..|].
  exists r. split; [done|]. intros k. rewrite Hload.
  destruct (Z.leb_spec 0 k), (Z.ltb_spec k (0 + Z.of_nat (length a))),
           (Z.ltb_spec k (Z.of_nat (length a))); simpl; try lia; try done.
  by rewrite (load_out_of_range (zip_with fadd a b)), (load_out_of_range result)
    by lia.
Qed.



(** The elements up to the first mismatch are all that [verifyResults]
    reads. *)
Lemma compare_from_first expected actual name (len : nat) : forall lo i e a,
  0 <= lo <= i -> i < lo + Z.of_nat len ->
  load expected i = Some e -> load actual i = Some a ->
  differ tolerance e a = true ->
  (forall j, lo <= j < i ->
     exists e' a', load expected j = Some e' /\ load actual j = Some a' /\
                   differ tolerance e' a' = false) ->
  compare_from expected actual name (seqZ lo (Z.of_nat len))
    = Some ([Mismatch name i e a], false).
Proof.
  induction len as [|len IH]; intros lo i e a Hlo Hi He Ha Hdiffer Hbefore; [lia|].
  rewrite seqZ_cons by lia. cbn [compare_from].
  replace (Z.pred (Z.of_nat (S len))) with (Z.of_nat len) by lia.
  destruct (decide (lo = i)) as [->|Hne].
  - rewrite He, Ha. simpl. by rewrite Hdiffer.
  - destruct (Hbefore lo) as (e' & a' & -> & -> & Hsame); [lia|]. simpl.
    rewrite Hsame. apply IH; [lia..|done|done|done|].
    intros j Hj. apply Hbefore. lia.
Qed.

Lemma compare_from_none expected actual name ids :
  (forall j, j ∈ ids ->
     exists e' a', load expected j = Some e' /\ load actual j = Some a' /\
                   differ tolerance e' a' = false) ->
  compare_from expected actual name ids = Some ([], true).
Proof.
  induction ids as [|j ids IH]; intros Hall; [done|]. cbn [compare_from].
  destruct (Hall j) as (e' & a' & -> & -> & Hsame); [by left|]. simpl.
  rewrite Hsame. apply IH. intros j' Hj'. apply Hall. by right.
Qed.

(** [verifyResults] stops at the first element that is off by more than
    [0.001f]: it reports this element on [std::cerr] and prints nothing on
    [std::cout]; the elements after it are not read.  When no element is
    off it prints the confirmation. *)
Theorem verifyResults_first_mismatch (expected actual : list float) (name : string) :
  (forall i e a,
     load expected i = Some e -> load actual i = Some a ->
     differ tolerance e a = true ->
     (forall j, 0 <= j < i ->
        exists e' a', load expected j = Some e' /\ load actual j = Some a' /\
                      differ tolerance e' a' = false) ->
     verifyResults expected actual name = Some ([Mismatch name i e a], [])) /\
  ((forall j, 0 <= j < Z.of_nat (length expected) ->
      exists e' a', load expected j = Some e' /\ load actual j = Some a' /\
                    differ tolerance e' a' = false) ->
   verifyResults expected actual name = Some ([], [VerifiedCorrect])).
Proof.
  split.
  - intros i e a He Ha Hdiffer Hbefore. unfold verifyResults.
    pose proof (load_is_Some_range expected i ltac:(by exists e)) as Hi.
    rewrite (compare_from_first expected actual name (length expected) 0 i e a);
      [done|lia..|done|done|done|done].
  - intros Hall. unfold verifyResults. rewrite compare_from_none; [done|].
    intros j Hj%elem_of_seqZ. apply Hall. lia.
Qed.

Lemma verifyResults_first_mismatch_witness :
  let one := S754_finite false 8388608 (-23) in
  let two := S754_finite false 8388608 (-22) in
  verifyResults [one; two; one] [one; one] "GPU" = Some ([Mismatch "GPU" 1 two one], []).
Proof.
  intros one two.
  apply (proj1 (verifyResults_first_mismatch [one; two; one] [one; one] "GPU") 1 two one);
    [reflexivity..|].
  intros j Hj. assert (j = 0) as -> by lia. by exists one, one.
Defined.

(** The array that the launch leaves is the array that the serial loop
    leaves, whatever the two arrays held before, and [verifyResults]
    confirms it, as in [main]. *)
Theorem main_check_confirms (a b result result' : list float) (name : string) :
  length result = length a -> length result' = length a ->
  Z.of_nat (length a) <= INT_MAX ->
  Z.of_nat (length a) <= Z.of_nat (length b) ->
  exists resultCPU resultOpenCL,
    vectorAddCPU a b result = Some resultCPU /\
    enqueue_vector_add a b result' = Some resultOpenCL /\
    resultOpenCL = resultCPU /\
    verifyResults resultCPU resultOpenCL name = Some ([], [VerifiedCorrect]).
Proof.
  intros Hlen Hlen' Hmax Hb.
  destruct (vectorAddCPU_run a b result) as (r & Hcpu & Hr & Hload); [lia..|].
  destruct (enqueue_vector_add_run a b result') as (r' & Hcl & Hload'); [lia..|].
  assert (r' = r) as ->.
  { apply load_ext. intros k. rewrite Hload, Hload'.
    destruct (Z.ltb_spec k (Z.of_nat (length a))); [done|].
    destruct (Z.ltb_spec k 0); rewrite !load_out_of_range; done || lia. }
  exists r, r. do 3 (split; [done|]).
  unfold verifyResults. rewrite compare_from_none; [done|].
  intros j Hj%elem_of_seqZ.
  destruct (load_in_range r j ltac:(lia)) as [x Hx]. exists x, x.
  split; [done|]. split; [done|]. by apply differ_self.
Qed.

Lemma main_check_confirms_witness :
  let one := S754_finite false 8388608 (-23) in
  exists resultCPU resultOpenCL,
    vectorAddCPU [one; one] [one; zero] [zero; zero] = Some resultCPU /\
    enqueue_vector_add [one; one] [one; zero] [S754_nan; one] = Some resultOpenCL /\
    resultOpenCL = resultCPU /\
    verifyResults resultCPU resultOpenCL "GPU" = Some ([], [VerifiedCorrect]).
Proof.
  intros one.
  apply (main_check_confirms [one; one] [one; zero] [zero; zero] [S754_nan; one] "GPU");
    try reflexivity; unfold INT_MAX; simpl; lia.
Defined.

End Ex002HostFacts.

(** ** Rules for what a trace never shows *)

Module TraceFacts.
Import Run RunFacts Trace.

Section Rules.
Context {E St : Type} (bad : E -> Prop).
Local Abbreviation clean := (@clean E St bad).
Local Abbreviation spared := (@spared E St bad).

Lemma clean_bind {A B} (m : M E St A) (k : A -> M E St B) :
  clean m -> (forall a, clean (k a)) -> clean (m ≫= k).
Proof.
  intros Hm Hk s. specialize (Hm s). unfold mbind, M_bind, bind.
  destruct (m s) as [[[a|c|f] s1] t1]; [|done..].
  specialize (Hk a s1). destruct (k a s1) as [[r s2] t2].
  apply Forall_app. by split.
Qed.

Lemma clean_ret {A} (a : A) : clean (mret a).
Proof. intros s. constructor. Qed.

Lemma clean_emit (e : E) : ~ bad e -> clean (emit e).
Proof. intros He s. by constructor. Qed.

Lemma clean_exit {A} (c : Z) : clean (exit c : M E St A).
Proof. intros s. constructor. Qed.

(** What follows an [exit] is not run. *)
Lemma clean_then_exit {A B D} (m : M E St A) (c : Z) (k : B -> M E St D) :
  clean m -> clean ((m ≫= fun _ => exit c) ≫= k).
Proof.
  intros Hm s. specialize (Hm s). unfold mbind, M_bind, bind, exit.
  destruct (m s) as [[[a|c'|f] s1] t1]; cbn in *; [|done..].
  by rewrite app_nil_r.
Qed.

Lemma clean_for_each (l : list Z) (body : Z -> M E St unit) :
  (forall i, i ∈ l -> clean (body i)) -> clean (for_each l body).
Proof.
  unfold for_each. intros Hbody.
  induction l as [|i l IH]; [apply (clean_ret tt)|].
  cbn [for_fold]. change (bind ?m ?k) with (m ≫= k).
  apply clean_bind; [apply Hbody; by left|intros []].
  apply IH. intros j Hj. apply Hbody. by right.
Qed.

Lemma spared_clean {A} (Q : A -> Prop) (m : M E St A) :
  clean m -> (forall s a s' t, m s = (Ok a, s', t) -> Q a) -> spared Q m.
Proof.
  intros Hm HQ s. specialize (Hm s). specialize (HQ s).
  destruct (m s) as [[[a|c|f] s1] t1]; [by eapply HQ|done..].
Qed.

Lemma spared_bind {A B} (Q : B -> Prop) (m : M E St A) (k : A -> M E St B) :
  clean m -> (forall a, spared Q (k a)) -> spared Q (m ≫= k).
Proof.
  intros Hm Hk s. specialize (Hm s). unfold mbind, M_bind, bind.
  destruct (m s) as [[[a|c|f] s1] t1]; [|done..].
  specialize (Hk a s1). destruct (k a s1) as [[[b|c|f] s2] t2]; [done|..];
    apply Forall_app; by split.
Qed.

Lemma spared_returns {A} (Q : A -> Prop) (m : M E St A) :
  (forall s, exists a s' t, m s = (Ok a, s', t) /\ Q a) -> spared Q m.
Proof. intros Hm s. by destruct (Hm s) as (a & s' & t & -> & HQ). Qed.

End Rules.

Lemma omap_bind_list {X Y T} (f : X -> option Y) (g : T -> list X) (l : list T) :
  omap f (l ≫= g) = l ≫= fun i => omap f (g i).
Proof.
  induction l as [|i l IH]; [done|].
  cbn [mbind list_bind]. by rewrite omap_app, IH.
Qed.

Lemma omap_none {X Y} (f : X -> option Y) (l : list X) :
  Forall (fun c => f c = None) l -> omap f l = [].
Proof. induction 1 as [|c l Hc _ IH]; [done|]. cbn [omap list_omap]. by rewrite Hc. Qed.

Section Mute.
Context {E St X : Type} (see : E -> option X).
Local Abbreviation mute := (@mute E St X see).

Lemma mute_ret {A} (a : A) : mute (mret a).
Proof. by intros s a' s' t [= _ _ <-]. Qed.

Lemma mute_emit (e : E) : see e = None -> mute (emit e).
Proof. intros He s a s' t [= _ _ <-]. cbn. by rewrite He. Qed.

Lemma mute_exit {A} (c : Z) : mute (exit c : M E St A).
Proof. by intros s a s' t. Qed.

Lemma mute_raise {A} (f : fault) : mute (raise f : M E St A).
Proof. by intros s a s' t. Qed.

Lemma mute_get : mute (get : M E St St).
Proof. by intros s a s' t [= _ _ <-]. Qed.

Lemma mute_modify (f : St -> St) : mute (modify f).
Proof. by intros s a s' t [= _ _ <-]. Qed.

Lemma mute_defined {A} (o : option A) : mute (defined o).
Proof. destruct o; [apply mute_ret|apply mute_raise]. Qed.

Lemma mute_bind {A B} (m : M E St A) (k : A -> M E St B) :
  mute m -> (forall a, mute (k a)) -> mute (m ≫= k).
Proof.
  intros Hm Hk s b s' t (a & s1 & t1 & t2 & Hrun & Hrun' & ->)%bind_ok_inv.
  rewrite omap_app, (Hm _ _ _ _ Hrun), (Hk _ _ _ _ _ Hrun'). done.
Qed.

(** What ends with [exit] does not end well. *)
Lemma mute_then_exit {A B} (m : M E St A) (c : Z) :
  mute (m ≫= fun _ => exit c : M E St B).
Proof. by intros s b s' t (a & s1 & t1 & t2 & _ & ? & _)%bind_ok_inv. Qed.

Lemma mute_for_fold {A} (l : list Z) (body : Z -> A -> M E St A) (a : A) :
  (forall i a, mute (body i a)) -> mute (for_fold l body a).
Proof.
  intros Hbody. revert a. induction l as [|i l IH]; intros a; [apply mute_ret|].
  cbn [for_fold]. change (bind ?m ?k) with (m ≫= k).
  apply mute_bind; [apply Hbody|apply IH].
Qed.

Lemma mute_for_each (l : list Z) (body : Z -> M E St unit) :
  (forall i, mute (body i)) -> mute (for_each l body).
Proof. intros Hbody. apply mute_for_fold. intros i _. apply Hbody. Qed.

(** The events of a run that ends well, after a part that shows none. *)
Lemma mute_bind_ok {A B} (m : M E St A) (k : A -> M E St B) s b s' t :
  mute m -> (m ≫= k) s = (Ok b, s', t) ->
  exists a s1 t2, k a s1 = (Ok b, s', t2) /\ omap see t = omap see t2.
Proof.
  intros Hm (a & s1 & t1 & t2 & Hrun & Hrun' & ->)%bind_ok_inv.
  exists a, s1, t2. split; [done|]. by rewrite omap_app, (Hm _ _ _ _ Hrun).
Qed.

End Mute.

Ltac mute_step :=
  first
    [ apply mute_ret | apply mute_exit | apply mute_raise | apply mute_get
    | apply mute_modify | apply mute_defined
    | apply mute_emit; reflexivity
    | apply mute_then_exit
    | apply mute_for_each; intros ?
    | apply mute_for_fold; intros ? ?
    | apply mute_bind; [|intros ?]
    | match goal with
      | |- Trace.mute _ (if ?b then _ else _) => destruct b
      | |- Trace.mute _ (match ?o with Some _ => _ | None => _ end) => destruct o
      end ].

Ltac mute_steps := repeat mute_step.

(** A loop whose rounds end well and leave the state as it is. *)
Lemma for_each_traces {E St} (body : Z -> M E St unit) (f : Z -> list E)
    (l : list Z) (s : St) :
  (forall i, i ∈ l -> body i s = (Ok tt, s, f i)) ->
  for_each l body s = (Ok tt, s, l ≫= f).
Proof.
  induction l as [|i l IH]; intros Hbody; [done|].
  unfold for_each in *. cbn [for_fold].
  change (bind ?m ?k) with (m ≫= k).
  erewrite bind_ok; [done|apply Hbody; by left|].
  apply IH. intros j Hj. apply Hbody. by right.
Qed.

End TraceFacts.

(** ** Example 004: what a run creates and what it releases *)

Module Ex004ObjectsFacts.
Import CInt CIntFacts Ex004 Run RunFacts Ex004Steps Ex004Order Trace TraceFacts
  Ex004Objects.

Abbreviation keeping := (clean (St := state) releases).
Abbreviation unreleased := (spared (E := event) (St := state) releases).

Lemma early_not_released (c : call) : (phase c < 6)%nat -> released c = None.
Proof. destruct c; simpl; done || lia. Qed.

Lemma diagnostic_not_released (c : call) : diagnostic c -> released c = None.
Proof. by intros [i ->]. Qed.

Lemma no_release_calls (t : list event) :
  Forall (fun c => released c = None) (calls t) -> Forall (fun ev => ~ releases ev) t.
Proof.
  intros Hcalls. apply Forall_forall. intros ev Hev (c & o & -> & Hc).
  apply in_calls in Hev. rewrite Forall_forall in Hcalls.
  specialize (Hcalls c Hev). congruence.
Qed.

(** A part of [main] whose calls all belong to the phases before the
    release makes no release. *)
Lemma scheduled_keeping {A} (m : prog A) (L : list call) (Q : A -> Prop) :
  scheduled m L Q -> Forall (fun c => (phase c < 6)%nat) L -> keeping m.
Proof.
  intros Hm HL s. specialize (Hm s). unfold trace.
  assert (Forall (fun c => released c = None) L) as HL'.
  { eapply Forall_impl; [exact HL|]. apply early_not_released. }
  destruct (m s) as [[[a|c|f] s1] t]; simpl; apply no_release_calls; unfold calls.
  - destruct Hm as [-> _]. done.
  - destruct Hm as (p & d & -> & [rest ->] & Hd). apply Forall_app. split.
    + apply Forall_app in HL' as [? _]. done.
    + eapply Forall_impl; [exact Hd|]. apply diagnostic_not_released.
  - destruct Hm as (p & d & -> & [rest ->] & Hd). apply Forall_app. split.
    + apply Forall_app in HL' as [? _]. done.
    + eapply Forall_impl; [exact Hd|]. apply diagnostic_not_released.
Qed.

Lemma Forall_early (l : list call) (k : nat) :
  (k < 6)%nat -> Forall (fun c => phase c = k) l ->
  Forall (fun c => (phase c < 6)%nat) l.
Proof. intros Hk Hl. eapply Forall_impl; [exact Hl|]. intros c ->. done. Qed.

Lemma call_cl_keeping e c : (phase c < 6)%nat -> keeping (call_cl e c).
Proof.
  intros Hc. eapply scheduled_keeping; [apply call_cl_scheduled'|].
  by constructor.
Qed.

Lemma quiet_keeping {A} (m : prog A) (Q : A -> Prop) : scheduled m [] Q -> keeping m.
Proof. intros Hm. eapply scheduled_keeping; [exact Hm|constructor]. Qed.

(** The release of device [i], and what follows it, always ends well. *)
Lemma release_device_run e i (s : state) :
  release_device e i s = (Ok tt, s, Call <$> release_calls i).
Proof. reflexivity. Qed.

Lemma release_loop_run e (l : list Z) (s : state) :
  for_each l (release_device e) s
    = (Ok tt, s, l ≫= fun i => Call <$> release_calls i).
Proof. apply for_each_traces. intros i _. apply release_device_run. Qed.

Lemma release_all_run e n (s : state) :
  exists t, release_all e n s = (Ok 0, s, t).
Proof.
  unfold release_all. eexists.
  eapply bind_ok; [apply release_loop_run|].
  eapply bind_ok; [apply printf_run|].
  eapply bind_ok; [reflexivity|]. reflexivity.
Qed.

Lemma run_devices_unreleased array_size A B e n :
  unreleased (fun r => r = 0) (run_devices array_size A B e n).
Proof.
  unfold run_devices.
  apply spared_bind.
  { destruct (chunk_size_of array_size n).
    - eapply quiet_keeping, ret_scheduled.
    - eapply quiet_keeping, (follows_raise _ _ _ _ (fun _ => True)). }
  intros cs.
  apply spared_bind; [eapply quiet_keeping, printf_scheduled|intros _].
  apply spared_bind.
  { eapply scheduled_keeping.
    - apply follows_for_each. intros i _. apply setup_device_scheduled.
    - eapply Forall_early; [|apply setup_phase]. lia. }
  intros _.
  apply spared_bind; [eapply quiet_keeping, printf_scheduled|intros _].
  apply spared_bind.
  { eapply scheduled_keeping.
    - apply follows_for_each. intros i _. apply launch_device_scheduled.
    - eapply Forall_early; [|apply launch_phase]. lia. }
  intros _.
  apply spared_bind.
  { eapply scheduled_keeping.
    - apply follows_for_each. intros i _. apply wait_device_scheduled.
    - eapply Forall_early; [|apply wait_phase]. lia. }
  intros _.
  apply spared_bind; [eapply quiet_keeping, printf_scheduled|intros _].
  apply spared_bind.
  { eapply scheduled_keeping.
    - apply follows_for_fold. intros i acc _. apply timeline_device_scheduled.
    - eapply Forall_early; [|apply time_phase]. lia. }
  intros times.
  apply spared_bind; [eapply quiet_keeping, printf_scheduled|intros _].
  apply spared_bind; [eapply quiet_keeping, printf_scheduled|intros _].
  apply spared_bind.
  { eapply scheduled_keeping; [apply concurrency_scheduled|].
    eapply Forall_early; [|apply overlap_phase]. lia. }
  intros _.
  apply spared_bind.
  { eapply scheduled_keeping.
    - apply follows_for_each. intros i _. apply read_device_scheduled.
    - eapply Forall_early; [|apply read_phase]. lia. }
  intros _.
  apply spared_bind; [eapply quiet_keeping, verify_scheduled|intros _].
  apply spared_returns. intros s.
  destruct (release_all_run e n s) as [t Ht]. by exists 0, s, t.
Qed.

Lemma main_with_unreleased array_size A B e :
  unreleased (fun r => r = 0) (main_with array_size A B e).
Proof.
  unfold main_with.
  apply spared_bind; [by apply call_cl_keeping; simpl; lia|intros err].
  apply spared_bind; [eapply quiet_keeping, CHECK_ERROR_scheduled|intros _].
  apply spared_bind; [by apply call_cl_keeping; simpl; lia|intros err'].
  apply spared_bind; [eapply quiet_keeping, CHECK_ERROR_scheduled|intros _].
  apply spared_bind; [eapply quiet_keeping, printf_scheduled|intros _].
  apply spared_bind.
  { eapply scheduled_keeping; [apply discover_loop_scheduled|].
    eapply Forall_early; [|apply discovery_phase]. lia. }
  intros total_devices.
  apply spared_bind; [eapply quiet_keeping, printf_scheduled|intros _].
  apply spared_bind; [eapply quiet_keeping, read_kernel_source_scheduled|intros _].
  apply run_devices_unreleased.
Qed.

Lemma early_not_made_late (c : call) :
  (phase c = 0 \/ 3 <= phase c)%nat -> made c = None.
Proof. destruct c; simpl; done || lia. Qed.

Lemma released_device_calls array_size n cs :
  omap released (device_calls array_size n cs) = seqZ 0 n ≫= objects_released.
Proof.
  unfold device_calls. rewrite !omap_app.
  rewrite (omap_none released (seqZ 0 n ≫= overlap_calls n)) by
    (eapply Forall_impl; [apply overlap_phase|];
     intros c Hc; cbv beta in Hc; apply early_not_released; lia).
  rewrite !omap_bind_list.
  cbn [setup_calls launch_calls wait_calls time_calls read_calls release_calls
       omap list_omap released].
  by rewrite !bind_nothing.
Qed.

Lemma made_device_calls array_size n cs :
  omap made (device_calls array_size n cs)
    = (seqZ 0 n ≫= objects_made) ++ (seqZ 0 n ≫= fun i => [KernelEvent i]).
Proof.
  unfold device_calls. rewrite !omap_app.
  rewrite (omap_none made (seqZ 0 n ≫= overlap_calls n)) by
    (eapply Forall_impl; [apply overlap_phase|];
     intros c Hc; cbv beta in Hc; apply early_not_made_late; lia).
  rewrite !omap_bind_list.
  cbn [setup_calls launch_calls wait_calls time_calls read_calls release_calls
       omap list_omap made].
  rewrite !bind_nothing. by rewrite !app_nil_r.
Qed.

Lemma schedule_released array_size e :
  omap released (schedule array_size e) =
    match chunk_size_of array_size (devices_found e) with
    | Some _ => seqZ 0 (devices_found e) ≫= objects_released
    | None => []
    end.
Proof.
  unfold schedule. rewrite !omap_app.
  rewrite (omap_none released (seqZ 0 _ ≫= discovery_calls e)) by
    (eapply Forall_impl; [apply discovery_phase|];
     intros c Hc; cbv beta in Hc; apply early_not_released; lia).
  destruct (chunk_size_of array_size (devices_found e)) as [cs|]; [|done].
  by rewrite released_device_calls.
Qed.

Lemma schedule_made array_size e :
  omap made (schedule array_size e) =
    match chunk_size_of array_size (devices_found e) with
    | Some _ => (seqZ 0 (devices_found e) ≫= objects_made)
                ++ (seqZ 0 (devices_found e) ≫= fun i => [KernelEvent i])
    | None => []
    end.
Proof.
  unfold schedule. rewrite !omap_app.
  rewrite (omap_none made (seqZ 0 _ ≫= discovery_calls e)) by
    (eapply Forall_impl; [apply discovery_phase|];
     intros c Hc; cbv beta in Hc; apply early_not_made_late; lia).
  destruct (chunk_size_of array_size (devices_found e)) as [cs|]; [|done].
  by rewrite made_device_calls.
Qed.

Lemma released_are_made (l : list Z) :
  l ≫= objects_released ≡ₚ (l ≫= objects_made) ++ (l ≫= fun i => [KernelEvent i]).
Proof.
  induction l as [|i l IH]; [done|].
  cbn [mbind list_bind]. rewrite IH. unfold objects_released, objects_made.
  cbn [app]. solve_Permutation.
Qed.

Lemma released_once (l : list Z) : NoDup l -> NoDup (l ≫= objects_released).
Proof.
  intros Hl. apply NoDup_bind; [|intros i _|done].
  - intros i j o _ _ Hi Hj. unfold objects_released in *.
    set_unfold. destruct_or!; congruence.
  - unfold objects_released. repeat (apply NoDup_cons; split;
      [rewrite ?elem_of_cons, elem_of_nil; intros ?; destruct_or!; done|]).
    apply NoDup_nil_2.
Qed.

Lemma released_count (l : list Z) :
  length (l ≫= objects_released) = (8 * length l)%nat.
Proof. induction l as [|i l IH]; [done|]. cbn [mbind list_bind]. rewrite length_app, IH. simpl. lia. Qed.

(** In a run that ends well every call that hands out an object has
    succeeded. *)
Lemma created_made array_size A B e (s : state) r :
  outcome (main_with array_size A B e s) = Ok r ->
  omap (created e) (calls (trace (main_with array_size A B e s)))
    = omap made (calls (trace (main_with array_size A B e s))).
Proof.
  intros Hok.
  assert (forall c, c ∈ calls (trace (main_with array_size A B e s)) ->
            created e c = made c) as Hall.
  { intros c Hc%in_calls. unfold created.
    destruct (Z.eqb_spec (to_int (status e c)) CL.CL_SUCCESS) as [|Hst]; [done|].
    destruct (made c) eqn:Hmade; [|done].
    destruct (Ex004Errors.main_with_failed array_size A B e s (Call c) Hc) as [Hexit _].
    - exists c. split; [done|]. split; [|done]. by destruct c.
    - congruence. }
  induction (calls (trace (main_with array_size A B e s))) as [|c l IH]; [done|].
  cbn [omap list_omap]. rewrite Hall by (by left). rewrite IH; [done|].
  intros c' Hc'. apply Hall. by right.
Qed.

(** A run of [main] that does not return 0 (it stops at a failed check, or
    its behaviour is undefined) has released nothing: the objects that it
    created are left as they are. *)
Theorem stopped_run_releases_nothing (array_size : Z) (A B : list Z) (e : env)
    (s : state) :
  outcome (main_with array_size A B e s) <> Ok 0 ->
  omap released (calls (trace (main_with array_size A B e s))) = [].
Proof.
  intros Hstop. pose proof (main_with_unreleased array_size A B e s) as Hrun.
  unfold outcome, trace in *.
  destruct (main_with array_size A B e s) as [[[r|c|f] s'] t]; simpl in *.
  - congruence.
  - apply omap_none. apply Forall_forall. intros c' Hc'%in_calls.
    rewrite Forall_forall in Hrun. specialize (Hrun _ Hc').
    destruct (released c') as [o|] eqn:Ho; [|done].
    destruct Hrun. by exists c', o.
  - apply omap_none. apply Forall_forall. intros c' Hc'%in_calls.
    rewrite Forall_forall in Hrun. specialize (Hrun _ Hc').
    destruct (released c') as [o|] eqn:Ho; [|done].
    destruct Hrun. by exists c', o.
Qed.

Lemma stopped_run_releases_nothing_witness :
  let e := second_context_fails in
  let run := main_with 16 (init_A 16) (init_B 16) e (initial 16 e) in
  outcome run = Exit 1 /\
  omap (created e) (calls (trace run)) = objects_made 0 /\
  omap released (calls (trace run)) = [].
Proof.
  intros e run. split; [vm_compute; reflexivity|].
  split; [vm_compute; reflexivity|].
  apply (stopped_run_releases_nothing 16 (init_A 16) (init_B 16) e (initial 16 e)).
  vm_compute. discriminate.
Defined.

(** A run of [main] that returns has released exactly the objects that it
    created, each of them once: the eight objects of every device that was
    found. *)
Theorem returned_run_releases_what_it_created (array_size : Z) (A B : list Z)
    (e : env) (s : state) (r : Z) :
  outcome (main_with array_size A B e s) = Ok r ->
  omap released (calls (trace (main_with array_size A B e s)))
    ≡ₚ omap (created e) (calls (trace (main_with array_size A B e s))) /\
  NoDup (omap released (calls (trace (main_with array_size A B e s)))) /\
  Z.of_nat (length (omap released (calls (trace (main_with array_size A B e s)))))
    = 8 * devices_found e.
Proof.
  intros Hok. rewrite (created_made _ _ _ _ _ _ Hok).
  pose proof (main_with_scheduled array_size A B e s) as Hrun.
  unfold outcome, trace in *.
  destruct (main_with array_size A B e s) as [[[r'|c|f] s'] t]; simpl in *; try done.
  destruct Hrun as [Hcalls _]. unfold calls. rewrite Hcalls.
  rewrite schedule_released, schedule_made.
  pose proof (Ex004Flow.devices_found_range e) as Hrange. unfold is_uint in Hrange.
  destruct (chunk_size_of array_size (devices_found e)) as [cs|] eqn:Hcs.
  - split; [apply released_are_made|]. split; [apply released_once, NoDup_seqZ|].
    rewrite released_count, length_seqZ. lia.
  - apply chunk_size_of_none in Hcs. rewrite Hcs. split; [done|].
    split; [apply NoDup_nil_2|done].
Qed.

Lemma returned_run_releases_what_it_created_witness :
  let e := quiet_env 1 (fun _ => 2) in
  let run := main_with 16 (init_A 16) (init_B 16) e (initial 16 e) in
  omap released (calls (trace run)) ≡ₚ omap (created e) (calls (trace run)) /\
  NoDup (omap released (calls (trace run))) /\
  Z.of_nat (length (omap released (calls (trace run)))) = 8 * devices_found e.
Proof.
  intros e run.
  apply (returned_run_releases_what_it_created 16 (init_A 16) (init_B 16) e
           (initial 16 e) 0).
  vm_compute. reflexivity.
Defined.

End Ex004ObjectsFacts.

(** ** Example 004: the time line and the concurrency analysis *)

Module Ex004ReportFacts.
Import CInt CIntFacts Ex004 Run RunFacts Ex004Steps Trace TraceFacts Ex004Report.

Lemma to_ulong_range z : 0 <= to_ulong z <= ULLONG_MAX.
Proof.
  unfold to_ulong, ULLONG_MAX.
  pose proof (Z.mod_pos_bound z 18446744073709551616 ltac:(lia)). lia.
Qed.

Lemma to_ulong_small z : 0 <= z <= ULLONG_MAX -> to_ulong z = z.
Proof. unfold to_ulong, ULLONG_MAX. intros Hz. apply Z.mod_small. lia. Qed.

Lemma overlap_pair_run e i j (s : state) :
  overlap_pair e i j s =
    (Ok tt, s,
     [Call (clGetEventProfilingInfo i CL_PROFILING_COMMAND_START);
      Call (clGetEventProfilingInfo i CL_PROFILING_COMMAND_END);
      Call (clGetEventProfilingInfo j CL_PROFILING_COMMAND_START);
      Call (clGetEventProfilingInfo j CL_PROFILING_COMMAND_END);
      Stdout (pair_line e i j)]).
Proof. reflexivity. Qed.

Lemma overlap_test e i j :
  started e i <= ended e i -> started e j <= ended e j ->
  negb ((ended e i <? started e j) || (ended e j <? started e i)) = true
  <-> overlapping e i j.
Proof.
  intros Hi Hj. unfold overlapping.
  rewrite negb_true_iff, orb_false_iff, !Z.ltb_ge. split.
  - intros [Hij Hji].
    destruct (Z.le_gt_cases (started e i) (started e j)) as [Hle|Hgt].
    + exists (started e j). lia.
    + exists (started e i). lia.
  - intros (time & Hti & Htj). lia.
Qed.

Lemma concurrency_run e n (s : state) :
  concurrency e n s =
    (Ok tt, s,
     seqZ 0 n ≫= fun i =>
       seqZ (uint_add i 1) (n - uint_add i 1) ≫= fun j =>
         [Call (clGetEventProfilingInfo i CL_PROFILING_COMMAND_START);
          Call (clGetEventProfilingInfo i CL_PROFILING_COMMAND_END);
          Call (clGetEventProfilingInfo j CL_PROFILING_COMMAND_START);
          Call (clGetEventProfilingInfo j CL_PROFILING_COMMAND_END);
          Stdout (pair_line e i j)]).
Proof.
  unfold concurrency. apply for_each_traces. intros i _.
  apply for_each_traces. intros j _. apply overlap_pair_run.
Qed.

Lemma bind_ext_in {X Y} (f g : X -> list Y) (l : list X) :
  (forall i, i ∈ l -> f i = g i) -> l ≫= f = l ≫= g.
Proof.
  induction l as [|i l IH]; intros Hfg; [done|].
  cbn [mbind list_bind]. rewrite Hfg by (by left). f_equal.
  apply IH. intros j Hj. apply Hfg. by right.
Qed.

Lemma length_bind_singleton {X Y} (f : X -> Y) (l : list X) :
  length (l ≫= fun j => [f j]) = length l.
Proof. induction l as [|j l IH]; [done|]. cbn [mbind list_bind app length]. by rewrite IH. Qed.

(** The lines of the pairs, the devices being [n]. *)
Lemma concurrency_lines e n (s : state) :
  0 <= n <= UINT_MAX ->
  omap stdout_of (trace (concurrency e n s)) =
    seqZ 0 n ≫= fun i => seqZ (i + 1) (n - (i + 1)) ≫= fun j => [pair_line e i j].
Proof.
  intros Hn. rewrite concurrency_run. unfold trace. cbn [snd].
  rewrite omap_bind_list. apply bind_ext_in. intros i Hi%elem_of_seqZ.
  rewrite omap_bind_list.
  assert (uint_add i 1 = i + 1) as ->.
  { unfold uint_add.
    rewrite (to_uint_small i), (to_uint_small 1), to_uint_small
      by (unfold is_uint, UINT_MAX in *; lia). done. }
  done.
Qed.

Lemma pairs_count e (n : Z) (k : nat) :
  Z.of_nat k <= n ->
  2 * Z.of_nat (length (seqZ 0 (Z.of_nat k) ≫= fun i =>
                   seqZ (i + 1) (n - (i + 1)) ≫= fun j => [pair_line e i j]))
    = Z.of_nat k * (2 * n - Z.of_nat k - 1).
Proof.
  induction k as [|k IH]; intros Hk; [done|].
  replace (Z.of_nat (S k)) with (Z.of_nat k + 1) by lia.
  rewrite seqZ_app by lia. rewrite bind_app, length_app.
  change (seqZ (0 + Z.of_nat k) 1) with [0 + Z.of_nat k].
  cbn [mbind list_bind]. rewrite app_nil_r, length_bind_singleton, length_seqZ.
  rewrite Nat2Z.inj_add, Z.mul_add_distr_l, IH by lia. lia.
Qed.

(** The concurrency analysis of [num_devices] devices ends well and leaves
    the state as it is.  It prints one line for every pair of devices
    [i < j], and nothing else: [num_devices * (num_devices - 1) / 2] lines.
    When no kernel ended before it started, the line of a pair says YES
    exactly when the kernels of the two devices ran at the same time. *)
Theorem concurrency_reports_every_pair (e : env) (num_devices : Z) (s : state) :
  0 <= num_devices <= UINT_MAX ->
  (forall i, 0 <= i < num_devices -> started e i <= ended e i) ->
  exists t,
    concurrency e num_devices s = (Ok tt, s, t) /\
    (forall m, m ∈ omap stdout_of t ->
       exists i j b, m = MsgOverlap i j b /\ (0 <= i < j /\ j < num_devices) /\
                     (b = true <-> overlapping e i j)) /\
    (forall i j, (0 <= i < j /\ j < num_devices) ->
       exists b, MsgOverlap i j b ∈ omap stdout_of t) /\
    Z.of_nat (length (omap stdout_of t)) = num_devices * (num_devices - 1) / 2.
Proof.
  intros Hn Htimes. eexists. split; [apply concurrency_run|].
  pose proof (concurrency_lines e num_devices s Hn) as Hlines.
  rewrite concurrency_run in Hlines. unfold trace in Hlines. cbn [snd] in Hlines.
  rewrite Hlines. clear Hlines. split; [|split].
  - intros m (i & (j & Hm & Hj%elem_of_seqZ)%list_elem_of_bind
               & Hi%elem_of_seqZ)%list_elem_of_bind.
    apply list_elem_of_singleton in Hm as ->.
    eexists i, j, _. split; [done|]. split; [lia|].
    apply overlap_test; apply Htimes; lia.
  - intros i j Hij. eexists. apply list_elem_of_bind. exists i.
    split; [|apply elem_of_seqZ; lia].
    apply list_elem_of_bind. exists j.
    split; [apply list_elem_of_singleton; reflexivity|apply elem_of_seqZ; lia].
  - pose proof (pairs_count e num_devices (Z.to_nat num_devices) ltac:(lia)) as Hcount.
    rewrite Z2Nat.id in Hcount by lia.
    apply Z.div_unique_exact; lia.
Qed.

Lemma concurrency_reports_every_pair_witness :
  let e := quiet_env 1 (fun _ => 3) in
  exists t,
    concurrency e 3 (initial 4 e) = (Ok tt, initial 4 e, t) /\
    omap stdout_of t =
      [MsgOverlap 0 1 true; MsgOverlap 0 2 false; MsgOverlap 1 2 true] /\
    (forall m, m ∈ omap stdout_of t ->
       exists i j b, m = MsgOverlap i j b /\ (0 <= i < j /\ j < 3) /\
                     (b = true <-> overlapping e i j)).
Proof.
  intros e.
  destruct (concurrency_reports_every_pair e 3 (initial 4 e)) as (t & Hrun & Hlines & _).
  - unfold UINT_MAX. lia.
  - intros i Hi. unfold started, ended, to_ulong. simpl.
    assert (i = 0 \/ i = 1 \/ i = 2) as [->|[->| ->]] by lia; vm_compute; discriminate.
  - exists t. split; [exact Hrun|]. split; [|exact Hlines].
    rewrite concurrency_run in Hrun. injection Hrun as <-. reflexivity.
Defined.

Lemma for_fold_traces {X} (body : Z -> X -> prog X) (step : Z -> X -> X)
    (f : Z -> list event) (l : list Z) (s : state) : forall a,
  (forall i a, body i a s = (Ok (step i a), s, f i)) ->
  for_fold l body a s = (Ok (foldl (fun a i => step i a) a l), s, l ≫= f).
Proof.
  induction l as [|i l IH]; intros a Hbody; [done|].
  cbn [for_fold foldl]. change (bind ?m ?k) with (m ≫= k).
  erewrite bind_ok; [done|apply Hbody|]. by apply IH.
Qed.

Lemma timeline_device_run e i acc (s : state) :
  timeline_device e i acc s =
    (Ok (widen e i acc), s,
     [Call (clGetEventProfilingInfo i CL_PROFILING_COMMAND_START);
      Call (clGetEventProfilingInfo i CL_PROFILING_COMMAND_END);
      Stdout (device_line e i)]).
Proof. reflexivity. Qed.

Lemma widen_spans e (k : nat) :
  let acc := foldl (fun a i => widen e i a) (ULLONG_MAX, 0) (seqZ 0 (Z.of_nat k)) in
  (forall i, 0 <= i < Z.of_nat k -> acc.1 <= started e i /\ ended e i <= acc.2) /\
  (acc.1 = ULLONG_MAX \/ exists i, 0 <= i < Z.of_nat k /\ acc.1 = started e i) /\
  (acc.2 = 0 \/ exists j, 0 <= j < Z.of_nat k /\ acc.2 = ended e j).
Proof.
  induction k as [|k IH].
  - cbn. split; [lia|]. split; by left.
  - replace (Z.of_nat (S k)) with (Z.of_nat k + 1) by lia.
    rewrite seqZ_app by lia. rewrite foldl_app.
    change (seqZ (0 + Z.of_nat k) 1) with [0 + Z.of_nat k]. rewrite Z.add_0_l.
    cbn [foldl]. cbv zeta in IH.
    destruct (foldl _ _ (seqZ 0 (Z.of_nat k))) as [lo hi]. cbn [fst snd] in *.
    destruct IH as (Hall & Hlo & Hhi). unfold widen. cbn [fst snd].
    destruct (Z.ltb_spec (started e (Z.of_nat k)) lo),
             (Z.ltb_spec hi (ended e (Z.of_nat k))).
    all: split; [intros i Hi; destruct (decide (i = Z.of_nat k)) as [->|];
                 [lia|specialize (Hall i ltac:(lia)); lia]|].
    all: split.
    all: try (right; exists (Z.of_nat k); split; [lia|done]).
    all: try (destruct Hlo as [?|(i & ? & ?)]; [by left|right; exists i; split; [lia|done]]).
    all: try (destruct Hhi as [?|(i & ? & ?)]; [by left|right; exists i; split; [lia|done]]).
Qed.

(** The loop of the time line over [num_devices >= 1] devices ends well and
    leaves the state as it is; it prints the line of every device, in
    order, and the pair that it computes is the earliest start and the
    latest end of all the kernels.  When some kernel did not end before it
    started, the total time [latest_end - earliest_start] that [main]
    prints does not wrap around. *)
Theorem timeline_spans_all_devices (e : env) (num_devices : Z) (s : state) :
  1 <= num_devices ->
  exists earliest_start latest_end t,
    timeline e num_devices s = (Ok (earliest_start, latest_end), s, t) /\
    omap stdout_of t = device_line e <$> seqZ 0 num_devices /\
    (forall i, 0 <= i < num_devices ->
       earliest_start <= started e i /\ ended e i <= latest_end) /\
    (exists i, 0 <= i < num_devices /\ earliest_start = started e i) /\
    (exists j, 0 <= j < num_devices /\ latest_end = ended e j) /\
    ((exists i, 0 <= i < num_devices /\ started e i <= ended e i) ->
     to_ulong (latest_end - earliest_start) = latest_end - earliest_start).
Proof.
  intros Hn. unfold timeline.
  rewrite (for_fold_traces _ _ _ _ _ _ (fun i a => timeline_device_run e i a s)).
  pose proof (widen_spans e (Z.to_nat num_devices)) as Hspans. cbv zeta in Hspans.
  rewrite Z2Nat.id in Hspans by lia.
  destruct (foldl _ _ (seqZ 0 num_devices)) as [lo hi]. cbn [fst snd] in Hspans.
  destruct Hspans as (Hall & Hlo & Hhi).
  pose proof (to_ulong_range (event_time e 0 CL_PROFILING_COMMAND_START)) as Hstart.
  pose proof (to_ulong_range (event_time e 0 CL_PROFILING_COMMAND_END)) as Hend.
  fold (started e 0) in Hstart. fold (ended e 0) in Hend.
  pose proof (Hall 0 ltac:(lia)) as H0.
  exists lo, hi. eexists. split; [done|]. split; [|split; [done|split; [|split]]].
  - rewrite omap_bind_list. generalize (seqZ 0 num_devices). intros l.
    induction l as [|i l IH]; [done|]. cbn. by rewrite <- IH.
  - destruct Hlo as [->|?]; [|done]. exists 0. split; [lia|]. lia.
  - destruct Hhi as [->|?]; [|done]. exists 0. split; [lia|]. lia.
  - intros (i & Hi & Hle). apply to_ulong_small.
    pose proof (Hall i Hi).
    assert (0 <= lo) as Hlo'.
    { destruct Hlo as [->|(k & Hk & ->)]; [done|].
      apply (to_ulong_range (event_time e k CL_PROFILING_COMMAND_START)). }
    assert (hi <= ULLONG_MAX) as Hhi'.
    { destruct Hhi as [->|(j & Hj & ->)]; [done|].
      apply (to_ulong_range (event_time e j CL_PROFILING_COMMAND_END)). }
    lia.
Qed.

Lemma timeline_spans_all_devices_witness :
  let e := quiet_env 1 (fun _ => 3) in
  exists t, timeline e 3 (initial 4 e) = (Ok (0, 3500), initial 4 e, t).
Proof.
  intros e.
  destruct (timeline_spans_all_devices e 3 (initial 4 e)) as (lo & hi & t & Hrun & _);
    [lia|].
  exists t. rewrite Hrun. vm_compute in Hrun. injection Hrun as <- <- _. reflexivity.
Defined.

End Ex004ReportFacts.

(** ** Example 004: a run in which nothing fails *)

Module Ex004Passes.
Import CInt CIntFacts Mem MemFacts Ex004 Run RunFacts Ex004Steps Trace TraceFacts
  Ex004Objects Ex004ObjectsFacts Ex004Report.

Abbreviation hushed := (mute (St := state) telling).

Ltac hush :=
  unfold setup_device, launch_device, wait_device, timeline_device, concurrency,
    overlap_pair, read_device, release_device, release_all, discover,
    discover_platform, read_kernel_source, CHECK_ERROR, create_buffer,
    enqueue_write, enqueue_kernel, enqueue_read, get_event_time, call_cl,
    printf, fprintf_stderr;
  mute_steps.

Lemma setup_device_hushed array_size A B e n cs i :
  hushed (setup_device array_size A B e n cs i).
Proof. hush. Qed.

Lemma discover_hushed e np : hushed (discover e np).
Proof. hush. Qed.

Lemma release_all_hushed e n : hushed (release_all e n).
Proof. hush. Qed.

(** The verification reads the arrays and prints; it leaves the state as it
    is. *)
Lemma verify_element_steady A B i correct (s : state) r s' t :
  verify_element A B i correct s = (r, s', t) -> s' = s.
Proof.
  unfold verify_element, mbind, M_bind, bind, get, defined. cbn.
  destruct (load A i) as [a|]; cbn; [|by intros [= _ <- _]].
  destruct (load B i) as [b|]; cbn; [|by intros [= _ <- _]].
  destruct (load (C s) i) as [c|]; cbn; [|by intros [= _ <- _]].
  destruct (negb (c =? int_add a b)); cbn; by intros [= _ <- _].
Qed.

Lemma verify_loop_steady A B (l : list Z) : forall correct (s : state) r s' t,
  for_fold l (verify_element A B) correct s = (r, s', t) -> s' = s.
Proof.
  induction l as [|i l IH]; intros correct s r s' t; [by intros [= _ <- _]|].
  cbn [for_fold]. unfold bind.
  destruct (verify_element A B i correct s) as [[[c|c|f] s1] t1] eqn:Hrun;
    apply verify_element_steady in Hrun as ->; [|by intros [= _ <- _]..].
  destruct (for_fold l (verify_element A B) c s) as [[r2 s2] t2] eqn:Hrun.
  apply IH in Hrun as ->. by intros [= _ <- _].
Qed.

Lemma verify_steady A B (s : state) r s' t :
  verify A B s = (r, s', t) -> s' = s.
Proof.
  unfold verify, mbind, M_bind, bind, printf, emit.
  destruct (for_fold (seqZ 0 10) (verify_element A B) true s)
    as [[[c|c|f] s1] t1] eqn:Hrun;
    apply verify_loop_steady in Hrun as ->; by intros [= _ <- _].
Qed.

(** What the verification prints when the elements that it reads are the
    sums. *)
Lemma verify_loop_passes A B (a b : Z -> Z) (l : list Z) (s : state) :
  (forall i, i ∈ l ->
     load A i = Some (a i) /\ load B i = Some (b i) /\
     load (C s) i = Some (int_add (a i) (b i))) ->
  for_fold l (verify_element A B) true s =
    (Ok true, s, (fun i => Stdout (MsgSum (a i) (b i) (int_add (a i) (b i)))) <$> l).
Proof.
  induction l as [|i l IH]; intros Hl; [done|].
  cbn [for_fold]. change (bind ?m ?k) with (m ≫= k).
  destruct (Hl i ltac:(by left)) as (HA & HB & HC).
  rewrite fmap_cons.
  apply (bind_ok _ _ _ true s [Stdout (MsgSum (a i) (b i) (int_add (a i) (b i)))]);
    [|apply IH; intros j Hj; apply Hl; by right].
  unfold verify_element, mbind, M_bind, bind, get, defined. cbn.
  rewrite HA, HB, HC. cbn. by rewrite Z.eqb_refl.
Qed.

Lemma verify_passes A B (a b : Z -> Z) (s : state) :
  (forall i, 0 <= i < 10 ->
     load A i = Some (a i) /\ load B i = Some (b i) /\
     load (C s) i = Some (int_add (a i) (b i))) ->
  verify A B s =
    (Ok tt, s,
     Stdout MsgVerification ::
     ((fun i => Stdout (MsgSum (a i) (b i) (int_add (a i) (b i)))) <$> seqZ 0 10)
     ++ [Stdout MsgPassed]).
Proof.
  intros Hl. unfold verify.
  apply (bind_ok _ _ _ tt s [Stdout MsgVerification]); [apply printf_run|].
  eapply bind_ok;
    [apply verify_loop_passes; intros i Hi%elem_of_seqZ; apply Hl; lia|].
  apply printf_run.
Qed.

(** The telling events of a run of [main] that ends well are those of its
    verification, which finds the array [C] as the run leaves it. *)
Lemma main_with_telling array_size A B e (s : state) r s' t :
  main_with array_size A B e s = (Ok r, s', t) ->
  omap telling t = omap telling (trace (verify A B s')).
Proof.
  intros Hrun. unfold main_with in Hrun.
  apply mute_bind_ok with (see := telling) in Hrun
    as (? & ? & ? & Hrun & ->); [|hush].
  apply mute_bind_ok with (see := telling) in Hrun
    as (? & ? & ? & Hrun & ->); [|hush].
  apply mute_bind_ok with (see := telling) in Hrun
    as (? & ? & ? & Hrun & ->); [|hush].
  apply mute_bind_ok with (see := telling) in Hrun
    as (? & ? & ? & Hrun & ->); [|hush].
  apply mute_bind_ok with (see := telling) in Hrun
    as (? & ? & ? & Hrun & ->); [|hush].
  apply mute_bind_ok with (see := telling) in Hrun
    as (n & ? & ? & Hrun & ->); [|hush].
  apply mute_bind_ok with (see := telling) in Hrun
    as (? & ? & ? & Hrun & ->); [|hush].
  apply mute_bind_ok with (see := telling) in Hrun
    as (? & ? & ? & Hrun & ->); [|hush].
  unfold run_devices in Hrun.
  do 12 (apply mute_bind_ok with (see := telling) in Hrun
           as (? & ? & ? & Hrun & ->); [|hush]).
  apply bind_ok_inv in Hrun as (? & s1 & tv & t2 & Hverify & Htail & ->).
  pose proof (verify_steady _ _ _ _ _ _ Hverify) as <-.
  change (release_all e n s1 = (Ok r, s', t2)) in Htail.
  destruct (release_all_run e n s1) as [t2' Htail'].
  rewrite Htail' in Htail. injection Htail as <- <- <-.
  rewrite omap_app, Hverify.
  rewrite (release_all_hushed e n _ _ _ _ Htail'). by rewrite app_nil_r.
Qed.

Lemma main_with_passes array_size e :
  10 <= array_size <= INT_MAX ->
  all_succeed e -> kernel_file_opens e = true -> 1 <= devices_found e ->
  let run := main_with array_size (init_A array_size) (init_B array_size) e
               (initial array_size e) in
  outcome run = Ok 0 /\
  omap telling (trace run) =
    ((fun i => Stdout (MsgSum i (array_size - i) array_size)) <$> seqZ 0 10)
    ++ [Stdout MsgPassed].
Proof.
  intros Hsize Hok Hfile Hfound run.
  assert (Z.of_nat (length (init_A array_size)) = array_size) as HA.
  { unfold init_A. rewrite length_seqZ. lia. }
  assert (Z.of_nat (length (init_B array_size)) = array_size) as HB.
  { unfold init_B. rewrite length_fmap, length_seqZ. lia. }
  destruct (Ex004Flow.main_with_sums array_size _ _ e (initial array_size e)
              Hsize HA HB (Ex004Flow.initial_length array_size e ltac:(lia))
              Hok Hfile Hfound)
    as (s' & t & Hrun & Hsums).
  subst run. unfold outcome, trace. rewrite Hrun. cbn [fst snd].
  split; [done|].
  rewrite (main_with_telling _ _ _ _ _ _ _ _ Hrun).
  rewrite (verify_passes _ _ (fun i => i) (fun i => array_size - i)).
  - unfold trace. cbn [snd omap list_omap telling]. rewrite omap_app.
    cbn [omap list_omap telling]. f_equal.
    assert (forall i, i ∈ seqZ 0 10 ->
              int_add i (array_size - i) = array_size) as Hsum.
    { intros i Hi%elem_of_seqZ. unfold int_add. replace (i + (array_size - i))
        with array_size by lia. apply to_int_small. unfold is_int, INT_MAX in *. lia. }
    induction (seqZ 0 10) as [|i l IH]; [done|].
    cbn [fmap list_fmap omap list_omap telling].
    rewrite (Hsum i) by (by left). f_equal. apply IH.
    intros j Hj. apply Hsum. by right.
  - intros i Hi. rewrite Hsums, load_zip_with. unfold init_A, init_B.
    rewrite load_fmap, load_seqZ.
    destruct (Z.leb_spec 0 i); [|lia]. destruct (Z.ltb_spec i array_size); [|lia].
    cbn [andb fmap option_fmap option_map]. rewrite Z.add_0_l.
    assert (int_sub array_size i = array_size - i) as ->.
    { unfold int_sub. apply to_int_small. unfold is_int, INT_MAX in *. lia. }
    done.
Qed.

(** On a machine on which every OpenCL call succeeds, that has a device
    and on which [vector_add.cl] can be opened, [main] returns 0; it writes
    nothing to [stderr], and its verification prints the ten sums
    [i + (16777216 - i) = 16777216], no mismatch, and the verdict PASSED. *)
Theorem main_passes (e : env) :
  all_succeed e -> kernel_file_opens e = true -> 1 <= devices_found e ->
  outcome (main e) = Ok 0 /\
  omap telling (trace (main e)) =
    ((fun i => Stdout (MsgSum i (16777216 - i) 16777216)) <$> seqZ 0 10)
    ++ [Stdout MsgPassed].
Proof.
  intros Hok Hfile Hfound.
  apply (main_with_passes ARRAY_SIZE e); try assumption.
  unfold ARRAY_SIZE, INT_MAX. lia.
Qed.

Lemma main_passes_witness :
  let e := quiet_env 2 (fun p => p + 1) in
  outcome (main e) = Ok 0 /\
  omap telling (trace (main e)) =
    ((fun i => Stdout (MsgSum i (16777216 - i) 16777216)) <$> seqZ 0 10)
    ++ [Stdout MsgPassed].
Proof.
  intros e. apply (main_passes e).
  - intros c. reflexivity.
  - reflexivity.
  - vm_compute. discriminate.
Defined.

End Ex004Passes.

(** ** Example 000: every query uses a handle that was retrieved *)

Module Ex000ReportFacts.
Import CInt CIntFacts Ex000 Run RunFacts Trace TraceFacts Ex000Errors Ex000Report.

Abbreviation bounded e := (clean (St := unit) (stray e)).

Lemma cout_bounded e m : bounded e (cout m).
Proof. apply clean_emit. intros (c & Hc & _). discriminate. Qed.

Lemma cerr_bounded e m : bounded e (cerr m).
Proof. apply clean_emit. intros (c & Hc & _). discriminate. Qed.

(** A call, and what follows it with the status that the call returns. *)
Lemma call_cl_bounded {A} e c (k : Z -> prog A) :
  in_bounds e c -> bounded e (k (to_int (status e c))) ->
  bounded e (call_cl e c ≫= k).
Proof.
  intros Hc Hk s. specialize (Hk s). unfold mbind, M_bind, bind.
  rewrite query_run. destruct (k _ s) as [[r s2] t2]. cbn in *.
  constructor; [|done]. intros (c' & [= <-] & Hc'). done.
Qed.

Lemma print_platform_info_bounded e i param :
  succeeded e clGetPlatformIDs -> 0 <= i < to_uint (numPlatforms e) ->
  bounded e (print_platform_info e i param).
Proof.
  intros Hids Hi. unfold print_platform_info.
  apply call_cl_bounded; [done|apply cout_bounded].
Qed.

Lemma print_device_bounded e i j :
  succeeded e clGetPlatformIDs -> 0 <= i < to_uint (numPlatforms e) ->
  succeeded e (clGetDeviceIDs_count i) -> succeeded e (clGetDeviceIDs i) ->
  0 <= j < to_uint (numDevices e i) ->
  bounded e (print_device e i j).
Proof.
  intros Hids Hi Hcount Hlist Hj. unfold print_device.
  apply clean_bind; [apply cout_bounded|intros _].
  apply call_cl_bounded; [done|].
  apply clean_bind; [apply cout_bounded|intros _].
  apply call_cl_bounded; [done|].
  apply clean_bind; [destruct (_ =? _); [apply cout_bounded|apply clean_ret]|intros _].
  apply call_cl_bounded; [done|].
  apply clean_bind; [destruct (_ =? _); [apply cout_bounded|apply clean_ret]|intros _].
  apply call_cl_bounded; [done|].
  destruct (_ =? _); [apply cout_bounded|apply clean_ret].
Qed.

Lemma print_platform_bounded e i :
  succeeded e clGetPlatformIDs -> 0 <= i < to_uint (numPlatforms e) ->
  bounded e (print_platform e i).
Proof.
  intros Hids Hi. unfold print_platform.
  apply clean_bind; [apply cout_bounded|intros _].
  do 3 (apply clean_bind; [by apply print_platform_info_bounded|intros _]).
  apply clean_bind; [apply cout_bounded|intros _].
  apply call_cl_bounded; [done|].
  destruct (Z.eqb_spec (to_int (status e (clGetDeviceIDs_count i))) CL.CL_SUCCESS)
    as [Hcount|_]; cbn [negb]; [|apply cout_bounded].
  apply clean_bind; [apply cout_bounded|intros _].
  destruct (Z.eqb_spec (to_uint (numDevices e i)) 0) as [|Hsome]; [apply cout_bounded|].
  apply call_cl_bounded; [done|].
  destruct (Z.eqb_spec (to_int (status e (clGetDeviceIDs i))) CL.CL_SUCCESS)
    as [Hlist|_]; cbn [negb]; [|apply cout_bounded].
  apply clean_bind; [|intros _; apply cout_bounded].
  apply clean_for_each. intros j Hj%elem_of_seqZ.
  apply print_device_bounded; done || lia.
Qed.

Lemma main_bounded e : bounded e (main e).
Proof.
  unfold main.
  apply clean_bind; [apply cout_bounded|intros _].
  apply call_cl_bounded; [done|].
  destruct (Z.eqb_spec (to_int (status e clGetPlatformIDs_count)) CL.CL_SUCCESS)
    as [Hcount|_]; cbn [negb].
  2: { apply clean_then_exit, cerr_bounded. }
  apply clean_bind; [apply clean_ret|intros _].
  destruct (Z.eqb_spec (to_uint (numPlatforms e)) 0) as [|Hsome].
  { apply clean_then_exit, cerr_bounded. }
  apply clean_bind; [apply clean_ret|intros _].
  apply clean_bind; [apply cout_bounded|intros _].
  apply call_cl_bounded; [done|].
  destruct (Z.eqb_spec (to_int (status e clGetPlatformIDs)) CL.CL_SUCCESS)
    as [Hids|_]; cbn [negb].
  2: { apply clean_then_exit, cerr_bounded. }
  apply clean_bind; [apply clean_ret|intros _].
  apply clean_bind.
  { apply clean_for_each. intros i Hi%elem_of_seqZ.
    apply print_platform_bounded; done || lia. }
  intros _. apply clean_bind; [apply cout_bounded|intros _; apply clean_ret].
Qed.

(** Every OpenCL call of [main] uses a handle that [main] holds: a platform
    is queried only after the list of platforms was retrieved, with an index
    below [numPlatforms]; a device is queried only after the list of devices
    of its platform was retrieved, with an index below [numDevices]; and no
    list is retrieved with a count of zero. *)
Theorem queries_stay_in_bounds (e : env) (c : call) :
  Call c ∈ trace (main e tt) -> in_bounds e c.
Proof.
  intros Hc. pose proof (main_bounded e tt) as Hrun.
  rewrite Forall_forall in Hrun. specialize (Hrun _ Hc).
  destruct c; cbn in *; unfold succeeded in *.
  all: apply dec_stable; intros Hout; apply Hrun; eexists; split; [done|done].
Qed.

Lemma queries_stay_in_bounds_witness :
  let e := first_platform_fails in
  in_bounds e (clGetDeviceInfo 1 0 CL_DEVICE_NAME) /\
  Call (clGetDeviceInfo 0 0 CL_DEVICE_NAME) ∉ trace (main e tt).
Proof.
  intros e. split.
  - apply (queries_stay_in_bounds e). vm_compute.
    repeat (first [apply list_elem_of_here|apply list_elem_of_further]).
  - intros Hc. apply (queries_stay_in_bounds e) in Hc.
    destruct Hc as (_ & _ & Hcount & _). vm_compute in Hcount. discriminate.
Defined.

(** *** The headers *)

Abbreviation heading := (follows (St := unit) header_of (fun _ => False)).

Lemma heading_eq {A} (m : prog A) (L L' : list message) (Q : A -> Prop) :
  heading m L' Q -> L = L' -> heading m L Q.
Proof. by intros Hm ->. Qed.

Lemma call_cl_heading e c :
  heading (call_cl e c) [] (fun err => err = to_int (status e c)).
Proof.
  unfold call_cl.
  eapply follows_bind_nil_r; [by apply follows_emit_unseen|].
  intros _ _. apply follows_ret.
Qed.

Lemma cout_plain m :
  header_of (Stdout m) = None -> heading (cout m) [] (fun _ => True).
Proof. intros Hm. by apply follows_emit_unseen. Qed.

Lemma print_platform_info_heading e i param :
  heading (print_platform_info e i param) [] (fun _ => True).
Proof.
  unfold print_platform_info.
  eapply follows_bind_nil_r; [apply call_cl_heading|intros err _].
  by apply cout_plain.
Qed.

Lemma optional_line_heading (b : bool) m :
  header_of (Stdout m) = None ->
  heading (if b then cout m else mret tt) [] (fun _ => True).
Proof.
  intros Hm. destruct b; [by apply cout_plain|].
  eapply follows_weaken; [apply follows_ret|done].
Qed.

Lemma print_device_heading e i j :
  heading (print_device e i j) [MsgDevice j] (fun _ => True).
Proof.
  unfold print_device.
  eapply (follows_bind _ _ _ _ [MsgDevice j] []);
    [by apply follows_emit_seen|intros _ _].
  eapply follows_bind_nil_r; [apply call_cl_heading|intros ? _].
  eapply follows_bind_nil_r; [by apply cout_plain|intros _ _].
  eapply follows_bind_nil_r; [apply call_cl_heading|intros ? _].
  eapply follows_bind_nil_r; [by apply optional_line_heading|intros _ _].
  eapply follows_bind_nil_r; [apply call_cl_heading|intros ? _].
  eapply follows_bind_nil_r; [by apply optional_line_heading|intros _ _].
  eapply follows_bind_nil_r; [apply call_cl_heading|intros ? _].
  by apply optional_line_heading.
Qed.

Lemma devices_heading e i (l : list Z) :
  heading (for_each l (print_device e i)) (MsgDevice <$> l) (fun _ => True).
Proof.
  eapply heading_eq.
  - apply follows_for_each with (f := fun j => [MsgDevice j]).
    intros j _. apply print_device_heading.
  - induction l as [|j l IH]; [done|]. cbn. by rewrite IH.
Qed.

Lemma print_platform_heading e i :
  heading (print_platform e i) (platform_headers e i) (fun _ => True).
Proof.
  unfold print_platform, platform_headers, listed.
  eapply (follows_bind _ _ _ _ [MsgPlatform i]);
    [by apply follows_emit_seen|intros _ _].
  do 3 (eapply (follows_bind _ _ _ _ []);
          [apply print_platform_info_heading|intros _ _]).
  eapply (follows_bind _ _ _ _ []); [by apply cout_plain|intros _ _].
  eapply (follows_bind _ _ _ _ []); [apply call_cl_heading|intros err ->].
  destruct (to_int (status e (clGetDeviceIDs_count i)) =? CL.CL_SUCCESS);
    cbn [negb andb]; [|by apply cout_plain].
  eapply (follows_bind _ _ _ _ []); [by apply cout_plain|intros _ _].
  destruct (Z.eqb_spec (to_uint (numDevices e i)) 0) as [Hnone|Hsome].
  { rewrite Hnone. eapply heading_eq; [by apply cout_plain|].
    by destruct (_ =? _). }
  eapply (follows_bind _ _ _ _ []); [apply call_cl_heading|intros err ->].
  destruct (to_int (status e (clGetDeviceIDs i)) =? CL.CL_SUCCESS);
    cbn [negb]; [|by apply cout_plain].
  eapply heading_eq.
  - eapply follows_bind; [apply devices_heading|intros _ _]. by apply cout_plain.
  - by rewrite app_nil_r.
Qed.

Lemma main_heading e : heading (main e) (headers e) (fun _ => True).
Proof.
  unfold main, headers.
  eapply (follows_bind _ _ _ _ []); [by apply cout_plain|intros _ _].
  eapply (follows_bind _ _ _ _ []); [apply call_cl_heading|intros err _].
  eapply (follows_bind _ _ _ _ []).
  { destruct (negb _); [|apply follows_ret].
    eapply follows_bind_nil_r; [by apply follows_emit_unseen|intros _ _].
    apply follows_exit. }
  intros _ _.
  eapply (follows_bind _ _ _ _ []).
  { destruct (_ =? 0); [|apply follows_ret].
    eapply follows_bind_nil_r; [by apply follows_emit_unseen|intros _ _].
    apply follows_exit. }
  intros _ _.
  eapply (follows_bind _ _ _ _ []); [by apply cout_plain|intros _ _].
  eapply (follows_bind _ _ _ _ []); [apply call_cl_heading|intros err' _].
  eapply (follows_bind _ _ _ _ []).
  { destruct (negb _); [|apply follows_ret].
    eapply follows_bind_nil_r; [by apply follows_emit_unseen|intros _ _].
    apply follows_exit. }
  intros _ _.
  eapply heading_eq.
  - eapply follows_bind.
    + apply follows_for_each. intros i _. apply print_platform_heading.
    + intros _ _. eapply follows_bind_nil_r; [by apply cout_plain|intros _ _].
      eapply follows_weaken; [apply follows_ret|done].
  - by rewrite app_nil_r.
Qed.

(** When the platforms can be enumerated, [main] returns 0 and its headers
    are, for every platform in order, ["Platform i:"], followed by the
    headers ["Device j:"] of all its devices in order when both device
    queries of the platform succeeded; a platform whose devices cannot be
    listed keeps its own header.  Otherwise [main] returns 1 and prints no
    header at all. *)
Theorem platforms_are_listed (e : env) :
  (enumerable e ->
   outcome (main e tt) = Ok 0 /\ omap header_of (trace (main e tt)) = headers e) /\
  (~ enumerable e ->
   outcome (main e tt) = Exit 1 /\ omap header_of (trace (main e tt)) = []).
Proof.
  unfold enumerable, succeeded. split.
  - intros (Hcount & Hsome & Hids).
    destruct (main_returns e Hcount Hsome Hids) as [t Hrun].
    pose proof (main_heading e tt) as Hheads. rewrite Hrun in *.
    split; [done|]. by destruct Hheads.
  - intros Hnot.
    destruct (decide (to_int (status e clGetPlatformIDs_count) = CL.CL_SUCCESS))
      as [Hcount|Hcount]; [|by rewrite main_no_platform_count].
    destruct (decide (to_uint (numPlatforms e) = 0)) as [Hnone|Hsome].
    + unfold main, call_cl, cout, cerr, mbind, M_bind, bind, emit, exit. cbn.
      rewrite Hcount. cbn. rewrite Hnone. done.
    + destruct (decide (to_int (status e clGetPlatformIDs) = CL.CL_SUCCESS))
        as [Hids|Hids]; [by destruct Hnot|by rewrite main_no_platforms].
Qed.

Lemma platforms_are_listed_witness :
  let e := first_platform_fails in
  outcome (main e tt) = Ok 0 /\
  omap header_of (trace (main e tt)) = [MsgPlatform 0; MsgPlatform 1; MsgDevice 0].
Proof.
  intros e. apply (proj1 (platforms_are_listed e)).
  split; [reflexivity|]. split; [vm_compute; discriminate|reflexivity].
Defined.

End Ex000ReportFacts.

(** ** Example 006: the host versions under the check of [main] *)

Module Ex006MainFacts.
Import CInt CIntFacts CFloat Mem MemFacts Ex006 Ex006Par Ex006Verify.

(** An array of [M * K] elements that holds the reference products is the
    only one. *)
Lemma products_unique (A B C1 C2 : list float) (M N K : Z) :
  Z.of_nat (length C1) = M * K -> Z.of_nat (length C2) = M * K ->
  (forall idx, 0 <= idx < M * K ->
     load C1 idx = matmul_ref A B N K (idx / K) (idx mod K)) ->
  (forall idx, 0 <= idx < M * K ->
     load C2 idx = matmul_ref A B N K (idx / K) (idx mod K)) ->
  C1 = C2.
Proof.
  intros Hlen1 Hlen2 H1 H2. apply load_ext. intros idx.
  destruct (decide (0 <= idx < M * K)) as [Hin|Hout].
  - by rewrite H1, H2.
  - by rewrite !load_out_of_range by lia.
Qed.

Section Versions.
Variables (A B : list float) (M N K : Z).
Hypothesis HM : 0 <= M.
Hypothesis HN : 0 <= N.
Hypothesis HK : 0 <= K.
Hypothesis HMN : M * N <= INT_MAX.
Hypothesis HNK : N * K <= INT_MAX.
Hypothesis HMK : M * K <= INT_MAX.
Hypothesis HA : M * N <= Z.of_nat (length A).
Hypothesis HB : N * K <= Z.of_nat (length B).

Lemma matmulSerial_products (elapsed : double) (C : list float) :
  Z.of_nat (length C) = M * K ->
  exists C',
    matmulSerial elapsed A B C M N K = Some (C', elapsed) /\
    Z.of_nat (length C') = M * K /\
    forall idx, 0 <= idx < M * K ->
      load C' idx = matmul_ref A B N K (idx / K) (idx mod K).
Proof.
  intros HC.
  pose proof (Ex006Serial.row_loop A B M N K) as Hloop.
  Ex006Tiled.with_hypotheses Hloop.
  destruct (Hloop (Z.to_nat M) 0 C) as (C' & Hrun & Hlen & Hload); [lia..|].
  rewrite Z2Nat.id in Hrun, Hload by lia.
  exists C'. unfold matmulSerial. rewrite Hrun. split; [done|].
  split; [by rewrite Hlen|]. intros idx Hidx. rewrite Hload.
  destruct (Z.leb_spec (0 * K) idx), (Z.ltb_spec idx ((0 + M) * K)); done || lia.
Qed.

End Versions.

(** In [main] the results of the two parallel host versions pass the check
    against the result of [matmulSerial]: [matmulStdPar] and
    [matmulOpenMP], in whatever order they take their iterations, leave the
    very array that [matmulSerial] leaves, whatever the arrays of [M * K]
    elements held before (in [main]: zeros), and [verifyResults] then
    prints "Verified" and reports no mismatch. *)
Theorem host_versions_are_verified (rows : list Z) (pairs : list (Z * Z))
    (elapsed : double) (A B C C_par C_omp : list float)
    (M N K : Z) (name : string) :
  0 <= M -> 0 <= N -> 0 <= K ->
  M * N <= INT_MAX -> N * K <= INT_MAX -> M * K <= INT_MAX ->
  M * N <= Z.of_nat (length A) -> N * K <= Z.of_nat (length B) ->
  Z.of_nat (length C) = M * K -> Z.of_nat (length C_par) = M * K ->
  Z.of_nat (length C_omp) = M * K ->
  rows ≡ₚ seqZ 0 M -> pairs ≡ₚ iterations M K ->
  exists expectedResult,
    matmulSerial elapsed A B C M N K = Some (expectedResult, elapsed) /\
    (exists C',
       matmulStdPar rows elapsed A B C_par N K = Some (C', elapsed) /\
       C' = expectedResult /\
       verifyResults expectedResult C' name = Some ([], Verified)) /\
    (exists C',
       matmulOpenMP pairs elapsed A B C_omp N K = Some (C', elapsed) /\
       C' = expectedResult /\
       verifyResults expectedResult C' name = Some ([], Verified)).
Proof.
  intros HM HN HK HMN HNK HMK HA HB HC HCpar HComp Hrows Hpairs.
  pose proof (matmulSerial_products A B M N K) as Hserial.
  Ex006Tiled.with_hypotheses Hserial.
  destruct (Hserial elapsed C HC) as (expected & Hrun & Hlen & Hload).
  exists expected. split; [done|].
  assert (forall C' C0, Z.of_nat (length C0) = M * K ->
            matmulSerial elapsed A B C0 M N K = Some (C', elapsed) ->
            C' = expected) as Hsame.
  { intros C' C0 HC0 Hrun0.
    destruct (Hserial elapsed C0 HC0) as (C'' & Hrun'' & Hlen'' & Hload'').
    assert (C'' = C') as -> by congruence.
    by apply (products_unique A B C' expected M N K). }
  assert (verifyResults expected expected name = Some ([], Verified)) as Hcheck.
  { apply Ex006VerifyFacts.verifyResults_verified; [lia..|].
    apply Ex006VerifyFacts.no_mismatch. intros i a Ha. by right. }
  split.
  - destruct (Ex006ParFacts.rows_any_order rows A B C_par M N K)
      as (C' & Hs & Hp); try done; try lia.
    assert (C' = expected) as ->.
    { apply (Hsame C' C_par HCpar). unfold matmulSerial. by rewrite Hs. }
    exists expected. unfold matmulStdPar. rewrite Hp. done.
  - destruct (Ex006ParFacts.pairs_any_order pairs A B C_omp M N K)
      as (C' & Hs & Hp); try done; try lia.
    assert (C' = expected) as ->.
    { apply (Hsame C' C_omp HComp). unfold matmulSerial. by rewrite Hs. }
    exists expected. unfold matmulOpenMP.
    assert (for_items (fun ij C0 => cell A B N K ij.1 ij.2 C0) pairs C_omp
            = Some expected) as -> by exact Hp.
    done.
Qed.

Lemma host_versions_are_verified_witness :
  let one := S754_finite false 8388608 (-23) in
  let two := S754_finite false 8388608 (-22) in
  let A := [one; two; two; one] in
  let C := [zero; zero; zero; zero] in
  let D := [S754_nan; one; two; S754_infinity true] in
  exists expectedResult,
    matmulSerial zero A A D 2 2 2 = Some (expectedResult, zero) /\
    (exists C',
       matmulStdPar [1; 0] zero A A C 2 2 = Some (C', zero) /\
       C' = expectedResult /\
       verifyResults expectedResult C' "std::par" = Some ([], Verified)) /\
    (exists C',
       matmulOpenMP [(1, 1); (0, 0); (1, 0); (0, 1)] zero A A C 2 2
         = Some (C', zero) /\
       C' = expectedResult /\
       verifyResults expectedResult C' "std::par" = Some ([], Verified)).
Proof.
  intros one two A C D.
  apply (host_versions_are_verified [1; 0] [(1, 1); (0, 0); (1, 0); (0, 1)] zero
           A A D C C 2 2 2 "std::par");
    try reflexivity; try (unfold INT_MAX; simpl; lia).
  - apply Permutation_swap.
  - apply (Permutation_trans (l' := [(0, 0); (1, 1); (1, 0); (0, 1)]));
      [apply Permutation_swap|].
    constructor.
    apply (Permutation_trans (l' := [(1, 0); (1, 1); (0, 1)]));
      [apply Permutation_swap|].
    apply (Permutation_trans (l' := [(1, 0); (0, 1); (1, 1)]));
      [constructor; apply Permutation_swap|].
    apply (Permutation_trans (l' := [(0, 1); (1, 0); (1, 1)]));
      [apply Permutation_swap|].
    reflexivity.
Defined.

End Ex006MainFacts.

(** ** Rules for one program after another *)

Module SimFacts.
Import Run RunFacts Sim.

Section Rules.
Context {E St : Type}.

Lemma tracks_refl {A} (m : M E St A) : tracks m m.
Proof. intros s. by destruct (m s) as [[[a|c|f] s'] t]. Qed.

Lemma tracks_bind {A B} (m m' : M E St A) (k k' : A -> M E St B) :
  tracks m m' -> (forall a, tracks (k a) (k' a)) -> tracks (m ≫= k) (m' ≫= k').
Proof.
  intros Hm Hk s. specialize (Hm s). unfold mbind, M_bind, bind, outcome, final in *.
  destruct (m s) as [[[a|c|f] s1] t1]; [|done|].
  - destruct (m' s) as [[r' s1'] t1']. cbn in Hm. destruct Hm as [-> ->].
    specialize (Hk a s1). unfold outcome, final in Hk.
    destruct (k a s1) as [[[b|c|f] s2] t2]; [|done|];
      by destruct (k' a s1) as [[r2 s2'] t2'].
  - destruct (m' s) as [[r' s1'] t1']. cbn in Hm. by destruct Hm as [-> ->].
Qed.

Lemma tracks_for_fold {A} (l : list Z) (body body' : Z -> A -> M E St A) (a : A) :
  (forall i a, tracks (body i a) (body' i a)) ->
  tracks (for_fold l body a) (for_fold l body' a).
Proof.
  intros Hbody. revert a. induction l as [|i l IH]; intros a; [apply tracks_refl|].
  cbn [for_fold]. change (bind ?m ?k) with (m ≫= k).
  apply tracks_bind; [apply Hbody|apply IH].
Qed.

Lemma tracks_for_each (l : list Z) (body body' : Z -> M E St unit) :
  (forall i, tracks (body i) (body' i)) ->
  tracks (for_each l body) (for_each l body').
Proof. intros Hbody. apply tracks_for_fold. intros i _. apply Hbody. Qed.

(** A status and the check of it: [stop err] exits when [err] is not
    [CL_SUCCESS]. *)
Lemma tracks_checked {A B} (m m' : M E St Z) (stop stop' : Z -> M E St A)
    (k k' : A -> M E St B) :
  tracks_status m m' ->
  (forall err, err <> CL.CL_SUCCESS ->
     forall s, exists c s' t, stop err s = (Exit c, s', t)) ->
  tracks (stop CL.CL_SUCCESS) (stop' CL.CL_SUCCESS) ->
  (forall a, tracks (k a) (k' a)) ->
  tracks (m ≫= fun err => stop err ≫= k) (m' ≫= fun err => stop' err ≫= k').
Proof.
  intros Hm Hstop Hsame Hk s. specialize (Hm s).
  destruct (m s) as [[[err|c|f] s1] t1] eqn:Hrun.
  - destruct (decide (err = CL.CL_SUCCESS)) as [->|Herr].
    + destruct (m' s) as [[r' s1'] t1'] eqn:Hrun'.
      destruct (Hm eq_refl) as [Ho Hf]. unfold outcome, final in Ho, Hf.
      cbn in Ho, Hf. subst r' s1'.
      pose proof (tracks_bind _ _ k k' Hsame Hk s1) as Hrest.
      destruct ((stop CL.CL_SUCCESS ≫= k) s1) as [[r2 s2] t2] eqn:H2.
      destruct ((stop' CL.CL_SUCCESS ≫= k') s1) as [[r2' s2'] t2'] eqn:H2'.
      rewrite (bind_ok m (fun err => stop err ≫= k) _ _ _ _ _ _ _ Hrun H2).
      rewrite (bind_ok m' (fun err => stop' err ≫= k') _ _ _ _ _ _ _ Hrun' H2').
      by destruct r2.
    + destruct (Hstop err Herr s1) as (c & s' & t & Hexit).
      rewrite (bind_ok m (fun err => stop err ≫= k) _ _ _ _ _ _ _ Hrun
                 (bind_exit _ _ _ _ _ _ Hexit)).
      done.
  - by rewrite (bind_exit _ _ _ _ _ _ Hrun).
  - rewrite (bind_fault _ _ _ _ _ _ Hrun).
    destruct (m' s) as [[r' s1'] t1'] eqn:Hrun'.
    destruct Hm as [Ho Hf]. unfold outcome, final in Ho, Hf. cbn in Ho, Hf.
    subst r' s1'. by rewrite (bind_fault _ _ _ _ _ _ Hrun').
Qed.

Lemma tracks_checked_last {A} (m m' : M E St Z) (stop : Z -> M E St A) :
  tracks_status m m' ->
  (forall err, err <> CL.CL_SUCCESS ->
     forall s, exists c s' t, stop err s = (Exit c, s', t)) ->
  tracks (m ≫= stop) (m' ≫= stop).
Proof.
  intros Hm Hstop s. specialize (Hm s).
  unfold mbind, M_bind, bind, outcome, final in *.
  destruct (m s) as [[[err|c|f] s1] t1]; [|done|].
  - destruct (decide (err = CL.CL_SUCCESS)) as [->|Herr].
    + destruct (m' s) as [[r' s1'] t1']. cbn in Hm.
      destruct (Hm eq_refl) as [-> ->].
      by destruct (stop CL.CL_SUCCESS s1) as [[[a|c|f] s2] t2].
    + destruct (Hstop err Herr s1) as (c & s' & t & ->). done.
  - destruct (m' s) as [[r' s1'] t1']. cbn in Hm. by destruct Hm as [-> ->].
Qed.

End Rules.

End SimFacts.

(** ** Example 004: what a run does whatever the checked calls return *)

Module Ex004Safety.
Import CInt CIntFacts Mem MemFacts Ex004 Run RunFacts Ex004Steps Sim SimFacts
  Ex004Obliging.

Abbreviation eased e c := (call_cl (obliging e) c).

Lemma CHECK_ERROR_stops msg err :
  err <> CL.CL_SUCCESS ->
  forall s : state, exists c s' t, CHECK_ERROR err msg s = (Exit c, s', t).
Proof. intros Herr s. eexists _, _, _. by apply CHECK_ERROR_failure. Qed.

Lemma call_cl_status e c : tracks_status (call_cl e c) (eased e c).
Proof. intros s. rewrite call_cl_run. intros _. done. Qed.

(** A call whose status is not looked at. *)
Lemma tracks_call {A} e c (k k' : prog A) :
  tracks k k' -> tracks (call_cl e c ≫= fun _ => k) (eased e c ≫= fun _ => k').
Proof.
  intros Hk s. specialize (Hk s). unfold mbind, M_bind, bind, outcome, final in *.
  rewrite !call_cl_run.
  destruct (k s) as [[[a|c'|f] s1] t1]; [|done|];
    by destruct (k' s) as [[r' s1'] t1'].
Qed.

(** A call that takes effect when it succeeds, as [clCreateBuffer] and the
    three [clEnqueue...] calls do. *)
Lemma effect_status e c (effect : prog unit) :
  tracks_status
    (call_cl e c ≫= fun err =>
       (if err =? CL.CL_SUCCESS then effect else mret tt) ≫= fun _ => mret err)
    (eased e c ≫= fun err =>
       (if err =? CL.CL_SUCCESS then effect else mret tt) ≫= fun _ => mret err).
Proof.
  intros s. unfold mbind, M_bind, bind. rewrite !call_cl_run.
  change (to_int (status (obliging e) c)) with CL.CL_SUCCESS.
  change (CL.CL_SUCCESS =? CL.CL_SUCCESS) with true. cbv iota.
  destruct (Z.eqb_spec (to_int (status e c)) CL.CL_SUCCESS) as [Hst|Hst].
  - destruct (effect s) as [[[[]|c'|f] s1] t1]; cbn; done.
  - cbn. done.
Qed.

Lemma create_buffer_status e i b size :
  tracks_status (create_buffer e i b size) (create_buffer (obliging e) i b size).
Proof. apply effect_status. Qed.

Lemma enqueue_write_status e i b host offset size :
  tracks_status (enqueue_write e i b host offset size)
    (enqueue_write (obliging e) i b host offset size).
Proof. apply effect_status. Qed.

Lemma enqueue_kernel_status e i global_size :
  tracks_status (enqueue_kernel e i global_size)
    (enqueue_kernel (obliging e) i global_size).
Proof. apply effect_status. Qed.

Lemma enqueue_read_status e i offset size :
  tracks_status (enqueue_read e i offset size)
    (enqueue_read (obliging e) i offset size).
Proof. apply effect_status. Qed.

Ltac checked_step status_lemma :=
  apply tracks_checked;
    [apply status_lemma|apply CHECK_ERROR_stops|apply tracks_refl|intros _].

(** Lines 128-135. *)
Lemma build_stops e i err :
  err <> CL.CL_SUCCESS ->
  forall s : state, exists c s' t,
    (if negb (err =? CL.CL_SUCCESS) then
       call_cl e (clGetProgramBuildInfo i);;
       fprintf_stderr (MsgBuildError i (build_log e i));;
       Run.exit 1
     else mret tt) s = (Exit c, s', t).
Proof.
  intros Herr s. destruct (Z.eqb_spec err CL.CL_SUCCESS) as [?|_]; [done|].
  by eexists _, _, _.
Qed.

(** Lines 168-172. *)
Lemma set_args_tracks e i offset :
  tracks
    (call_cl e (clSetKernelArg i 0) ≫= fun err0 =>
     call_cl e (clSetKernelArg i 1) ≫= fun err1 =>
     call_cl e (clSetKernelArg i 2) ≫= fun err2 =>
     call_cl e (clSetKernelArg i 3) ≫= fun err3 =>
     Run.modify (update_context i (set_arg_offset offset));;
     CHECK_ERROR (Z.lor (Z.lor (Z.lor err0 err1) err2) err3) "clSetKernelArg")
    (eased e (clSetKernelArg i 0) ≫= fun err0 =>
     eased e (clSetKernelArg i 1) ≫= fun err1 =>
     eased e (clSetKernelArg i 2) ≫= fun err2 =>
     eased e (clSetKernelArg i 3) ≫= fun err3 =>
     Run.modify (update_context i (set_arg_offset offset));;
     CHECK_ERROR (Z.lor (Z.lor (Z.lor err0 err1) err2) err3) "clSetKernelArg").
Proof.
  intros s. unfold mbind, M_bind, bind. rewrite !call_cl_run. cbn.
  unfold CHECK_ERROR.
  destruct (Z.eqb_spec
    (Z.lor (Z.lor (Z.lor (to_int (status e (clSetKernelArg i 0)))
                         (to_int (status e (clSetKernelArg i 1))))
                  (to_int (status e (clSetKernelArg i 2))))
           (to_int (status e (clSetKernelArg i 3)))) CL.CL_SUCCESS) as [Hor|Hor];
    cbn; done.
Qed.

Lemma setup_device_tracks array_size A B e n cs i :
  tracks (setup_device array_size A B e n cs i)
    (setup_device array_size A B (obliging e) n cs i).
Proof.
  unfold setup_device.
  apply tracks_call.
  apply tracks_bind; [apply tracks_refl|intros _].
  do 3 checked_step call_cl_status.
  apply tracks_checked;
    [apply call_cl_status|apply build_stops|apply tracks_refl|intros _].
  checked_step call_cl_status.
  do 3 checked_step create_buffer_status.
  do 2 checked_step enqueue_write_status.
  apply set_args_tracks.
Qed.

Lemma launch_device_tracks array_size e n cs i :
  tracks (launch_device array_size e n cs i)
    (launch_device array_size (obliging e) n cs i).
Proof.
  apply tracks_checked_last; [apply enqueue_kernel_status|apply CHECK_ERROR_stops].
Qed.

Lemma read_device_tracks array_size e n cs i :
  tracks (read_device array_size e n cs i)
    (read_device array_size (obliging e) n cs i).
Proof.
  apply tracks_checked_last; [apply enqueue_read_status|apply CHECK_ERROR_stops].
Qed.

Lemma wait_device_tracks e i : tracks (wait_device e i) (wait_device (obliging e) i).
Proof. apply tracks_call, tracks_refl. Qed.

Lemma get_event_time_tracks e i param :
  tracks (get_event_time e i param) (get_event_time (obliging e) i param).
Proof. apply tracks_call, tracks_refl. Qed.

Lemma timeline_device_tracks e i acc :
  tracks (timeline_device e i acc) (timeline_device (obliging e) i acc).
Proof.
  unfold timeline_device.
  do 2 (apply tracks_bind; [apply get_event_time_tracks|intros ?]).
  apply tracks_refl.
Qed.

Lemma overlap_pair_tracks e i j :
  tracks (overlap_pair e i j) (overlap_pair (obliging e) i j).
Proof.
  unfold overlap_pair.
  do 4 (apply tracks_bind; [apply get_event_time_tracks|intros ?]).
  apply tracks_refl.
Qed.

Lemma release_device_tracks e i :
  tracks (release_device e i) (release_device (obliging e) i).
Proof. unfold release_device. do 8 apply tracks_call. apply tracks_refl. Qed.

Lemma run_devices_tracks array_size A B e n :
  tracks (run_devices array_size A B e n) (run_devices array_size A B (obliging e) n).
Proof.
  unfold run_devices.
  apply tracks_bind; [apply tracks_refl|intros cs].
  apply tracks_bind; [apply tracks_refl|intros _].
  apply tracks_bind;
    [apply tracks_for_each; intros i; apply setup_device_tracks|intros _].
  apply tracks_bind; [apply tracks_refl|intros _].
  apply tracks_bind;
    [apply tracks_for_each; intros i; apply launch_device_tracks|intros _].
  apply tracks_bind;
    [apply tracks_for_each; intros i; apply wait_device_tracks|intros _].
  apply tracks_bind; [apply tracks_refl|intros _].
  apply tracks_bind;
    [apply tracks_for_fold; intros i acc; apply timeline_device_tracks|intros times].
  do 2 (apply tracks_bind; [apply tracks_refl|intros _]).
  apply tracks_bind.
  { apply tracks_for_each; intros i. apply tracks_for_each; intros j.
    apply overlap_pair_tracks. }
  intros _.
  apply tracks_bind;
    [apply tracks_for_each; intros i; apply read_device_tracks|intros _].
  apply tracks_bind; [apply tracks_refl|intros _].
  apply tracks_bind;
    [apply tracks_for_each; intros i; apply release_device_tracks|intros _].
  apply tracks_refl.
Qed.

(** Lines 68-78: a platform whose count cannot be read is passed over, as
    a platform without devices is. *)
Lemma discover_platform_tracks e p total :
  tracks (discover_platform e p total) (discover_platform (obliging e) p total).
Proof.
  intros s. unfold discover_platform, mbind, M_bind, bind. rewrite !call_cl_run.
  cbn [obliging status num_platform_devices].
  change (to_int CL.CL_SUCCESS =? CL.CL_SUCCESS) with true.
  destruct (to_int (status e (clGetDeviceIDs_count p)) =? CL.CL_SUCCESS);
    cbn [andb]; [|done].
  destruct (0 <? to_uint (num_platform_devices e p)); [|done].
  rewrite !call_cl_run. change (to_int CL.CL_SUCCESS) with CL.CL_SUCCESS.
  unfold CHECK_ERROR.
  destruct (Z.eqb_spec (to_int (status e (clGetDeviceIDs p))) CL.CL_SUCCESS)
    as [->|Hst]; cbn; done.
Qed.

Lemma read_kernel_source_tracks e filename :
  tracks (read_kernel_source e filename) (read_kernel_source (obliging e) filename).
Proof. intros s. unfold read_kernel_source. by destruct (kernel_file_opens e). Qed.

Lemma main_with_tracks array_size A B e :
  tracks (main_with array_size A B e) (main_with array_size A B (obliging e)).
Proof.
  unfold main_with.
  do 2 checked_step call_cl_status.
  apply tracks_bind; [apply tracks_refl|intros _].
  apply tracks_bind;
    [apply tracks_for_fold; intros p total; apply discover_platform_tracks|
     intros total_devices].
  apply tracks_bind; [apply tracks_refl|intros _].
  apply tracks_bind; [apply read_kernel_source_tracks|intros _].
  apply run_devices_tracks.
Qed.

Lemma obliging_succeeds e : all_succeed (obliging e).
Proof. intros c. reflexivity. Qed.

Lemma foldl_pointwise {X Y} (f g : X -> Y -> X) (l : list Y) :
  (forall a y, f a y = g a y) -> forall a, foldl f a l = foldl g a l.
Proof.
  intros Hfg. induction l as [|y l IH]; intros a; [done|].
  cbn [foldl]. by rewrite Hfg, IH.
Qed.

Lemma obliging_devices e : devices_found (obliging e) = devices_found e.
Proof.
  unfold devices_found. cbn [obliging status num_platforms num_platform_devices].
  apply foldl_pointwise. intros total p.
  change (to_int CL.CL_SUCCESS =? CL.CL_SUCCESS) with true.
  by destruct (to_int (status e (clGetDeviceIDs_count p)) =? CL.CL_SUCCESS).
Qed.

(** Without a device the obliging machine runs into the division. *)
Lemma obliging_no_device array_size A B e (s : state) :
  devices_found e = 0 ->
  exists t, main_with array_size A B (obliging e) s = (Fault DivisionByZero, s, t).
Proof.
  intros Hnone.
  destruct (Ex004Flow.discover_ok (obliging e) s (obliging_succeeds e)) as [t Hdiscover].
  rewrite obliging_devices, Hnone in Hdiscover.
  unfold main_with. eexists.
  eapply bind_ok; [apply call_cl_run|cbv beta].
  eapply bind_ok; [by apply CHECK_ERROR_success|cbv beta].
  eapply bind_ok; [apply call_cl_run|cbv beta].
  eapply bind_ok; [by apply CHECK_ERROR_success|cbv beta].
  eapply bind_ok; [apply printf_run|cbv beta].
  eapply bind_ok; [exact Hdiscover|cbv beta].
  eapply bind_ok; [apply printf_run|cbv beta].
  eapply bind_ok; [reflexivity|cbv beta].
  unfold run_devices. apply bind_fault. reflexivity.
Qed.

Lemma telling_elem (ev : event) (t : list event) :
  Ex004Report.telling ev = Some ev -> ev ∈ t <-> ev ∈ omap Ex004Report.telling t.
Proof.
  intros Hev. rewrite list_elem_of_omap. split.
  - intros Hin. by exists ev.
  - intros (ev' & Hin & Hev'). assert (ev' = ev) as <-; [|done].
    destruct ev' as [c|[]|m|]; cbn in Hev'; congruence.
Qed.



End Ex004Safety.

(** ** Example 003: the rounds of the timed loops leave one result *)

Module Ex003HostFacts.
Import CInt CIntFacts CFloat Mem MemFacts Ex003Host.

Section Rounds.
Variables (a b : list float).
Hypothesis Hmax : Z.of_nat (length a) <= INT_MAX.
Hypothesis Hb : Z.of_nat (length a) <= Z.of_nat (length b).

(** The array of the sums is the only one that a round can leave in an
    array as long as [a]. *)
Lemma sums_unique (r1 r2 x1 x2 : list float) :
  length x1 = length a -> length x2 = length a ->
  (forall k, load r1 k =
     if k <? Z.of_nat (length a) then load (zip_with fadd a b) k else load x1 k) ->
  (forall k, load r2 k =
     if k <? Z.of_nat (length a) then load (zip_with fadd a b) k else load x2 k) ->
  r1 = r2.
Proof.
  intros H1 H2 Hr1 Hr2. apply load_ext. intros k. rewrite Hr1, Hr2.
  destruct (Z.ltb_spec k (Z.of_nat (length a))); [done|].
  by rewrite !load_out_of_range by lia.
Qed.

Lemma cpu_round (x : list float) :
  length x = length a ->
  exists r,
    Ex002Host.vectorAddCPU a b x = Some r /\
    Ex002Host.enqueue_vector_add a b x = Some r /\
    length r = length a /\
    forall k, load r k =
      if k <? Z.of_nat (length a) then load (zip_with fadd a b) k else load x k.
Proof.
  intros Hx.
  destruct (Ex002HostFacts.vectorAddCPU_run a b x Hb ltac:(lia))
    as (r & Hcpu & Hlen & Hload).
  destruct (Ex002HostFacts.enqueue_vector_add_run a b x Hmax Hb ltac:(lia))
    as (r' & Hcl & Hload').
  assert (r' = r) as ->.
  { apply load_ext. intros k. by rewrite Hload, Hload'. }
  exists r. by rewrite Hlen.
Qed.

(** The rounds after the first. *)
Lemma cpu_rounds elapsed (r : list float) (l : list Z) : forall t,
  Ex002Host.vectorAddCPU a b r = Some r ->
  exists t',
    for_items (fun iter (st : list float * double) =>
        result' ← Ex002Host.vectorAddCPU a b st.1;
        Some (result', min_time st.2 (elapsed iter))) l (r, t) = Some (r, t').
Proof.
  induction l as [|iter l IH]; intros t Hr; [by exists t|].
  cbn [for_items fst snd]. rewrite Hr. cbn. by apply IH.
Qed.

Lemma opencl_rounds elapsed (r : list float) (l : list Z) : forall t,
  Ex002Host.enqueue_vector_add a b r = Some r -> 0 ∉ l ->
  exists t',
    for_items (opencl_round elapsed a b) l
      {| bufferResult := r; result := r; minTime := t |}
    = Some {| bufferResult := r; result := r; minTime := t' |}.
Proof.
  induction l as [|iter l IH]; intros t Hr Hl; [by exists t|].
  cbn [for_items]. unfold opencl_round at 1. cbn [bufferResult result minTime].
  rewrite Hr. cbn.
  destruct (Z.eqb_spec iter 0) as [->|_]; [destruct Hl; by left|].
  apply IH; [done|]. intros H0. apply Hl. by right.
Qed.

End Rounds.



End Ex003HostFacts.

(** ** Example 006: the global size of the tiled launch *)

Module Ex006LaunchFacts.
Import CInt CIntFacts Ex006Kernel.

(** The global size that [matmulOpenCL] computes for the tiled kernel from
    a dimension [n] is the least multiple of [TILE_SIZE] that is not below
    [n]: the local size 16 divides it, the work-items cover the dimension,
    and fewer than 16 of them lie outside; for [n = 0] it is 0. *)
Theorem tiled_global_size_rounds_up (n : Z) :
  0 <= n -> n + TILE_SIZE <= INT_MAX ->
  tiled_global_size n mod TILE_SIZE = 0 /\
  n <= tiled_global_size n < n + TILE_SIZE /\
  (forall g, g mod TILE_SIZE = 0 -> n <= g -> tiled_global_size n <= g).
Proof.
  intros Hn Hmax.
  assert (tiled_global_size n = (n + 15) / 16 * 16) as ->.
  { assert (0 <= (n + 15) / 16 <= n + 15) as Hdiv.
    { split; [apply Z.div_pos; lia|]. apply Z.div_le_upper_bound; lia. }
    unfold tiled_global_size, int_div, int_sub, int_add, TILE_SIZE in *.
    rewrite (Ex006Tiled.int_small (n + 16)) by lia.
    rewrite (Ex006Tiled.int_small (n + 16 - 1)) by lia.
    rewrite Z.quot_div_nonneg by lia.
    replace (n + 16 - 1) with (n + 15) by lia.
    rewrite (Ex006Tiled.int_small ((n + 15) / 16)) by lia.
    unfold to_ulong, INT_MAX in *.
    rewrite (Z.mod_small ((n + 15) / 16)) by lia.
    rewrite Z.mod_small by lia. done. }
  unfold TILE_SIZE in *.
  pose proof (Z.div_mod (n + 15) 16 ltac:(lia)) as Heq.
  pose proof (Z.mod_pos_bound (n + 15) 16 ltac:(lia)) as Hmod.
  split; [apply Z.mod_mul; lia|]. split; [lia|].
  intros g Hg Hle.
  pose proof (Z.div_mod g 16 ltac:(lia)) as Hgeq. rewrite Hg in Hgeq.
  assert ((n + 15) / 16 < g / 16 + 1); [|lia].
  apply Z.div_lt_upper_bound; lia.
Qed.

Lemma tiled_global_size_rounds_up_witness :
  tiled_global_size 17 = 32 /\ tiled_global_size 16 = 16 /\ tiled_global_size 0 = 0 /\
  tiled_global_size 17 mod TILE_SIZE = 0.
Proof.
  split; [reflexivity|]. split; [reflexivity|]. split; [reflexivity|].
  apply (tiled_global_size_rounds_up 17); unfold TILE_SIZE, INT_MAX; lia.
Defined.

End Ex006LaunchFacts.

(** ** Example 005: work-items past the last row *)

Module Ex005GuardFacts.
Import CInt CIntFacts CFloat Mem MemFacts Ex005 RoundsFacts.

Lemma idle_items matrix vector rows cols (l : list Z) (result : list float) :
  (forall g, g ∈ l -> rows <= to_int g) ->
  for_items (matvec_multiply matrix vector rows cols) l result = Some result.
Proof.
  induction l as [|g l IH]; intros Hl; [done|].
  cbn [for_items]. unfold matvec_multiply at 1.
  destruct (Z.ltb_spec (to_int g) rows) as [Hlt|_].
  { specialize (Hl g ltac:(by left)). lia. }
  apply IH. intros g' Hg'. apply Hl. by right.
Qed.

(** The guard [if (i < rows)] of [matvec_multiply]: a work-item writes at
    most [result[i]], and only for [0 <= i < rows]; so a launch over more
    work-items than rows, up to [2^31] of them, leaves what the launch over
    [rows] work-items leaves. *)
Theorem matvec_guard_makes_padding_harmless (matrix vector result : list float)
    (rows cols global_size : Z) :
  0 <= rows <= INT_MAX -> rows <= global_size <= INT_MAX + 1 ->
  (forall g r, matvec_multiply matrix vector rows cols g result = Some r ->
     r <> result -> 0 <= to_int g < rows) /\
  for_items (matvec_multiply matrix vector rows cols) (seqZ 0 global_size) result
    = enqueue_matvec_multiply matrix vector rows cols result.
Proof.
  intros Hrows Hsize. split.
  - intros g r Hrun Hr. unfold matvec_multiply in Hrun.
    destruct (Z.ltb_spec (to_int g) rows) as [Hlt|_]; [|congruence].
    split; [|done].
    destruct (for_items _ (seqZ 0 cols) zero) as [sum|]; [|done]. cbn in Hrun.
    apply store_Some in Hrun. lia.
  - unfold enqueue_matvec_multiply.
    assert (to_ulong rows = rows) as ->.
    { unfold to_ulong, INT_MAX in *. apply Z.mod_small. lia. }
    replace global_size with (rows + (global_size - rows)) by lia.
    rewrite seqZ_app, for_items_app by lia.
    destruct (for_items _ (seqZ 0 rows) result) as [r|]; [|done]. cbn.
    apply idle_items. intros g Hg%elem_of_seqZ.
    rewrite to_int_small; unfold is_int, INT_MAX in *; lia.
Qed.

Lemma matvec_guard_makes_padding_harmless_witness :
  let one := S754_finite false 8388608 (-23) in
  let two := S754_finite false 8388608 (-22) in
  for_items (matvec_multiply [one; two; two; one] [one; two] 2 2) (seqZ 0 16)
    [zero; zero; one]
  = enqueue_matvec_multiply [one; two; two; one] [one; two] 2 2 [zero; zero; one].
Proof.
  intros one two.
  apply (matvec_guard_makes_padding_harmless [one; two; two; one] [one; two]
           [zero; zero; one] 2 2 16); unfold INT_MAX; lia.
Defined.

End Ex005GuardFacts.
